(** * odoo-web3: blockchain transfers reconciled into an Odoo bank journal

    A shallow embedding of the TypeScript sources
    - [src/lib/blockchain.ts]  (formatTokenAmount, parseTokenAmount),
    - [src/lib/etherscan.ts]   (EtherscanClient.request, getTokenTransfers,
                                getAllTokenTransfers, getAllTransactions),
    - [src/lib/odoo.ts]        (OdooClient, the guard of the two invoice
                                listings, the search domain of
                                getLatestInvoices),
    - [server.ts]              (normalizeIban, authenticateOdooClient),
    - the "import txs" script  (monthly statements, de-duplication, closing),
    together with the properties of the design document that they decide
    (claims C1 to C10) and further properties read off the sources
    (properties X1 on).

    Conventions.  JavaScript strings are Rocq [string]s read as ASCII text
    (addresses, hashes, month keys and IBANs are ASCII).  Numbers are IEEE-754
    binary64 values ([spec_float] at precision 53), bigints are [Z]; the
    power [10 ** d], which the language leaves to the engine, is a
    parameter.  A thrown exception is a value of the result type, never a
    missing result. *)

From Stdlib Require Import ZArith NArith List String Ascii Bool Lia.
From Stdlib Require Import Floats.SpecFloat.
Import ListNotations.
Open Scope Z_scope.

(* ================================================================== *)
(** * The JavaScript runtime primitives the sources rely on            *)
(* ================================================================== *)

Module JS.

(** ** Characters and strings *)

(** [\s] on ASCII text: tab, line feed, vertical tab, form feed, carriage
    return and space. *)
Definition is_space (c : ascii) : bool :=
  match N_of_ascii c with
  | 9%N | 10%N | 11%N | 12%N | 13%N | 32%N => true
  | _ => false
  end.

Definition is_lower (c : ascii) : bool :=
  let n := N_of_ascii c in (97 <=? n)%N && (n <=? 122)%N.

Definition is_upper (c : ascii) : bool :=
  let n := N_of_ascii c in (65 <=? n)%N && (n <=? 90)%N.

Definition is_digit (c : ascii) : bool :=
  let n := N_of_ascii c in (48 <=? n)%N && (n <=? 57)%N.

Definition upper_char (c : ascii) : ascii :=
  if is_lower c then ascii_of_N (N_of_ascii c - 32) else c.

Definition lower_char (c : ascii) : ascii :=
  if is_upper c then ascii_of_N (N_of_ascii c + 32) else c.

Fixpoint map_chars (f : ascii -> ascii) (s : string) : string :=
  match s with
  | EmptyString => EmptyString
  | String c r => String (f c) (map_chars f r)
  end.

(** [s.toUpperCase()] and [s.toLowerCase()]. *)
Definition toUpperCase : string -> string := map_chars upper_char.
Definition toLowerCase : string -> string := map_chars lower_char.

(** [s.replace(/\s/g, "")]; with the [g] flag [/\s+/g] deletes the same
    characters. *)
Fixpoint remove_spaces (s : string) : string :=
  match s with
  | EmptyString => EmptyString
  | String c r => if is_space c then remove_spaces r else String c (remove_spaces r)
  end.

Fixpoint trimStart (s : string) : string :=
  match s with
  | EmptyString => EmptyString
  | String c r => if is_space c then trimStart r else s
  end.

Fixpoint rev_string (acc s : string) : string :=
  match s with
  | EmptyString => acc
  | String c r => rev_string (String c acc) r
  end.

Definition trimEnd (s : string) : string :=
  rev_string EmptyString (trimStart (rev_string EmptyString s)).

(** [s.trim()]. *)
Definition trim (s : string) : string := trimEnd (trimStart s).

(** [s.includes(sub)]. *)
Fixpoint includes (sub s : string) : bool :=
  String.prefix sub s ||
  match s with
  | EmptyString => false
  | String _ r => includes sub r
  end.

(** [s.slice(0, n)]. *)
Fixpoint slice_to (n : nat) (s : string) : string :=
  match n, s with
  | S k, String c r => String c (slice_to k r)
  | _, _ => EmptyString
  end.

(** [s.slice(n)] for [0 <= n]. *)
Fixpoint slice_from (n : nat) (s : string) : string :=
  match n, s with
  | S k, String _ r => slice_from k r
  | _, _ => s
  end.

Fixpoint repeat_char (c : ascii) (n : nat) : string :=
  match n with
  | O => EmptyString
  | S k => String c (repeat_char c k)
  end.

(** [s.padStart(n, c)] and [s.padEnd(n, c)] for a one-character pad. *)
Definition padStart (n : nat) (c : ascii) (s : string) : string :=
  (repeat_char c (n - String.length s) ++ s)%string.

Definition padEnd (n : nat) (c : ascii) (s : string) : string :=
  (s ++ repeat_char c (n - String.length s))%string.

(** [s.split(sep)] for a one-character separator: never empty. *)
Fixpoint split_on (sep : ascii) (s : string) : list string :=
  match s with
  | EmptyString => [EmptyString]
  | String c r =>
      if Ascii.eqb c sep then EmptyString :: split_on sep r
      else match split_on sep r with
           | [] => [String c EmptyString]
           | p :: ps => String c p :: ps
           end
  end.

(** Truthiness of a string: only the empty string is falsy. *)
Definition truthy_string (s : string) : bool :=
  match s with EmptyString => false | _ => true end.

(** [a < b] on strings: code-unit lexicographic order. *)
Definition string_lt (a b : string) : bool := String.ltb a b.

(** ** Decimal numerals *)

Definition digit_char (d : N) : ascii := ascii_of_N (48 + d).

Definition digit_value (c : ascii) : option N :=
  if is_digit c then Some (N_of_ascii c - 48)%N else None.

(** Most significant digit first; [fuel] bounds the number of digits. *)
Fixpoint N_digits_fuel (fuel : nat) (n : N) (acc : string) : string :=
  match fuel with
  | O => acc
  | S k =>
      if (n <? 10)%N then String (digit_char n) acc
      else N_digits_fuel k (n / 10)%N (String (digit_char (n mod 10)%N) acc)
  end.

(** The decimal numeral of a natural number, as [toString()] prints it. *)
Definition N_to_string (n : N) : string :=
  N_digits_fuel (S (N.to_nat (N.log2 n))) n EmptyString.

(** [value.toString()] of a bigint. *)
Definition BigInt_toString (z : Z) : string :=
  match z with
  | Zneg p => String "-"%char (N_to_string (Npos p))
  | _ => N_to_string (Z.to_N z)
  end.

(** The value of a run of decimal digits; [None] on any other character. *)
Fixpoint digits_value (acc : N) (s : string) : option N :=
  match s with
  | EmptyString => Some acc
  | String c r =>
      match digit_value c with
      | Some d => digits_value (acc * 10 + d)%N r
      | None => None
      end
  end.

(** ** Numerals in another radix *)

(** The value of a character as a digit of the radix (2, 8, 10 or 16);
    the letters count in either case. *)
Definition radix_digit (radix : N) (c : ascii) : option N :=
  let n := N_of_ascii c in
  let v :=
    if is_digit c then Some (n - 48)%N
    else if (97 <=? n)%N && (n <=? 102)%N then Some (n - 87)%N
    else if (65 <=? n)%N && (n <=? 70)%N then Some (n - 55)%N
    else None in
  match v with
  | Some d => if (d <? radix)%N then Some d else None
  | None => None
  end.

(** The value of a run of digits of the radix; [None] on any other
    character. *)
Fixpoint radix_value (radix : N) (acc : N) (s : string) : option N :=
  match s with
  | EmptyString => Some acc
  | String c r =>
      match radix_digit radix c with
      | Some d => radix_value radix (acc * radix + d)%N r
      | None => None
      end
  end.

(** The longest prefix of digits of the radix. *)
Fixpoint radix_prefix (radix : N) (s : string) : string :=
  match s with
  | EmptyString => EmptyString
  | String c r =>
      match radix_digit radix c with
      | Some _ => String c (radix_prefix radix r)
      | None => EmptyString
      end
  end.

(** The prefix of a literal that is not decimal, [0x], [0o] or [0b] in
    either case: its radix and the text after it. *)
Definition literal_radix (t : string) : option (N * string) :=
  match t with
  | String z (String x r) =>
      if Ascii.eqb z "0" then
        if Ascii.eqb x "x" || Ascii.eqb x "X" then Some (16%N, r)
        else if Ascii.eqb x "o" || Ascii.eqb x "O" then Some (8%N, r)
        else if Ascii.eqb x "b" || Ascii.eqb x "B" then Some (2%N, r)
        else None
      else None
  | _ => None
  end.

(** [BigInt(s)] (StringToBigInt): surrounding white space is dropped; the
    empty string is [0n]; the text is a run of decimal digits that a sign
    may precede, or a [0x], [0o] or [0b] literal, which takes no sign and
    needs a digit; [None] stands for the [SyntaxError] raised on anything
    else. *)
Definition BigInt_of_string (s : string) : option Z :=
  let t := trim s in
  match literal_radix t with
  | Some (radix, String c r) => option_map Z.of_N (radix_value radix 0 (String c r))
  | Some (_, EmptyString) => None
  | None =>
      match t with
      | EmptyString => Some 0
      | String "-"%char (String c r) =>
          option_map (fun n => - Z.of_N n) (digits_value 0 (String c r))
      | String "+"%char (String c r) =>
          option_map Z.of_N (digits_value 0 (String c r))
      | t => option_map Z.of_N (digits_value 0 t)
      end
  end.

(** The longest prefix of decimal digits. *)
Fixpoint digit_prefix (s : string) : string :=
  match s with
  | EmptyString => EmptyString
  | String c r => if is_digit c then String c (digit_prefix r) else EmptyString
  end.

(** [parseInt(s)] with no radix given: leading white space is dropped, a
    sign may follow, then a [0x] or [0X] makes the radix 16 and any other
    text is read in radix 10; the value is that of the longest run of
    digits of the radix, and [None] stands for the [NaN] of an empty run.
    The result is kept as the integer the digits denote (the number
    [parseInt] returns is the double nearest to it). *)
Definition parseInt (s : string) : option Z :=
  let t := trimStart s in
  let '(neg, body) :=
    match t with
    | String "-"%char r => (true, r)
    | String "+"%char r => (false, r)
    | _ => (false, t)
    end in
  let sign := fun n : N => if neg then - Z.of_N n else Z.of_N n in
  match literal_radix body with
  | Some (16%N, digits) =>
      match radix_prefix 16 digits with
      | EmptyString => None
      | ds => option_map sign (radix_value 16 0 ds)
      end
  | _ =>
      match digit_prefix body with
      | EmptyString => None
      | ds => option_map sign (digits_value 0 ds)
      end
  end.

(** ** Numbers: IEEE-754 binary64 *)

Definition prec : Z := 53.
Definition emax : Z := 1024.

Definition num := spec_float.

Definition num_zero : num := S754_zero false.
Definition num_nan : num := S754_nan.

(** [Number(z)] of a bigint, and integer literals: the nearest double. *)
Definition Number_of_Z (z : Z) : num := binary_normalize prec emax z 0 false.

Definition num_add (x y : num) : num := SFadd prec emax x y.
Definition num_div (x y : num) : num := SFdiv prec emax x y.

Definition isNaN (x : num) : bool :=
  match x with S754_nan => true | _ => false end.

(** Truthiness of a number: [0], [-0] and [NaN] are falsy. *)
Definition truthy_num (x : num) : bool :=
  match x with
  | S754_zero _ | S754_nan => false
  | _ => true
  end.

(** The double nearest to the decimal [(-1)^neg * n / 10^k]: what [Number]
    (and unary [+]) returns on the numeral [n] written with [k] fractional
    digits. *)
Definition Number_of_decimal (neg : bool) (n : N) (k : nat) : num :=
  match n with
  | N0 => S754_zero neg
  | Npos p =>
      SFdiv prec emax (S754_finite neg p 0)
                      (S754_finite false (Z.to_pos (10 ^ Z.of_nat k)) 0)
  end.

(** [Number(s)] on plain decimal numerals [-ddd] and [-ddd.ddd], the only
    strings the modelled code converts; anything else reads as [NaN]. *)
Definition Number_of_string (s : string) : num :=
  let '(neg, body) :=
    match s with
    | String "-"%char r => (true, r)
    | _ => (false, s)
    end in
  match split_on "."%char body with
  | [i] =>
      match i, digits_value 0 i with
      | String _ _, Some n => Number_of_decimal neg n 0
      | _, _ => num_nan
      end
  | [i; fr] =>
      match i, fr, digits_value 0 (i ++ fr) with
      | String _ _, String _ _, Some n => Number_of_decimal neg n (String.length fr)
      | _, _, _ => num_nan
      end
  | _ => num_nan
  end.

(** ** [Number.prototype.toFixed] *)

(** A finite double is exactly [m * 2^e].  [toFixed_integer f m e] is the
    integer [n] for which [n / 10^f - m * 2^e] is closest to zero, the larger
    one when two are equally close (ECMAScript, Number.prototype.toFixed,
    step 11). *)
Definition toFixed_integer (f : nat) (m : positive) (e : Z) : N :=
  let p := Zpos m * 10 ^ Z.of_nat f in
  Z.to_N (if 0 <=? e then p * 2 ^ e
          else (2 * p + 2 ^ (- e)) / (2 * 2 ^ (- e))).

(** [10^21 <= m * 2^e]. *)
Definition at_least_1e21 (m : positive) (e : Z) : bool :=
  if 0 <=? e then 10 ^ 21 <=? Zpos m * 2 ^ e
  else 10 ^ 21 * 2 ^ (- e) <=? Zpos m.

(** The digits of [n] with a point before the last [f] of them. *)
Definition render_fixed (neg : bool) (n : N) (f : nat) : string :=
  let m := N_to_string n in
  let body :=
    match f with
    | O => m
    | S _ =>
        let m' := padStart (S f) "0"%char m in
        let k := String.length m' in
        (slice_to (k - f) m' ++ String "."%char (slice_from (k - f) m'))%string
    end in
  if neg then String "-"%char body else body.

(** The string [toFixed] returns.  For a value that is not finite or is at
    least [10^21] in magnitude [toFixed] returns [ToString(x)] (["NaN"],
    ["Infinity"] or a numeral in exponent notation), kept here as the number
    it prints. *)
Inductive fixed : Type :=
| FixedDigits (s : string)
| NumberToString (x : num).

(** [x.toFixed(f)]; [None] is the [RangeError] for [f] outside [0..100]. *)
Definition toFixed (f : Z) (x : num) : option fixed :=
  if (f <? 0) || (100 <? f) then None
  else Some
    match x with
    | S754_zero _ => FixedDigits (render_fixed false 0 (Z.to_nat f))
    | S754_finite s m e =>
        if at_least_1e21 m e then NumberToString x
        else FixedDigits (render_fixed s (toFixed_integer (Z.to_nat f) m e) (Z.to_nat f))
    | _ => NumberToString x
    end.

(** Unary [+] applied to the result of [toFixed]: [Number(ToString(x))] is
    [x] again for the values printed by [ToString]. *)
Definition Number_of_fixed (r : fixed) : num :=
  match r with
  | FixedDigits s => Number_of_string s
  | NumberToString x => x
  end.

(** [+x.toFixed(2)]. *)
Definition round2 (x : num) : num :=
  match toFixed 2 x with
  | Some r => Number_of_fixed r
  | None => num_nan
  end.

(** ** Dates *)

(** Civil date of a day count since 1970-01-01 (proleptic Gregorian). *)
Definition civil_from_days (days : Z) : Z * Z * Z :=
  let z := days + 719468 in
  let era := z / 146097 in
  let doe := z - era * 146097 in
  let yoe := (doe - doe / 1460 + doe / 36524 - doe / 146096) / 365 in
  let doy := doe - (365 * yoe + yoe / 4 - yoe / 100) in
  let mp := (5 * doy + 2) / 153 in
  let d := doy - (153 * mp + 2) / 5 + 1 in
  let m := if mp <? 10 then mp + 3 else mp - 9 in
  let y := yoe + era * 400 + (if m <=? 2 then 1 else 0) in
  (y, m, d).

Definition pad_number (width : nat) (n : Z) : string :=
  padStart width "0"%char (N_to_string (Z.abs_N n)).

Definition iso_year (y : Z) : string :=
  if (0 <=? y) && (y <=? 9999) then pad_number 4 y
  else String (if y <? 0 then "-"%char else "+"%char) (pad_number 6 y).

(** [new Date(ms).toISOString().split("T")[0]]; [None] is the [RangeError]
    of an invalid date (a time value beyond 8.64e15 ms). *)
Definition toISODate (ms : Z) : option string :=
  if Z.abs ms <=? 8640000000000000 then
    let '(y, m, d) := civil_from_days (ms / 86400000) in
    Some (iso_year y ++ "-" ++ pad_number 2 m ++ "-" ++ pad_number 2 d)%string
  else None.

(** ** Exceptions *)

(** The built-in error classes, and [ProcessExit] for [Deno.exit(1)], which
    ends the run and which no handler of the sources encloses. *)
Inductive error_kind : Type := Error | TypeError | RangeError | SyntaxError | ProcessExit.

Record exn : Type := mk_exn { exn_kind : error_kind; exn_message : string }.

Inductive result (A : Type) : Type :=
| Ok (a : A)
| Throw (e : exn).
Arguments Ok {A} a.
Arguments Throw {A} e.

End JS.

(* ================================================================== *)
(** * src/lib/blockchain.ts                                            *)
(* ================================================================== *)

Module Blockchain.
Import JS.

(** [BigInt(x)] of a Number: a [RangeError] unless [x] is an integer. *)
Definition BigInt_of_num (x : num) : result Z :=
  match x with
  | S754_zero _ => Ok 0
  | S754_finite s m e =>
      let sign := if s then -1 else 1 in
      if 0 <=? e then Ok (sign * (Zpos m * 2 ^ e))
      else if Zpos m mod 2 ^ (- e) =? 0 then Ok (sign * (Zpos m / 2 ^ (- e)))
      else Throw (mk_exn RangeError "not an integer")
  | _ => Throw (mk_exn RangeError "not an integer")
  end.

(** The first parameter of [formatTokenAmount]: [string | bigint]. *)
Inductive raw_amount : Type :=
| RawString (s : string)
| RawBigInt (z : Z).

Section Engine.

(** [10 ** decimals].  The language leaves the result of [**] to the engine
    (an implementation-approximated value), so the power the engine
    computes is a parameter of the function that uses it. *)
Variable pow10 : Z -> num.

(** [formatTokenAmount(amount, decimals)]. *)
Definition formatTokenAmount (amount : raw_amount) (decimals : Z) : result num :=
  match (match amount with
         | RawString s =>
             match BigInt_of_string s with
             | Some z => Ok z
             | None => Throw (mk_exn SyntaxError "Cannot convert to a BigInt")
             end
         | RawBigInt z => Ok z
         end) with
  | Throw e => Throw e
  | Ok value =>
      match BigInt_of_num (pow10 decimals) with
      | Throw e => Throw e
      | Ok divisor => Ok (num_div (Number_of_Z value) (Number_of_Z divisor))
      end
  end.

End Engine.

(** [parseTokenAmount(amount, decimals)].  When [toFixed] falls back to
    [ToString] the text is ["NaN"], ["Infinity"] or has an exponent part, and
    stays an invalid bigint literal after the split and the padding, so
    [BigInt] raises. *)
Definition parseTokenAmount (amount : num) (decimals : Z) : result Z :=
  match toFixed decimals amount with
  | None => Throw (mk_exn RangeError "toFixed() digits argument must be between 0 and 100")
  | Some (NumberToString _) => Throw (mk_exn SyntaxError "Cannot convert to a BigInt")
  | Some (FixedDigits amountStr) =>
      let parts := split_on "."%char amountStr in
      let whole := nth 0 parts EmptyString in
      let fraction := nth 1 parts EmptyString in
      let paddedFraction := padEnd (Z.to_nat decimals) "0"%char fraction in
      match BigInt_of_string (whole ++ paddedFraction) with
      | Some z => Ok z
      | None => Throw (mk_exn SyntaxError "Cannot convert to a BigInt")
      end
  end.

End Blockchain.

(* ================================================================== *)
(** * src/lib/etherscan.ts                                             *)
(* ================================================================== *)

Module Etherscan.
Import JS.

(** [EtherscanTokenTransfer]: every field is a string of the API's JSON. *)
Record EtherscanTokenTransfer : Type := mk_transfer {
  blockNumber : string;
  timeStamp : string;
  hash : string;
  nonce : string;
  blockHash : string;
  from : string;
  contractAddress : string;
  to : string;
  value : string;
  tokenName : string;
  tokenSymbol : string;
  tokenDecimal : string;
  transactionIndex : string;
  gas : string;
  gasPrice : string;
  gasUsed : string;
  cumulativeGasUsed : string;
  input : string;
  confirmations : string
}.

(** The values a field of the decoded response body can hold.  Numbers are
    kept to integers; an array holds transfer objects. *)
Inductive jsvalue : Type :=
| VUndefined
| VNull
| VBool (b : bool)
| VNumber (z : Z)
| VString (s : string)
| VArray (items : list EtherscanTokenTransfer)
| VObject.

Definition truthy (v : jsvalue) : bool :=
  match v with
  | VUndefined | VNull => false
  | VBool b => b
  | VNumber z => negb (z =? 0)
  | VString s => truthy_string s
  | VArray _ | VObject => true
  end.

Fixpoint join_objects (n : nat) : string :=
  match n with
  | O => EmptyString
  | S O => "[object Object]"
  | S k => ("[object Object]," ++ join_objects k)%string
  end.

(** [ToString], as a template literal applies it. *)
Definition to_string (v : jsvalue) : string :=
  match v with
  | VUndefined => "undefined"
  | VNull => "null"
  | VBool true => "true"
  | VBool false => "false"
  | VNumber z => BigInt_toString z
  | VString s => s
  | VArray items => join_objects (List.length items)
  | VObject => "[object Object]"
  end.

(** [a || b]. *)
Definition or_else (a b : jsvalue) : jsvalue := if truthy a then a else b.

(** [v === s] for a string literal [s]. *)
Definition is_string (s : string) (v : jsvalue) : bool :=
  match v with
  | VString t => String.eqb t s
  | _ => false
  end.

(** The body of a response, read as an object: an absent field is
    [VUndefined]. *)
Record api_data : Type := mk_data {
  data_status : jsvalue;
  data_message : jsvalue;
  data_result : jsvalue
}.

(** What [fetch] and [response.json()] can do for one request. *)
Inductive fetch_outcome : Type :=
| FetchRejected (e : exn)              (* fetch() throws: no connection *)
| FetchNotOk (statusText : string)     (* response.ok is false *)
| FetchBadBody (e : exn)               (* response.json() throws, or the body is null *)
| FetchJson (data : api_data).

Definition query := list (string * string).

Record EtherscanClient : Type := mk_client {
  apiUrl : string;
  apiKey : string;
  chainId : Z
}.

Definition no_transactions_found : string := "No transactions found".

(** The parameters [request] adds to those of its caller. *)
Definition request_params (client : EtherscanClient) (params : query) : query :=
  let params := if truthy_string (apiKey client)
                then params ++ [("apikey"%string, apiKey client)] else params in
  params ++ [("chainid"%string, BigInt_toString (chainId client))].

Definition optional_param (name : string) (v : option Z) : query :=
  match v with
  | Some z => [(name, BigInt_toString z)]
  | None => []
  end.

(** The parameters of a [tokentx] query. *)
Definition tokentx_params (address : string) (contractAddress : option string)
    (startBlock endBlock : option Z) (page offset : Z) : query :=
  [("module", "account"); ("action", "tokentx"); ("address", address);
   ("sort", "desc"); ("page", BigInt_toString page);
   ("offset", BigInt_toString offset)]%string
  ++ match contractAddress with
     | Some a => if truthy_string a then [("contractaddress"%string, a)] else []
     | None => []
     end
  ++ optional_param "startblock" startBlock
  ++ optional_param "endblock" endBlock.

Section Network.

(** The explorer API, as a function of the query string parameters. *)
Variable network : query -> fetch_outcome.

(** [EtherscanClient.request(params)].  The fixed 200 ms pause before the
    request is a matter of timing only. *)
Definition request (client : EtherscanClient) (params : query) : result jsvalue :=
  match network (request_params client params) with
  | FetchRejected e => Throw e
  | FetchNotOk statusText =>
      Throw (mk_exn Error ("Etherscan API request failed: " ++ statusText))
  | FetchBadBody e => Throw e
  | FetchJson data =>
      if is_string "0" (data_status data)
         && negb (is_string no_transactions_found (data_message data))
      then Throw (mk_exn Error ("Etherscan API error: "
                                ++ to_string (or_else (data_message data) (data_result data))))
      else Ok (data_result data)
  end.

(** [EtherscanClient.getTokenTransfers(address, contractAddress?, startBlock?,
    endBlock?, page = 1, offset = 10000)]. *)
Definition getTokenTransfers (client : EtherscanClient) (address : string)
    (contractAddress : option string) (startBlock endBlock : option Z)
    (page offset : Z) : result (list EtherscanTokenTransfer) :=
  let params := tokentx_params address contractAddress startBlock endBlock page offset in
  match request client params with
  | Ok r => Ok (match r with VArray items => items | _ => [] end)
  | Throw e =>
      if includes no_transactions_found (exn_message e) then Ok [] else Throw e
  end.

End Network.

End Etherscan.

(* ================================================================== *)
(** * server.ts                                                        *)
(* ================================================================== *)

Module Server.
Import JS.

(** [iban.toUpperCase().replace(/\s/g, "")]. *)
Definition normalizeIban (iban : string) : string :=
  remove_spaces (toUpperCase iban).

End Server.

(* ================================================================== *)
(** * src/lib/odoo.ts                                                  *)
(* ================================================================== *)

Module Odoo.
Import JS.

(** ** Data exchanged with the ledger *)

(** A numeric field of a reply: absent, [null], [false] (how the ledger
    reports an empty field) or a number. *)
Inductive field : Type :=
| FUndefined
| FNull
| FFalse
| FNumber (x : num).

(** A many-to-one reference, [[id, name] | false], kept to its id. *)
Definition many2one := option Z.

Record partner_bank : Type := mk_bank {
  bank_id : Z;
  acc_number : string;
  bank_partner_id : many2one
}.

Record partner : Type := mk_partner {
  partner_id : Z;
  partner_name : string;
  property_account_receivable_id : many2one;
  property_account_payable_id : many2one
}.

Record PartnerCreateData : Type := mk_partner_data {
  pc_name : string;
  pc_is_company : bool;
  pc_customer_rank : Z;
  pc_supplier_rank : Z;
  pc_street : option string;
  pc_property_account_receivable_id : option Z;
  pc_property_account_payable_id : option Z
}.

Record BankAccountCreateData : Type := mk_bank_data {
  bc_acc_number : string;
  bc_partner_id : Z;
  bc_acc_type : string;
  bc_acc_holder_name : option string
}.

Record entry_line : Type := mk_entry_line {
  el_debit : num;
  el_credit : num;
  el_name : string;
  el_partner_id : option Z
}.

Record JournalEntry : Type := mk_entry {
  je_ref : string;
  je_date : string;
  je_journal_id : Z;
  je_line_ids : list entry_line
}.

Record move : Type := mk_move {
  move_id : Z;
  move_entry : JournalEntry;
  move_line_first_id : Z;
  move_posted : bool
}.

(** A row of [account.move.line] as [search_read] returns it. *)
Record move_line_row : Type := mk_move_line {
  ml_id : Z;
  ml_name : string;
  ml_date : string;
  ml_ref : string;
  ml_debit : num;
  ml_credit : num;
  ml_account_id : many2one;
  ml_journal_id : many2one;
  ml_partner_id : many2one
}.

Record JournalTransaction : Type := mk_transaction {
  jt_id : Z;
  jt_name : string;
  jt_date : string;
  jt_ref : string;
  jt_amount : num;
  jt_debit : num;
  jt_credit : num;
  jt_account_id : many2one;
  jt_journal_id : many2one;
  jt_partner_id : many2one;
  jt_description : string
}.

Record journal : Type := mk_journal {
  journal_id : Z;
  journal_name : string;
  journal_type : string;
  journal_code : string;
  suspense_account_id : many2one;
  default_account_id : many2one
}.

Record account : Type := mk_account {
  account_id : Z;
  account_name : string;
  account_code : string;
  account_type : string;
  account_reconcile : bool
}.

Record statement : Type := mk_statement {
  statement_id : Z;
  statement_journal_id : Z;
  statement_name : string;
  statement_date : string;
  balance_start : field;
  balance_end_real : field;
  statement_posted : bool
}.

Record statement_line : Type := mk_line {
  line_id : Z;
  line_statement_id : Z;
  line_date : string;
  line_payment_ref : string;
  line_amount : num;
  line_name : string;
  line_unique_import_id : option string
}.

(** The object sent to create a statement line; [amount] is the decimal
    numeral the script computed. *)
Record line_payload : Type := mk_payload {
  p_statement_id : Z;
  p_date : string;
  p_payment_ref : string;
  p_amount : string;
  p_name : string;
  p_unique_import_id : option string
}.

(** [this.uid]: [null] at construction, then whatever [login] answered. *)
Inductive uid_value : Type :=
| UidNull
| UidFalse
| UidNumber (n : Z).

Definition uid_truthy (u : uid_value) : bool :=
  match u with
  | UidNumber n => negb (n =? 0)
  | _ => false
  end.

(** ** Remote calls: [execute_kw] on a model, by model and method *)

Inductive call : Type :=
| BankSearchRead (acc : string)
| BankSearchReadIlike (text : string)
| BankRead (id : Z)
| BankCreate (data : BankAccountCreateData)
| PartnerSearchReadIlike (name : string)
| PartnerRead (id : Z)
| PartnerWrite (id : Z) (receivable payable : option Z)
| PartnerCreate (data : PartnerCreateData)
| MoveSearchReadRef (ref : string)
| MoveCreate (entry : JournalEntry)
| MoveActionPost (id : Z)
| MoveLineSearchRead (journal : Z) (limit : Z)
| JournalSearchRead
| JournalRead (id : Z)
| AccountSearchRead
| AccountSearchReadIlike (name : string)
| AccountSearchReadType (type : string)
| AccountRead (id : Z)
| StatementSearchRead (journal : Z) (name : string)
| StatementSearchReadJournal (journal : Z)
| StatementRead (id : Z)
| StatementCreate (name : string) (journal : Z) (date : string)
| StatementWrite (id : Z) (balance_end_real : num)
| StatementButtonPost (id : Z)
| LineSearchReadStatement (statement : Z)
| LineSearchImportId (unique_import_id : string)
| LineCreate (payload : line_payload).

(** The calls that change the ledger: [create], [write] and the post
    actions. *)
Definition is_write (c : call) : bool :=
  match c with
  | BankCreate _ | PartnerWrite _ _ _ | PartnerCreate _ | MoveCreate _
  | MoveActionPost _ | StatementCreate _ _ _ | StatementWrite _ _
  | StatementButtonPost _ | LineCreate _ => true
  | _ => false
  end.

Inductive request : Type :=
| Login (database username password : string)
| ExecuteKw (database : string) (uid : uid_value) (password : string) (c : call).

Definition request_is_write (r : request) : bool :=
  match r with
  | Login _ _ _ => false
  | ExecuteKw _ _ _ c => is_write c
  end.

(** The type of the value a call returns. *)
Definition answer (c : call) : Type :=
  match c with
  | BankSearchRead _ | BankSearchReadIlike _ | BankRead _ => list partner_bank
  | PartnerSearchReadIlike _ | PartnerRead _ => list partner
  | MoveSearchReadRef _ => list move
  | MoveLineSearchRead _ _ => list move_line_row
  | JournalSearchRead | JournalRead _ => list journal
  | AccountSearchRead | AccountSearchReadIlike _ | AccountSearchReadType _
  | AccountRead _ => list account
  | StatementSearchRead _ _ | StatementSearchReadJournal _ | StatementRead _ =>
      list statement
  | LineSearchReadStatement _ => list statement_line
  | LineSearchImportId _ => list Z
  | BankCreate _ | PartnerCreate _ | MoveCreate _ | StatementCreate _ _ _
  | LineCreate _ => Z
  | PartnerWrite _ _ _ | MoveActionPost _ | StatementWrite _ _
  | StatementButtonPost _ => bool
  end.

(** ** The ledger behind the remote calls

    The accounting server is outside the repository.  It is modelled as
    tables of records on which every call does the obvious thing: a search
    filters, [create] appends a record under a fresh id, [write] and the post
    actions update the records with the given id.  The server checks no
    access rights and enforces no uniqueness of its own. *)

Record ledger : Type := mk_ledger {
  banks : list partner_bank;
  partners : list partner;
  moves : list move;
  move_lines : list move_line_row;
  journals : list journal;
  accounts : list account;
  statements : list statement;
  lines : list statement_line;
  next_id : Z;
  login_answer : uid_value;
  fresh_balance_start : field;
  fresh_balance_end_real : field
}.

Definition with_banks (fresh : Z) (v : list partner_bank) (l : ledger) : ledger :=
  mk_ledger v (partners l) (moves l) (move_lines l) (journals l) (accounts l)
    (statements l) (lines l) (next_id l + fresh) (login_answer l)
    (fresh_balance_start l) (fresh_balance_end_real l).

Definition with_partners (fresh : Z) (v : list partner) (l : ledger) : ledger :=
  mk_ledger (banks l) v (moves l) (move_lines l) (journals l) (accounts l)
    (statements l) (lines l) (next_id l + fresh) (login_answer l)
    (fresh_balance_start l) (fresh_balance_end_real l).

Definition with_moves (fresh : Z) (v : list move) (l : ledger) : ledger :=
  mk_ledger (banks l) (partners l) v (move_lines l) (journals l) (accounts l)
    (statements l) (lines l) (next_id l + fresh) (login_answer l)
    (fresh_balance_start l) (fresh_balance_end_real l).

Definition with_statements (fresh : Z) (v : list statement) (l : ledger) : ledger :=
  mk_ledger (banks l) (partners l) (moves l) (move_lines l) (journals l)
    (accounts l) v (lines l) (next_id l + fresh) (login_answer l)
    (fresh_balance_start l) (fresh_balance_end_real l).

Definition with_lines (fresh : Z) (v : list statement_line) (l : ledger) : ledger :=
  mk_ledger (banks l) (partners l) (moves l) (move_lines l) (journals l)
    (accounts l) (statements l) v (next_id l + fresh) (login_answer l)
    (fresh_balance_start l) (fresh_balance_end_real l).

(** The first [limit] rows of a result ([limit] of [search_read]). *)
Fixpoint take {A : Type} (limit : Z) (rows : list A) : list A :=
  match rows with
  | [] => []
  | x :: r => if 0 <? limit then x :: take (limit - 1) r else []
  end.

(** [ilike]: the pattern occurs in the text, letter case ignored. *)
Definition ilike (pattern text : string) : bool :=
  includes (toLowerCase pattern) (toLowerCase text).

Definition option_or {A : Type} (new old : option A) : option A :=
  match new with Some _ => new | None => old end.

Definition line_of_payload (id : Z) (p : line_payload) : statement_line :=
  mk_line id (p_statement_id p) (p_date p) (p_payment_ref p)
    (Number_of_string (p_amount p)) (p_name p) (p_unique_import_id p).

Definition same_import_id (u : string) (ln : statement_line) : bool :=
  match line_unique_import_id ln with
  | Some v => String.eqb v u
  | None => false
  end.

Definition serve (c : call) (l : ledger) : answer c * ledger :=
  match c as c0 return answer c0 * ledger with
  | BankSearchRead acc =>
      (filter (fun b => String.eqb (acc_number b) acc) (banks l), l)
  | BankSearchReadIlike text =>
      (take 1 (filter (fun b => ilike text (acc_number b)) (banks l)), l)
  | BankRead id => (filter (fun b => bank_id b =? id) (banks l), l)
  | BankCreate d =>
      (next_id l,
       with_banks 1 (banks l ++ [mk_bank (next_id l) (bc_acc_number d) (Some (bc_partner_id d))]) l)
  | PartnerSearchReadIlike name =>
      (take 1 (filter (fun p => ilike name (partner_name p)) (partners l)), l)
  | PartnerRead id => (filter (fun p => partner_id p =? id) (partners l), l)
  | PartnerWrite id receivable payable =>
      (true,
       with_partners 0
         (map (fun p =>
                 if partner_id p =? id
                 then mk_partner (partner_id p) (partner_name p)
                        (option_or receivable (property_account_receivable_id p))
                        (option_or payable (property_account_payable_id p))
                 else p) (partners l)) l)
  | PartnerCreate d =>
      (next_id l,
       with_partners 1
         (partners l ++ [mk_partner (next_id l) (pc_name d)
                           (pc_property_account_receivable_id d)
                           (pc_property_account_payable_id d)]) l)
  | MoveSearchReadRef ref =>
      (filter (fun m => String.eqb (je_ref (move_entry m)) ref) (moves l), l)
  | MoveCreate e =>
      (next_id l,
       with_moves (1 + Z.of_nat (List.length (je_line_ids e)))
         (moves l ++ [mk_move (next_id l) e (next_id l + 1) false]) l)
  | MoveActionPost id =>
      (true,
       with_moves 0
         (map (fun m => if move_id m =? id
                        then mk_move (move_id m) (move_entry m) (move_line_first_id m) true
                        else m) (moves l)) l)
  | MoveLineSearchRead j limit =>
      (take limit
         (filter (fun r => match ml_journal_id r with
                           | Some k => k =? j
                           | None => false
                           end) (move_lines l)), l)
  | JournalSearchRead => (journals l, l)
  | JournalRead id => (filter (fun j => journal_id j =? id) (journals l), l)
  | AccountSearchRead => (accounts l, l)
  | AccountSearchReadIlike name =>
      (take 1 (filter (fun a => ilike name (account_name a)) (accounts l)), l)
  | AccountSearchReadType t =>
      (take 1 (filter (fun a => String.eqb (account_type a) t) (accounts l)), l)
  | AccountRead id => (filter (fun a => account_id a =? id) (accounts l), l)
  | StatementSearchRead j name =>
      (take 1 (filter (fun s => (statement_journal_id s =? j)
                                  && String.eqb (statement_name s) name)
                   (statements l)), l)
  | StatementSearchReadJournal j =>
      (take 10000 (filter (fun s => statement_journal_id s =? j) (statements l)), l)
  | StatementRead id =>
      (filter (fun s => statement_id s =? id) (statements l), l)
  | StatementCreate name j date =>
      (next_id l,
       with_statements 1
         (statements l ++ [mk_statement (next_id l) j name date
                             (fresh_balance_start l) (fresh_balance_end_real l) false]) l)
  | StatementWrite id x =>
      (true,
       with_statements 0
         (map (fun s => if statement_id s =? id
                        then mk_statement (statement_id s) (statement_journal_id s)
                               (statement_name s) (statement_date s)
                               (balance_start s) (FNumber x) (statement_posted s)
                        else s) (statements l)) l)
  | StatementButtonPost id =>
      (true,
       with_statements 0
         (map (fun s => if statement_id s =? id
                        then mk_statement (statement_id s) (statement_journal_id s)
                               (statement_name s) (statement_date s)
                               (balance_start s) (balance_end_real s) true
                        else s) (statements l)) l)
  | LineSearchReadStatement st =>
      (take 100000 (filter (fun ln => line_statement_id ln =? st) (lines l)), l)
  | LineSearchImportId u =>
      (take 1 (map line_id (filter (same_import_id u) (lines l))), l)
  | LineCreate p =>
      (next_id l, with_lines 1 (lines l ++ [line_of_payload (next_id l) p]) l)
  end.

(** ** The client, the console and the state of a run *)

Record OdooConfig : Type := mk_config {
  url : string;
  database : string;
  username : string;
  password : string
}.

Record OdooClient : Type := mk_odoo {
  config : OdooConfig;
  uid : uid_value;
  dryRun : bool
}.

(** [new OdooClient(config, dryRun)]. *)
Definition new_client (cfg : OdooConfig) (dry : bool) : OdooClient :=
  mk_odoo cfg UidNull dry.

(** Lines written to the console, one constructor for each message that
    reports a decision or an error; purely informative lines are left out. *)
Inductive log_entry : Type :=
| LogError (label : string) (e : exn)
| LogCreated (what : string) (id : Z)
| LogWouldCreate (what : string) (name : string)
| LogWouldPost (id : Z)
| LogSkipDuplicate (hash : string)
| LogWouldCreateLine (hash amount date : string)
| LogLineCreated (monthKey hash amount date : string)
| LogKeepOpen (monthKey : string)
| LogWouldUpdateBalance (id : Z) (endReal : num)
| LogWouldClose (id : Z) (endReal : num)
| LogClosed (id : Z) (endReal : num)
| LogPostUnavailable (id : Z).

Record world : Type := mk_world {
  w_client : OdooClient;
  w_ledger : ledger;
  w_trace : list request;
  w_console : list log_entry
}.

(** An effectful computation: it may read and change the state and ends
    with a value or with a thrown exception. *)
Definition M (A : Type) : Type := world -> result A * world.

Definition ret {A : Type} (a : A) : M A := fun w => (Ok a, w).

Definition bind {A B : Type} (m : M A) (k : A -> M B) : M B :=
  fun w =>
    match m w with
    | (Ok a, w') => k a w'
    | (Throw e, w') => (Throw e, w')
    end.

Definition throw {A : Type} (e : exn) : M A := fun w => (Throw e, w).

(** [try { m } catch (error) { handler(error) }]. *)
Definition try_catch {A : Type} (m : M A) (handler : exn -> M A) : M A :=
  fun w =>
    match m w with
    | (Ok a, w') => (Ok a, w')
    | (Throw e, w') => handler e w'
    end.

Declare Scope js_scope.
Delimit Scope js_scope with js.
Notation "x <- m ;; k" := (bind m (fun x => k))
  (at level 61, m at next level, right associativity) : js_scope.
Notation "m ;; k" := (bind m (fun _ => k))
  (at level 61, right associativity) : js_scope.
Open Scope js_scope.

Definition console (entry : log_entry) : M unit :=
  fun w => (Ok tt, mk_world (w_client w) (w_ledger w) (w_trace w) (w_console w ++ [entry])).

Definition this : M OdooClient := fun w => (Ok (w_client w), w).

(** [odooClient = new OdooClient(...)]. *)
Definition set_client (c : OdooClient) : M unit :=
  fun w => (Ok tt, mk_world c (w_ledger w) (w_trace w) (w_console w)).

Definition set_uid (u : uid_value) : M unit :=
  fun w =>
    (Ok tt,
     mk_world (mk_odoo (config (w_client w)) u (dryRun (w_client w)))
       (w_ledger w) (w_trace w) (w_console w)).

(** [for (const x of items) { body(x) }]. *)
Fixpoint for_each {A : Type} (body : A -> M unit) (items : list A) : M unit :=
  match items with
  | [] => ret tt
  | x :: rest => body x ;; for_each body rest
  end.

Definition not_authenticated : exn :=
  mk_exn Error "Not authenticated. Call authenticate() first.".

Section Client.

(** Which remote calls fail, and how: given the requests issued so far and
    the request at hand, the exception [callRPC] raises for it (an HTTP
    error, an error object in the reply, a lost connection), if any. *)
Variable faulty : list request -> request -> option exn.

Definition record_request (r : request) (w : world) : world :=
  mk_world (w_client w) (w_ledger w) (w_trace w ++ [r]) (w_console w).

(** [callRPC("common", "login", [database, username, password])]. *)
Definition callRPC_login : M uid_value :=
  fun w =>
    let cfg := config (w_client w) in
    let r := Login (database cfg) (username cfg) (password cfg) in
    match faulty (w_trace w) r with
    | Some e => (Throw e, record_request r w)
    | None => (Ok (login_answer (w_ledger w)), record_request r w)
    end.

(** [callRPC("object", "execute_kw", [database, uid, password, model,
    method, args, kwargs])]: no check of [uid] is made here. *)
Definition callRPC (c : call) : M (answer c) :=
  fun w =>
    let cfg := config (w_client w) in
    let r := ExecuteKw (database cfg) (uid (w_client w)) (password cfg) c in
    match faulty (w_trace w) r with
    | Some e => (Throw e, record_request r w)
    | None =>
        let '(a, l) := serve c (w_ledger w) in
        (Ok a, mk_world (w_client w) l (w_trace w ++ [r]) (w_console w))
    end.

(** [if (!this.uid) throw new Error("Not authenticated. ...")]. *)
Definition require_uid : M unit :=
  c <- this ;;
  if uid_truthy (uid c) then ret tt else throw not_authenticated.

Definition authenticate : M bool :=
  try_catch
    (result <- callRPC_login ;;
     set_uid result ;;
     ret (uid_truthy result))
    (fun error => console (LogError "Authentication failed:" error) ;; ret false).

Definition transaction_of_row (item : move_line_row) : JournalTransaction :=
  mk_transaction (ml_id item) (ml_name item) (ml_date item) (ml_ref item)
    (SFsub prec emax (ml_debit item) (ml_credit item))
    (ml_debit item) (ml_credit item) (ml_account_id item) (ml_journal_id item)
    (ml_partner_id item) (ml_name item).

Definition getLatestTransactions (journalId limit : Z) : M (list JournalTransaction) :=
  require_uid ;;
  try_catch
    (result <- callRPC (MoveLineSearchRead journalId limit) ;;
     ret (map transaction_of_row result))
    (fun error => console (LogError "Failed to fetch transactions:" error) ;; throw error).

Definition getJournals : M (list journal) :=
  require_uid ;;
  try_catch
    (callRPC JournalSearchRead)
    (fun error => console (LogError "Failed to fetch journals:" error) ;; throw error).

Definition checkJournalEntryExists (ref : string) : M bool :=
  require_uid ;;
  try_catch
    (result <- callRPC (MoveSearchReadRef ref) ;;
     ret (negb (Nat.eqb (List.length result) 0)))
    (fun error =>
       console (LogError "Failed to check for existing journal entry:" error) ;;
       ret true).

Definition createJournalEntry (entry : JournalEntry) : M Z :=
  require_uid ;;
  c <- this ;;
  if dryRun c then
    console (LogWouldCreate "journal entry" (je_ref entry)) ;;
    ret 999999
  else
    try_catch
      (callRPC (MoveCreate entry))
      (fun error => console (LogError "Failed to create journal entry:" error) ;; throw error).

Definition first_id {A : Type} (id : A -> Z) (rows : list A) : option Z :=
  match rows with
  | r :: _ => Some (id r)
  | [] => None
  end.

Definition getAccountIdByName (accountName : string) : M (option Z) :=
  require_uid ;;
  try_catch
    (result <- callRPC (AccountSearchReadIlike accountName) ;;
     ret (first_id account_id result))
    (fun error => console (LogError "Failed to find account:" error) ;; ret None).

(** [BankAccountIdentifier]; an absent field is [None]. *)
Record BankAccountIdentifier : Type := mk_identifier {
  standard : string;
  iban : option string;
  bic : option string;
  accountNumber : option string
}.

Definition template (v : option string) : string :=
  match v with
  | Some s => s
  | None => "undefined"
  end.

(** [identifier.iban || `${identifier.bic}:${identifier.accountNumber}`]. *)
Definition identifierString (identifier : BankAccountIdentifier) : string :=
  match iban identifier with
  | Some (String c r) => String c r
  | _ => (template (bic identifier) ++ ":" ++ template (accountNumber identifier))%string
  end.

(** The row's [partner_id] is returned as the reply carries it. *)
Definition getPartnerIdByBankIdentifier (identifier : BankAccountIdentifier)
  : M (option many2one) :=
  require_uid ;;
  try_catch
    (result <- callRPC (BankSearchReadIlike (identifierString identifier)) ;;
     ret (match result with
          | r :: _ => Some (bank_partner_id r)
          | [] => None
          end))
    (fun error => console (LogError "Failed to find partner:" error) ;; ret None).

Definition getPartnerIdByName (partnerName : string) : M (option Z) :=
  require_uid ;;
  try_catch
    (result <- callRPC (PartnerSearchReadIlike partnerName) ;;
     ret (first_id partner_id result))
    (fun error => console (LogError "Failed to find partner:" error) ;; ret None).

Definition postJournalEntry (moveId : Z) : M bool :=
  require_uid ;;
  c <- this ;;
  if dryRun c then
    console (LogWouldPost moveId) ;; ret true
  else
    try_catch
      (callRPC (MoveActionPost moveId) ;; ret true)
      (fun error => console (LogError "Failed to post journal entry:" error) ;; ret false).

Definition excluded_account_types : list string :=
  ["view"; "asset_fixed"; "liability_non_current"; "equity";
   "liability_current"; "asset_current"; "expense"; "expense_other"]%string.

Definition getAccounts : M (list account) :=
  require_uid ;;
  try_catch
    (result <- callRPC AccountSearchRead ;;
     ret (filter (fun item =>
                    negb (existsb (String.eqb (account_type item)) excluded_account_types))
            result))
    (fun error => console (LogError "Failed to fetch accounts:" error) ;; throw error).

Definition findBankAccountByIdentifier (bankAccountIdentifier : BankAccountIdentifier)
  : M (option Z) :=
  require_uid ;;
  try_catch
    (result <- callRPC (BankSearchRead (identifierString bankAccountIdentifier)) ;;
     ret (first_id bank_id result))
    (fun error => console (LogError "Failed to find bank account for IBAN" error) ;; ret None).

(** [if (x) data.field = x]: an absent, zero or empty value sets nothing. *)
Definition given_id (x : option Z) : option Z :=
  match x with
  | Some n => if n =? 0 then None else Some n
  | None => None
  end.

Definition given_text (x : option string) : option string :=
  match x with
  | Some (String c r) => Some (String c r)
  | _ => None
  end.

Definition createPartner (partnerName : string) (address : option string)
    (receivableAccountId payableAccountId : option Z) : M Z :=
  require_uid ;;
  c <- this ;;
  if dryRun c then
    console (LogWouldCreate "partner" partnerName) ;;
    ret 999999
  else
    try_catch
      (let partnerData :=
         mk_partner_data partnerName false 1 0 (given_text address)
           (given_id receivableAccountId) (given_id payableAccountId) in
       result <- callRPC (PartnerCreate partnerData) ;;
       console (LogCreated "partner" result) ;;
       ret result)
      (fun error => console (LogError "Failed to create partner" error) ;; throw error).

Definition createBankAccount (iban : string) (partnerId : Z) (accountName : option string)
  : M Z :=
  require_uid ;;
  c <- this ;;
  if dryRun c then
    console (LogWouldCreate "bank account" iban) ;;
    ret 888888
  else
    try_catch
      (let bankData := mk_bank_data iban partnerId "iban" (given_text accountName) in
       result <- callRPC (BankCreate bankData) ;;
       console (LogCreated "bank account" result) ;;
       ret result)
      (fun error => console (LogError "Failed to create bank account for IBAN" error) ;; throw error).

(** [if (!id)]: [null] and [0] count as no id. *)
Definition no_id (x : option Z) : bool :=
  match x with
  | Some n => n =? 0
  | None => true
  end.

Definition findOrCreateBankAccount (bankAccountIdentifier : BankAccountIdentifier)
    (partnerName : string) (partnerAddress : option string) : M Z :=
  bankAccountId <- findBankAccountByIdentifier bankAccountIdentifier ;;
  if negb (no_id bankAccountId) then ret (match bankAccountId with Some n => n | None => 0 end)
  else
    found <- getPartnerIdByName partnerName ;;
    partnerId <- (if no_id found then createPartner partnerName partnerAddress None None
                  else ret (match found with Some n => n | None => 0 end)) ;;
    createBankAccount (identifierString bankAccountIdentifier) partnerId (Some partnerName).

(** [getLatestInvoices(limit, direction, since, until)] and
    [getInvoiceDetails(invoiceId)] open with the same guard, outside any
    handler.  The statements that follow it (the search of the moves, the
    reads of their lines, partners and attachments, and the handlers around
    them) are parameters here: they run only once the guard has passed. *)
Section InvoiceListing.

Variables Invoice InvoiceDetails : Type.
Variable latest_invoices_guarded : Z -> string -> option string -> option string -> M (list Invoice).
Variable invoice_details_guarded : Z -> M InvoiceDetails.

Definition getLatestInvoices (limit : Z) (direction : string) (since until : option string)
  : M (list Invoice) :=
  require_uid ;;
  latest_invoices_guarded limit direction since until.

Definition getInvoiceDetails (invoiceId : Z) : M InvoiceDetails :=
  require_uid ;;
  invoice_details_guarded invoiceId.

End InvoiceListing.

End Client.

End Odoo.

(* ================================================================== *)
(** * The import script ("import txs")                                 *)
(* ================================================================== *)

Module ImportTxs.
Import JS.
Import Odoo.

Definition chainId : Z := 100.
Definition tokenAddress : string := "0x420CA0f9B9b604cE0fd9C18EF134C705e5Fa3430".
Definition walletAddress : string := "0x6fDF0AaE33E313d9C98D2Aa19Bcd8EF777912CBf".
Definition journalId : Z := 55.

(** ** viem's [formatUnits] *)

Fixpoint strip_leading_zeros (s : string) : string :=
  match s with
  | String "0"%char r => strip_leading_zeros r
  | _ => s
  end.

(** [s.replace(/(0+)$/, "")]. *)
Definition strip_trailing_zeros (s : string) : string :=
  rev_string EmptyString (strip_leading_zeros (rev_string EmptyString s)).

(** [formatUnits(value, decimals)]: the exact decimal numeral of
    [value / 10^decimals]. *)
Definition formatUnits (value : Z) (decimals : nat) : string :=
  let display := BigInt_toString value in
  let negative := String.prefix "-" display in
  let display := if negative then slice_from 1 display else display in
  let display := padStart decimals "0"%char display in
  let integer := slice_to (String.length display - decimals) display in
  let fraction := slice_from (String.length display - decimals) display in
  let fraction := strip_trailing_zeros fraction in
  ((if negative then "-" else "")
   ++ (if truthy_string integer then integer else "0")
   ++ (if truthy_string fraction then String "."%char fraction else ""))%string.

(** ** Helpers of the script *)

(** [iso.slice(0, 7)]. *)
Definition monthKeyFromISO (iso : string) : string := slice_to 7 iso.

Definition firstDayOfMonthISO (monthKey : string) : string :=
  (monthKey ++ "-01")%string.

(** [`${now.getFullYear()}-${String(now.getMonth() + 1).padStart(2, "0")}`]
    for the local year and month number (1 to 12) of the wall clock. *)
Definition currentMonthKey_of (year month : Z) : string :=
  (BigInt_toString year ++ "-" ++ padStart 2 "0"%char (BigInt_toString month))%string.

(** [String(name).match(/^Feed (\d{4}-\d{2})$/)]: the captured month. *)
Definition feed_month (name : string) : option string :=
  match name with
  | String "F" (String "e" (String "e" (String "d" (String " "
      (String y1 (String y2 (String y3 (String y4 (String "-"
        (String m1 (String m2 EmptyString))))))))))) =>
      if is_digit y1 && is_digit y2 && is_digit y3 && is_digit y4
         && is_digit m1 && is_digit m2
      then Some (slice_from 5 name) else None
  | _ => None
  end.

(** A transfer with the [date] the grouping step attaches to it. *)
Definition item : Type := (Etherscan.EtherscanTokenTransfer * string)%type.

(** [byMonth]: a [Map] keeps its keys in the order of first insertion. *)
Fixpoint push_month (mk : string) (it : item) (byMonth : list (string * list item))
  : list (string * list item) :=
  match byMonth with
  | [] => [(mk, [it])]
  | (k, items) :: rest =>
      if String.eqb k mk then (k, items ++ [it]) :: rest
      else (k, items) :: push_month mk it rest
  end.

(** The grouping loop.  An unreadable time stamp makes [toISOString] raise a
    [RangeError].  The seconds and the milliseconds are kept as integers:
    up to the largest valid time value (8.64e15 ms) the doubles of the
    script hold them exactly, and a larger product is an invalid date
    whether rounded or not. *)
Fixpoint group_by_month (txsTransfers : list Etherscan.EtherscanTokenTransfer)
    (byMonth : list (string * list item)) : result (list (string * list item)) :=
  match txsTransfers with
  | [] => Ok byMonth
  | r :: rest =>
      match match parseInt (Etherscan.timeStamp r) with
            | Some t => toISODate (t * 1000)
            | None => None
            end with
      | None => Throw (mk_exn RangeError "Invalid time value")
      | Some iso => group_by_month rest (push_month (monthKeyFromISO iso) (r, iso) byMonth)
      end
  end.

(** [Number(x || 0)] for a field of a reply. *)
Definition number_or_zero (x : field) : num :=
  match x with
  | FNumber v => if truthy_num v then v else num_zero
  | _ => num_zero
  end.

(** [x != null ? Number(x) : NaN]. *)
Definition number_or_nan (x : field) : num :=
  match x with
  | FUndefined | FNull => num_nan
  | FFalse => num_zero
  | FNumber v => v
  end.

(** The [payment_ref] of a line: [`${hash}:${transactionIndex}:${tokenAddress}`]. *)
Definition payment_ref (r : Etherscan.EtherscanTokenTransfer) : string :=
  (Etherscan.hash r ++ ":" ++ Etherscan.transactionIndex r ++ ":" ++ tokenAddress)%string.

(** [r.hash.trim()] when it is not empty. *)
Definition unique_import_id (r : Etherscan.EtherscanTokenTransfer) : option string :=
  match trim (Etherscan.hash r) with
  | EmptyString => None
  | h => Some h
  end.

(** [r.from === walletAddress ? r.to : r.from]. *)
Definition partnerAddress (r : Etherscan.EtherscanTokenTransfer) : string :=
  if String.eqb (Etherscan.from r) walletAddress then Etherscan.to r else Etherscan.from r.

(** The account number looked up for a counterparty:
    [iban.replace(/\s+/g, "").toUpperCase()]. *)
Definition account_key (iban : string) : string :=
  toUpperCase (remove_spaces iban).

Section Script.

Variable faulty : list request -> request -> option exn.

(** The script's own [callRPC(model, method, args, kwargs)] reaches the
    client's private method with the client's [uid], whatever it is. *)
Definition callRPC (c : call) : M (answer c) := Odoo.callRPC faulty c.

Definition findOrCreatePartnerByName (name : string) (dryRun : bool)
    (receivableAccountId payableAccountId : option Z) : M Z :=
  if negb (truthy_string (trim name)) then ret 0
  else
    partnerId <- getPartnerIdByName faulty name ;;
    if negb (no_id partnerId) then ret (match partnerId with Some n => n | None => 0 end)
    else if dryRun then
      console (LogWouldCreate "partner" name) ;;
      ret 999999
    else createPartner faulty name None receivableAccountId payableAccountId.

Definition findOrCreatePartnerBank (partnerId : Z) (iban : string) (dryRun : bool)
    (receivableAccountId payableAccountId : option Z) : M Z :=
  let acc := account_key iban in
  if negb (truthy_string acc) then ret 0
  else
    let bankAccountIdentifier := mk_identifier "iban" (Some acc) None None in
    bankAccountId <- findBankAccountByIdentifier faulty bankAccountIdentifier ;;
    if negb (no_id bankAccountId) then ret (match bankAccountId with Some n => n | None => 0 end)
    else if dryRun then
      console (LogWouldCreate "bank account" acc) ;;
      ret 888888
    else
      pid <- (if negb (partnerId =? 0) then ret partnerId
              else findOrCreatePartnerByName "Unknown" dryRun
                     receivableAccountId payableAccountId) ;;
      createBankAccount faulty acc pid None.

Definition getOrCreateMonthlyStatement (journalId : Z) (monthKey : string)
    (dryRun : bool) : M Z :=
  let name := ("Feed " ++ monthKey)%string in
  found <- callRPC (StatementSearchRead journalId name) ;;
  match found with
  | st :: _ => ret (statement_id st)
  | [] =>
      if dryRun then
        console (LogWouldCreate "monthly statement" name) ;;
        ret 777777
      else callRPC (StatementCreate name journalId (firstDayOfMonthISO monthKey))
  end.

Definition sumStatementLineAmounts (statementId : Z) : M num :=
  lines <- callRPC (LineSearchReadStatement statementId) ;;
  let total :=
    fold_left (fun acc l => num_add acc (number_or_zero (FNumber (line_amount l))))
      lines num_zero in
  ret (round2 total).

Definition closeStatementIfNeeded (statementId : Z) (dryRun : bool) : M unit :=
  recs <- callRPC (StatementRead statementId) ;;
  match recs with
  | [] => ret tt
  | st :: _ =>
      let start := number_or_zero (balance_start st) in
      let endReal := number_or_nan (balance_end_real st) in
      endReal <-
        (if isNaN endReal then
           sumLines <- sumStatementLineAmounts statementId ;;
           let endReal := round2 (num_add start sumLines) in
           (if dryRun then console (LogWouldUpdateBalance statementId endReal)
            else callRPC (StatementWrite statementId endReal) ;; ret tt) ;;
           ret endReal
         else ret endReal) ;;
      if dryRun then console (LogWouldClose statementId endReal)
      else
        try_catch
          (callRPC (StatementButtonPost statementId) ;;
           console (LogClosed statementId endReal))
          (fun _ => console (LogPostUnavailable statementId))
  end.

Definition closeAllPastMonthlyStatements (journalId : Z) (currentMonthKey : string)
    (dryRun : bool) : M unit :=
  allSts <- callRPC (StatementSearchReadJournal journalId) ;;
  for_each
    (fun st =>
       match feed_month (statement_name st) with
       | None => ret tt
       | Some stMonth =>
           if string_lt stMonth currentMonthKey
           then closeStatementIfNeeded (statement_id st) dryRun
           else ret tt
       end)
    allSts.

(** ** [main] *)

Definition exit {A : Type} : M A := throw (mk_exn ProcessExit "Deno.exit(1)").

(** The checks of the journal's configuration; they return the ids of the
    default receivable and payable accounts. *)
Definition main_check_journal : M (Z * Z) :=
  journals <- callRPC (JournalRead journalId) ;;
  match journals with
  | [] => exit
  | journal :: _ =>
      match default_account_id journal with
      | None => exit
      | Some defaultAccountId =>
          let suspenseAccountId := suspense_account_id journal in
          if match suspenseAccountId with
             | Some s => s =? defaultAccountId
             | None => false
             end
          then exit
          else
            _ <- callRPC (AccountRead defaultAccountId) ;;
            (match given_id suspenseAccountId with
             | None => ret tt
             | Some s =>
                 suspenseAccounts <- callRPC (AccountRead s) ;;
                 match suspenseAccounts with
                 | [] => ret tt
                 | suspenseAccount :: _ =>
                     if (String.eqb (account_type suspenseAccount) "liability_current"
                         || String.eqb (account_type suspenseAccount) "asset_current")
                        && negb (account_reconcile suspenseAccount)
                     then exit else ret tt
                 end
             end) ;;
            receivableAccounts <- callRPC (AccountSearchReadType "asset_receivable") ;;
            payableAccounts <- callRPC (AccountSearchReadType "liability_payable") ;;
            match receivableAccounts, payableAccounts with
            | rcv :: _, pay :: _ => ret (account_id rcv, account_id pay)
            | _, _ => exit
            end
      end
  end.

(** The block of the loop body that gives the partner its receivable and
    payable accounts when it lacks them. *)
Definition main_partner_accounts (partnerId : Z)
    (defaultReceivableAccountId defaultPayableAccountId : Z) : M unit :=
  partners <- callRPC (PartnerRead partnerId) ;;
  match partners with
  | [] => ret tt
  | partner :: _ =>
      let receivable :=
        match property_account_receivable_id partner with
        | None => Some defaultReceivableAccountId
        | Some _ => None
        end in
      let payable :=
        match property_account_payable_id partner with
        | None => Some defaultPayableAccountId
        | Some _ => None
        end in
      match receivable, payable with
      | None, None => ret tt
      | _, _ => callRPC (PartnerWrite partnerId receivable payable) ;; ret tt
      end
  end.

(** The block that reads the partner of the bank account (run only outside
    dry-run); [pb[0]] of an empty reply raises a [TypeError]. *)
Definition main_ensure_partner_accounts (partnerBankId : Z)
    (defaultReceivableAccountId defaultPayableAccountId : Z) : M unit :=
  pb <- callRPC (BankRead partnerBankId) ;;
  match pb with
  | [] => throw (mk_exn TypeError "Cannot read properties of undefined (reading 'partner_id')")
  | b :: _ =>
      match given_id (bank_partner_id b) with
      | None => ret tt
      | Some partnerId =>
          main_partner_accounts partnerId
            defaultReceivableAccountId defaultPayableAccountId
      end
  end.

(** The counterparty of the event: its bank account, and the accounts of
    the partner behind it. *)
Definition main_counterparty (dryRun : bool)
    (defaultReceivableAccountId defaultPayableAccountId : Z)
    (r : Etherscan.EtherscanTokenTransfer) : M unit :=
  partnerBankId <-
    findOrCreatePartnerBank 0 (toLowerCase (partnerAddress r)) dryRun
      (Some defaultReceivableAccountId) (Some defaultPayableAccountId) ;;
  if negb (partnerBankId =? 0) && negb dryRun
  then main_ensure_partner_accounts partnerBankId
         defaultReceivableAccountId defaultPayableAccountId
  else ret tt.

(** The object sent for the event [r] dated [date] in the statement
    [stId]. *)
Definition main_payload (stId : Z) (r : Etherscan.EtherscanTokenTransfer)
    (amount date : string) : line_payload :=
  mk_payload stId date (payment_ref r) amount
    ("Blockchain tx " ++ slice_to 10 (Etherscan.hash r)) (unique_import_id r).

(** The duplicate check and the creation of the line. *)
Definition main_line (dryRun : bool) (monthKey : string) (stId : Z)
    (r : Etherscan.EtherscanTokenTransfer) (amount date : string) : M unit :=
  let payload := main_payload stId r amount date in
  dup <- match unique_import_id r with
         | Some u => callRPC (LineSearchImportId u)
         | None => ret []
         end ;;
  match dup with
  | _ :: _ => console (LogSkipDuplicate (Etherscan.hash r))
  | [] =>
      if dryRun
      then console (LogWouldCreateLine (Etherscan.hash r) amount date)
      else
        callRPC (LineCreate payload) ;;
        console (LogLineCreated monthKey (Etherscan.hash r) amount date)
  end.

(** One turn of the inner loop, for the transfer [r] of the statement
    [stId]. *)
Definition main_item (dryRun : bool) (monthKey : string) (stId : Z)
    (defaultReceivableAccountId defaultPayableAccountId : Z) (it : item) : M unit :=
  let '(r, date) := it in
  match BigInt_of_string (Etherscan.value r) with
  | None => throw (mk_exn SyntaxError "Cannot convert to a BigInt")
  | Some value =>
      let amount := formatUnits value 18 in
      main_counterparty dryRun defaultReceivableAccountId defaultPayableAccountId r ;;
      main_line dryRun monthKey stId r amount date
  end.

(** One turn of the outer loop. *)
Definition main_month (dryRun : bool) (currentMonthKey : string)
    (defaultReceivableAccountId defaultPayableAccountId : Z)
    (group : string * list item) : M unit :=
  let '(monthKey, items) := group in
  stId <- getOrCreateMonthlyStatement journalId monthKey dryRun ;;
  for_each (main_item dryRun monthKey stId
              defaultReceivableAccountId defaultPayableAccountId) items ;;
  if string_lt monthKey currentMonthKey
  then closeStatementIfNeeded stId dryRun
  else console (LogKeepOpen monthKey).

(** From the grouping of the fetched transfers to the final sweep. *)
Definition main_import (dryRun : bool) (currentMonthKey : string)
    (defaultReceivableAccountId defaultPayableAccountId : Z)
    (txsTransfers : list Etherscan.EtherscanTokenTransfer) : M unit :=
  match group_by_month txsTransfers [] with
  | Throw e => throw e
  | Ok byMonth =>
      for_each (main_month dryRun currentMonthKey
                  defaultReceivableAccountId defaultPayableAccountId) byMonth ;;
      closeAllPastMonthlyStatements journalId currentMonthKey dryRun
  end.

(** The explorer API and its client, as [main] uses them. *)
Variable network : Etherscan.query -> Etherscan.fetch_outcome.
Variable apiKey : string.

(** [main()], for the configuration read from the environment and the local
    year and month of the wall clock. *)
Definition main (cfg : OdooConfig) (dryRun : bool) (year month : Z) : M unit :=
  set_client (new_client cfg dryRun) ;;
  authenticated <- authenticate faulty ;;
  if negb authenticated then exit
  else
    defaults <- main_check_journal ;;
    let '(defaultReceivableAccountId, defaultPayableAccountId) := defaults in
    if negb (truthy_string apiKey)
    then throw (mk_exn Error "Etherscan API key is required")
    else
      match Etherscan.getTokenTransfers network
              (Etherscan.mk_client "https://api.etherscan.io/v2/api" apiKey chainId)
              walletAddress (Some tokenAddress) None None 1 10000 with
      | Throw e => throw e
      | Ok txsTransfers =>
          main_import dryRun (currentMonthKey_of year month)
            defaultReceivableAccountId defaultPayableAccountId txsTransfers
      end.

End Script.

End ImportTxs.

(* ================================================================== *)
(** * Notions used to state the properties                             *)
(* ================================================================== *)

Import JS.
Import Odoo.
Import ImportTxs.

(** A remote side that answers every call. *)
Definition reliable : list request -> request -> option exn := fun _ _ => None.

(** Two raw identifiers that differ only in letter case and white space. *)
Inductive same_modulo_case_space : string -> string -> Prop :=
| same_empty : same_modulo_case_space EmptyString EmptyString
| same_letter c d s t :
    upper_char c = upper_char d ->
    same_modulo_case_space s t ->
    same_modulo_case_space (String c s) (String d t)
| same_space_left c s t :
    is_space c = true ->
    same_modulo_case_space s t ->
    same_modulo_case_space (String c s) t
| same_space_right c s t :
    is_space c = true ->
    same_modulo_case_space s t ->
    same_modulo_case_space s (String c t).

Fixpoint all_chars (p : ascii -> bool) (s : string) : bool :=
  match s with
  | EmptyString => true
  | String c r => p c && all_chars p r
  end.

Definition not_space (c : ascii) : bool := negb (is_space c).

Definition not_dot (c : ascii) : bool := negb (Ascii.eqb c "."%char).

(** [s] is a run of decimal digits whose value is [n]. *)
Definition denotes (s : string) (n : N) : Prop :=
  all_chars is_digit s = true /\
  forall a, digits_value a s = Some (a * 10 ^ N.of_nat (String.length s) + n)%N.

Definition signed (neg : bool) (n : N) : Z := if neg then - Z.of_N n else Z.of_N n.

(** The double [x] is exactly [v / 10^d]: decoding lost nothing. *)
Definition represents (x : num) (v d : Z) : Prop :=
  match x with
  | S754_zero _ => v = 0
  | S754_finite s m e =>
      v * 2 ^ Z.max 0 (- e) = (if s then -1 else 1) * Zpos m * 2 ^ Z.max 0 e * 10 ^ d
  | _ => False
  end.

(** [a / b] is a double: it is [m * 2^e] for a mantissa [m] below [2^53]
    and an exponent [e] from -1074 to 971. *)
Definition double_quotient (a b : Z) : Prop :=
  exists m e, 0 <= m < 2 ^ prec /\ 3 - emax - prec <= e <= emax - prec /\
    Z.abs a * 2 ^ Z.max 0 (- e) = m * 2 ^ Z.max 0 e * b.

(** An engine whose [10 ** d] is the power itself wherever the power is a
    double, that is up to [10 ** 22]. *)
Definition exact_powers (pow10 : Z -> num) : Prop :=
  forall d, 0 <= d <= 22 -> pow10 d = Number_of_Z (10 ^ d).

(** One such engine: its power is the double nearest to the real one. *)
Definition nearest_pow10 (decimals : Z) : num :=
  if 0 <=? decimals then Number_of_Z (10 ^ decimals)
  else Number_of_decimal false 1 (Z.to_nat (- decimals)).

(** The bigint a raw amount stands for, when it is given as text the one
    [BigInt] reads. *)
Definition raw_value (amount : Blockchain.raw_amount) : option Z :=
  match amount with
  | Blockchain.RawString s => BigInt_of_string s
  | Blockchain.RawBigInt z => Some z
  end.

(* ================================================================== *)
(** * Strings and numerals                                             *)
(* ================================================================== *)

Local Open Scope string_scope.
Ltac ascii_cases c := destruct c as [[] [] [] [] [] [] [] []].

Lemma append_empty_r s : s ++ "" = s.
Proof. induction s; simpl; congruence. Qed.

Lemma append_assoc s t u : (s ++ t) ++ u = s ++ (t ++ u).
Proof. induction s; simpl; congruence. Qed.

Lemma length_append s t : String.length (s ++ t) = (String.length s + String.length t)%nat.
Proof. induction s; simpl; congruence. Qed.

Lemma rev_string_append acc s : rev_string acc s = rev_string "" s ++ acc.
Proof.
  revert acc. induction s as [|c s IH]; intros acc; simpl; [reflexivity|].
  rewrite (IH (String c acc)), (IH (String c "")), append_assoc. reflexivity.
Qed.

Lemma rev_string_app s t : rev_string "" (s ++ t) = rev_string "" t ++ rev_string "" s.
Proof.
  induction s as [|c s IH]; simpl.
  - now rewrite append_empty_r.
  - rewrite (rev_string_append (String c "") (s ++ t)), IH,
      (rev_string_append (String c "") s), append_assoc. reflexivity.
Qed.

Lemma rev_string_involutive s : rev_string "" (rev_string "" s) = s.
Proof.
  induction s as [|c s IH]; simpl; [reflexivity|].
  rewrite (rev_string_append (String c "") s), rev_string_app, IH. reflexivity.
Qed.


Lemma all_chars_app p s t : all_chars p (s ++ t) = all_chars p s && all_chars p t.
Proof. induction s; simpl; [reflexivity|]. now rewrite IHs, andb_assoc. Qed.

Lemma all_chars_rev p s : all_chars p (rev_string "" s) = all_chars p s.
Proof.
  induction s as [|c s IH]; simpl; [reflexivity|].
  rewrite (rev_string_append (String c "") s), all_chars_app, IH. simpl.
  rewrite andb_true_r. apply andb_comm.
Qed.

Lemma all_chars_weaken (p q : ascii -> bool) s :
  (forall c, p c = true -> q c = true) -> all_chars p s = true -> all_chars q s = true.
Proof.
  intros H. induction s as [|c s IH]; simpl; [reflexivity|].
  intros [Hc Hs]%andb_prop. now rewrite (H _ Hc), IH.
Qed.


Lemma trimStart_not_space s : all_chars not_space s = true -> trimStart s = s.
Proof.
  destruct s as [|c s]; simpl; [reflexivity|]. unfold not_space.
  intros [Hc _]%andb_prop. now destruct (is_space c).
Qed.

Lemma trim_not_space s : all_chars not_space s = true -> trim s = s.
Proof.
  intros H. unfold trim, trimEnd. rewrite (trimStart_not_space s H).
  rewrite trimStart_not_space by now rewrite all_chars_rev.
  apply rev_string_involutive.
Qed.

Lemma slice_to_from k s : slice_to k s ++ slice_from k s = s.
Proof.
  revert s. induction k as [|k IH]; intros [|c s]; simpl; try reflexivity. now rewrite IH.
Qed.

Lemma length_slice_from k s : String.length (slice_from k s) = (String.length s - k)%nat.
Proof.
  revert s. induction k as [|k IH]; intros [|c s]; simpl; try reflexivity; auto.
Qed.

Lemma all_chars_slice_to p k s : all_chars p s = true -> all_chars p (slice_to k s) = true.
Proof.
  revert s. induction k as [|k IH]; intros [|c s]; simpl; try reflexivity.
  intros [Hc Hs]%andb_prop. now rewrite Hc, IH.
Qed.

Lemma all_chars_slice_from p k s : all_chars p s = true -> all_chars p (slice_from k s) = true.
Proof.
  revert s. induction k as [|k IH]; intros [|c s]; simpl; try reflexivity; auto.
  intros [Hc Hs]%andb_prop. now apply IH.
Qed.

Lemma all_chars_repeat p c n : p c = true -> all_chars p (repeat_char c n) = true.
Proof. intros H. induction n; simpl; [reflexivity|]. now rewrite H. Qed.

Lemma length_repeat_char c n : String.length (repeat_char c n) = n.
Proof. induction n; simpl; congruence. Qed.


Lemma split_on_no_dot s : all_chars not_dot s = true -> split_on "." s = [s].
Proof.
  induction s as [|c s IH]; simpl; [reflexivity|]. unfold not_dot at 1.
  intros [Hc Hs]%andb_prop. destruct (Ascii.eqb c "."); [discriminate|].
  now rewrite IH.
Qed.

Lemma split_on_dot a b :
  all_chars not_dot a = true -> split_on "." (a ++ String "." b) = a :: split_on "." b.
Proof.
  induction a as [|c a IH]; simpl; [reflexivity|]. unfold not_dot at 1.
  intros [Hc Ha]%andb_prop. destruct (Ascii.eqb c "."); [discriminate|].
  now rewrite IH.
Qed.

Lemma is_digit_not_space c : is_digit c = true -> not_space c = true.
Proof. ascii_cases c; (reflexivity || discriminate). Qed.

Lemma is_digit_not_dot c : is_digit c = true -> not_dot c = true.
Proof. ascii_cases c; (reflexivity || discriminate). Qed.


Lemma denotes_empty : denotes "" 0.
Proof. split; [reflexivity|]. intros a. simpl. f_equal. lia. Qed.

Lemma digit_char_spec d : (d < 10)%N ->
  is_digit (digit_char d) = true /\ digit_value (digit_char d) = Some d.
Proof.
  intros H.
  assert (Hc : (d = 0 \/ d = 1 \/ d = 2 \/ d = 3 \/ d = 4 \/ d = 5 \/ d = 6 \/ d = 7
                \/ d = 8 \/ d = 9)%N) by lia.
  repeat (destruct Hc as [Hc|Hc]; [subst d; split; reflexivity|]).
  subst d; split; reflexivity.
Qed.

Lemma denotes_cons d s n : (d < 10)%N -> denotes s n ->
  denotes (String (digit_char d) s) (d * 10 ^ N.of_nat (String.length s) + n).
Proof.
  intros Hd [Hs Hv]. destruct (digit_char_spec d Hd) as [H1 H2]. split.
  - simpl. now rewrite H1.
  - intros a. cbn [digits_value String.length]. rewrite H2, Hv.
    f_equal. rewrite Nat2N.inj_succ, N.pow_succ_r'. lia.
Qed.

Lemma digits_value_app a s t :
  digits_value a (s ++ t) =
  match digits_value a s with
  | Some b => digits_value b t
  | None => None
  end.
Proof.
  revert a. induction s as [|c s IH]; intros a; simpl; [reflexivity|].
  destruct (digit_value c); [apply IH|reflexivity].
Qed.

Lemma denotes_app s t n m : denotes s n -> denotes t m ->
  denotes (s ++ t) (n * 10 ^ N.of_nat (String.length t) + m).
Proof.
  intros [Hs Hv] [Ht Hw]. split.
  - now rewrite all_chars_app, Hs, Ht.
  - intros a. rewrite digits_value_app, Hv, Hw, length_append. f_equal.
    rewrite Nat2N.inj_add, N.pow_add_r. lia.
Qed.

Lemma denotes_zeros k : denotes (repeat_char "0" k) 0.
Proof.
  induction k as [|k IH]; [apply denotes_empty|].
  change (repeat_char "0" (S k)) with (String (digit_char 0) (repeat_char "0" k)).
  replace 0%N with (0 * 10 ^ N.of_nat (String.length (repeat_char "0" k)) + 0)%N at 2 by lia.
  now apply denotes_cons.
Qed.

Lemma denotes_padStart k s n : denotes s n -> denotes (padStart k "0" s) n.
Proof.
  intros H. unfold padStart.
  replace n with (0 * 10 ^ N.of_nat (String.length s) + n)%N by lia.
  apply denotes_app; [apply denotes_zeros|assumption].
Qed.

Lemma N_digits_fuel_denotes fuel : forall n acc m,
  (n < 2 ^ N.of_nat fuel)%N -> denotes acc m ->
  denotes (N_digits_fuel fuel n acc) (n * 10 ^ N.of_nat (String.length acc) + m).
Proof.
  induction fuel as [|fuel IH]; intros n acc m Hn Hacc.
  - simpl in *. assert (n = 0)%N by lia. subst n. now rewrite N.mul_0_l, N.add_0_l.
  - cbn [N_digits_fuel]. destruct (N.ltb_spec n 10) as [Hlt|Hge].
    + now apply denotes_cons.
    + assert (Hmod : (n mod 10 < 10)%N) by (apply N.mod_lt; lia).
      pose proof (denotes_cons _ _ _ Hmod Hacc) as Hacc'.
      assert (Hdiv : (n / 10 < 2 ^ N.of_nat fuel)%N).
      { rewrite Nat2N.inj_succ, N.pow_succ_r' in Hn.
        apply N.Div0.div_lt_upper_bound. lia. }
      pose proof (IH _ _ _ Hdiv Hacc') as H.
      cbn [String.length] in H. rewrite Nat2N.inj_succ, N.pow_succ_r' in H.
      replace (n * 10 ^ N.of_nat (String.length acc) + m)%N
        with (n / 10 * (10 * 10 ^ N.of_nat (String.length acc)) +
              (n mod 10 * 10 ^ N.of_nat (String.length acc) + m))%N; [exact H|].
      pose proof (N.div_mod n 10 ltac:(lia)) as E. nia.
Qed.

Lemma N_to_string_denotes n : denotes (N_to_string n) n.
Proof.
  unfold N_to_string.
  replace n with (n * 10 ^ N.of_nat (String.length "") + 0)%N at 3 by (simpl; lia).
  apply N_digits_fuel_denotes; [|apply denotes_empty].
  rewrite Nat2N.inj_succ, N2Nat.id.
  destruct n as [|p]; [reflexivity|]. apply N.log2_lt_pow2; lia.
Qed.

Lemma N_digits_fuel_nonempty fuel n acc :
  (fuel <> 0%nat \/ acc <> "") -> N_digits_fuel fuel n acc <> "".
Proof.
  revert n acc. induction fuel as [|fuel IH]; intros n acc H; simpl.
  - destruct H; congruence.
  - destruct (n <? 10)%N; [discriminate|]. apply IH. right. discriminate.
Qed.

Lemma N_to_string_nonempty n : N_to_string n <> "".
Proof. apply N_digits_fuel_nonempty. left. discriminate. Qed.

Lemma denotes_value s n : denotes s n -> digits_value 0 s = Some n.
Proof. intros [_ H]. now rewrite H. Qed.

(** A run of decimal digits, with or without a minus sign, is no literal
    of another radix. *)
Lemma literal_radix_digits s :
  all_chars is_digit s = true -> literal_radix s = None.
Proof.
  destruct s as [|z [|x r]]; try reflexivity. cbn [all_chars literal_radix].
  intros H. apply andb_prop in H as [_ H]. apply andb_prop in H as [Hx _].
  destruct (Ascii.eqb z "0"); [|reflexivity].
  ascii_cases x; try discriminate Hx; reflexivity.
Qed.

Lemma literal_radix_minus s : literal_radix (String "-" s) = None.
Proof. destruct s; reflexivity. Qed.

Lemma BigInt_of_string_digits s n :
  denotes s n -> s <> "" -> BigInt_of_string s = Some (Z.of_N n).
Proof.
  intros H Hne. unfold BigInt_of_string. cbv zeta.
  rewrite trim_not_space by (apply (all_chars_weaken is_digit); [apply is_digit_not_space|apply H]).
  rewrite (literal_radix_digits s (proj1 H)).
  destruct s as [|c s]; [congruence|].
  assert (Hc : is_digit c = true) by (destruct H as [H _]; simpl in H; now apply andb_prop in H).
  pose proof (denotes_value _ _ H) as Hv.
  ascii_cases c; try discriminate Hc; rewrite Hv; reflexivity.
Qed.

Lemma BigInt_of_string_negative s n :
  denotes s n -> s <> "" -> BigInt_of_string (String "-" s) = Some (- Z.of_N n).
Proof.
  intros H Hne. unfold BigInt_of_string. cbv zeta.
  rewrite trim_not_space.
  2:{ simpl. apply (all_chars_weaken is_digit); [apply is_digit_not_space|apply H]. }
  rewrite literal_radix_minus.
  destruct s as [|c s]; [congruence|].
  now rewrite (denotes_value _ _ H).
Qed.

(* ================================================================== *)
(** * The counterparty key (findOrCreatePartnerBank, normalizeIban)    *)
(* ================================================================== *)


Lemma is_space_upper_char c : is_space (upper_char c) = is_space c.
Proof. ascii_cases c; reflexivity. Qed.

Lemma upper_char_idempotent c : upper_char (upper_char c) = upper_char c.
Proof. ascii_cases c; reflexivity. Qed.

Lemma upper_char_lower_char c : upper_char (lower_char c) = upper_char c.
Proof. ascii_cases c; reflexivity. Qed.

Lemma remove_spaces_toUpperCase s :
  remove_spaces (toUpperCase s) = toUpperCase (remove_spaces s).
Proof.
  unfold toUpperCase.
  induction s as [|c s IH]; simpl; [reflexivity|].
  rewrite is_space_upper_char. destruct (is_space c); simpl; now rewrite IH.
Qed.

Lemma remove_spaces_idempotent s : remove_spaces (remove_spaces s) = remove_spaces s.
Proof.
  induction s as [|c s IH]; simpl; [reflexivity|].
  destruct (is_space c) eqn:E; simpl; [assumption|]. now rewrite E, IH.
Qed.

Lemma toUpperCase_idempotent s : toUpperCase (toUpperCase s) = toUpperCase s.
Proof.
  unfold toUpperCase.
  induction s as [|c s IH]; simpl; [reflexivity|].
  now rewrite upper_char_idempotent, IH.
Qed.
Lemma account_key_idempotent s : account_key (account_key s) = account_key s.
Proof.
  unfold account_key.
  now rewrite remove_spaces_toUpperCase, remove_spaces_idempotent, toUpperCase_idempotent.
Qed.

Lemma normalizeIban_account_key s : Server.normalizeIban s = account_key s.
Proof. apply remove_spaces_toUpperCase. Qed.

Lemma account_key_same s t :
  same_modulo_case_space s t -> account_key s = account_key t.
Proof.
  unfold account_key, toUpperCase.
  induction 1 as [|c d s t Hcd _ IH|c s t Hc _ IH|c s t Hc _ IH]; simpl.
  - reflexivity.
  - assert (Hsp : is_space c = is_space d)
      by now rewrite <- (is_space_upper_char c), Hcd, is_space_upper_char.
    rewrite Hsp. destruct (is_space d); simpl; [assumption|]. now rewrite Hcd, IH.
  - now rewrite Hc.
  - now rewrite Hc.
Qed.

Lemma same_refl s : same_modulo_case_space s s.
Proof. induction s; constructor; auto. Qed.

Lemma same_toLowerCase s : same_modulo_case_space (toLowerCase s) s.
Proof.
  unfold toLowerCase. induction s as [|c s IH]; simpl; constructor; auto.
  apply upper_char_lower_char.
Qed.

(** Claim C10.  The normalisation of a counterparty identifier (white space
    removed, letters in upper case) is idempotent, in the script's form and
    in the server's, which agree; two raw identifiers that differ only in
    letter case or white space get the same key, so the resolution of either
    performs the same look-up and the same later steps. *)
Theorem C10_counterparty_key_normalised :
  (forall s, account_key (account_key s) = account_key s) /\
  (forall s, Server.normalizeIban (Server.normalizeIban s) = Server.normalizeIban s) /\
  (forall s t, same_modulo_case_space s t ->
     account_key s = account_key t /\
     forall faulty partnerId dryRun receivable payable,
       findOrCreatePartnerBank faulty partnerId s dryRun receivable payable =
       findOrCreatePartnerBank faulty partnerId t dryRun receivable payable).
Proof.
  split; [exact account_key_idempotent|]. split.
  - intros s. now rewrite !normalizeIban_account_key, account_key_idempotent.
  - intros s t H. pose proof (account_key_same s t H) as E. split; [exact E|].
    intros. unfold findOrCreatePartnerBank. now rewrite E.
Qed.

(** A lower-case address with a stray blank and its checksummed spelling
    resolve through the same key. *)
Lemma C10_counterparty_key_witness :
  account_key "0x6fdf0aae 33e313d9" = account_key "0x6fDF0AaE33E313d9".
Proof.
  apply (proj2 (proj2 C10_counterparty_key_normalised)).
  repeat first
    [ apply same_empty
    | apply same_letter; [reflexivity|]
    | apply same_space_left; [reflexivity|] ].
Defined.

(* ================================================================== *)
(** * Token amounts (formatTokenAmount, parseTokenAmount)              *)
(* ================================================================== *)

Lemma length_padStart k c s : (k <= String.length (padStart k c s))%nat.
Proof. unfold padStart. rewrite length_append, length_repeat_char. lia. Qed.

Lemma padEnd_full k c s : String.length s = k -> padEnd k c s = s.
Proof. intros <-. unfold padEnd. rewrite Nat.sub_diag. apply append_empty_r. Qed.

Lemma denotes_not_dot s n : denotes s n -> all_chars not_dot s = true.
Proof. intros [H _]. apply (all_chars_weaken is_digit); [apply is_digit_not_dot|exact H]. Qed.


Lemma BigInt_of_string_signed (neg : bool) s n :
  denotes s n -> s <> "" ->
  BigInt_of_string (if neg then String "-" s else s) = Some (signed neg n).
Proof.
  intros H Hne. destruct neg; [now apply BigInt_of_string_negative|now apply BigInt_of_string_digits].
Qed.

(** Splitting the text of [toFixed] at the point and gluing the parts again
    gives the digits of the rounded integer. *)
Lemma render_fixed_parse (neg : bool) n f :
  let parts := split_on "."%char (render_fixed neg n f) in
  BigInt_of_string (nth 0 parts EmptyString ++ padEnd f "0"%char (nth 1 parts EmptyString))
  = Some (signed neg n).
Proof.
  pose proof (N_to_string_denotes n) as Hm.
  pose proof (N_to_string_nonempty n) as Hne.
  unfold render_fixed. destruct f as [|f].
  - assert (Hsplit : split_on "." (if neg then String "-" (N_to_string n) else N_to_string n)
                     = [if neg then String "-" (N_to_string n) else N_to_string n]).
    { apply split_on_no_dot. destruct neg; simpl; [|]; now rewrite (denotes_not_dot _ _ Hm). }
    cbv zeta. rewrite Hsplit. cbn [nth]. unfold padEnd; simpl.
    rewrite append_empty_r. now apply BigInt_of_string_signed.
  - set (m' := padStart (S (S f)) "0" (N_to_string n)).
    assert (Hm' : denotes m' n) by now apply denotes_padStart.
    assert (Hlen : (S (S f) <= String.length m')%nat) by apply length_padStart.
    set (k := (String.length m' - S f)%nat).
    assert (Ha : all_chars not_dot (slice_to k m') = true)
      by (apply all_chars_slice_to; apply (denotes_not_dot _ _ Hm')).
    assert (Hb : all_chars not_dot (slice_from k m') = true)
      by (apply all_chars_slice_from; apply (denotes_not_dot _ _ Hm')).
    assert (Hsplit :
      split_on "." (if neg then String "-" (slice_to k m' ++ String "." (slice_from k m'))
                    else slice_to k m' ++ String "." (slice_from k m'))
      = [if neg then String "-" (slice_to k m') else slice_to k m'; slice_from k m']).
    { destruct neg.
      - change (String "-" (slice_to k m' ++ String "." (slice_from k m')))
          with (String "-" (slice_to k m') ++ String "." (slice_from k m')).
        rewrite split_on_dot by (simpl; exact Ha). now rewrite split_on_no_dot.
      - rewrite split_on_dot by exact Ha. now rewrite split_on_no_dot. }
    cbv zeta. fold m'. fold k. rewrite Hsplit. cbn [nth].
    rewrite padEnd_full by (rewrite length_slice_from; unfold k; lia).
    replace ((if neg then String "-" (slice_to k m') else slice_to k m') ++ slice_from k m')
      with (if neg then String "-" m' else m')
      by (destruct neg; simpl; now rewrite slice_to_from).
    apply BigInt_of_string_signed; [assumption|].
    intros E. rewrite E in Hlen. simpl in Hlen. lia.
Qed.


Lemma toFixed_integer_exact (s : bool) m e v d :
  0 <= d ->
  v * 2 ^ Z.max 0 (- e) = (if s then -1 else 1) * Zpos m * 2 ^ Z.max 0 e * 10 ^ d ->
  signed s (toFixed_integer (Z.to_nat d) m e) = v.
Proof.
  intros Hd H. unfold toFixed_integer. rewrite Z2Nat.id by assumption.
  assert (H10 : 0 < 10 ^ d) by (apply Z.pow_pos_nonneg; lia).
  destruct (Z.leb_spec 0 e) as [He|He].
  - rewrite Z.max_l in H by lia. rewrite Z.max_r in H by lia.
    rewrite Z.pow_0_r, Z.mul_1_r in H.
    assert (H2 : 0 < 2 ^ e) by (apply Z.pow_pos_nonneg; lia).
    assert (Hpos : 0 < Z.pos m * 10 ^ d * 2 ^ e)
      by (repeat apply Z.mul_pos_pos; lia).
    unfold signed. rewrite Z2N.id by lia. destruct s; lia.
  - rewrite Z.max_r in H by lia. rewrite Z.max_l in H by lia.
    rewrite Z.pow_0_r, Z.mul_1_r in H.
    assert (H2 : 0 < 2 ^ (- e)) by (apply Z.pow_pos_nonneg; lia).
    set (k := 2 ^ (- e)) in *. set (p := Z.pos m * 10 ^ d).
    assert (Hpp : 0 < p) by (apply Z.mul_pos_pos; lia).
    assert (Hp : p = Z.abs v * k).
    { unfold p in *. destruct s; [rewrite Z.abs_neq by nia|rewrite Z.abs_eq by nia]; lia. }
    assert (Hq : (2 * p + k) / (2 * k) = Z.abs v).
    { rewrite Hp. replace (2 * (Z.abs v * k) + k) with ((2 * Z.abs v + 1) * k) by ring.
      rewrite Z.div_mul_cancel_r by lia.
      symmetry. apply (Z.div_unique _ _ _ 1); lia. }
    rewrite Hq. unfold signed. rewrite Z2N.id by lia.
    unfold p in *. destruct s; [rewrite Z.abs_neq by nia|rewrite Z.abs_eq by nia]; lia.
Qed.

Lemma at_least_1e21_bound (s : bool) m e v d :
  0 <= d ->
  v * 2 ^ Z.max 0 (- e) = (if s then -1 else 1) * Zpos m * 2 ^ Z.max 0 e * 10 ^ d ->
  Z.abs v < 10 ^ (21 + d) ->
  at_least_1e21 m e = false.
Proof.
  intros Hd H Hv. unfold at_least_1e21.
  assert (H10 : 0 < 10 ^ d) by (apply Z.pow_pos_nonneg; lia).
  rewrite Z.pow_add_r in Hv by lia.
  assert (Habs : Z.abs v * 2 ^ Z.max 0 (- e) = Zpos m * 2 ^ Z.max 0 e * 10 ^ d).
  { assert (0 < 2 ^ Z.max 0 (- e)) by (apply Z.pow_pos_nonneg; lia).
    assert (0 < 2 ^ Z.max 0 e) by (apply Z.pow_pos_nonneg; lia).
    destruct s; [rewrite Z.abs_neq by nia|rewrite Z.abs_eq by nia]; nia. }
  destruct (Z.leb_spec 0 e) as [He|He]; apply Z.leb_gt.
  - rewrite Z.max_l in Habs by lia. rewrite Z.max_r in Habs by lia.
    rewrite Z.pow_0_r, Z.mul_1_r in Habs. nia.
  - rewrite Z.max_r in Habs by lia. rewrite Z.max_l in Habs by lia.
    rewrite Z.pow_0_r, Z.mul_1_r in Habs.
    assert (H2 : 0 < 2 ^ (- e)) by (apply Z.pow_pos_nonneg; lia). nia.
Qed.


Lemma parseTokenAmount_exact v d x :
  0 <= d <= 100 -> represents x v d -> Z.abs v < 10 ^ (21 + d) ->
  Blockchain.parseTokenAmount x d = Ok v.
Proof.
  intros Hd Hx Hv. unfold Blockchain.parseTokenAmount, toFixed.
  replace (Z.ltb d 0 || Z.ltb 100 d) with false
    by (symmetry; apply orb_false_intro; [apply Z.ltb_ge|apply Z.ltb_ge]; lia).
  destruct x as [s| s | |s m e]; simpl in Hx; try contradiction.
  - subst v. now rewrite render_fixed_parse.
  - rewrite (at_least_1e21_bound s m e v d) by (assumption || lia).
    rewrite render_fixed_parse.
    now rewrite (toFixed_integer_exact s m e v d) by (assumption || lia).
Qed.

(** ** Doubles: the cases in which rounding loses nothing *)

Local Close Scope string_scope.

Lemma digits2_pos_bounds p :
  2 ^ (Zpos (digits2_pos p) - 1) <= Zpos p < 2 ^ Zpos (digits2_pos p).
Proof.
  induction p as [p IH|p IH|]; cbn [digits2_pos].
  - rewrite Pos2Z.inj_succ. change (Zpos p~1) with (2 * Zpos p + 1).
    replace (Z.succ (Zpos (digits2_pos p)) - 1) with (Z.succ (Zpos (digits2_pos p) - 1)) by lia.
    rewrite !Z.pow_succ_r by lia.
    generalize dependent (2 ^ (Zpos (digits2_pos p) - 1)).
    generalize (2 ^ Zpos (digits2_pos p)). intros; lia.
  - rewrite Pos2Z.inj_succ. change (Zpos p~0) with (2 * Zpos p).
    replace (Z.succ (Zpos (digits2_pos p)) - 1) with (Z.succ (Zpos (digits2_pos p) - 1)) by lia.
    rewrite !Z.pow_succ_r by lia.
    generalize dependent (2 ^ (Zpos (digits2_pos p) - 1)).
    generalize (2 ^ Zpos (digits2_pos p)). intros; lia.
  - simpl. lia.
Qed.

Lemma digits2_pos_unique p k :
  2 ^ (k - 1) <= Zpos p < 2 ^ k -> Zpos (digits2_pos p) = k.
Proof.
  intros [Hl Hu]. pose proof (digits2_pos_bounds p) as [Bl Bu].
  set (c := Zpos (digits2_pos p)) in *.
  assert (Hc : 0 < c) by (unfold c; lia).
  assert (Hk : 0 < k).
  { destruct (Z.ltb_spec 0 k); [assumption|].
    destruct (Z.eq_dec k 0) as [->|]; [simpl in Hu; lia|].
    rewrite Z.pow_neg_r in Hu by lia. lia. }
  destruct (Z.lt_trichotomy c k) as [L|[E|G]]; [|assumption|].
  - assert (2 ^ c <= 2 ^ (k - 1)) by (apply Z.pow_le_mono_r; lia). lia.
  - assert (2 ^ k <= 2 ^ (c - 1)) by (apply Z.pow_le_mono_r; lia). lia.
Qed.

Lemma iter_pos_nat {A} (f : A -> A) p : forall x,
  iter_pos f p x = Nat.iter (Pos.to_nat p) f x.
Proof.
  induction p as [p IH|p IH|]; intros x; cbn [iter_pos].
  - rewrite !IH, Pos2Nat.inj_xI.
    replace (S (2 * Pos.to_nat p)) with (Pos.to_nat p + (Pos.to_nat p + 1))%nat by lia.
    rewrite !Nat.iter_add. reflexivity.
  - rewrite !IH, Pos2Nat.inj_xO.
    replace (2 * Pos.to_nat p)%nat with (Pos.to_nat p + Pos.to_nat p)%nat by lia.
    rewrite Nat.iter_add. reflexivity.
  - reflexivity.
Qed.

Lemma shr_1_even k :
  shr_1 {| shr_m := Zpos k~0; shr_r := false; shr_s := false |}
  = {| shr_m := Zpos k; shr_r := false; shr_s := false |}.
Proof. reflexivity. Qed.

Lemma shr_nat_exact n : forall k,
  Nat.iter n shr_1 {| shr_m := Zpos (Pos.shiftl_nat k n); shr_r := false; shr_s := false |}
  = {| shr_m := Zpos k; shr_r := false; shr_s := false |}.
Proof.
  induction n as [|n IH]; intros k; [reflexivity|].
  rewrite Nat.iter_succ_r. cbn [Pos.shiftl_nat nat_rect]. rewrite shr_1_even. apply IH.
Qed.

Lemma shiftl_nat_value n : forall k,
  Zpos (Pos.shiftl_nat k n) = Zpos k * 2 ^ Z.of_nat n.
Proof.
  induction n as [|n IH]; intros k.
  - simpl. lia.
  - cbn [Pos.shiftl_nat nat_rect]. change (Pos.shiftl_nat k n) with (nat_rect _ k (fun _ => xO) n) in IH.
    rewrite Pos2Z.inj_xO, IH, Nat2Z.inj_succ, Z.pow_succ_r by lia. ring.
Qed.

(** Dividing by a power of two that divides the mantissa loses nothing. *)
Lemma shr_exact (q k : positive) (n : positive) (e : Z) :
  Zpos q = Zpos k * 2 ^ Zpos n ->
  shr {| shr_m := Zpos q; shr_r := false; shr_s := false |} e (Zpos n)
  = ({| shr_m := Zpos k; shr_r := false; shr_s := false |}, e + Zpos n).
Proof.
  intros H. unfold shr. rewrite iter_pos_nat. f_equal.
  rewrite <- (shr_nat_exact (Pos.to_nat n) k). f_equal. f_equal.
  rewrite H, shiftl_nat_value, positive_nat_Z. reflexivity.
Qed.

Lemma fexp_normal x : 3 - emax - prec <= x - prec -> fexp prec emax x = x - prec.
Proof. unfold fexp, emin. lia. Qed.

(** Rounding a mantissa of [53 + n] binary digits that is a multiple of
    [2^n] is exact. *)
Lemma binary_round_aux_exact (s : bool) (q k : positive) (n e e' : Z) :
  e' = e + n ->
  0 <= n -> Zpos q = Zpos k * 2 ^ n ->
  Zpos (digits2_pos k) = prec ->
  3 - emax - prec <= e' <= emax - prec ->
  binary_round_aux prec emax s (Zpos q) e loc_Exact = S754_finite s k e'.
Proof.
  intros -> Hn Hq Hk He.
  assert (Hd : Zpos (digits2_pos q) = prec + n).
  { apply digits2_pos_unique. pose proof (digits2_pos_bounds k) as B. rewrite Hk in B.
    rewrite Hq. replace (prec + n - 1) with (prec - 1 + n) by lia.
    rewrite !Z.pow_add_r by (unfold prec; lia).
    assert (0 < 2 ^ n) by (apply Z.pow_pos_nonneg; lia). nia. }
  assert (Hs : forall m, Zpos (digits2_pos m) = prec ->
               shr_fexp prec emax (Zpos m) (e + n) loc_Exact
               = ({| shr_m := Zpos m; shr_r := false; shr_s := false |}, e + n)).
  { intros m Hm. unfold shr_fexp. cbn [Zdigits2 shr_record_of_loc]. rewrite Hm.
    rewrite fexp_normal by lia. replace (prec + (e + n) - prec - (e + n)) with 0 by lia.
    reflexivity. }
  unfold binary_round_aux.
  destruct n as [|n|n]; [| |lia].
  - rewrite Z.pow_0_r, Z.mul_1_r in Hq. injection Hq as ->.
    rewrite Z.add_0_r in *. rewrite (Hs k Hk). cbn [shr_m loc_of_shr_record round_nearest_even].
    rewrite (Hs k Hk). cbn [shr_m].
    replace (e <=? emax - prec) with true by (symmetry; apply Z.leb_le; lia). reflexivity.
  - unfold shr_fexp at 1. cbn [Zdigits2 shr_record_of_loc]. rewrite Hd.
    rewrite fexp_normal by lia. replace (prec + Zpos n + e - prec - e) with (Zpos n) by lia.
    rewrite (shr_exact q k n e Hq). cbn [shr_m loc_of_shr_record round_nearest_even].
    rewrite (Hs k Hk). cbn [shr_m].
    replace (e + Zpos n <=? emax - prec) with true by (symmetry; apply Z.leb_le; lia). reflexivity.
Qed.

Lemma iter_xO_value p k : Zpos (Pos.iter xO p k) = Zpos p * 2 ^ Zpos k.
Proof.
  induction k as [|k IH] using Pos.peano_ind.
  - cbn [Pos.iter]. change (Zpos p~0) with (2 * Zpos p). rewrite Z.pow_1_r. ring.
  - rewrite Pos.iter_succ, Pos2Z.inj_succ, Z.pow_succ_r by lia.
    change (Zpos (Pos.iter xO p k)~0) with (2 * Zpos (Pos.iter xO p k)). rewrite IH. ring.
Qed.

Lemma pow2_pos x : 0 <= x -> 0 < 2 ^ x.
Proof. intros. apply Z.pow_pos_nonneg; lia. Qed.

Lemma pow2_lt_inv x y : 2 ^ x < 2 ^ y -> x < y.
Proof.
  intros H. destruct (Z.lt_ge_cases x y) as [|G]; [assumption|].
  assert (2 ^ y <= 2 ^ x) by (apply Z.pow_le_mono_r; lia). lia.
Qed.

Lemma pow2_split x y : 0 <= x -> 0 <= y -> 2 ^ (x + y) = 2 ^ x * 2 ^ y.
Proof. intros. apply Z.pow_add_r; assumption. Qed.

(** The two ways of writing [x = y * 2^e] over the integers. *)
Lemma scaled_equation x y e L :
  0 <= L -> 0 <= L + e ->
  (x * 2 ^ Z.max 0 (- e) = y * 2 ^ Z.max 0 e <-> x * 2 ^ L = y * 2 ^ (L + e)).
Proof.
  intros HL HLe. destruct (Z.le_ge_cases 0 e) as [He|He].
  - rewrite Z.max_l, Z.max_r by lia. rewrite Z.pow_0_r, Z.mul_1_r.
    rewrite (Z.add_comm L e), pow2_split by lia. pose proof (pow2_pos L HL).
    split; [intros ->; ring|intros H1; apply (Z.mul_cancel_r _ _ (2 ^ L)); lia].
  - rewrite Z.max_r, Z.max_l by lia. rewrite Z.pow_0_r, Z.mul_1_r.
    replace L with (L + e + - e) at 1 by lia. rewrite (pow2_split (L + e) (- e)) by lia.
    pose proof (pow2_pos (L + e) HLe).
    split; [intros <-; ring|intros H1; apply (Z.mul_cancel_r _ _ (2 ^ (L + e))); lia].
Qed.

(** [Number] of a bigint that is a double: the canonical mantissa and
    exponent of the same value. *)
Lemma binary_round_integer (s : bool) (p : positive) (M E : Z) :
  0 <= M < 2 ^ prec -> 0 <= E <= emax - prec -> Zpos p = M * 2 ^ E ->
  exists m,
    binary_round prec emax s p 0 = S754_finite s m (Zpos (digits2_pos p) - prec) /\
    Zpos (digits2_pos m) = prec /\
    Zpos p * 2 ^ Z.max 0 (- (Zpos (digits2_pos p) - prec))
    = Zpos m * 2 ^ Z.max 0 (Zpos (digits2_pos p) - prec).
Proof.
  intros HM HE Hp. pose proof (digits2_pos_bounds p) as B.
  set (d := Zpos (digits2_pos p)) in *.
  assert (Hd : 0 < d) by (unfold d; lia).
  assert (H2E : 0 < 2 ^ E) by (apply pow2_pos; lia).
  assert (HdE : d - prec <= E).
  { destruct (Z.le_gt_cases (d - prec) E) as [|G]; [assumption|exfalso].
    assert (2 ^ (E + prec) <= 2 ^ (d - 1)) by (apply Z.pow_le_mono_r; lia).
    rewrite (Z.add_comm E prec), pow2_split in H by (unfold prec; lia). nia. }
  unfold binary_round, shl_align. rewrite Z.add_0_r. fold d.
  rewrite fexp_normal by (unfold emax, prec in *; lia).
  destruct (Z.le_gt_cases d prec) as [Hle|Hgt].
  - (* at most 53 digits: the mantissa is shifted to the left *)
    rewrite Z.max_r, Z.max_l by lia. rewrite Z.pow_0_r.
    destruct (d - prec - 0) as [|k|k] eqn:Hk; [| lia |].
    + exists p. replace (d - prec) with 0 by lia. split; [|split].
      * apply binary_round_aux_exact with (n := 0);
          [lia|lia|lia|unfold d in *; lia|unfold emax, prec; lia].
      * unfold d in *; lia.
      * simpl. lia.
    + exists (Pos.iter xO p k). assert (Hv := iter_xO_value p k).
      assert (Hkd : Zpos k = prec - d) by lia.
      assert (Hdig : Zpos (digits2_pos (Pos.iter xO p k)) = prec).
      { apply digits2_pos_unique. rewrite Hv, Hkd.
        assert (P1 : 2 ^ (prec - 1) = 2 ^ (d - 1) * 2 ^ (prec - d))
          by (rewrite <- pow2_split by lia; f_equal; lia).
        assert (P2 : 2 ^ prec = 2 ^ d * 2 ^ (prec - d))
          by (rewrite <- pow2_split by lia; f_equal; lia).
        rewrite P1, P2. pose proof (pow2_pos (prec - d) ltac:(lia)). nia. }
      split; [|split].
      * apply binary_round_aux_exact with (n := 0);
          [lia|lia|lia|assumption|unfold emax, prec in *; lia].
      * assumption.
      * rewrite Hv, Z.mul_1_r. f_equal. f_equal. lia.
  - (* more than 53 digits: the low bits are zero *)
    rewrite Z.max_l, Z.max_r by lia. rewrite Z.pow_0_r, Z.mul_1_r.
    destruct (d - prec - 0) as [|k|k] eqn:Hk; [lia| |lia].
    assert (Hq : Zpos p = (M * 2 ^ (E - (d - prec))) * 2 ^ (d - prec)).
    { rewrite <- Z.mul_assoc, <- pow2_split by lia. rewrite Hp. f_equal. f_equal. lia. }
    assert (Hpos : 0 < M * 2 ^ (E - (d - prec))).
    { pose proof (pow2_pos (d - prec) ltac:(lia)). nia. }
    destruct (M * 2 ^ (E - (d - prec))) as [|m|m] eqn:Hm; [lia| |lia].
    exists m.
    assert (Hdig : Zpos (digits2_pos m) = prec).
    { apply digits2_pos_unique. destruct B as [Bl Bu]. rewrite Hq in Bl, Bu.
      assert (P1 : 2 ^ (d - 1) = 2 ^ (prec - 1) * 2 ^ (d - prec))
        by (rewrite <- pow2_split by (unfold prec in *; lia); f_equal; lia).
      assert (P2 : 2 ^ d = 2 ^ prec * 2 ^ (d - prec))
        by (rewrite <- pow2_split by (unfold prec in *; lia); f_equal; lia).
      rewrite P1 in Bl. rewrite P2 in Bu.
      pose proof (pow2_pos (d - prec) ltac:(lia)). nia. }
    split; [|split].
    + apply binary_round_aux_exact with (n := d - prec);
        [lia|lia|assumption|assumption|unfold emax, prec in *; lia].
    + assumption.
    + exact Hq.
Qed.

Lemma new_location_zero m : new_location m 0 = loc_Exact.
Proof. unfold new_location. destruct (Z.even m); reflexivity. Qed.

Lemma div_eucl_exact q b : 0 < b -> Z.div_eucl (q * b) b = (q, 0).
Proof.
  intros Hb. pose proof (Z_div_mod (q * b) b ltac:(lia)) as H.
  destruct (Z.div_eucl (q * b) b) as [q0 r0]. destruct H as [H1 H2].
  assert (q0 = q) by nia. subst q0. f_equal. lia.
Qed.

(** A quotient of two normal doubles that is itself a double is computed
    exactly: [q] is the quotient of the mantissas, scaled by [2^53]. *)
Lemma SFdiv_exact (s1 s2 : bool) (m1 m2 : positive) (e1 e2 q : Z) :
  Zpos (digits2_pos m1) = prec -> Zpos (digits2_pos m2) = prec ->
  3 - emax <= e1 - e2 <= emax - 1 ->
  Zpos m1 * 2 ^ prec = q * Zpos m2 ->
  (2 ^ prec <= q -> Z.even q = true) ->
  exists k n,
    (n = 0 \/ n = 1) /\ q = Zpos k * 2 ^ n /\ Zpos (digits2_pos k) = prec /\
    SFdiv prec emax (S754_finite s1 m1 e1) (S754_finite s2 m2 e2)
    = S754_finite (xorb s1 s2) k (e1 - e2 - prec + n).
Proof.
  intros H1 H2 He Hq Heven.
  pose proof (digits2_pos_bounds m1) as B1. pose proof (digits2_pos_bounds m2) as B2.
  rewrite H1 in B1. rewrite H2 in B2.
  assert (P : 2 ^ prec = 2 * 2 ^ (prec - 1)) by reflexivity.
  assert (P0 : 0 < 2 ^ (prec - 1)) by reflexivity.
  assert (Hlo : 2 ^ (prec - 1) < q) by nia.
  assert (Hhi : q < 2 * 2 ^ prec) by nia.
  unfold SFdiv, SFdiv_core_binary. cbn [Zdigits2]. rewrite H1, H2.
  rewrite fexp_normal by (unfold emax, prec in *; lia).
  replace (Z.min (prec + e1 - (prec + e2) - prec) (e1 - e2)) with (e1 - e2 - prec)
    by (unfold prec; lia).
  replace (e1 - e2 - (e1 - e2 - prec)) with prec by lia.
  change (match prec with Z0 => Zpos m1 | Zpos _ => Z.shiftl (Zpos m1) prec | Zneg _ => 0 end)
    with (Z.shiftl (Zpos m1) prec).
  rewrite Z.shiftl_mul_pow2 by (unfold prec; lia). rewrite Hq.
  rewrite div_eucl_exact by lia. rewrite new_location_zero.
  destruct (Z.lt_ge_cases q (2 ^ prec)) as [Hs|Hb].
  - destruct q as [|k|k]; [lia| |lia]. exists k, 0. split; [now left|]. split; [simpl; lia|].
    assert (Hk : Zpos (digits2_pos k) = prec) by (apply digits2_pos_unique; lia).
    split; [assumption|].
    apply binary_round_aux_exact with (n := 0);
      [lia|lia|simpl; lia|assumption|unfold emax, prec in *; lia].
  - specialize (Heven Hb). destruct q as [|[k|k|]|k]; try discriminate Heven; try lia.
    exists k, 1. split; [now right|]. split; [change (Zpos k~0) with (2 * Zpos k); lia|].
    assert (Hk : Zpos (digits2_pos k) = prec).
    { apply digits2_pos_unique. change (Zpos k~0) with (2 * Zpos k) in *. lia. }
    split; [assumption|].
    apply binary_round_aux_exact with (n := 1);
      [lia|lia|change (Zpos k~0) with (2 * Zpos k); lia|assumption|unfold emax, prec in *; lia].
Qed.

Lemma quotient_mantissa (A B m1 m2 M e1 e2 E : Z) :
  0 < A -> 0 < B ->
  2 ^ (prec - 1) <= m1 < 2 ^ prec -> 2 ^ (prec - 1) <= m2 < 2 ^ prec -> 0 <= M < 2 ^ prec ->
  -1100 <= e1 <= 1100 -> -1100 <= e2 <= 1100 -> -1100 <= E <= 1100 ->
  A * 2 ^ Z.max 0 (- e1) = m1 * 2 ^ Z.max 0 e1 ->
  B * 2 ^ Z.max 0 (- e2) = m2 * 2 ^ Z.max 0 e2 ->
  A * 2 ^ Z.max 0 (- E) = M * 2 ^ Z.max 0 E * B ->
  exists q,
    m1 * 2 ^ prec = q * m2 /\
    (2 ^ prec <= q -> Z.even q = true) /\
    forall k n, 0 <= n <= 1 -> q = k * 2 ^ n ->
      A * 2 ^ Z.max 0 (- (e1 - e2 - prec + n))
      = k * 2 ^ Z.max 0 (e1 - e2 - prec + n) * B.
Proof.
  intros HA HB Hm1 Hm2 HM He1 He2 HE H1 H2 H3.
  assert (HL : exists L, 4000 <= L) by (exists 4000; lia). destruct HL as [L HL].
  assert (Hp : prec = 53) by reflexivity.
  apply (scaled_equation A m1 e1 L) in H1; [|clear - HL; lia|clear - HL He1; lia].
  apply (scaled_equation B m2 e2 L) in H2; [|clear - HL; lia|clear - HL He2; lia].
  replace (M * 2 ^ Z.max 0 E * B) with (M * B * 2 ^ Z.max 0 E) in H3 by ring.
  apply (scaled_equation A (M * B) E L) in H3; [|clear - HL; lia|clear - HL HE; lia].
  set (e' := e1 - e2 - prec).
  set (X := 2 ^ (2 * L + E + e2)).
  assert (HX : 0 < X) by (apply pow2_pos; lia).
  assert (PX : X = 2 ^ (L + E) * 2 ^ (L + e2))
    by (unfold X; rewrite <- pow2_split by lia; f_equal; lia).
  assert (P1 : 2 ^ (2 * L + e1) = 2 ^ (L + e1) * 2 ^ L)
    by (rewrite <- pow2_split by lia; f_equal; lia).
  assert (Hstar : m1 * 2 ^ (2 * L + e1) = M * m2 * X).
  { rewrite P1, PX.
    transitivity (A * 2 ^ L * 2 ^ L); [rewrite H1; ring|].
    rewrite H3. transitivity (M * 2 ^ (L + E) * (B * 2 ^ L)); [ring|]. rewrite H2. ring. }
  assert (P53 : 2 ^ prec = 2 * 2 ^ (prec - 1)) by reflexivity.
  assert (P52 : 0 < 2 ^ (prec - 1)) by reflexivity.
  assert (Hg : e' <= E).
  { destruct (Z.le_gt_cases e' E) as [|G]; [assumption|exfalso].
    assert (P : 2 ^ (2 * L + e1) = 2 ^ (e1 - E - e2) * X).
    { unfold X. rewrite <- pow2_split by (unfold e' in *; lia). f_equal. lia. }
    assert (HT : 2 ^ (prec + 1) <= 2 ^ (e1 - E - e2))
      by (apply Z.pow_le_mono_r; unfold e' in *; lia).
    rewrite P in Hstar.
    assert (P54 : 2 ^ (prec + 1) = 2 * 2 ^ prec) by reflexivity.
    assert (E1 : m1 * 2 ^ (e1 - E - e2) = M * m2)
      by (apply (Z.mul_cancel_r _ _ X); [lia|]; rewrite <- Hstar; ring).
    assert (E2 : M * m2 < 2 ^ prec * 2 ^ prec)
      by (apply Z.mul_lt_mono_nonneg; lia).
    assert (E3 : 2 ^ (prec - 1) * (2 * 2 ^ prec) <= m1 * 2 ^ (e1 - E - e2))
      by (apply Z.mul_le_mono_nonneg; lia).
    replace (2 ^ (prec - 1) * (2 * 2 ^ prec)) with (2 ^ prec * 2 ^ prec) in E3
      by (rewrite P53 at 1; ring).
    lia. }
  set (g := E - e').
  set (Y := 2 ^ (2 * L + e1 - prec)).
  assert (HY : 0 < Y) by (apply pow2_pos; lia).
  assert (Hg0 : 0 < 2 ^ g) by (apply pow2_pos; unfold g; lia).
  assert (PY : 2 ^ (2 * L + e1) = 2 ^ prec * Y)
    by (unfold Y; rewrite <- pow2_split by lia; f_equal; lia).
  assert (PG : X = 2 ^ g * Y)
    by (unfold X, Y; rewrite <- pow2_split by (unfold g in *; lia); f_equal; unfold g, e'; lia).
  assert (PE : 2 ^ (L + E) = 2 ^ g * 2 ^ (L + e'))
    by (rewrite <- pow2_split by (unfold g, e' in *; lia); f_equal; unfold g; lia).
  exists (M * 2 ^ g).
  assert (Q : m1 * 2 ^ prec = M * 2 ^ g * m2).
  { apply (Z.mul_cancel_r _ _ Y); [lia|].
    transitivity (m1 * 2 ^ (2 * L + e1)); [rewrite PY; ring|].
    rewrite Hstar, PG. ring. }
  split; [exact Q|]. split.
  - intros Hbig. destruct (Z.eq_dec g 0) as [G0|G0].
    + rewrite G0, Z.pow_0_r, Z.mul_1_r in Hbig. lia.
    + replace g with (Z.succ (g - 1)) by lia. rewrite Z.pow_succ_r by (unfold g in *; lia).
      replace (M * (2 * 2 ^ (g - 1))) with (2 * (M * 2 ^ (g - 1))) by ring.
      rewrite Z.even_mul. reflexivity.
  - intros k n Hn Hk.
    replace (k * 2 ^ Z.max 0 (e' + n) * B) with (k * B * 2 ^ Z.max 0 (e' + n)) by ring.
    apply (scaled_equation A (k * B) (e' + n) L); [lia|unfold e'; lia|].
    assert (PN : 2 ^ (L + (e' + n)) = 2 ^ n * 2 ^ (L + e'))
      by (rewrite <- pow2_split by (unfold e' in *; lia); f_equal; lia).
    rewrite H3, PE, PN.
    transitivity (M * 2 ^ g * B * 2 ^ (L + e')); [ring|]. rewrite Hk. ring.
Qed.

Lemma BigInt_of_num_exact (m : positive) (e b : Z) :
  b * 2 ^ Z.max 0 (- e) = Zpos m * 2 ^ Z.max 0 e ->
  Blockchain.BigInt_of_num (S754_finite false m e) = Ok b.
Proof.
  intros Hb. unfold Blockchain.BigInt_of_num.
  destruct (Z.leb_spec 0 e) as [He|He].
  - rewrite Z.max_l, Z.max_r in Hb by lia. rewrite Z.pow_0_r, Z.mul_1_r in Hb.
    rewrite Hb. f_equal. lia.
  - rewrite Z.max_r, Z.max_l in Hb by lia. rewrite Z.pow_0_r, Z.mul_1_r in Hb.
    assert (H2 : 0 < 2 ^ (- e)) by (apply pow2_pos; lia).
    rewrite <- Hb, Z.mod_mul by lia. cbn [Z.eqb]. rewrite Z.div_mul by lia. f_equal. lia.
Qed.

(** A bigint that is a double is a mantissa times a power of two. *)
Lemma double_integer_form (v : Z) :
  double_quotient v 1 ->
  exists M E, 0 <= M < 2 ^ prec /\ 0 <= E <= emax - prec /\ Z.abs v = M * 2 ^ E.
Proof.
  intros (M & E & HM & HE & H). rewrite Z.mul_1_r in H.
  destruct (Z.le_gt_cases 0 E) as [He|He].
  - exists M, E. rewrite Z.max_l, Z.max_r in H by lia.
    rewrite Z.pow_0_r, Z.mul_1_r in H. repeat split; lia.
  - exists (Z.abs v), 0. rewrite Z.max_r, Z.max_l in H by lia.
    rewrite Z.pow_0_r, Z.mul_1_r in H.
    assert (H2 : 0 < 2 ^ (- E)) by (apply pow2_pos; lia).
    assert (Z.abs v <= M) by nia.
    repeat split; try lia. unfold emax, prec; lia.
Qed.

(** [Number] of a non-zero bigint that is a double. *)
Lemma Number_of_Z_double (v : Z) :
  v <> 0 -> double_quotient v 1 ->
  exists m e,
    Number_of_Z v = S754_finite (v <? 0) m e /\
    Zpos (digits2_pos m) = prec /\ 1 - prec <= e <= emax - prec /\
    2 ^ (e + prec - 1) <= Z.abs v /\
    Z.abs v * 2 ^ Z.max 0 (- e) = Zpos m * 2 ^ Z.max 0 e.
Proof.
  intros Hv Hdq. destruct (double_integer_form v Hdq) as (M & E & HM & HE & H).
  assert (Hbound : forall p, Zpos p = M * 2 ^ E -> Zpos (digits2_pos p) <= emax).
  { intros p Hp. pose proof (digits2_pos_bounds p) as [Bl _].
    assert (H2 : 0 < 2 ^ E) by (apply pow2_pos; lia).
    assert (Hle : 2 ^ E <= 2 ^ (emax - prec)) by (apply Z.pow_le_mono_r; lia).
    assert (Hlt : Zpos p < 2 ^ prec * 2 ^ (emax - prec)).
    { rewrite Hp. apply Z.lt_le_trans with (2 ^ prec * 2 ^ E).
      - apply Z.mul_lt_mono_pos_r; lia.
      - apply Z.mul_le_mono_nonneg_l; lia. }
    rewrite <- pow2_split in Hlt by (unfold emax, prec; lia).
    assert (Hd : Zpos (digits2_pos p) - 1 < prec + (emax - prec))
      by (apply pow2_lt_inv; lia).
    lia. }
  destruct v as [|p|p]; [congruence| |]; cbn [Z.abs] in H.
  - destruct (binary_round_integer false p M E HM HE H) as (m & R1 & R2 & R3).
    exists m, (Zpos (digits2_pos p) - prec). repeat split; try assumption.
    + unfold prec; lia.
    + specialize (Hbound p H). lia.
    + replace (Zpos (digits2_pos p) - prec + prec - 1) with (Zpos (digits2_pos p) - 1) by lia.
      apply digits2_pos_bounds.
  - destruct (binary_round_integer true p M E HM HE H) as (m & R1 & R2 & R3).
    exists m, (Zpos (digits2_pos p) - prec). repeat split; try assumption.
    + unfold prec; lia.
    + specialize (Hbound p H). lia.
    + replace (Zpos (digits2_pos p) - prec + prec - 1) with (Zpos (digits2_pos p) - 1) by lia.
      apply digits2_pos_bounds.
Qed.

(** The powers of ten up to [10^22] are doubles. *)
Lemma pow10_double (d : Z) : 0 <= d <= 22 -> double_quotient (10 ^ d) 1.
Proof.
  intros Hd. exists (5 ^ d), d.
  assert (H5 : 0 < 5 ^ d) by (apply Z.pow_pos_nonneg; lia).
  assert (H522 : 5 ^ d <= 5 ^ 22) by (apply Z.pow_le_mono_r; lia).
  assert (H53 : 5 ^ 22 < 2 ^ prec) by reflexivity.
  split; [lia|]. split; [unfold emax, prec; lia|].
  rewrite Z.max_l, Z.max_r by lia. rewrite Z.pow_0_r, !Z.mul_1_r.
  rewrite Z.abs_eq by (apply Z.pow_nonneg; lia).
  change 10 with (5 * 2). apply Z.pow_mul_l.
Qed.

(** Decoding is exact whenever the raw value and the decoded value are
    both doubles. *)
Lemma formatTokenAmount_exact (pow10 : Z -> num) (v d : Z) :
  exact_powers pow10 -> 0 <= d <= 22 ->
  double_quotient v 1 -> double_quotient v (10 ^ d) ->
  exists x, Blockchain.formatTokenAmount pow10 (Blockchain.RawBigInt v) d = Ok x /\
            represents x v d.
Proof.
  intros Hpow Hd Hv Hq.
  assert (H10 : 0 < 10 ^ d) by (apply Z.pow_pos_nonneg; lia).
  destruct (Number_of_Z_double (10 ^ d) ltac:(lia) (pow10_double d Hd))
    as (m2 & e2 & N2 & D2 & E2 & L2 & V2).
  replace (10 ^ d <? 0) with false in N2 by (symmetry; apply Z.ltb_ge; lia).
  rewrite Z.abs_eq in V2, L2 by lia.
  assert (E2' : e2 <= 21).
  { assert (H22 : 10 ^ d <= 10 ^ 22) by (apply Z.pow_le_mono_r; lia).
    assert (H74 : 10 ^ 22 < 2 ^ 74) by reflexivity.
    assert (e2 + prec - 1 < 74) by (apply pow2_lt_inv; lia).
    unfold prec in *; lia. }
  unfold Blockchain.formatTokenAmount. rewrite (Hpow d Hd), N2.
  rewrite (BigInt_of_num_exact m2 e2 (10 ^ d) V2). rewrite N2.
  destruct (Z.eq_dec v 0) as [->|Hv0].
  - exists (S754_zero false). split; reflexivity.
  - destruct (Number_of_Z_double v Hv0 Hv) as (m1 & e1 & N1 & D1 & E1 & _ & V1).
    rewrite N1. destruct Hq as (M & E & HM & HE & HQ).
    pose proof (digits2_pos_bounds m1) as B1. rewrite D1 in B1.
    pose proof (digits2_pos_bounds m2) as B2. rewrite D2 in B2.
    assert (Hb1 : -1100 <= e1 <= 1100) by (clear - E1; unfold emax, prec in *; lia).
    assert (Hb2 : -1100 <= e2 <= 1100) by (clear - E2 E2'; unfold emax, prec in *; lia).
    assert (HbE : -1100 <= E <= 1100) by (clear - HE; unfold emax, prec in *; lia).
    assert (Hb3 : 3 - emax <= e1 - e2 <= emax - 1)
      by (clear - E1 E2 E2'; unfold emax, prec in *; lia).
    assert (HA : 0 < Z.abs v) by (clear - Hv0; lia).
    destruct (quotient_mantissa (Z.abs v) (10 ^ d) (Zpos m1) (Zpos m2) M e1 e2 E
                HA H10 B1 B2 HM Hb1 Hb2 HbE V1 V2 HQ) as (q & Q1 & Q2 & Q3).
    destruct (SFdiv_exact (v <? 0) false m1 m2 e1 e2 q D1 D2 Hb3 Q1 Q2)
      as (k & n & Hn & Hk & Dk & R).
    exists (S754_finite (xorb (v <? 0) false) k (e1 - e2 - prec + n)).
    split; [unfold num_div; now rewrite R|].
    cbn [represents]. specialize (Q3 (Zpos k) n ltac:(clear - Hn; lia) Hk).
    rewrite xorb_false_r.
    destruct (Z.ltb_spec v 0) as [Hneg|Hpos].
    + rewrite Z.abs_neq in Q3 by lia.
      replace (-1 * Zpos k * 2 ^ Z.max 0 (e1 - e2 - prec + n) * 10 ^ d)
        with (- (Zpos k * 2 ^ Z.max 0 (e1 - e2 - prec + n) * 10 ^ d)) by ring.
      rewrite <- Q3. ring.
    + rewrite Z.abs_eq in Q3 by lia. rewrite Q3. ring.
Qed.

(** Beyond precision 22 only 0 is a double together with its quotient by
    [10^d]: a non-zero mantissa would be a multiple of [5^23]. *)
Lemma no_double_pair_beyond_22 (v d : Z) :
  22 < d -> double_quotient v 1 -> double_quotient v (10 ^ d) -> v = 0.
Proof.
  intros Hd Hv (M & E & HM & HE & H).
  destruct (double_integer_form v Hv) as (M1 & E1 & HM1 & HE1 & H1).
  destruct (Z.eq_dec M1 0) as [->|Hnz]; [lia|exfalso].
  rewrite H1 in H. change 10 with (5 * 2) in H. rewrite Z.pow_mul_l in H.
  assert (Hdiv : (5 ^ d | 2 ^ (E1 + Z.max 0 (- E)) * M1)).
  { exists (M * 2 ^ Z.max 0 E * 2 ^ d). rewrite pow2_split by lia.
    transitivity (M1 * 2 ^ E1 * 2 ^ Z.max 0 (- E)); [ring|]. rewrite H. ring. }
  apply Z.gauss in Hdiv.
  2:{ apply Z.coprime_pow_l; [lia|]. apply Z.coprime_pow_r; [lia|]. reflexivity. }
  apply Z.divide_pos_le in Hdiv; [|lia].
  assert (H23 : 5 ^ 23 <= 5 ^ d) by (apply Z.pow_le_mono_r; lia).
  assert (H53 : 2 ^ prec < 5 ^ 23) by reflexivity.
  lia.
Qed.

Local Open Scope string_scope.

(** Claim C8, as amended.  On an engine whose [10 ** d] is exact up to
    [d = 22]: decoding ["1000000000000000000"] at 18 decimals gives 1 and
    ["100000000"] at 6 decimals gives 100; for a precision [d] from 0 to 22
    and a raw value [v] of magnitude below [10^(21+d)], given as a bigint
    or as its text, if [v] and [v / 10^d] are both doubles then decoding
    returns the double that is exactly [v / 10^d] and encoding that double
    returns [v]; and beyond precision 22 no raw value other than 0 is a
    double together with its quotient by [10^d]. *)
Theorem C8_decimal_round_trip (pow10 : Z -> num) :
  exact_powers pow10 ->
  Blockchain.formatTokenAmount pow10 (Blockchain.RawString "1000000000000000000") 18
    = Ok (Number_of_Z 1) /\
  Blockchain.formatTokenAmount pow10 (Blockchain.RawString "100000000") 6
    = Ok (Number_of_Z 100) /\
  (forall amount v d,
     raw_value amount = Some v ->
     0 <= d <= 22 -> Z.abs v < 10 ^ (21 + d) ->
     double_quotient v 1 -> double_quotient v (10 ^ d) ->
     exists x,
       Blockchain.formatTokenAmount pow10 amount d = Ok x /\
       represents x v d /\
       Blockchain.parseTokenAmount x d = Ok v) /\
  (forall v d,
     22 < d -> double_quotient v 1 -> double_quotient v (10 ^ d) -> v = 0).
Proof.
  intros Hpow. split; [|split; [|split]].
  - unfold Blockchain.formatTokenAmount. rewrite (Hpow 18) by lia. vm_compute. reflexivity.
  - unfold Blockchain.formatTokenAmount. rewrite (Hpow 6) by lia. vm_compute. reflexivity.
  - intros amount v d Hraw Hd Hv H1 H2.
    destruct (formatTokenAmount_exact pow10 v d Hpow Hd H1 H2) as (x & Hx & Hr).
    exists x. split; [|split].
    + destruct amount as [s|z]; cbn [raw_value] in Hraw.
      * unfold Blockchain.formatTokenAmount in *. now rewrite Hraw.
      * now injection Hraw as ->.
    + exact Hr.
    + apply parseTokenAmount_exact; [lia|exact Hr|exact Hv].
  - apply no_double_pair_beyond_22.
Qed.

(** The round trip of the test suite, 1.5 tokens at 18 decimals, on the
    engine with the nearest powers. *)
Lemma C8_decimal_round_trip_witness :
  exists x,
    Blockchain.formatTokenAmount nearest_pow10
      (Blockchain.RawString "1500000000000000000") 18 = Ok x /\
    represents x 1500000000000000000 18 /\
    Blockchain.parseTokenAmount x 18 = Ok 1500000000000000000.
Proof.
  assert (Hpow : exact_powers nearest_pow10).
  { intros d Hd. unfold nearest_pow10. destruct (Z.leb_spec 0 d); [reflexivity|lia]. }
  apply (proj1 (proj2 (proj2 (C8_decimal_round_trip nearest_pow10 Hpow)))).
  - vm_compute; reflexivity.
  - lia.
  - vm_compute; reflexivity.
  - exists 11444091796875, 17. vm_compute. repeat split; congruence.
  - exists 3, (-1). vm_compute. repeat split; congruence.
Defined.

(** Claim C8 as stated fails, on the engine with the nearest powers, for
    each reading of "exactly representable".  The raw value [10^21] at
    precision 0 is a double and so is its quotient by [10^0]; it is decoded
    exactly, to the double 1e21, for which [toFixed] answers in exponent
    notation (["1e+21"]): encoding raises a [SyntaxError].  The raw value
    90071992547409910 at precision 1 has the double [2^53 - 1] as its
    quotient by 10 but is no double itself: [Number] rounds it, and the
    round trip returns 90071992547409900.  The raw value [2^60] at
    precision 18 is a double but its quotient by [10^18] is none: the
    round trip returns 1152921504606847058. *)
Lemma C8_counterexample_round_trip :
  (double_quotient (10 ^ 21) 1 /\ double_quotient (10 ^ 21) (10 ^ 0) /\
   Blockchain.formatTokenAmount nearest_pow10 (Blockchain.RawBigInt (10 ^ 21)) 0
     = Ok (Number_of_Z (10 ^ 21)) /\
   represents (Number_of_Z (10 ^ 21)) (10 ^ 21) 0 /\
   Blockchain.parseTokenAmount (Number_of_Z (10 ^ 21)) 0
     = Throw (mk_exn SyntaxError "Cannot convert to a BigInt")) /\
  (double_quotient 90071992547409910 (10 ^ 1) /\
   Blockchain.formatTokenAmount nearest_pow10 (Blockchain.RawBigInt 90071992547409910) 1
     = Ok (Number_of_Z 9007199254740990) /\
   Blockchain.parseTokenAmount (Number_of_Z 9007199254740990) 1
     = Ok 90071992547409900) /\
  (double_quotient (2 ^ 60) 1 /\
   Blockchain.formatTokenAmount nearest_pow10 (Blockchain.RawBigInt (2 ^ 60)) 18
     = Ok (S754_finite false 5192296858534828 (-52)) /\
   Blockchain.parseTokenAmount (S754_finite false 5192296858534828 (-52)) 18
     = Ok 1152921504606847058).
Proof.
  split; [|split].
  - split; [exists 476837158203125, 21; vm_compute; repeat split; congruence|].
    split; [exists 476837158203125, 21; vm_compute; repeat split; congruence|].
    split; [vm_compute; reflexivity|]. split; vm_compute; reflexivity.
  - split; [exists 9007199254740991, 0; vm_compute; repeat split; congruence|].
    split; vm_compute; reflexivity.
  - split; [exists 1, 60; vm_compute; repeat split; congruence|].
    split; vm_compute; reflexivity.
Qed.

Local Close Scope string_scope.

(* ================================================================== *)
(** * The transfer source (EtherscanClient)                            *)
(* ================================================================== *)

(** The text of the thrown error mentions "No transactions found" exactly
    when the reported message does: the fixed prefix cannot contribute. *)
Lemma includes_after_prefix t :
  includes Etherscan.no_transactions_found ("Etherscan API error: " ++ t)%string
  = includes Etherscan.no_transactions_found t.
Proof. reflexivity. Qed.

Lemma includes_after_failed t :
  includes Etherscan.no_transactions_found ("Etherscan API request failed: " ++ t)%string
  = includes Etherscan.no_transactions_found t.
Proof. reflexivity. Qed.

Definition array_or_empty (v : Etherscan.jsvalue) : list Etherscan.EtherscanTokenTransfer :=
  match v with
  | Etherscan.VArray items => items
  | _ => []
  end.

(** What the error of a failure-status reply says: the message, or the
    result when the message is empty. *)
Definition failure_text (data : Etherscan.api_data) : string :=
  Etherscan.to_string (Etherscan.or_else (Etherscan.data_message data)
                                         (Etherscan.data_result data)).

(** What [getTokenTransfers] makes of an error of [request]: the empty
    list when the text of the error contains "No transactions found", the
    error itself otherwise. *)
Definition raised_unless_phrase (e : exn) : result (list Etherscan.EtherscanTokenTransfer) :=
  if includes Etherscan.no_transactions_found (exn_message e) then Ok [] else Throw e.

(** Claim C7, as amended.  What a transfer-source fetch returns is decided
    by the reply to its one request.
    - A body with status "0" and the message "No transactions found": the
      result array of the body (the empty list when the result is no
      array); nothing is raised.
    - A body with status "0" and another message (a rate-limit rejection):
      the error "Etherscan API error: <message || result>" is raised to the
      caller, unless that text contains "No transactions found", in which
      case the fetch returns the empty list.
    - An HTTP failure: the error "Etherscan API request failed:
      <statusText>", with the same exception for a status text that
      contains the phrase.
    - No connection, or a body that is not JSON: the error of [fetch] or of
      the JSON parser, with the same exception.
    - Any other body, also one with no status at all: the result array of
      the body, or the empty list; nothing is raised. *)
Theorem C7_fetch_outcomes
    (network : Etherscan.query -> Etherscan.fetch_outcome)
    (client : Etherscan.EtherscanClient) (address : string)
    (contractAddress : option string) (startBlock endBlock : option Z)
    (page offset : Z) :
  let reply := network (Etherscan.request_params client
                          (Etherscan.tokentx_params address contractAddress startBlock
                             endBlock page offset)) in
  let fetched := Etherscan.getTokenTransfers network client address contractAddress
                   startBlock endBlock page offset in
  (forall data,
     reply = Etherscan.FetchJson data ->
     Etherscan.is_string "0" (Etherscan.data_status data) = true ->
     Etherscan.is_string Etherscan.no_transactions_found (Etherscan.data_message data) = true ->
     fetched = Ok (array_or_empty (Etherscan.data_result data))) /\
  (forall data,
     reply = Etherscan.FetchJson data ->
     Etherscan.is_string "0" (Etherscan.data_status data) = true ->
     Etherscan.is_string Etherscan.no_transactions_found (Etherscan.data_message data) = false ->
     fetched = if includes Etherscan.no_transactions_found (failure_text data)
               then Ok []
               else Throw (mk_exn Error ("Etherscan API error: " ++ failure_text data)%string)) /\
  (forall statusText,
     reply = Etherscan.FetchNotOk statusText ->
     fetched = if includes Etherscan.no_transactions_found statusText
               then Ok []
               else Throw (mk_exn Error ("Etherscan API request failed: " ++ statusText)%string)) /\
  (forall e,
     reply = Etherscan.FetchRejected e \/ reply = Etherscan.FetchBadBody e ->
     fetched = raised_unless_phrase e) /\
  (forall data,
     reply = Etherscan.FetchJson data ->
     Etherscan.is_string "0" (Etherscan.data_status data) = false ->
     fetched = Ok (array_or_empty (Etherscan.data_result data))).
Proof.
  cbv zeta. unfold Etherscan.getTokenTransfers, Etherscan.request.
  split; [|split; [|split; [|split]]].
  - intros data -> Hstatus Hmsg. rewrite Hstatus, Hmsg. reflexivity.
  - intros data -> Hstatus Hmsg. rewrite Hstatus, Hmsg. cbn [andb negb exn_message].
    fold (failure_text data). rewrite includes_after_prefix.
    now destruct (includes Etherscan.no_transactions_found (failure_text data)).
  - intros statusText ->. cbn [exn_message]. rewrite includes_after_failed.
    now destruct (includes Etherscan.no_transactions_found statusText).
  - intros e [-> | ->]; reflexivity.
  - intros data -> Hstatus. rewrite Hstatus. reflexivity.
Qed.

Definition answering (data : Etherscan.api_data) : Etherscan.query -> Etherscan.fetch_outcome :=
  fun _ => Etherscan.FetchJson data.

Definition gnosis_client : Etherscan.EtherscanClient :=
  Etherscan.mk_client "https://api.etherscan.io/v2/api" "KEY" 100.

(** A rate-limit rejection is raised to the caller. *)
Lemma C7_fetch_outcomes_witness :
  Etherscan.getTokenTransfers
    (answering (Etherscan.mk_data (Etherscan.VString "0") (Etherscan.VString "NOTOK")
                  (Etherscan.VString "Max rate limit reached")))
    gnosis_client walletAddress (Some tokenAddress) None None 1 10000
  = Throw (mk_exn Error "Etherscan API error: NOTOK").
Proof.
  apply (proj1 (proj2
           (C7_fetch_outcomes
              (answering (Etherscan.mk_data (Etherscan.VString "0") (Etherscan.VString "NOTOK")
                            (Etherscan.VString "Max rate limit reached")))
              gnosis_client walletAddress (Some tokenAddress) None None 1 10000))
           (Etherscan.mk_data (Etherscan.VString "0") (Etherscan.VString "NOTOK")
              (Etherscan.VString "Max rate limit reached"))).
  - reflexivity.
  - reflexivity.
  - reflexivity.
Defined.

(** Claim C7 as stated fails.  A failure-status reply whose message is not
    "No transactions found" but contains it is caught by
    [getTokenTransfers] and read as an empty result, not raised.  So is an
    HTTP failure whose status text contains the phrase.  And a malformed
    body, one that has neither status nor message nor result, raises
    nothing either: it is read as an empty result. *)
Lemma C7_counterexample_swallowed_failures :
  (let data := Etherscan.mk_data (Etherscan.VString "0")
                 (Etherscan.VString "Error! No transactions found")
                 (Etherscan.VString "") in
   Etherscan.is_string "0" (Etherscan.data_status data) = true /\
   Etherscan.is_string Etherscan.no_transactions_found (Etherscan.data_message data) = false /\
   Etherscan.getTokenTransfers (answering data) gnosis_client walletAddress
     (Some tokenAddress) None None 1 10000 = Ok []) /\
  Etherscan.getTokenTransfers (fun _ => Etherscan.FetchNotOk "No transactions found")
    gnosis_client walletAddress (Some tokenAddress) None None 1 10000 = Ok [] /\
  Etherscan.getTokenTransfers
    (answering (Etherscan.mk_data Etherscan.VUndefined Etherscan.VUndefined
                  Etherscan.VUndefined))
    gnosis_client walletAddress (Some tokenAddress) None None 1 10000 = Ok [].
Proof.
  cbv zeta. split; [split; [reflexivity|split; reflexivity]|]. split; reflexivity.
Qed.

(* ================================================================== *)
(** * The ledger gateway (OdooClient)                                  *)
(* ================================================================== *)

Definition unauthenticated (w : world) : Prop :=
  uid_truthy (uid (w_client w)) = false.

Lemma require_uid_unauthenticated w :
  unauthenticated w -> require_uid w = (Throw not_authenticated, w).
Proof. unfold unauthenticated, require_uid, bind, this. now intros ->. Qed.

Lemma guarded_unauthenticated {A} (k : M A) w :
  unauthenticated w -> (require_uid ;; k) w = (Throw not_authenticated, w).
Proof. intros H. unfold bind. now rewrite require_uid_unauthenticated. Qed.

(** A failed [authenticate] leaves an unauthenticated client
    unauthenticated. *)
Lemma authenticate_failed faulty w w' :
  unauthenticated w -> authenticate faulty w = (Ok false, w') -> unauthenticated w'.
Proof.
  unfold unauthenticated, authenticate, try_catch, bind, callRPC_login, set_uid, ret, console.
  intros Hw. destruct (faulty _ _).
  - cbn. intros [= <-]. exact Hw.
  - cbn. intros [= H <-]. exact H.
Qed.

(** Claim C6, as amended.  While no [authenticate] has succeeded ([uid] is
    unset, or holds the [false] or [0] of a refused login), every public
    operation of the client class that is built on the remote-call
    primitive (the searches and reads, the two invoice listings whatever
    follows their guard, the creations, the post action, and the composite
    find-or-create) raises "Not authenticated. Call authenticate() first."
    and leaves the state as it was: no request has been issued, nothing was
    written to the console.  A failed [authenticate] does not change this.
    (The helper of the import script that reaches the primitive directly is
    not among them.) *)
Theorem C6_not_authenticated
    (faulty : list request -> request -> option exn) (w : world) :
  unauthenticated w ->
  (forall journal limit, getLatestTransactions faulty journal limit w = (Throw not_authenticated, w)) /\
  getJournals faulty w = (Throw not_authenticated, w) /\
  (forall (Invoice : Type) rest limit direction since until,
     getLatestInvoices Invoice rest limit direction since until w
     = (Throw not_authenticated, w)) /\
  (forall (InvoiceDetails : Type) rest invoiceId,
     getInvoiceDetails InvoiceDetails rest invoiceId w = (Throw not_authenticated, w)) /\
  (forall ref, checkJournalEntryExists faulty ref w = (Throw not_authenticated, w)) /\
  (forall entry, createJournalEntry faulty entry w = (Throw not_authenticated, w)) /\
  (forall name, getAccountIdByName faulty name w = (Throw not_authenticated, w)) /\
  (forall ident, getPartnerIdByBankIdentifier faulty ident w = (Throw not_authenticated, w)) /\
  (forall name, getPartnerIdByName faulty name w = (Throw not_authenticated, w)) /\
  (forall id, postJournalEntry faulty id w = (Throw not_authenticated, w)) /\
  getAccounts faulty w = (Throw not_authenticated, w) /\
  (forall ident, findBankAccountByIdentifier faulty ident w = (Throw not_authenticated, w)) /\
  (forall name address receivable payable,
     createPartner faulty name address receivable payable w = (Throw not_authenticated, w)) /\
  (forall iban partnerId name,
     createBankAccount faulty iban partnerId name w = (Throw not_authenticated, w)) /\
  (forall ident name address,
     findOrCreateBankAccount faulty ident name address w = (Throw not_authenticated, w)) /\
  (forall w', authenticate faulty w = (Ok false, w') -> unauthenticated w').
Proof.
  intros H.
  repeat match goal with
         | |- _ /\ _ => split
         end;
    intros;
    try (apply guarded_unauthenticated; exact H).
  - unfold findOrCreateBankAccount, findBankAccountByIdentifier.
    unfold bind at 1. now rewrite guarded_unauthenticated.
  - now apply (authenticate_failed faulty w).
Qed.

Definition empty_ledger : ledger :=
  mk_ledger [] [] [] [] [] [] [] [] 1 UidFalse FUndefined FUndefined.

Definition example_config : OdooConfig :=
  mk_config "https://odoo.example.org" "ledger" "bot" "secret".

(** A client fresh from its constructor. *)
Definition fresh_world (dryRun : bool) : world :=
  mk_world (new_client example_config dryRun) empty_ledger [] [].

(** On a fresh client [createPartner] raises before any request. *)
Lemma C6_not_authenticated_witness :
  createPartner reliable "Unknown" None None None (fresh_world false)
  = (Throw not_authenticated, fresh_world false).
Proof.
  apply (C6_not_authenticated reliable (fresh_world false)).
  reflexivity.
Defined.

(** A ledger that refuses every request. *)
Definition access_denied : list request -> request -> option exn :=
  fun _ _ => Some (mk_exn Error "Access Denied").

(** Claim C6 as stated fails for the operations of the import script, which
    reach the remote-call primitive through the script's own helper and
    without the guard.  On a client fresh from its constructor the
    statement lookup of the script raises no "Not authenticated": it sends
    its search, and then its creation, with the unset [uid]; and what it
    raises against a ledger that refuses the requests is the refusal, after
    the search was sent. *)
Lemma C6_counterexample_script_helper :
  unauthenticated (fresh_world false) /\
  fst (ImportTxs.getOrCreateMonthlyStatement reliable 55 "2024-09" false (fresh_world false))
    = Ok 1 /\
  w_trace (snd (ImportTxs.getOrCreateMonthlyStatement reliable 55 "2024-09" false
                  (fresh_world false)))
    = [ExecuteKw "ledger" UidNull "secret" (StatementSearchRead 55 "Feed 2024-09");
       ExecuteKw "ledger" UidNull "secret"
         (StatementCreate "Feed 2024-09" 55 "2024-09-01")]%string /\
  fst (ImportTxs.getOrCreateMonthlyStatement access_denied 55 "2024-09" false
         (fresh_world false))
    = Throw (mk_exn Error "Access Denied") /\
  w_trace (snd (ImportTxs.getOrCreateMonthlyStatement access_denied 55 "2024-09" false
                  (fresh_world false)))
    = [ExecuteKw "ledger" UidNull "secret" (StatementSearchRead 55 "Feed 2024-09")]%string.
Proof.
  split; [reflexivity|]. split; [vm_compute; reflexivity|].
  split; [vm_compute; reflexivity|]. split; vm_compute; reflexivity.
Qed.

(* ================================================================== *)
(** * Running the script against a reliable ledger                     *)
(* ================================================================== *)

(** The request that [callRPC] sends for a call in the state [w]. *)
Definition issue (c : call) (w : world) : request :=
  ExecuteKw (database (config (w_client w))) (uid (w_client w))
    (password (config (w_client w))) c.

(** Unfolds the plumbing of the effects, and nothing of the data. *)
Ltac run :=
  cbn [bind ret throw try_catch console this set_uid set_client ImportTxs.callRPC
       Odoo.callRPC callRPC_login reliable record_request serve fst snd require_uid
       w_client w_ledger w_trace w_console config uid dryRun issue
       database password username for_each exit].

Lemma bind_ok {A B} (m : M A) (k : A -> M B) w a w' :
  m w = (Ok a, w') -> bind m k w = k a w'.
Proof. unfold bind. now intros ->. Qed.

Lemma bind_throw {A B} (m : M A) (k : A -> M B) w e w' :
  m w = (Throw e, w') -> bind m k w = (Throw e, w').
Proof. unfold bind. now intros ->. Qed.

(* ================================================================== *)
(** * Closing a monthly statement (closeStatementIfNeeded)             *)
(* ================================================================== *)

(** The lines of a statement, as [sumStatementLineAmounts] reads them. *)
Definition statement_lines (statementId : Z) (l : ledger) : list statement_line :=
  take 100000 (filter (fun ln => line_statement_id ln =? statementId) (lines l)).

(** The sum of their amounts, added left to right from [0]. *)
Definition lines_total (ls : list statement_line) : num :=
  fold_left (fun acc l => num_add acc (number_or_zero (FNumber (line_amount l)))) ls num_zero.

(** The balance the close procedure computes: the line total is rounded to
    two decimals, added to the opening balance, and the sum rounded again. *)
Definition closing_balance (st : statement) (ls : list statement_line) : num :=
  round2 (num_add (number_or_zero (balance_start st)) (round2 (lines_total ls))).

(** The record [read] returns for an id: the first one carrying it. *)
Definition found_statement (id : Z) (l : ledger) : option statement :=
  match filter (fun s => statement_id s =? id) (statements l) with
  | st :: _ => Some st
  | [] => None
  end.

Definition closing_unset (st : statement) : bool :=
  isNaN (number_or_nan (balance_end_real st)).

Definition write_balance (id : Z) (x : num) (s : statement) : statement :=
  if statement_id s =? id
  then mk_statement (statement_id s) (statement_journal_id s) (statement_name s)
         (statement_date s) (balance_start s) (FNumber x) (statement_posted s)
  else s.

Definition post_statement (id : Z) (s : statement) : statement :=
  if statement_id s =? id
  then mk_statement (statement_id s) (statement_journal_id s) (statement_name s)
         (statement_date s) (balance_start s) (balance_end_real s) true
  else s.

Lemma close_unset_real w statementId st :
  found_statement statementId (w_ledger w) = Some st ->
  closing_unset st = true ->
  let x := closing_balance st (statement_lines statementId (w_ledger w)) in
  closeStatementIfNeeded reliable statementId false w =
  (Ok tt,
   mk_world (w_client w)
     (with_statements 0
        (map (post_statement statementId)
           (map (write_balance statementId x) (statements (w_ledger w))))
        (with_statements 0 (map (write_balance statementId x) (statements (w_ledger w)))
           (w_ledger w)))
     (w_trace w ++ [issue (StatementRead statementId) w;
                    issue (LineSearchReadStatement statementId) w;
                    issue (StatementWrite statementId x) w;
                    issue (StatementButtonPost statementId) w])
     (w_console w ++ [LogClosed statementId x])).
Proof.
  intros Hfound Hnan x. unfold found_statement in Hfound. unfold closing_unset in Hnan.
  unfold closeStatementIfNeeded, sumStatementLineAmounts. run.
  destruct (filter _ (statements (w_ledger w))) as [|st' rest] eqn:E; [discriminate|].
  injection Hfound as ->. rewrite Hnan. run.
  rewrite <- !app_assoc. cbn [app]. reflexivity.
Qed.

Lemma close_set_real w statementId st :
  found_statement statementId (w_ledger w) = Some st ->
  closing_unset st = false ->
  closeStatementIfNeeded reliable statementId false w =
  (Ok tt,
   mk_world (w_client w)
     (with_statements 0 (map (post_statement statementId) (statements (w_ledger w)))
        (w_ledger w))
     (w_trace w ++ [issue (StatementRead statementId) w;
                    issue (StatementButtonPost statementId) w])
     (w_console w ++ [LogClosed statementId (number_or_nan (balance_end_real st))])).
Proof.
  intros Hfound Hnan. unfold found_statement in Hfound. unfold closing_unset in Hnan.
  unfold closeStatementIfNeeded. run.
  destruct (filter _ (statements (w_ledger w))) as [|st' rest] eqn:E; [discriminate|].
  injection Hfound as ->. rewrite Hnan. run.
  rewrite <- !app_assoc. cbn [app]. reflexivity.
Qed.

Lemma in_map_post_write id x (l : list statement) s' :
  In s' (map (post_statement id) (map (write_balance id x) l)) ->
  statement_id s' = id ->
  balance_end_real s' = FNumber x.
Proof.
  rewrite map_map. intros [s [<- _]]%in_map_iff.
  unfold post_statement, write_balance.
  destruct (statement_id s =? id) eqn:E; cbn [statement_id]; rewrite E; cbn.
  - reflexivity.
  - intros H. apply Z.eqb_neq in E. contradiction.
Qed.

Lemma in_map_post id (l : list statement) s' :
  In s' (map (post_statement id) l) ->
  exists s, In s l /\ statement_id s = statement_id s'
            /\ balance_end_real s = balance_end_real s'.
Proof.
  intros [s [<- Hs]]%in_map_iff. exists s. split; [exact Hs|].
  unfold post_statement. now destruct (statement_id s =? id).
Qed.

(** Claim C3, as amended.  Let the close procedure run, outside dry-run and
    against a ledger that answers, on a period whose record is [st].
    - If the closing balance of [st] is unset, the balance written to the
      ledger, and held afterwards by every record with that id, is
      [closing_balance]: the sum of the period's line amounts rounded to two
      decimals, added to the opening balance, rounded to two decimals again.
      It is the opening balance plus the line sum, rounded once, whenever
      the line sum has no more than two decimals.
    - If the closing balance is set, it is not recomputed: the lines are not
      read, nothing is written, every record keeps its balance. *)
Theorem C3_closing_balance (w : world) (statementId : Z) (st : statement) :
  found_statement statementId (w_ledger w) = Some st ->
  let ls := statement_lines statementId (w_ledger w) in
  let w' := snd (closeStatementIfNeeded reliable statementId false w) in
  fst (closeStatementIfNeeded reliable statementId false w) = Ok tt /\
  (closing_unset st = true ->
     In (issue (StatementWrite statementId (closing_balance st ls)) w) (w_trace w') /\
     (forall s', In s' (statements (w_ledger w')) -> statement_id s' = statementId ->
                 balance_end_real s' = FNumber (closing_balance st ls)) /\
     (round2 (lines_total ls) = lines_total ls ->
      closing_balance st ls
      = round2 (num_add (number_or_zero (balance_start st)) (lines_total ls)))) /\
  (closing_unset st = false ->
     w_trace w' = w_trace w ++ [issue (StatementRead statementId) w;
                                issue (StatementButtonPost statementId) w] /\
     (forall s', In s' (statements (w_ledger w')) ->
                 exists s, In s (statements (w_ledger w))
                           /\ statement_id s = statement_id s'
                           /\ balance_end_real s = balance_end_real s')).
Proof.
  intros Hfound ls w'. subst w'. destruct (closing_unset st) eqn:Hunset.
  - rewrite (close_unset_real w statementId st Hfound Hunset). cbn [fst snd].
    split; [reflexivity|]. split; [|discriminate]. intros _. split; [|split].
    + cbn [w_trace]. apply in_or_app. right. cbn. auto.
    + cbn [w_ledger with_statements statements]. intros s'. apply in_map_post_write.
    + intros E. unfold closing_balance. now rewrite E.
  - rewrite (close_set_real w statementId st Hfound Hunset). cbn [fst snd].
    split; [reflexivity|]. split; [discriminate|]. intros _. split; [reflexivity|].
    cbn [w_ledger with_statements statements]. intros s'. apply in_map_post.
Qed.

(** A September period with an opening balance of 10 and two lines. *)
Definition september : statement :=
  mk_statement 7 55 "Feed 2024-09" "2024-09-01" (FNumber (Number_of_Z 10)) FUndefined false.

Definition september_ledger : ledger :=
  mk_ledger [] [] [] [] [] [] [september]
    [mk_line 8 7 "2024-09-15" "0xaa:1:0xt" (Number_of_decimal false 150 2) "tx" (Some "0xaa"%string);
     mk_line 9 7 "2024-09-16" "0xbb:2:0xt" (Number_of_decimal true 25 2) "tx" (Some "0xbb"%string)]
    10 (UidNumber 2) FUndefined FUndefined.

Definition september_world : world :=
  mk_world (mk_odoo example_config (UidNumber 2) false) september_ledger [] [].

Lemma C3_closing_balance_witness :
  fst (closeStatementIfNeeded reliable 7 false september_world) = Ok tt.
Proof.
  apply (C3_closing_balance september_world 7 september).
  reflexivity.
Defined.

(** Claim C3 as stated fails.  With an opening balance of 0.004 and a single
    line of 0.004 the procedure writes 0: the line sum is rounded to 0.00
    before the opening balance is added.  The opening balance plus the line
    sum is 0.008, which rounds to 0.01. *)
Lemma C3_counterexample_double_rounding :
  let opening := Number_of_decimal false 4 3 in
  let st := mk_statement 7 55 "Feed 2024-09" "2024-09-01" (FNumber opening) FUndefined false in
  let ln := mk_line 8 7 "2024-09-15" "0xaa:1:0xt" (Number_of_decimal false 4 3) "tx" (Some "0xaa"%string) in
  let w := mk_world (mk_odoo example_config (UidNumber 2) false)
             (mk_ledger [] [] [] [] [] [] [st] [ln] 10 (UidNumber 2) FUndefined FUndefined)
             [] [] in
  map balance_end_real
      (statements (w_ledger (snd (closeStatementIfNeeded reliable 7 false w))))
    = [FNumber (S754_zero false)] /\
  round2 (num_add opening (lines_total [ln])) = Number_of_decimal false 1 2 /\
  Number_of_decimal false 1 2 <> S754_zero false.
Proof.
  cbv zeta. split; [vm_compute; reflexivity|]. split; [vm_compute; reflexivity|].
  vm_compute. discriminate.
Qed.

(* ================================================================== *)
(** * Decisions of a run                                               *)
(* ================================================================== *)

(** What the import decided for an event or a month, as the console shows
    it: a line created (or, in dry-run, announced), an event skipped as a
    duplicate, a month kept open. *)
Inductive decision : Type :=
| Imported (hash : string)
| Skipped (hash : string)
| KeptOpen (monthKey : string).

Definition decision_of (e : log_entry) : list decision :=
  match e with
  | LogSkipDuplicate h => [Skipped h]
  | LogWouldCreateLine h _ _ => [Imported h]
  | LogLineCreated _ h _ _ => [Imported h]
  | LogKeepOpen mk => [KeptOpen mk]
  | _ => []
  end.

Definition decisions (w : world) : list decision :=
  flat_map decision_of (w_console w).

(** The [unique_import_id]s the lines of the ledger carry. *)
Definition import_ids (l : ledger) : list string :=
  flat_map (fun ln => match line_unique_import_id ln with
                      | Some u => [u]
                      | None => []
                      end) (lines l).

Definition known (seen : list string) (u : string) : bool :=
  existsb (String.eqb u) seen.

(** The two fields of a line that identify the event it records. *)
Definition line_key (ln : statement_line) : string * option string :=
  (line_payment_ref ln, line_unique_import_id ln).

Definition event_key (r : Etherscan.EtherscanTokenTransfer) : string * option string :=
  (payment_ref r, unique_import_id r).

(** An event is a duplicate when some line already carries its trimmed
    transaction hash. *)
Definition duplicate (seen : list string) (r : Etherscan.EtherscanTokenTransfer) : bool :=
  match unique_import_id r with
  | Some u => known seen u
  | None => false
  end.

Definition seen_with (seen : list string) (r : Etherscan.EtherscanTokenTransfer)
  : list string :=
  match unique_import_id r with
  | Some u => seen ++ [u]
  | None => seen
  end.

(** The events of a list that a real run imports, given the ids already in
    the ledger: each event that is no duplicate of a line or of an earlier
    event of the list. *)
Fixpoint imported_events (seen : list string) (items : list item)
  : list Etherscan.EtherscanTokenTransfer :=
  match items with
  | [] => []
  | (r, _) :: rest =>
      if duplicate seen r then imported_events seen rest
      else r :: imported_events (seen_with seen r) rest
  end.

(** The ids in the ledger after a real run over the list. *)
Fixpoint seen_after (seen : list string) (items : list item) : list string :=
  match items with
  | [] => seen
  | (r, _) :: rest =>
      if duplicate seen r then seen_after seen rest
      else seen_after (seen_with seen r) rest
  end.

(** The decisions of a run over the events of one month; a dry run does
    not learn from the events it would import. *)
Fixpoint item_decisions (real : bool) (seen : list string) (items : list item)
  : list decision :=
  match items with
  | [] => []
  | (r, _) :: rest =>
      if duplicate seen r then Skipped (Etherscan.hash r) :: item_decisions real seen rest
      else Imported (Etherscan.hash r)
           :: item_decisions real (if real then seen_with seen r else seen) rest
  end.

Definition month_tail (currentMonthKey monthKey : string) : list decision :=
  if string_lt monthKey currentMonthKey then [] else [KeptOpen monthKey].

Fixpoint month_decisions (real : bool) (currentMonthKey : string) (seen : list string)
    (byMonth : list (string * list item)) : list decision :=
  match byMonth with
  | [] => []
  | (monthKey, items) :: rest =>
      item_decisions real seen items ++ month_tail currentMonthKey monthKey
      ++ month_decisions real currentMonthKey
           (if real then seen_after seen items else seen) rest
  end.

Definition all_items (byMonth : list (string * list item)) : list item :=
  flat_map snd byMonth.

(** The client can issue calls, and creates for real. *)
Definition ready (w : world) : Prop :=
  uid_truthy (uid (w_client w)) = true /\ dryRun (w_client w) = false.

Definition authenticated (w : world) : Prop :=
  uid_truthy (uid (w_client w)) = true.

(** A step that touches neither the client, nor the statement lines, nor
    the decisions on the console. *)
Definition quiet (w w' : world) : Prop :=
  w_client w' = w_client w /\
  lines (w_ledger w') = lines (w_ledger w) /\
  decisions w' = decisions w.

(** A step that moreover leaves the whole ledger as it was. *)
Definition idle (w w' : world) : Prop :=
  quiet w w' /\ w_ledger w' = w_ledger w.

(** A remote side that can fail only on the creation of a statement line. *)
Definition is_line_create (c : call) : bool :=
  match c with
  | LineCreate _ => true
  | _ => false
  end.

Definition fails_only_on_line_create (faulty : list request -> request -> option exn) : Prop :=
  forall h db u pw c, is_line_create c = false -> faulty h (ExecuteKw db u pw c) = None.

(* ================================================================== *)
(** * Steps that succeed and keep an invariant                         *)
(* ================================================================== *)

Section Sound.

Variable P : world -> Prop.
Variable R : world -> world -> Prop.
Hypothesis R_refl : forall w, R w w.
Hypothesis R_trans : forall a b c, R a b -> R b c -> R a c.
Hypothesis R_keeps : forall w w', P w -> R w w' -> P w'.

(** From a state satisfying [P] the step returns a value, and relates the
    states by [R]. *)
Definition sound {A : Type} (m : M A) : Prop :=
  forall w, P w -> exists a w', m w = (Ok a, w') /\ R w w'.

Lemma sound_ret {A} (a : A) : sound (ret a).
Proof. intros w _. exists a, w. auto. Qed.

Lemma sound_bind {A B} (m : M A) (k : A -> M B) :
  sound m -> (forall a, sound (k a)) -> sound (bind m k).
Proof.
  intros Hm Hk w Hw. destruct (Hm w Hw) as (a & w1 & E1 & R1).
  destruct (Hk a w1 (R_keeps _ _ Hw R1)) as (b & w2 & E2 & R2).
  exists b, w2. split; [|eauto]. unfold bind. now rewrite E1.
Qed.

Lemma sound_try_catch {A} (m : M A) (h : exn -> M A) :
  sound m -> sound (try_catch m h).
Proof.
  intros Hm w Hw. destruct (Hm w Hw) as (a & w1 & E1 & R1).
  exists a, w1. split; [|assumption]. unfold try_catch. now rewrite E1.
Qed.

Lemma sound_for_each {A} (body : A -> M unit) (items : list A) :
  (forall x, In x items -> sound (body x)) -> sound (for_each body items).
Proof.
  induction items as [|x rest IH]; intros H; cbn [for_each].
  - apply sound_ret.
  - apply sound_bind; [apply H; now left|]. intros _. apply IH. intros y Hy. apply H. now right.
Qed.

End Sound.

(* ================================================================== *)
(** * The steps of the script succeed                                  *)
(* ================================================================== *)

Section ScriptSteps.

Variable faulty : list request -> request -> option exn.
Variable P : world -> Prop.
Variable R : world -> world -> Prop.
Variable writes_allowed : bool.
Hypothesis R_refl : forall w, R w w.
Hypothesis R_trans : forall a b c, R a b -> R b c -> R a c.
Hypothesis R_keeps : forall w w', P w -> R w w' -> P w'.
Hypothesis P_uid : forall w, P w -> authenticated w.
Hypothesis R_console : forall e w,
  decision_of e = [] ->
  R w (mk_world (w_client w) (w_ledger w) (w_trace w) (w_console w ++ [e])).
Hypothesis call_ok : forall c,
  is_line_create c = false -> (is_write c = true -> writes_allowed = true) ->
  sound P R (Odoo.callRPC faulty c).

Lemma console_ok e : decision_of e = [] -> sound P R (console e).
Proof. intros He w _. exists tt. eexists. split; [reflexivity|]. now apply R_console. Qed.

Lemma require_uid_ok : sound P R require_uid.
Proof.
  intros w Hw. exists tt, w. split; [|apply R_refl].
  unfold require_uid, bind, this. now rewrite (P_uid w Hw).
Qed.

Lemma this_ok : sound P R this.
Proof. intros w _. exists (w_client w), w. split; [reflexivity|apply R_refl]. Qed.

Ltac steps :=
  repeat first
    [ apply (sound_ret P R R_refl)
    | apply require_uid_ok
    | apply this_ok
    | apply console_ok; reflexivity
    | match goal with
      | |- sound _ _ (Odoo.callRPC _ ?c) =>
          refine (call_ok c _ _);
          [reflexivity | first [discriminate | intros _; assumption | intros _; auto]]
      end
    | apply (sound_try_catch P R)
    | apply (sound_bind P R R_trans R_keeps); [|intros]
    | match goal with
      | |- sound _ _ (match ?x with _ => _ end) => destruct x
      | |- sound _ _ (if ?b then _ else _) => destruct b
      end ].

Lemma findBankAccountByIdentifier_ok ident :
  sound P R (findBankAccountByIdentifier faulty ident).
Proof. unfold findBankAccountByIdentifier. steps. Qed.

Lemma getPartnerIdByName_ok name : sound P R (getPartnerIdByName faulty name).
Proof. unfold getPartnerIdByName. steps. Qed.

Lemma createPartner_ok name address receivable payable :
  writes_allowed = true ->
  sound P R (createPartner faulty name address receivable payable).
Proof. intros Hw. unfold createPartner. steps. Qed.

Lemma createBankAccount_ok iban partnerId name :
  writes_allowed = true ->
  sound P R (createBankAccount faulty iban partnerId name).
Proof. intros Hw. unfold createBankAccount. steps. Qed.

Lemma findOrCreatePartnerByName_ok name dry receivable payable :
  (dry = false -> writes_allowed = true) ->
  sound P R (findOrCreatePartnerByName faulty name dry receivable payable).
Proof.
  intros Hdry. unfold findOrCreatePartnerByName.
  destruct (negb (truthy_string (trim name))); [steps|].
  apply (sound_bind P R R_trans R_keeps); [apply getPartnerIdByName_ok|intros found].
  destruct (negb (no_id found)); [steps|].
  destruct dry; [steps|]. apply createPartner_ok. now apply Hdry.
Qed.

Lemma findOrCreatePartnerBank_ok partnerId iban dry receivable payable :
  (dry = false -> writes_allowed = true) ->
  sound P R (findOrCreatePartnerBank faulty partnerId iban dry receivable payable).
Proof.
  intros Hdry. unfold findOrCreatePartnerBank.
  destruct (negb (truthy_string (account_key iban))); [steps|].
  apply (sound_bind P R R_trans R_keeps); [apply findBankAccountByIdentifier_ok|intros found].
  destruct (negb (no_id found)); [steps|].
  destruct dry; [steps|].
  apply (sound_bind P R R_trans R_keeps).
  - destruct (negb (partnerId =? 0)); [steps|]. now apply findOrCreatePartnerByName_ok.
  - intros pid. apply createBankAccount_ok. now apply Hdry.
Qed.

Lemma getOrCreateMonthlyStatement_ok journal monthKey dry :
  (dry = false -> writes_allowed = true) ->
  sound P R (getOrCreateMonthlyStatement faulty journal monthKey dry).
Proof.
  intros Hdry. unfold getOrCreateMonthlyStatement, ImportTxs.callRPC.
  apply (sound_bind P R R_trans R_keeps); [steps|intros found].
  destruct found; [|steps]. destruct dry; [steps|].
  refine (call_ok (StatementCreate _ _ _) _ _); [reflexivity|]. intros _. now apply Hdry.
Qed.

Lemma sumStatementLineAmounts_ok statementId :
  sound P R (sumStatementLineAmounts faulty statementId).
Proof. unfold sumStatementLineAmounts, ImportTxs.callRPC. steps. Qed.

Lemma closeStatementIfNeeded_ok statementId dry :
  (dry = false -> writes_allowed = true) ->
  sound P R (closeStatementIfNeeded faulty statementId dry).
Proof.
  intros Hdry. unfold closeStatementIfNeeded, ImportTxs.callRPC.
  apply (sound_bind P R R_trans R_keeps); [steps|intros recs].
  destruct recs as [|st rest]; [steps|].
  apply (sound_bind P R R_trans R_keeps).
  - destruct (isNaN _); [|steps].
    apply (sound_bind P R R_trans R_keeps); [apply sumStatementLineAmounts_ok|intros sumLines].
    cbv zeta.
    apply (sound_bind P R R_trans R_keeps); [|intros; steps].
    destruct dry; [steps|].
    apply (sound_bind P R R_trans R_keeps); [|intros; steps].
    refine (call_ok (StatementWrite _ _) _ _); [reflexivity|]. intros _. now apply Hdry.
  - intros endReal. destruct dry; [steps|].
    apply (sound_try_catch P R).
    apply (sound_bind P R R_trans R_keeps); [|intros; steps].
    refine (call_ok (StatementButtonPost _) _ _); [reflexivity|]. intros _. now apply Hdry.
Qed.

Lemma closeAllPastMonthlyStatements_ok journal currentMonthKey dry :
  (dry = false -> writes_allowed = true) ->
  sound P R (closeAllPastMonthlyStatements faulty journal currentMonthKey dry).
Proof.
  intros Hdry. unfold closeAllPastMonthlyStatements, ImportTxs.callRPC.
  apply (sound_bind P R R_trans R_keeps); [steps|intros allSts].
  apply (sound_for_each P R R_refl R_trans R_keeps). intros st _.
  destruct (feed_month (statement_name st)); [|steps].
  destruct (string_lt _ _); [|steps]. now apply closeStatementIfNeeded_ok.
Qed.

Lemma main_partner_accounts_ok partnerId receivable payable :
  writes_allowed = true ->
  sound P R (main_partner_accounts faulty partnerId receivable payable).
Proof.
  intros Hw. unfold main_partner_accounts, ImportTxs.callRPC.
  apply (sound_bind P R R_trans R_keeps); [steps|intros partners].
  destruct partners as [|partner rest]; [steps|]. cbv zeta.
  destruct (property_account_receivable_id partner), (property_account_payable_id partner);
    steps.
Qed.

End ScriptSteps.

(* ================================================================== *)
(** * A real run                                                       *)
(* ================================================================== *)

Lemma decisions_console_app w e :
  decisions (mk_world (w_client w) (w_ledger w) (w_trace w) (w_console w ++ [e]))
  = decisions w ++ decision_of e.
Proof. unfold decisions. cbn [w_console]. rewrite flat_map_app. cbn. now rewrite app_nil_r. Qed.

Lemma quiet_refl w : quiet w w.
Proof. repeat split. Qed.

Lemma quiet_trans a b c : quiet a b -> quiet b c -> quiet a c.
Proof. intros (H1 & H2 & H3) (K1 & K2 & K3). repeat split; congruence. Qed.

Lemma quiet_ready w w' : ready w -> quiet w w' -> ready w'.
Proof. intros Hw (H1 & _). unfold ready in *. now rewrite H1. Qed.

Lemma ready_authenticated w : ready w -> authenticated w.
Proof. now intros [H _]. Qed.

Lemma quiet_console e w :
  decision_of e = [] ->
  quiet w (mk_world (w_client w) (w_ledger w) (w_trace w) (w_console w ++ [e])).
Proof.
  intros He. repeat split. rewrite decisions_console_app, He. apply app_nil_r.
Qed.

(** Only the creation of a statement line changes the lines; only writes
    change the ledger. *)
Lemma serve_lines c l : is_line_create c = false -> lines (snd (serve c l)) = lines l.
Proof. destruct c; intros H; try discriminate H; reflexivity. Qed.

Lemma serve_read c l : is_write c = false -> snd (serve c l) = l.
Proof. destruct c; intros H; try discriminate H; reflexivity. Qed.

Section RealRun.

Variable faulty : list request -> request -> option exn.
Hypothesis only_line_create : fails_only_on_line_create faulty.

Lemma callRPC_answers c w :
  is_line_create c = false ->
  Odoo.callRPC faulty c w =
  (Ok (fst (serve c (w_ledger w))),
   mk_world (w_client w) (snd (serve c (w_ledger w))) (w_trace w ++ [issue c w]) (w_console w)).
Proof.
  intros Hc. unfold Odoo.callRPC. rewrite only_line_create by exact Hc.
  unfold issue. now destruct (serve c (w_ledger w)).
Qed.

Lemma real_call_ok c :
  is_line_create c = false -> (is_write c = true -> true = true) ->
  sound ready quiet (Odoo.callRPC faulty c).
Proof.
  intros Hc _ w _. eexists. eexists. split; [now apply callRPC_answers|].
  repeat split. cbn [w_ledger]. now apply serve_lines.
Qed.

(** The generic steps, for a real run. *)
Definition real_steps {A} (m : M A) : Prop := sound ready quiet m.

Ltac real_instance lemma :=
  unfold real_steps;
  eapply lemma with (writes_allowed := true);
  first [ exact quiet_refl | exact quiet_trans | exact quiet_ready
        | exact ready_authenticated | exact quiet_console | exact real_call_ok
        | reflexivity | intros; reflexivity ].

Lemma real_findBankAccountByIdentifier ident :
  real_steps (findBankAccountByIdentifier faulty ident).
Proof. real_instance findBankAccountByIdentifier_ok. Qed.

Lemma real_findOrCreatePartnerByName name receivable payable :
  real_steps (findOrCreatePartnerByName faulty name false receivable payable).
Proof. real_instance findOrCreatePartnerByName_ok. Qed.

Lemma real_findOrCreatePartnerBank partnerId iban receivable payable :
  real_steps (findOrCreatePartnerBank faulty partnerId iban false receivable payable).
Proof. real_instance findOrCreatePartnerBank_ok. Qed.

Lemma real_getOrCreateMonthlyStatement journal monthKey :
  real_steps (getOrCreateMonthlyStatement faulty journal monthKey false).
Proof. real_instance getOrCreateMonthlyStatement_ok. Qed.

Lemma real_closeStatementIfNeeded statementId :
  real_steps (closeStatementIfNeeded faulty statementId false).
Proof. real_instance closeStatementIfNeeded_ok. Qed.

Lemma real_closeAllPastMonthlyStatements journal currentMonthKey :
  real_steps (closeAllPastMonthlyStatements faulty journal currentMonthKey false).
Proof. real_instance closeAllPastMonthlyStatements_ok. Qed.

Lemma real_main_partner_accounts partnerId receivable payable :
  real_steps (main_partner_accounts faulty partnerId receivable payable).
Proof. real_instance main_partner_accounts_ok. Qed.

End RealRun.

(* ================================================================== *)
(** * One event of a real run                                          *)
(* ================================================================== *)

Lemma bind_inv {A B} (m : M A) (k : A -> M B) w b w2 :
  bind m k w = (Ok b, w2) ->
  exists a w1, m w = (Ok a, w1) /\ k a w1 = (Ok b, w2).
Proof.
  unfold bind. destruct (m w) as [[a|e] w1]; [|discriminate]. intros H. now exists a, w1.
Qed.

Lemma sound_result {A} P R (m : M A) w a w' :
  sound P R m -> P w -> m w = (Ok a, w') -> R w w'.
Proof.
  intros Hm Hw E. destruct (Hm w Hw) as (a' & w'' & E' & HR).
  rewrite E in E'. now injection E' as -> ->.
Qed.

Lemma filter_first_in {A} (f : A -> bool) (l : list A) x rest :
  filter f l = x :: rest -> In x l /\ f x = true.
Proof.
  intros E. assert (H : In x (filter f l)) by (rewrite E; now left).
  now apply filter_In in H.
Qed.

Lemma filter_in_nonempty {A} (f : A -> bool) (l : list A) x :
  In x l -> f x = true -> filter f l <> [].
Proof.
  intros Hin Hf E. assert (H : In x (filter f l)) by now apply filter_In.
  rewrite E in H. contradiction.
Qed.

Definition has_bank (id : Z) (w : world) : Prop :=
  exists b, In b (banks (w_ledger w)) /\ bank_id b = id.

(** A bank account that the search returned exists in the ledger. *)
Lemma findBankAccountByIdentifier_found faulty ident w n w1 :
  findBankAccountByIdentifier faulty ident w = (Ok (Some n), w1) -> has_bank n w1.
Proof.
  unfold findBankAccountByIdentifier, require_uid, Odoo.callRPC.
  cbv beta iota zeta delta [bind ret throw try_catch console this].
  destruct (uid_truthy (uid (w_client w))); [|discriminate].
  destruct (faulty _ _); [cbn; discriminate|].
  cbn [serve]. destruct (filter _ (banks (w_ledger w))) as [|b rest] eqn:E; cbn [first_id].
  - discriminate.
  - intros [= <- <-]. exists b. cbn [w_ledger]. split; [|reflexivity].
    now apply (filter_first_in _ _ _ _ E).
Qed.

(** A bank account that was created for real exists in the ledger. *)
Lemma createBankAccount_created faulty iban partnerId name w id w1 :
  dryRun (w_client w) = false ->
  createBankAccount faulty iban partnerId name w = (Ok id, w1) -> has_bank id w1.
Proof.
  intros Hdry. unfold createBankAccount, require_uid, Odoo.callRPC.
  cbv beta iota zeta delta [bind ret throw try_catch console this].
  destruct (uid_truthy (uid (w_client w))); [|discriminate].
  rewrite Hdry. destruct (faulty _ _); [cbn; discriminate|].
  cbn [serve]. intros [= <- <-]. eexists. cbn [w_ledger with_banks banks]. split.
  - apply in_or_app. right. now left.
  - reflexivity.
Qed.

Section RealItem.

Variable faulty : list request -> request -> option exn.
Hypothesis only_line_create : fails_only_on_line_create faulty.

Lemma real_partner_bank_exists partnerId addr receivable payable w id w1 :
  ready w ->
  findOrCreatePartnerBank faulty partnerId addr false receivable payable w = (Ok id, w1) ->
  id <> 0 ->
  has_bank id w1.
Proof.
  intros Hw. unfold findOrCreatePartnerBank.
  destruct (negb (truthy_string (account_key addr))).
  { intros [= <- <-] H. congruence. }
  intros (found & wa & E1 & E2)%bind_inv Hid.
  destruct found as [n|]; cbn [no_id negb] in E2.
  - destruct (n =? 0) eqn:En; cbn [negb] in E2.
    + apply bind_inv in E2 as (pid & wb & E2 & E3).
      apply (createBankAccount_created _ _ _ _ _ _ _ ) in E3; [exact E3|].
      assert (Ha : quiet w wa)
        by (eapply sound_result;
            [apply (real_findBankAccountByIdentifier faulty only_line_create)
            |exact Hw|exact E1]).
      assert (Hb : quiet wa wb).
      { destruct (negb (partnerId =? 0)).
        - injection E2 as _ <-. apply quiet_refl.
        - eapply sound_result;
            [apply (real_findOrCreatePartnerByName faulty only_line_create)
            |exact (quiet_ready _ _ Hw Ha)|exact E2]. }
      destruct Hw as [_ Hdry]. destruct Ha as [Ha _]. destruct Hb as [Hb _].
      now rewrite Hb, Ha.
    + injection E2 as <- <-. now apply (findBankAccountByIdentifier_found _ _ _ _ _ E1).
  - apply bind_inv in E2 as (pid & wb & E2 & E3).
    apply (createBankAccount_created _ _ _ _ _ _ _ ) in E3; [exact E3|].
    assert (Ha : quiet w wa)
      by (eapply sound_result;
          [apply (real_findBankAccountByIdentifier faulty only_line_create)
          |exact Hw|exact E1]).
    assert (Hb : quiet wa wb).
    { destruct (negb (partnerId =? 0)).
      - injection E2 as _ <-. apply quiet_refl.
      - eapply sound_result;
          [apply (real_findOrCreatePartnerByName faulty only_line_create)
          |exact (quiet_ready _ _ Hw Ha)|exact E2]. }
    destruct Hw as [_ Hdry]. destruct Ha as [Ha _]. destruct Hb as [Hb _].
    now rewrite Hb, Ha.
Qed.

Lemma real_main_ensure_partner_accounts partnerBankId receivable payable w :
  ready w -> has_bank partnerBankId w ->
  exists w', main_ensure_partner_accounts faulty partnerBankId receivable payable w
             = (Ok tt, w') /\ quiet w w'.
Proof.
  intros Hw (b & Hin & Hid). unfold main_ensure_partner_accounts, ImportTxs.callRPC.
  unfold bind at 1. rewrite (callRPC_answers faulty only_line_create) by reflexivity.
  cbn [serve fst snd].
  destruct (filter (fun b0 => bank_id b0 =? partnerBankId) (banks (w_ledger w)))
    as [|b0 rest] eqn:E.
  { exfalso. apply (filter_in_nonempty _ _ b Hin) in E; [exact E|]. now apply Z.eqb_eq. }
  set (w1 := mk_world (w_client w) (w_ledger w)
               (w_trace w ++ [issue (BankRead partnerBankId) w]) (w_console w)).
  assert (H1 : quiet w w1) by (repeat split).
  destruct (given_id (bank_partner_id b0)) as [partnerId|].
  - destruct (real_main_partner_accounts faulty only_line_create partnerId receivable payable
                w1 (quiet_ready _ _ Hw H1)) as ([] & w2 & E2 & H2).
    exists w2. split; [exact E2|]. now apply (quiet_trans _ w1).
  - exists w1. split; [reflexivity|exact H1].
Qed.

(** The counterparty of an event is resolved without touching lines or
    decisions. *)
Lemma real_main_counterparty receivable payable r :
  real_steps (main_counterparty faulty false receivable payable r).
Proof.
  intros w Hw. unfold main_counterparty.
  destruct (real_findOrCreatePartnerBank faulty only_line_create 0
              (toLowerCase (partnerAddress r)) (Some receivable) (Some payable) w Hw)
    as (id & w1 & E1 & H1).
  unfold bind. rewrite E1. cbn [negb andb]. rewrite andb_true_r.
  destruct (id =? 0) eqn:Eid; cbn [negb].
  - exists tt, w1. split; [reflexivity|exact H1].
  - destruct (real_main_ensure_partner_accounts id receivable payable w1
                (quiet_ready _ _ Hw H1)) as (w2 & E2 & H2).
    { apply (real_partner_bank_exists 0 (toLowerCase (partnerAddress r))
               (Some receivable) (Some payable) w id w1 Hw E1).
      now apply Z.eqb_neq. }
    exists tt, w2. split; [exact E2|]. now apply (quiet_trans _ w1).
Qed.

End RealItem.

(** The duplicate search answers exactly when a line carries the id. *)
Lemma import_search_spec l u :
  match fst (serve (LineSearchImportId u) l) with
  | [] => known (import_ids l) u = false
  | _ :: _ => known (import_ids l) u = true
  end.
Proof.
  cbn [serve fst]. unfold import_ids, known.
  induction (lines l) as [|ln rest IH]; cbn [filter map flat_map]; [reflexivity|].
  unfold same_import_id at 1.
  destruct (line_unique_import_id ln) as [v|]; cbn [app existsb].
  - rewrite (String.eqb_sym u v). destruct (String.eqb v u); cbn [orb map take].
    + reflexivity.
    + exact IH.
  - exact IH.
Qed.

Lemma import_ids_lines l l' : lines l' = lines l -> import_ids l' = import_ids l.
Proof. unfold import_ids. now intros ->. Qed.

Definition line_import_id (ln : statement_line) : list string :=
  match line_unique_import_id ln with
  | Some u => [u]
  | None => []
  end.

Lemma import_ids_app l l' ln :
  lines l' = lines l ++ [ln] -> import_ids l' = import_ids l ++ line_import_id ln.
Proof.
  unfold import_ids. intros ->. rewrite flat_map_app. cbn. now rewrite app_nil_r.
Qed.

Section RealLine.

Variable faulty : list request -> request -> option exn.
Hypothesis only_line_create : fails_only_on_line_create faulty.

(** The state after the duplicate search of an event. *)
Definition searched (r : Etherscan.EtherscanTokenTransfer) (w : world) : world :=
  match unique_import_id r with
  | Some u =>
      mk_world (w_client w) (w_ledger w)
        (w_trace w ++ [issue (LineSearchImportId u) w]) (w_console w)
  | None => w
  end.

Definition with_console (e : log_entry) (w : world) : world :=
  mk_world (w_client w) (w_ledger w) (w_trace w) (w_console w ++ [e]).

(** The state after the creation of a line. *)
Definition line_created (p : line_payload) (w : world) : world :=
  mk_world (w_client w)
    (with_lines 1 (lines (w_ledger w) ++ [line_of_payload (next_id (w_ledger w)) p])
       (w_ledger w))
    (w_trace w ++ [issue (LineCreate p) w]) (w_console w).

(** What the duplicate check and the creation do in a real run. *)
Lemma real_main_line monthKey stId r amount date w :
  main_line faulty false monthKey stId r amount date w =
  let w1 := searched r w in
  let p := main_payload stId r amount date in
  if duplicate (import_ids (w_ledger w)) r
  then (Ok tt, with_console (LogSkipDuplicate (Etherscan.hash r)) w1)
  else match faulty (w_trace w1) (issue (LineCreate p) w1) with
       | Some e => (Throw e, record_request (issue (LineCreate p) w1) w1)
       | None =>
           (Ok tt, with_console (LogLineCreated monthKey (Etherscan.hash r) amount date)
                     (line_created p w1))
       end.
Proof.
  unfold main_line, duplicate, searched, ImportTxs.callRPC. cbv zeta.
  destruct (unique_import_id r) as [u|] eqn:Eu.
  - unfold bind at 1. rewrite (callRPC_answers faulty only_line_create) by reflexivity.
    pose proof (import_search_spec (w_ledger w) u) as Hs.
    destruct (fst (serve (LineSearchImportId u) (w_ledger w))) as [|x rest]; rewrite Hs.
    + unfold bind, Odoo.callRPC. cbn [serve snd w_client w_ledger w_trace w_console].
      unfold issue at 2 3. cbn [w_client].
      destruct (faulty _ _); reflexivity.
    + reflexivity.
  - unfold bind, ret, Odoo.callRPC. cbn [serve].
    unfold issue. destruct (faulty _ _); reflexivity.
Qed.

End RealLine.

(* ================================================================== *)
(** * A real run against a reliable ledger                             *)
(* ================================================================== *)

Lemma reliable_only_line_create : fails_only_on_line_create reliable.
Proof. intros h db u pw c _. reflexivity. Qed.

(** The raw value of the event is text that [BigInt] reads. *)
Definition parses (it : item) : bool :=
  match BigInt_of_string (Etherscan.value (fst it)) with
  | Some _ => true
  | None => false
  end.

(** The line [ln] records the event [r]: it is what the ledger made of the
    payload of [r], with the amount [formatUnits(BigInt(r.value), 18)]. *)
Definition records (r : Etherscan.EtherscanTokenTransfer) (ln : statement_line) : Prop :=
  exists id stId date v,
    BigInt_of_string (Etherscan.value r) = Some v /\
    ln = line_of_payload id (main_payload stId r (formatUnits v 18) date).

(** What a real run made of the state [w]: the client is the same, the
    events of [items] that are no duplicates got a line each, in order, and
    the console shows the decisions [ds]. *)
Definition grows (items : list item) (ds : list decision) (w w' : world) : Prop :=
  w_client w' = w_client w /\
  (exists new,
     lines (w_ledger w') = lines (w_ledger w) ++ new /\
     Forall2 records (imported_events (import_ids (w_ledger w)) items) new) /\
  import_ids (w_ledger w') = seen_after (import_ids (w_ledger w)) items /\
  decisions w' = decisions w ++ ds.

Definition imports (items : list item) (w w' : world) : Prop :=
  grows items (item_decisions true (import_ids (w_ledger w)) items) w w'.

Lemma real_item monthKey stId receivable payable it w :
  ready w -> parses it = true ->
  exists w', main_item reliable false monthKey stId receivable payable it w = (Ok tt, w')
             /\ imports [it] w w'.
Proof.
  intros Hw Hv. destruct it as [r date]. unfold parses in Hv. cbn [fst] in Hv.
  unfold main_item.
  destruct (BigInt_of_string (Etherscan.value r)) as [v|] eqn:Ev; [|discriminate].
  cbv zeta.
  destruct (real_main_counterparty reliable reliable_only_line_create receivable payable r w Hw)
    as ([] & w1 & E1 & (Hc & Hl & Hd)).
  unfold bind. rewrite E1.
  rewrite (real_main_line reliable reliable_only_line_create). cbv zeta.
  rewrite (import_ids_lines _ _ Hl).
  unfold imports, grows. cbn [imported_events seen_after item_decisions].
  destruct (duplicate (import_ids (w_ledger w)) r) eqn:Edup.
  - eexists. split; [reflexivity|]. unfold with_console, searched.
    destruct (unique_import_id r);
      cbn [w_client w_ledger w_trace w_console];
      (split; [exact Hc|]);
      (split; [exists []; rewrite app_nil_r; split; [exact Hl|constructor]|]);
      (split; [now apply import_ids_lines|]);
      unfold decisions in *; cbn [w_console]; rewrite flat_map_app, Hd; reflexivity.
  - cbn [reliable]. eexists. split; [reflexivity|].
    unfold with_console, line_created, searched, seen_with.
    destruct (unique_import_id r) as [u|] eqn:Eu;
      cbn [w_client w_ledger w_trace w_console with_lines lines];
      (split; [exact Hc|]);
      (split; [eexists; split; [rewrite Hl; reflexivity|];
               apply Forall2_cons;
               [do 4 eexists; split; [exact Ev|reflexivity]|apply Forall2_nil]|]);
      (split; [unfold import_ids, with_lines; cbn [lines]; rewrite Hl, flat_map_app; cbn;
               rewrite ?Eu; cbn; rewrite ?app_nil_r; reflexivity|]);
      unfold decisions in *; cbn [w_console]; rewrite flat_map_app, Hd; reflexivity.
Qed.

Lemma imported_events_app seen a b :
  imported_events seen (a ++ b)
  = imported_events seen a ++ imported_events (seen_after seen a) b.
Proof.
  revert seen. induction a as [|[r d] a IH]; intros seen; cbn; [reflexivity|].
  destruct (duplicate seen r); [apply IH|]. cbn. now rewrite IH.
Qed.

Lemma seen_after_app seen a b :
  seen_after seen (a ++ b) = seen_after (seen_after seen a) b.
Proof.
  revert seen. induction a as [|[r d] a IH]; intros seen; cbn; [reflexivity|].
  destruct (duplicate seen r); apply IH.
Qed.

Lemma item_decisions_app seen a b :
  item_decisions true seen (a ++ b)
  = item_decisions true seen a ++ item_decisions true (seen_after seen a) b.
Proof.
  revert seen. induction a as [|[r d] a IH]; intros seen; cbn; [reflexivity|].
  destruct (duplicate seen r); cbn; now rewrite IH.
Qed.

Lemma grows_quiet w w' : quiet w w' -> grows [] [] w w'.
Proof.
  intros (C & L & D). unfold grows. cbn. rewrite !app_nil_r.
  split; [assumption|]. split; [exists []; rewrite app_nil_r; split; [exact L|constructor]|].
  split; [now apply import_ids_lines|assumption].
Qed.

Lemma grows_trans a da b db w1 w2 w3 :
  grows a da w1 w2 -> grows b db w2 w3 -> grows (a ++ b) (da ++ db) w1 w3.
Proof.
  intros (C1 & (n1 & L1 & F1) & S1 & D1) (C2 & (n2 & L2 & F2) & S2 & D2). unfold grows.
  rewrite imported_events_app, seen_after_app.
  split; [congruence|]. split; [|split].
  - exists (n1 ++ n2). split; [now rewrite L2, L1, app_assoc|].
    apply Forall2_app; [assumption|now rewrite <- S1].
  - now rewrite S2, S1.
  - rewrite D2, D1. now rewrite app_assoc.
Qed.

Lemma grows_ready a da w w' : ready w -> grows a da w w' -> ready w'.
Proof. intros Hw (C & _). unfold ready in *. now rewrite C. Qed.

Lemma grows_seen a da w w' :
  grows a da w w' -> import_ids (w_ledger w') = seen_after (import_ids (w_ledger w)) a.
Proof. now intros (_ & _ & S & _). Qed.

Lemma real_items monthKey stId receivable payable items w :
  ready w -> forallb parses items = true ->
  exists w', for_each (main_item reliable false monthKey stId receivable payable) items w
             = (Ok tt, w')
             /\ imports items w w'.
Proof.
  revert w. induction items as [|it rest IH]; intros w Hw Hv.
  - exists w. split; [reflexivity|apply grows_quiet, quiet_refl].
  - cbn [forallb] in Hv. apply andb_prop in Hv as [Hit Hrest].
    destruct (real_item monthKey stId receivable payable it w Hw Hit) as (w1 & E1 & I1).
    destruct (IH w1 (grows_ready _ _ _ _ Hw I1) Hrest) as (w2 & E2 & I2).
    exists w2. split.
    + cbn [for_each]. unfold bind. now rewrite E1.
    + unfold imports in *. rewrite (grows_seen _ _ _ _ I1) in I2.
      generalize (grows_trans _ _ _ _ _ _ _ I1 I2).
      now rewrite <- item_decisions_app.
Qed.

(** One month of a real run. *)
Lemma real_month cur receivable payable monthKey items w :
  ready w -> forallb parses items = true ->
  exists w', main_month reliable false cur receivable payable (monthKey, items) w = (Ok tt, w')
             /\ grows items (item_decisions true (import_ids (w_ledger w)) items
                             ++ month_tail cur monthKey) w w'.
Proof.
  intros Hw Hv. unfold main_month.
  destruct (real_getOrCreateMonthlyStatement reliable reliable_only_line_create
              journalId monthKey w Hw) as (stId & w1 & E1 & Q1).
  pose proof (quiet_ready _ _ Hw Q1) as Hw1.
  destruct (real_items monthKey stId receivable payable items w1 Hw1 Hv) as (w2 & E2 & I2).
  pose proof (grows_ready _ _ _ _ Hw1 I2) as Hw2.
  unfold imports in I2.
  pose proof (grows_trans _ _ _ _ _ _ _ (grows_quiet _ _ Q1) I2) as I12.
  destruct Q1 as (C1 & L1 & D1). rewrite (import_ids_lines _ _ L1) in I12.
  cbn [app] in I12.
  unfold bind at 1. rewrite E1. unfold bind at 1. rewrite E2.
  unfold month_tail. destruct (string_lt monthKey cur).
  - destruct (real_closeStatementIfNeeded reliable reliable_only_line_create stId w2 Hw2)
      as ([] & w3 & E3 & Q3).
    exists w3. split; [assumption|].
    generalize (grows_trans _ _ _ _ _ _ _ I12 (grows_quiet _ _ Q3)).
    now rewrite !app_nil_r.
  - eexists. split; [reflexivity|].
    assert (G : grows [] [KeptOpen monthKey] w2
                  (mk_world (w_client w2) (w_ledger w2) (w_trace w2)
                     (w_console w2 ++ [LogKeepOpen monthKey]))).
    { unfold grows, decisions. cbn. rewrite flat_map_app.
      split; [reflexivity|]. split; [exists []; rewrite app_nil_r; split; [reflexivity|constructor]|].
      split; reflexivity. }
    generalize (grows_trans _ _ _ _ _ _ _ I12 G). now rewrite !app_nil_r.
Qed.

Lemma real_months cur receivable payable byMonth w :
  ready w -> forallb parses (all_items byMonth) = true ->
  exists w', for_each (main_month reliable false cur receivable payable) byMonth w = (Ok tt, w')
             /\ grows (all_items byMonth)
                  (month_decisions true cur (import_ids (w_ledger w)) byMonth) w w'.
Proof.
  revert w. induction byMonth as [|[monthKey items] rest IH]; intros w Hw Hv.
  - exists w. split; [reflexivity|apply grows_quiet, quiet_refl].
  - unfold all_items in Hv. cbn [flat_map snd] in Hv. rewrite forallb_app in Hv.
    apply andb_prop in Hv as [Hit Hrest].
    destruct (real_month cur receivable payable monthKey items w Hw Hit) as (w1 & E1 & I1).
    destruct (IH w1 (grows_ready _ _ _ _ Hw I1) Hrest) as (w2 & E2 & I2).
    exists w2. split.
    + cbn [for_each]. unfold bind. now rewrite E1.
    + rewrite (grows_seen _ _ _ _ I1) in I2.
      generalize (grows_trans _ _ _ _ _ _ _ I1 I2).
      cbn [month_decisions]. now rewrite <- app_assoc.
Qed.

(** The whole import of a real run. *)
Lemma real_import cur receivable payable txs byMonth w :
  ready w -> group_by_month txs [] = Ok byMonth ->
  forallb parses (all_items byMonth) = true ->
  exists w', main_import reliable false cur receivable payable txs w = (Ok tt, w')
             /\ grows (all_items byMonth)
                  (month_decisions true cur (import_ids (w_ledger w)) byMonth) w w'.
Proof.
  intros Hw Hg Hv. unfold main_import. rewrite Hg.
  destruct (real_months cur receivable payable byMonth w Hw Hv) as (w1 & E1 & I1).
  destruct (real_closeAllPastMonthlyStatements reliable reliable_only_line_create
              journalId cur w1 (grows_ready _ _ _ _ Hw I1)) as ([] & w2 & E2 & Q2).
  exists w2. split.
  - unfold bind. now rewrite E1.
  - generalize (grows_trans _ _ _ _ _ _ _ I1 (grows_quiet _ _ Q2)). now rewrite !app_nil_r.
Qed.

(* ================================================================== *)
(** * Duplicates                                                       *)
(* ================================================================== *)

(** The event carries a transaction hash that is not blank. *)
Definition hashed (r : Etherscan.EtherscanTokenTransfer) : bool :=
  match unique_import_id r with
  | Some _ => true
  | None => false
  end.

Lemma known_In seen u : known seen u = true <-> In u seen.
Proof.
  unfold known. rewrite existsb_exists. split.
  - intros (x & Hx & E). apply String.eqb_eq in E. now subst.
  - intros H. exists u. split; [assumption|apply String.eqb_refl].
Qed.

Lemma seen_after_incl seen items u : In u seen -> In u (seen_after seen items).
Proof.
  revert seen. induction items as [|[r d] rest IH]; intros seen H; cbn; [assumption|].
  destruct (duplicate seen r); apply IH; [assumption|].
  unfold seen_with. destruct (unique_import_id r); [|assumption].
  apply in_or_app. now left.
Qed.

Lemma seen_after_has seen items r d u :
  In (r, d) items -> unique_import_id r = Some u -> In u (seen_after seen items).
Proof.
  revert seen. induction items as [|[r' d'] rest IH]; intros seen H Hu; [contradiction|].
  cbn. destruct H as [H|H].
  - injection H as -> ->. unfold duplicate, seen_with. rewrite Hu.
    destruct (known seen u) eqn:K; apply seen_after_incl.
    + now apply known_In.
    + apply in_or_app. right. now left.
  - destruct (duplicate seen r'); now apply IH.
Qed.

Lemma seen_after_NoDup seen items : NoDup seen -> NoDup (seen_after seen items).
Proof.
  revert seen. induction items as [|[r d] rest IH]; intros seen H; cbn; [assumption|].
  destruct (duplicate seen r) eqn:D; apply IH; [assumption|].
  unfold duplicate, seen_with in *. destruct (unique_import_id r) as [u|]; [|assumption].
  apply NoDup_app; [assumption|repeat constructor; intros []|].
  intros x Hx [<-|[]]. apply known_In in Hx. congruence.
Qed.

Lemma all_duplicates seen items :
  (forall r d, In (r, d) items -> exists u, unique_import_id r = Some u /\ In u seen) ->
  imported_events seen items = [] /\ seen_after seen items = seen.
Proof.
  induction items as [|[r d] rest IH]; intros H; cbn; [auto|].
  destruct (H r d (or_introl eq_refl)) as (u & Hu & Hin).
  unfold duplicate. rewrite Hu. apply known_In in Hin. rewrite Hin.
  apply IH. intros r' d' H'. apply (H r' d'). now right.
Qed.

(** Grouping keeps the events. *)
Lemma all_items_push_month mk it byMonth x :
  In x (all_items (push_month mk it byMonth)) <-> x = it \/ In x (all_items byMonth).
Proof.
  unfold all_items. induction byMonth as [|[k items] rest IH]; cbn.
  - intuition.
  - destruct (String.eqb k mk); cbn; rewrite ?in_app_iff, ?IH; cbn; intuition.
Qed.

Lemma group_by_month_events txs acc byMonth r :
  group_by_month txs acc = Ok byMonth ->
  (In r (map fst (all_items byMonth)) <-> In r txs \/ In r (map fst (all_items acc))).
Proof.
  revert acc. induction txs as [|t rest IH]; intros acc; cbn [group_by_month].
  - intros H. injection H as ->. cbn. intuition.
  - destruct (match parseInt (Etherscan.timeStamp t) with
              | Some n => toISODate (n * 1000)
              | None => None
              end) as [iso|]; [|discriminate].
    intros H. rewrite (IH _ H). rewrite !in_map_iff. cbn [In]. split.
    + intros [Hr|((r', d) & E & Hin)]; [auto|].
      apply all_items_push_month in Hin. destruct Hin as [Hin|Hin].
      * injection Hin as -> ->. cbn in E. auto.
      * right. exists (r', d). auto.
    + intros [[Hr|Hr]|((r', d) & E & Hin)]; [| auto |].
      * right. exists (t, iso). split; [assumption|]. apply all_items_push_month. now left.
      * right. exists (r', d). split; [assumption|]. apply all_items_push_month. now right.
Qed.

Lemma records_key r ln : records r ln -> line_key ln = event_key r.
Proof. intros (id & stId & date & v & _ & ->). reflexivity. Qed.

(** The real run of [main]'s import against a reliable ledger, on a batch
    whose time stamps and values read as numbers. *)
Lemma real_import_lines cur receivable payable txs byMonth w :
  ready w -> group_by_month txs [] = Ok byMonth ->
  forallb parses (all_items byMonth) = true ->
  exists w' new,
    main_import reliable false cur receivable payable txs w = (Ok tt, w') /\
    ready w' /\
    lines (w_ledger w') = lines (w_ledger w) ++ new /\
    Forall2 records (imported_events (import_ids (w_ledger w)) (all_items byMonth)) new /\
    import_ids (w_ledger w') = seen_after (import_ids (w_ledger w)) (all_items byMonth) /\
    decisions w' = decisions w ++ month_decisions true cur (import_ids (w_ledger w)) byMonth.
Proof.
  intros Hw Hg Hv.
  destruct (real_import cur receivable payable txs byMonth w Hw Hg Hv) as (w' & E & G).
  pose proof (grows_ready _ _ _ _ Hw G) as Hw'.
  destruct G as (_ & (new & L & F) & S & D).
  exists w', new. auto 10.
Qed.

Lemma duplicate_seen_with seen r' r :
  duplicate (seen_with seen r') r = false -> duplicate seen r = false.
Proof.
  unfold duplicate, seen_with. destruct (unique_import_id r) as [u|]; [|reflexivity].
  destruct (unique_import_id r'); [|exact (fun H => H)].
  intros H. destruct (known seen u) eqn:K; [|reflexivity].
  apply known_In in K. rewrite <- H. symmetry. apply known_In, in_or_app. now left.
Qed.

Lemma imported_not_duplicate seen items r :
  In r (imported_events seen items) -> duplicate seen r = false.
Proof.
  revert seen. induction items as [|[r' d] rest IH]; intros seen; cbn; [contradiction|].
  destruct (duplicate seen r') eqn:D; [apply IH|].
  intros [<-|H]; [assumption|]. eapply duplicate_seen_with, IH, H.
Qed.

(** An event as the explorer reports it, for the examples. *)
Definition transfer (hash index from to value timeStamp tokenDecimal : string)
  : Etherscan.EtherscanTokenTransfer :=
  Etherscan.mk_transfer "36000000" timeStamp hash "12" "0xb10c" from tokenAddress to value
    "Token" "TKN" tokenDecimal index "21000" "1000000000" "21000" "21000" "deprecated" "100".

Definition logged_in (l : ledger) : world :=
  mk_world (mk_odoo example_config (UidNumber 2) false) l [] [].

(** ** C1 *)

(** C1, as the code has it.  In a real run against a ledger that answers,
    the import returns, and it only appends lines: one for each event that
    is no duplicate, where an event is a duplicate when a line of the ledger,
    or a line created earlier in the run, carries its trimmed transaction
    hash as [unique_import_id].  An event that got a line had no line with
    its hash before; afterwards every hash of the batch is on a line; no
    [unique_import_id] occurs twice if none did before; and a second run on
    the same batch, all of whose events have a hash, creates nothing. *)
Theorem C1_duplicates_by_transaction_hash cur receivable payable txs byMonth w :
  ready w ->
  group_by_month txs [] = Ok byMonth ->
  forallb parses (all_items byMonth) = true ->
  exists w' new,
    main_import reliable false cur receivable payable txs w = (Ok tt, w') /\
    lines (w_ledger w') = lines (w_ledger w) ++ new /\
    Forall2 records (imported_events (import_ids (w_ledger w)) (all_items byMonth)) new /\
    (forall r, In r (imported_events (import_ids (w_ledger w)) (all_items byMonth)) ->
               In r txs /\ duplicate (import_ids (w_ledger w)) r = false) /\
    (forall r u, In r txs -> unique_import_id r = Some u -> In u (import_ids (w_ledger w'))) /\
    (NoDup (import_ids (w_ledger w)) -> NoDup (import_ids (w_ledger w'))) /\
    (forallb hashed txs = true ->
     forall cur', exists w'',
       main_import reliable false cur' receivable payable txs w' = (Ok tt, w'') /\
       lines (w_ledger w'') = lines (w_ledger w')).
Proof.
  intros Hw Hg Hv.
  destruct (real_import_lines cur receivable payable txs byMonth w Hw Hg Hv)
    as (w' & new & E & Hw' & L & F & S & _).
  assert (Hin : forall r, In r txs <-> exists d, In (r, d) (all_items byMonth)).
  { intros r. pose proof (group_by_month_events txs [] byMonth r Hg) as G.
    cbn in G. rewrite in_map_iff in G. split.
    - intros H. destruct (proj2 G (or_introl H)) as ((r', d) & <- & H'). now exists d.
    - intros (d & H). destruct (proj1 G (ex_intro _ (r, d) (conj eq_refl H))) as [H'|[]].
      exact H'. }
  assert (Himp : forall seen items r, In r (imported_events seen items) ->
                                      exists d, In (r, d) items).
  { intros seen items. revert seen. induction items as [|[r' d'] rest IH]; intros seen r; cbn.
    - contradiction.
    - destruct (duplicate seen r').
      + intros H. destruct (IH _ _ H) as (d & Hd). eauto.
      + intros [<-|H]; [eauto|]. destruct (IH _ _ H) as (d & Hd). eauto. }
  exists w', new. repeat split; try assumption.
  - apply Hin. eapply Himp, H.
  - eapply imported_not_duplicate, H.
  - intros r u Hr Hu. apply Hin in Hr as (d & Hd). rewrite S.
    eapply seen_after_has; eassumption.
  - intros Hn. rewrite S. now apply seen_after_NoDup.
  - intros Hh cur'.
    destruct (real_import_lines cur' receivable payable txs byMonth w' Hw' Hg Hv)
      as (w'' & new' & E' & _ & L' & F' & _).
    exists w''. split; [assumption|].
    destruct (all_duplicates (import_ids (w_ledger w')) (all_items byMonth)) as [Hnone _].
    { intros r d Hd. rewrite forallb_forall in Hh.
      assert (Hr : In r txs) by (apply Hin; eauto).
      specialize (Hh r Hr). unfold hashed in Hh.
      destruct (unique_import_id r) as [u|] eqn:Hu; [|discriminate].
      exists u. split; [reflexivity|]. rewrite S. eapply seen_after_has; eassumption. }
    rewrite Hnone in F'. inversion F'. subst. now rewrite L', app_nil_r.
Qed.

(** An incoming transfer of September 2024, imported in November. *)
Definition incoming : Etherscan.EtherscanTokenTransfer :=
  transfer "0xabc" "3" "0x1111111111111111111111111111111111111111" walletAddress
    "2500000000000000000" "1726401600" "18".

(** The same transaction, reported at another index of its block. *)
Definition incoming_moved : Etherscan.EtherscanTokenTransfer :=
  transfer "0xabc" "5" "0x1111111111111111111111111111111111111111" walletAddress
    "2500000000000000000" "1726401600" "18".

(** A batch that reports one transaction at two indices: the two events
    have two keys, and only the first gets a line. *)
Lemma C1_duplicates_witness :
  payment_ref incoming <> payment_ref incoming_moved /\
  exists w' new,
    main_import reliable false "2024-11" 11 12 [incoming; incoming_moved]
      (logged_in empty_ledger) = (Ok tt, w') /\
    lines (w_ledger w') = lines empty_ledger ++ new /\
    Forall2 records [incoming] new.
Proof.
  split; [vm_compute; discriminate|].
  destruct (C1_duplicates_by_transaction_hash "2024-11" 11 12 [incoming; incoming_moved]
              [("2024-09"%string, [(incoming, "2024-09-15"%string);
                                   (incoming_moved, "2024-09-15"%string)])]
              (logged_in empty_ledger))
    as (w' & new & E & L & F & _).
  - split; reflexivity.
  - vm_compute. reflexivity.
  - vm_compute. reflexivity.
  - exists w', new. split; [exact E|]. split; [exact L|exact F].
Defined.

(** Claim C1 as stated fails.  The ledger holds the line of a transfer that
    was imported when its transaction was third in its block.  After a
    reorganisation of the chain the same transaction is fifth in its block:
    no line has the key [hash:5:tokenAddress], and yet the event is skipped,
    for a line carries its hash.  (The console keeps the decision of the
    first run before that of the second.) *)
Lemma C1_counterexample_same_hash_other_index :
  let r := incoming_moved in
  let w := snd (main_import reliable false "2024-11" 11 12 [incoming] (logged_in empty_ledger)) in
  let w' := snd (main_import reliable false "2024-11" 11 12 [r] w) in
  map line_payment_ref (lines (w_ledger w))
    = ["0xabc:3:0x420CA0f9B9b604cE0fd9C18EF134C705e5Fa3430"%string] /\
  payment_ref r = "0xabc:5:0x420CA0f9B9b604cE0fd9C18EF134C705e5Fa3430"%string /\
  fst (main_import reliable false "2024-11" 11 12 [r] w) = Ok tt /\
  lines (w_ledger w') = lines (w_ledger w) /\
  decisions w' = [Imported "0xabc"; Skipped "0xabc"].
Proof.
  cbv zeta.
  split; [vm_compute; reflexivity|]. split; [vm_compute; reflexivity|].
  split; [vm_compute; reflexivity|]. split; vm_compute; reflexivity.
Qed.

(* ================================================================== *)
(** * The amount of a line                                             *)
(* ================================================================== *)

Lemma digits_no_minus s :
  s <> EmptyString -> all_chars is_digit s = true -> String.prefix "-" s = false.
Proof.
  destruct s as [|c s]; [congruence|]. intros _ H. cbn in H. apply andb_prop in H as [Hc _].
  cbn [String.prefix]. destruct (ascii_dec "-" c) as [<-|]; [discriminate|reflexivity].
Qed.

(** [formatUnits] puts a minus sign only before a negative value. *)
Lemma formatUnits_unsigned v d : 0 <= v -> String.prefix "-" (formatUnits v d) = false.
Proof.
  intros Hv. unfold formatUnits.
  assert (Hd : BigInt_toString v = N_to_string (Z.to_N v)) by (destruct v; [reflexivity..|lia]).
  rewrite Hd.
  pose proof (N_to_string_denotes (Z.to_N v)) as [Hdig _].
  rewrite (digits_no_minus _ (N_to_string_nonempty _) Hdig). cbv zeta.
  set (display := padStart d "0" (N_to_string (Z.to_N v))).
  assert (Hdisp : all_chars is_digit display = true).
  { unfold display, padStart. rewrite all_chars_app, Hdig, all_chars_repeat; reflexivity. }
  set (integer := slice_to (String.length display - d) display).
  assert (Hint : all_chars is_digit integer = true) by now apply all_chars_slice_to.
  cbn [append]. destruct integer as [|c i]; [reflexivity|].
  cbn [truthy_string append]. cbn in Hint. apply andb_prop in Hint as [Hc _].
  cbn [String.prefix]. destruct (ascii_dec "-" c) as [<-|]; [discriminate|reflexivity].
Qed.

(** ** C2 *)

(** C2, as the code has it.  In a real run against a ledger that answers,
    the amount of every line the import creates is the raw value of the
    event scaled by 10^18, whatever the direction of the transfer and the
    decimals of the token: a transfer the tracked wallet sent is booked with
    the same amount, minus sign absent, as one it received. *)
Theorem C2_amount_is_the_scaled_value cur receivable payable txs byMonth w :
  ready w ->
  group_by_month txs [] = Ok byMonth ->
  forallb parses (all_items byMonth) = true ->
  exists w' new,
    main_import reliable false cur receivable payable txs w = (Ok tt, w') /\
    lines (w_ledger w') = lines (w_ledger w) ++ new /\
    Forall2 (fun r ln =>
               exists v, BigInt_of_string (Etherscan.value r) = Some v /\
                         line_amount ln = Number_of_string (formatUnits v 18) /\
                         (0 <= v -> String.prefix "-" (formatUnits v 18) = false))
      (imported_events (import_ids (w_ledger w)) (all_items byMonth)) new.
Proof.
  intros Hw Hg Hv.
  destruct (real_import_lines cur receivable payable txs byMonth w Hw Hg Hv)
    as (w' & new & E & _ & L & F & _).
  exists w', new. split; [assumption|]. split; [assumption|].
  revert F. apply Forall2_impl. intros r ln (id & stId & date & v & Ev & ->).
  exists v. split; [assumption|]. split; [reflexivity|]. apply formatUnits_unsigned.
Qed.

(** A transfer of one token that the tracked wallet sent. *)
Definition outgoing : Etherscan.EtherscanTokenTransfer :=
  transfer "0xdef" "4" walletAddress "0x2222222222222222222222222222222222222222"
    "1000000000000000000" "1726401600" "18".

Lemma C2_amount_witness :
  exists w' new,
    main_import reliable false "2024-11" 11 12 [outgoing] (logged_in empty_ledger) = (Ok tt, w') /\
    lines (w_ledger w') = new /\
    Forall2 (fun r ln =>
               exists v, BigInt_of_string (Etherscan.value r) = Some v /\
                         line_amount ln = Number_of_string (formatUnits v 18) /\
                         (0 <= v -> String.prefix "-" (formatUnits v 18) = false))
      [outgoing] new.
Proof.
  apply (C2_amount_is_the_scaled_value "2024-11" 11 12 [outgoing]
           [("2024-09"%string, [(outgoing, "2024-09-15"%string)])] (logged_in empty_ledger)).
  - split; reflexivity.
  - vm_compute. reflexivity.
  - vm_compute. reflexivity.
Defined.

(** The code departs from C2: the wallet sent one token, and the line it
    gets carries the amount 1, not -1. *)
Lemma C2_counterexample_outgoing_booked_positive :
  Etherscan.from outgoing = walletAddress /\
  Etherscan.value outgoing = "1000000000000000000"%string /\
  map line_amount
    (lines (w_ledger (snd (main_import reliable false "2024-11" 11 12 [outgoing]
                             (logged_in empty_ledger)))))
    = [Number_of_Z 1].
Proof.
  split; [reflexivity|]. split; [reflexivity|]. vm_compute. reflexivity.
Qed.

(* ================================================================== *)
(** * Failures                                                         *)
(* ================================================================== *)

Lemma for_each_app {A} (body : A -> M unit) (xs ys : list A) w w1 :
  for_each body xs w = (Ok tt, w1) ->
  for_each body (xs ++ ys) w = for_each body ys w1.
Proof.
  revert w. induction xs as [|x xs IH]; intros w; cbn [for_each app].
  - unfold ret. intros H. now injection H as ->.
  - unfold bind. destruct (body x w) as [[[]|e] w0]; [apply IH|discriminate].
Qed.

Lemma for_each_throw {A} (body : A -> M unit) (x : A) (xs : list A) e w w1 :
  body x w = (Throw e, w1) -> for_each body (x :: xs) w = (Throw e, w1).
Proof. intros H. cbn [for_each]. unfold bind. now rewrite H. Qed.

(** A ledger that rejects the creation of the line of one transaction. *)
Definition rejects_line_of (hash : string) (e : exn) : list request -> request -> option exn :=
  fun _ rq =>
    match rq with
    | ExecuteKw _ _ _ (LineCreate p) =>
        match p_unique_import_id p with
        | Some u => if String.eqb u hash then Some e else None
        | None => None
        end
    | _ => None
    end.

Definition validation_error : exn :=
  mk_exn Error "Odoo RPC Error: The journal entry is not balanced.".

(** A rejected creation of the line makes the processing of the event
    raise. *)
Lemma rejected_line_raises faulty monthKey stId receivable payable r date v e w :
  fails_only_on_line_create faulty ->
  ready w ->
  BigInt_of_string (Etherscan.value r) = Some v ->
  duplicate (import_ids (w_ledger w)) r = false ->
  (forall h db u pw st amount d,
     faulty h (ExecuteKw db u pw (LineCreate (main_payload st r amount d))) = Some e) ->
  exists w', main_item faulty false monthKey stId receivable payable (r, date) w = (Throw e, w')
             /\ lines (w_ledger w') = lines (w_ledger w).
Proof.
  intros Hf Hw Hv Hdup Hrej. unfold main_item. rewrite Hv. cbv zeta.
  destruct (real_main_counterparty faulty Hf receivable payable r w Hw)
    as ([] & w1 & E1 & (Hc & Hl & Hd)).
  unfold bind. rewrite E1, (real_main_line faulty Hf). cbv zeta.
  rewrite (import_ids_lines _ _ Hl), Hdup. unfold issue. rewrite Hrej.
  eexists. split; [reflexivity|].
  unfold record_request, searched. destruct (unique_import_id r); exact Hl.
Qed.

(** ** C4 *)

(** C4, as the code has it.  The loops over the months and the events have
    no handler: when the processing of an event raises, whatever the cause,
    the import raises the same error in the state of the failure; the events
    after it, the closing of the months and the final sweep are not run.
    And the processing of an event does raise when the ledger rejects the
    creation of its line. *)
Theorem C4_event_failure_aborts_import faulty cur receivable payable txs :
  (forall dryRun before monthKey earlier it later after e w w1 stId w2 w3 w4,
     group_by_month txs [] = Ok (before ++ (monthKey, earlier ++ it :: later) :: after) ->
     for_each (main_month faulty dryRun cur receivable payable) before w = (Ok tt, w1) ->
     getOrCreateMonthlyStatement faulty journalId monthKey dryRun w1 = (Ok stId, w2) ->
     for_each (main_item faulty dryRun monthKey stId receivable payable) earlier w2
       = (Ok tt, w3) ->
     main_item faulty dryRun monthKey stId receivable payable it w3 = (Throw e, w4) ->
     main_import faulty dryRun cur receivable payable txs w = (Throw e, w4)) /\
  (fails_only_on_line_create faulty ->
   forall monthKey stId r date v e w,
     ready w ->
     BigInt_of_string (Etherscan.value r) = Some v ->
     duplicate (import_ids (w_ledger w)) r = false ->
     (forall h db u pw st amount d,
        faulty h (ExecuteKw db u pw (LineCreate (main_payload st r amount d))) = Some e) ->
     exists w',
       main_item faulty false monthKey stId receivable payable (r, date) w = (Throw e, w')
       /\ lines (w_ledger w') = lines (w_ledger w)).
Proof.
  split.
  - intros dryRun before monthKey earlier it later after e w w1 stId w2 w3 w4
      Hg Hbefore Hst Hearlier Hit.
    unfold main_import. rewrite Hg.
    apply bind_throw. rewrite (for_each_app _ _ _ _ _ Hbefore).
    apply for_each_throw. unfold main_month.
    rewrite (bind_ok _ _ _ _ _ Hst). apply bind_throw.
    rewrite (for_each_app _ _ _ _ _ Hearlier). now apply for_each_throw.
  - intros Hf monthKey stId r date v e w. now apply rejected_line_raises.
Qed.

Lemma C4_event_failure_witness :
  fst (main_import (rejects_line_of "0xabc" validation_error) false "2024-11" 11 12
         [incoming; outgoing] (logged_in empty_ledger))
  = Throw validation_error.
Proof.
  set (faulty := rejects_line_of "0xabc" validation_error).
  set (w2 := snd (getOrCreateMonthlyStatement faulty journalId "2024-09" false
                    (logged_in empty_ledger))).
  set (w4 := snd (main_item faulty false "2024-09" 1 11 12 (incoming, "2024-09-15"%string) w2)).
  rewrite (proj1 (C4_event_failure_aborts_import faulty "2024-11" 11 12 [incoming; outgoing])
             false [] "2024-09"%string [] (incoming, "2024-09-15"%string)
             [(outgoing, "2024-09-15"%string)] []
             validation_error (logged_in empty_ledger) (logged_in empty_ledger) 1 w2 w2 w4).
  - reflexivity.
  - vm_compute. reflexivity.
  - reflexivity.
  - vm_compute. reflexivity.
  - reflexivity.
  - vm_compute. reflexivity.
Defined.

(** Claim C4 as stated fails.  The ledger rejects the line of the first of
    two events and would accept the line of the second.  The run ends with
    the error of the first; the second event is never looked at: no line and
    no decision for it, and the statement of the month is left as it was
    created. *)
Lemma C4_counterexample_run_stops_at_failure :
  let faulty := rejects_line_of "0xabc" validation_error in
  let run := main_import faulty false "2024-11" 11 12 [incoming; outgoing]
               (logged_in empty_ledger) in
  let alone := main_import faulty false "2024-11" 11 12 [outgoing] (logged_in empty_ledger) in
  fst run = Throw validation_error /\
  lines (w_ledger (snd run)) = [] /\
  decisions (snd run) = [] /\
  map statement_posted (statements (w_ledger (snd run))) = [false] /\
  fst alone = Ok tt /\
  map line_payment_ref (lines (w_ledger (snd alone)))
    = ["0xdef:4:0x420CA0f9B9b604cE0fd9C18EF134C705e5Fa3430"%string].
Proof.
  cbv zeta.
  split; [vm_compute; reflexivity|]. split; [vm_compute; reflexivity|].
  split; [vm_compute; reflexivity|]. split; [vm_compute; reflexivity|].
  split; vm_compute; reflexivity.
Qed.

(* ================================================================== *)
(** * Steps that keep a relation, whatever fails                       *)
(* ================================================================== *)

(** The action that posts a statement. *)
Definition is_post (c : call) : bool :=
  match c with
  | StatementButtonPost _ => true
  | _ => false
  end.

Section Framed.

Variable faulty : list request -> request -> option exn.

(** What is known of the client, and the relation that every step keeps
    between the state before and the state after, whether it returns or
    raises. *)
Variable Pc : OdooClient -> Prop.
Variable R : world -> world -> Prop.
Variable writes_allowed : bool.

(** The statements whose posting keeps the relation. *)
Variable C : Z -> world -> Prop.

Hypothesis R_refl : forall w, R w w.
Hypothesis R_trans : forall a b c, R a b -> R b c -> R a c.
Hypothesis R_client : forall w w', R w w' -> w_client w' = w_client w.
Hypothesis R_console : forall e w,
  R w (mk_world (w_client w) (w_ledger w) (w_trace w) (w_console w ++ [e])).
Hypothesis R_call : forall c w,
  is_post c = false -> (is_write c = true -> writes_allowed = true) ->
  R w (snd (Odoo.callRPC faulty c w)).
Hypothesis R_post : forall id w,
  C id w -> R w (snd (Odoo.callRPC faulty (StatementButtonPost id) w)).
Hypothesis C_keeps : forall id w w', R w w' -> C id w -> C id w'.
Hypothesis dry_client : writes_allowed = false -> forall c, Pc c -> dryRun c = true.

Definition framed {A : Type} (m : M A) : Prop :=
  forall w, Pc (w_client w) -> R w (snd (m w)).

Lemma framed_ret {A} (a : A) : framed (ret a).
Proof. intros w _. apply R_refl. Qed.

Lemma framed_throw {A} (e : exn) : framed (@throw A e).
Proof. intros w _. apply R_refl. Qed.

Lemma framed_console e : framed (console e).
Proof. intros w _. apply R_console. Qed.

Lemma framed_call c :
  is_post c = false -> (is_write c = true -> writes_allowed = true) ->
  framed (Odoo.callRPC faulty c).
Proof. intros H1 H2 w _. now apply R_call. Qed.

(** The rule of sequencing, at one state. *)
Lemma bind_related {A B} (m : M A) (k : A -> M B) w :
  R w (snd (m w)) ->
  (forall a w1, m w = (Ok a, w1) -> R w w1 -> R w1 (snd (k a w1))) ->
  R w (snd (bind m k w)).
Proof.
  intros Hm Hk. unfold bind. destruct (m w) as [[a|e] w1] eqn:E; cbn [snd] in *.
  - eapply R_trans; [exact Hm|]. now apply (Hk a w1).
  - exact Hm.
Qed.

Lemma related_client w w' : Pc (w_client w) -> R w w' -> Pc (w_client w').
Proof. intros H HR. now rewrite (R_client _ _ HR). Qed.

Lemma framed_bind {A B} (m : M A) (k : A -> M B) :
  framed m -> (forall a, framed (k a)) -> framed (bind m k).
Proof.
  intros Hm Hk w Hw. apply bind_related; [now apply Hm|].
  intros a w1 _ HR. apply Hk. eapply related_client; eassumption.
Qed.

Lemma framed_bind_this {B} (k : OdooClient -> M B) :
  (forall c, Pc c -> framed (k c)) -> framed (bind this k).
Proof. intros Hk w Hw. unfold bind, this. now apply Hk. Qed.

Lemma framed_try_catch {A} (m : M A) (h : exn -> M A) :
  framed m -> (forall e, framed (h e)) -> framed (try_catch m h).
Proof.
  intros Hm Hh w Hw. unfold try_catch. specialize (Hm w Hw).
  destruct (m w) as [[a|e] w1]; cbn [snd] in *; [assumption|].
  eapply R_trans; [exact Hm|]. apply Hh. eapply related_client; eassumption.
Qed.

Lemma for_each_related {A} (body : A -> M unit) (items : list A) w :
  Pc (w_client w) ->
  (forall x w1, In x items -> R w w1 -> R w1 (snd (body x w1))) ->
  R w (snd (for_each body items w)).
Proof.
  revert w. induction items as [|x rest IH]; intros w Hw H; cbn [for_each].
  - apply R_refl.
  - apply bind_related; [apply H; [now left|apply R_refl]|].
    intros [] w1 _ HR. apply IH; [eapply related_client; eassumption|].
    intros y w2 Hy HR2. apply H; [now right|]. eapply R_trans; eassumption.
Qed.

Lemma framed_for_each {A} (body : A -> M unit) (items : list A) :
  (forall x, framed (body x)) -> framed (for_each body items).
Proof.
  intros H w Hw. apply for_each_related; [assumption|].
  intros x w1 _ HR. apply H. eapply related_client; eassumption.
Qed.

Lemma framed_require_uid : framed require_uid.
Proof.
  unfold require_uid. apply framed_bind_this. intros c _.
  destruct (uid_truthy (uid c)); [apply framed_ret|apply framed_throw].
Qed.

(** The client's own dry-run flag is set when writes are not allowed. *)
Lemma real_client c : Pc c -> dryRun c = false -> writes_allowed = true.
Proof.
  intros Hc Hd. destruct writes_allowed eqn:W; [reflexivity|].
  rewrite (dry_client eq_refl c Hc) in Hd. discriminate.
Qed.

Ltac frames :=
  repeat first
    [ apply framed_ret
    | apply framed_throw
    | apply framed_console
    | apply framed_require_uid
    | match goal with
      | |- framed (Odoo.callRPC _ ?c) =>
          apply (framed_call c);
          [reflexivity
          | first [discriminate | intros _; assumption | intros _; eauto using real_client]]
      end
    | apply framed_try_catch; [|intros]
    | apply framed_bind_this; intros
    | apply framed_bind; [|intros]
    | match goal with
      | |- framed (match ?x with _ => _ end) => destruct x eqn:?
      | |- framed (if ?b then _ else _) => destruct b eqn:?
      end ].

Lemma findBankAccountByIdentifier_framed ident :
  framed (findBankAccountByIdentifier faulty ident).
Proof. unfold findBankAccountByIdentifier. frames. Qed.

Lemma getPartnerIdByName_framed name : framed (getPartnerIdByName faulty name).
Proof. unfold getPartnerIdByName. frames. Qed.

Lemma createPartner_framed name address receivable payable :
  framed (createPartner faulty name address receivable payable).
Proof. unfold createPartner. frames. Qed.

Lemma createBankAccount_framed iban partnerId name :
  framed (createBankAccount faulty iban partnerId name).
Proof. unfold createBankAccount. frames. Qed.

Lemma findOrCreatePartnerByName_framed name dry receivable payable :
  framed (findOrCreatePartnerByName faulty name dry receivable payable).
Proof.
  unfold findOrCreatePartnerByName.
  destruct (negb (truthy_string (trim name))); [frames|].
  apply framed_bind; [apply getPartnerIdByName_framed|intros found].
  destruct (negb (no_id found)); [frames|].
  destruct dry; [frames|]. apply createPartner_framed.
Qed.

Lemma findOrCreatePartnerBank_framed partnerId iban dry receivable payable :
  framed (findOrCreatePartnerBank faulty partnerId iban dry receivable payable).
Proof.
  unfold findOrCreatePartnerBank.
  destruct (negb (truthy_string (account_key iban))); [frames|].
  apply framed_bind; [apply findBankAccountByIdentifier_framed|intros found].
  destruct (negb (no_id found)); [frames|].
  destruct dry; [frames|].
  apply framed_bind.
  - destruct (negb (partnerId =? 0)); [frames|]. apply findOrCreatePartnerByName_framed.
  - intros pid. apply createBankAccount_framed.
Qed.

Lemma getOrCreateMonthlyStatement_framed journal monthKey dry :
  (dry = false -> writes_allowed = true) ->
  framed (getOrCreateMonthlyStatement faulty journal monthKey dry).
Proof.
  intros Hdry. unfold getOrCreateMonthlyStatement, ImportTxs.callRPC.
  apply framed_bind; [frames|intros found].
  destruct found; [|frames]. destruct dry; [frames|].
  apply (framed_call (StatementCreate _ _ _)); [reflexivity|]. intros _. now apply Hdry.
Qed.

Lemma sumStatementLineAmounts_framed statementId :
  framed (sumStatementLineAmounts faulty statementId).
Proof. unfold sumStatementLineAmounts, ImportTxs.callRPC. frames. Qed.

Lemma main_partner_accounts_framed partnerId receivable payable :
  writes_allowed = true ->
  framed (main_partner_accounts faulty partnerId receivable payable).
Proof.
  intros Hw. unfold main_partner_accounts, ImportTxs.callRPC.
  apply framed_bind; [frames|intros partners].
  destruct partners as [|partner rest]; [frames|]. cbv zeta.
  destruct (property_account_receivable_id partner), (property_account_payable_id partner);
    frames.
Qed.

Lemma main_counterparty_framed dry receivable payable r :
  (dry = false -> writes_allowed = true) ->
  framed (main_counterparty faulty dry receivable payable r).
Proof.
  intros Hdry. unfold main_counterparty.
  apply framed_bind; [apply findOrCreatePartnerBank_framed|intros bankId].
  destruct dry; [rewrite andb_false_r; frames|].
  destruct (negb (bankId =? 0) && negb false); [|frames].
  unfold main_ensure_partner_accounts, ImportTxs.callRPC.
  apply framed_bind; [frames|intros pb].
  destruct pb as [|b rest]; [frames|].
  destruct (given_id (bank_partner_id b)); [|frames].
  apply main_partner_accounts_framed. now apply Hdry.
Qed.

Lemma main_line_framed dry monthKey stId r amount date :
  (dry = false -> writes_allowed = true) ->
  framed (main_line faulty dry monthKey stId r amount date).
Proof.
  intros Hdry. unfold main_line, ImportTxs.callRPC. cbv zeta.
  apply framed_bind; [destruct (unique_import_id r); frames|intros dup].
  destruct dup; [|frames]. destruct dry; [frames|].
  apply framed_bind; [|intros; frames].
  apply (framed_call (LineCreate _)); [reflexivity|]. intros _. now apply Hdry.
Qed.

Lemma main_item_framed dry monthKey stId receivable payable it :
  (dry = false -> writes_allowed = true) ->
  framed (main_item faulty dry monthKey stId receivable payable it).
Proof.
  intros Hdry. destruct it as [r date]. unfold main_item.
  destruct (BigInt_of_string (Etherscan.value r)); [|frames]. cbv zeta.
  apply framed_bind; [now apply main_counterparty_framed|intros _].
  now apply main_line_framed.
Qed.

(** The close procedure keeps the relation when the statement is one whose
    posting does. *)
Lemma closeStatementIfNeeded_related statementId dry w :
  (dry = false -> writes_allowed = true) ->
  Pc (w_client w) -> (dry = false -> C statementId w) ->
  R w (snd (closeStatementIfNeeded faulty statementId dry w)).
Proof.
  intros Hdry Hw HC. unfold closeStatementIfNeeded, ImportTxs.callRPC.
  apply bind_related; [apply (framed_call (StatementRead _)); [reflexivity|discriminate|assumption]|].
  intros recs w1 _ R1. destruct recs as [|st rest]; [apply R_refl|].
  pose proof (related_client _ _ Hw R1) as Hw1.
  apply bind_related.
  - match goal with
    | |- R w1 (snd (?m w1)) => cut (framed m); [intros F; exact (F w1 Hw1)|]
    end.
    destruct (isNaN _); [|frames].
    apply framed_bind; [apply sumStatementLineAmounts_framed|intros sumLines]. cbv zeta.
    apply framed_bind; [|intros; frames].
    destruct dry; [frames|].
    apply framed_bind; [|intros; frames].
    apply (framed_call (StatementWrite _ _)); [reflexivity|]. intros _. now apply Hdry.
  - intros endReal w2 _ R2. pose proof (related_client _ _ Hw1 R2) as Hw2.
    destruct dry; [apply R_console|].
    unfold try_catch.
    assert (Hpost : R w2 (snd (bind (Odoo.callRPC faulty (StatementButtonPost statementId))
                                 (fun _ => console (LogClosed statementId endReal)) w2))).
    { apply bind_related.
      - apply R_post. eapply C_keeps; [exact R2|]. eapply C_keeps; [exact R1|]. now apply HC.
      - intros _ w3 _ _. apply R_console. }
    destruct (bind _ _ w2) as [[a|e] w3]; cbn [snd] in *; [assumption|].
    eapply R_trans; [exact Hpost|apply R_console].
Qed.

(** ** The loops of the import *)

Variable cur : string.

(** When the run writes, the statements it closes are ones whose posting
    keeps the relation: the statement of a month before the current one,
    and the past statements that the sweep reads. *)
Hypothesis C_statement : forall monthKey w stId w',
  writes_allowed = true ->
  string_lt monthKey cur = true ->
  getOrCreateMonthlyStatement faulty journalId monthKey false w = (Ok stId, w') ->
  C stId w'.
Hypothesis C_sweep : forall w (allSts : list statement) w' st monthKey,
  writes_allowed = true ->
  Odoo.callRPC faulty (StatementSearchReadJournal journalId) w = (Ok allSts, w') ->
  In st allSts ->
  feed_month (statement_name st) = Some monthKey ->
  string_lt monthKey cur = true ->
  C (statement_id st) w'.

Lemma main_month_framed dry receivable payable group :
  (dry = false -> writes_allowed = true) ->
  framed (main_month faulty dry cur receivable payable group).
Proof.
  intros Hdry. destruct group as [monthKey items]. unfold main_month. intros w Hw.
  apply bind_related; [now apply getOrCreateMonthlyStatement_framed|].
  intros stId w1 E1 R1. pose proof (related_client _ _ Hw R1) as Hw1.
  apply bind_related.
  - apply framed_for_each; [|assumption]. intros it. now apply main_item_framed.
  - intros [] w2 _ R2. pose proof (related_client _ _ Hw1 R2) as Hw2.
    destruct (string_lt monthKey cur) eqn:Hlt; [|apply R_console].
    apply closeStatementIfNeeded_related; [assumption..|].
    intros ->. eapply C_keeps; [exact R2|]. eapply C_statement; eauto.
Qed.

Lemma closeAllPastMonthlyStatements_framed dry :
  (dry = false -> writes_allowed = true) ->
  framed (closeAllPastMonthlyStatements faulty journalId cur dry).
Proof.
  intros Hdry w Hw. unfold closeAllPastMonthlyStatements, ImportTxs.callRPC.
  apply bind_related.
  { apply (framed_call (StatementSearchReadJournal _)); [reflexivity|discriminate|assumption]. }
  intros allSts w1 E1 R1. pose proof (related_client _ _ Hw R1) as Hw1.
  apply for_each_related; [assumption|].
  intros st w2 Hin R2. pose proof (related_client _ _ Hw1 R2) as Hw2.
  destruct (feed_month (statement_name st)) as [stMonth|] eqn:Hm; [|apply R_refl].
  destruct (string_lt stMonth cur) eqn:Hlt; [|apply R_refl].
  apply closeStatementIfNeeded_related; [assumption..|].
  intros ->. eapply C_keeps; [exact R2|]. eapply C_sweep; eauto.
Qed.

Lemma main_import_framed dry receivable payable txs :
  (dry = false -> writes_allowed = true) ->
  framed (main_import faulty dry cur receivable payable txs).
Proof.
  intros Hdry. unfold main_import.
  destruct (group_by_month txs []) as [byMonth|e]; [|apply framed_throw].
  apply framed_bind.
  - apply framed_for_each. intros group. now apply main_month_framed.
  - intros _. now apply closeAllPastMonthlyStatements_framed.
Qed.

End Framed.

(* ================================================================== *)
(** * Dry runs                                                         *)
(* ================================================================== *)

(** The step sent reading requests only, and left the ledger and the
    client as they were. *)
Definition reads_only (w w' : world) : Prop :=
  w_client w' = w_client w /\
  w_ledger w' = w_ledger w /\
  exists new, w_trace w' = w_trace w ++ new
              /\ forallb (fun rq => negb (request_is_write rq)) new = true.

Lemma reads_only_refl w : reads_only w w.
Proof. repeat split. exists []. now rewrite app_nil_r. Qed.

Lemma reads_only_trans a b c : reads_only a b -> reads_only b c -> reads_only a c.
Proof.
  intros (C1 & L1 & n1 & T1 & F1) (C2 & L2 & n2 & T2 & F2).
  split; [congruence|]. split; [congruence|].
  exists (n1 ++ n2). rewrite T2, T1, app_assoc, forallb_app, F1, F2. auto.
Qed.

Lemma reads_only_console e w :
  reads_only w (mk_world (w_client w) (w_ledger w) (w_trace w) (w_console w ++ [e])).
Proof. repeat split. exists []. now rewrite app_nil_r. Qed.

Lemma reads_only_call faulty c w :
  is_post c = false -> (is_write c = true -> false = true) ->
  reads_only w (snd (Odoo.callRPC faulty c w)).
Proof.
  intros _ Hw. assert (Hr : is_write c = false).
  { destruct (is_write c); [discriminate (Hw eq_refl)|reflexivity]. }
  unfold Odoo.callRPC. destruct (faulty _ _).
  - cbn. repeat split. eexists. split; [reflexivity|]. cbn. now rewrite Hr.
  - pose proof (serve_read c (w_ledger w) Hr) as Hs.
    destruct (serve c (w_ledger w)) as [a l]. cbn in *. subst l.
    repeat split. eexists. split; [reflexivity|]. cbn. now rewrite Hr.
Qed.

(** Whatever the remote side answers, a dry run of the import sends no
    writing request. *)
Lemma dry_import_reads_only faulty cur receivable payable txs w :
  dryRun (w_client w) = true ->
  reads_only w (snd (main_import faulty true cur receivable payable txs w)).
Proof.
  intros Hw.
  eapply main_import_framed
    with (Pc := fun c => dryRun c = true) (writes_allowed := false)
         (C := fun _ _ => False);
    first [ exact reads_only_refl | exact reads_only_trans | exact reads_only_console
          | exact (reads_only_call faulty) | exact Hw
          | now intros ? ? (H & _)
          | intros; discriminate
          | intros; contradiction
          | intros; assumption ].
Qed.

(** The identifiers a dry run makes up. *)
Lemma createPartner_dry faulty name address receivable payable w :
  authenticated w -> dryRun (w_client w) = true ->
  fst (createPartner faulty name address receivable payable w) = Ok 999999.
Proof.
  intros Hu Hd. unfold createPartner, require_uid, bind, this. rewrite Hu. cbn. now rewrite Hd.
Qed.

Lemma createBankAccount_dry faulty iban partnerId name w :
  authenticated w -> dryRun (w_client w) = true ->
  fst (createBankAccount faulty iban partnerId name w) = Ok 888888.
Proof.
  intros Hu Hd. unfold createBankAccount, require_uid, bind, this. rewrite Hu. cbn. now rewrite Hd.
Qed.

Lemma getOrCreateMonthlyStatement_dry faulty journal monthKey w w1 :
  Odoo.callRPC faulty (StatementSearchRead journal ("Feed " ++ monthKey)) w = (Ok [], w1) ->
  fst (getOrCreateMonthlyStatement faulty journal monthKey true w) = Ok 777777.
Proof.
  intros E. unfold getOrCreateMonthlyStatement, ImportTxs.callRPC, bind. cbv zeta.
  now rewrite E.
Qed.

(** ** The decisions of a dry run against a reliable ledger *)

Lemma idle_refl w : idle w w.
Proof. split; [apply quiet_refl|reflexivity]. Qed.

Lemma idle_trans a b c : idle a b -> idle b c -> idle a c.
Proof. intros [Q1 L1] [Q2 L2]. split; [eapply quiet_trans; eassumption|congruence]. Qed.

Lemma idle_authenticated w w' : authenticated w -> idle w w' -> authenticated w'.
Proof. intros Hw [(C & _) _]. unfold authenticated in *. now rewrite C. Qed.

Lemma idle_console e w :
  decision_of e = [] ->
  idle w (mk_world (w_client w) (w_ledger w) (w_trace w) (w_console w ++ [e])).
Proof. intros He. split; [now apply quiet_console|reflexivity]. Qed.

Lemma dry_call_ok c :
  is_line_create c = false -> (is_write c = true -> false = true) ->
  sound authenticated idle (Odoo.callRPC reliable c).
Proof.
  intros Hc Hw w _. assert (Hr : is_write c = false).
  { destruct (is_write c); [discriminate (Hw eq_refl)|reflexivity]. }
  eexists. eexists.
  split; [now apply (callRPC_answers reliable reliable_only_line_create)|].
  rewrite (serve_read c _ Hr). repeat split.
Qed.

Definition dry_steps {A} (m : M A) : Prop := sound authenticated idle m.

Ltac dry_instance lemma :=
  unfold dry_steps;
  eapply lemma with (writes_allowed := false);
  first [ exact idle_refl | exact idle_trans | exact idle_authenticated
        | exact (fun w (H : authenticated w) => H) | exact idle_console | exact dry_call_ok
        | discriminate | intros; discriminate ].

Lemma dry_findOrCreatePartnerBank partnerId iban receivable payable :
  dry_steps (findOrCreatePartnerBank reliable partnerId iban true receivable payable).
Proof. dry_instance findOrCreatePartnerBank_ok. Qed.

Lemma dry_getOrCreateMonthlyStatement journal monthKey :
  dry_steps (getOrCreateMonthlyStatement reliable journal monthKey true).
Proof. dry_instance getOrCreateMonthlyStatement_ok. Qed.

Lemma dry_closeStatementIfNeeded statementId :
  dry_steps (closeStatementIfNeeded reliable statementId true).
Proof. dry_instance closeStatementIfNeeded_ok. Qed.

Lemma dry_closeAllPastMonthlyStatements journal currentMonthKey :
  dry_steps (closeAllPastMonthlyStatements reliable journal currentMonthKey true).
Proof. dry_instance closeAllPastMonthlyStatements_ok. Qed.

Lemma dry_main_counterparty receivable payable r :
  dry_steps (main_counterparty reliable true receivable payable r).
Proof.
  intros w Hw. unfold main_counterparty.
  destruct (dry_findOrCreatePartnerBank 0 (toLowerCase (partnerAddress r))
              (Some receivable) (Some payable) w Hw) as (id & w1 & E1 & H1).
  unfold bind. rewrite E1, andb_false_r. exists tt, w1. split; [reflexivity|exact H1].
Qed.

(** What the duplicate check and the announcement do in a dry run. *)
Lemma dry_main_line monthKey stId r amount date w :
  main_line reliable true monthKey stId r amount date w =
  (Ok tt,
   with_console (if duplicate (import_ids (w_ledger w)) r
                 then LogSkipDuplicate (Etherscan.hash r)
                 else LogWouldCreateLine (Etherscan.hash r) amount date)
     (searched r w)).
Proof.
  unfold main_line, duplicate, searched, ImportTxs.callRPC. cbv zeta.
  destruct (unique_import_id r) as [u|] eqn:Eu.
  - unfold bind at 1.
    rewrite (callRPC_answers reliable reliable_only_line_create) by reflexivity.
    pose proof (import_search_spec (w_ledger w) u) as Hs.
    destruct (fst (serve (LineSearchImportId u) (w_ledger w))) as [|x rest]; rewrite Hs;
      reflexivity.
  - reflexivity.
Qed.

(** What a dry run made of the state [w]: nothing, but for the decisions
    [ds] on the console. *)
Definition reports (ds : list decision) (w w' : world) : Prop :=
  w_client w' = w_client w /\
  w_ledger w' = w_ledger w /\
  decisions w' = decisions w ++ ds.

Lemma reports_idle w w' : idle w w' -> reports [] w w'.
Proof. intros [(C & _ & D) L]. unfold reports. now rewrite app_nil_r. Qed.

Lemma reports_trans da db w1 w2 w3 :
  reports da w1 w2 -> reports db w2 w3 -> reports (da ++ db) w1 w3.
Proof.
  intros (C1 & L1 & D1) (C2 & L2 & D2). unfold reports.
  split; [congruence|]. split; [congruence|]. now rewrite D2, D1, app_assoc.
Qed.

Lemma reports_authenticated ds w w' : authenticated w -> reports ds w w' -> authenticated w'.
Proof. intros Hw (C & _). unfold authenticated in *. now rewrite C. Qed.

Lemma dry_item monthKey stId receivable payable it w :
  authenticated w -> parses it = true ->
  exists w', main_item reliable true monthKey stId receivable payable it w = (Ok tt, w')
             /\ reports (item_decisions false (import_ids (w_ledger w)) [it]) w w'.
Proof.
  intros Hw Hv. destruct it as [r date]. unfold parses in Hv. cbn [fst] in Hv.
  unfold main_item.
  destruct (BigInt_of_string (Etherscan.value r)) as [v|]; [|discriminate]. cbv zeta.
  destruct (dry_main_counterparty receivable payable r w Hw) as ([] & w1 & E1 & H1).
  unfold bind. rewrite E1, dry_main_line. eexists. split; [reflexivity|].
  destruct H1 as [(C & _ & D) L]. rewrite L.
  assert (S : reports [] w (searched r w1)).
  { unfold searched. destruct (unique_import_id r); repeat split; cbn; try assumption;
      unfold decisions in *; cbn; now rewrite ?app_nil_r. }
  cbn [item_decisions].
  destruct (duplicate (import_ids (w_ledger w)) r);
    apply (reports_trans [] _ w (searched r w1) _ S);
    unfold reports, with_console; cbn [w_client w_ledger];
    rewrite decisions_console_app; repeat split.
Qed.

Lemma item_decisions_dry_app seen a b :
  item_decisions false seen (a ++ b) = item_decisions false seen a ++ item_decisions false seen b.
Proof.
  induction a as [|[r d] a IH]; cbn; [reflexivity|].
  destruct (duplicate seen r); cbn; now rewrite IH.
Qed.

Lemma dry_items monthKey stId receivable payable items w :
  authenticated w -> forallb parses items = true ->
  exists w', for_each (main_item reliable true monthKey stId receivable payable) items w
             = (Ok tt, w')
             /\ reports (item_decisions false (import_ids (w_ledger w)) items) w w'.
Proof.
  revert w. induction items as [|it rest IH]; intros w Hw Hv.
  - exists w. split; [reflexivity|apply reports_idle, idle_refl].
  - cbn [forallb] in Hv. apply andb_prop in Hv as [Hit Hrest].
    destruct (dry_item monthKey stId receivable payable it w Hw Hit) as (w1 & E1 & I1).
    destruct (IH w1 (reports_authenticated _ _ _ Hw I1) Hrest) as (w2 & E2 & I2).
    exists w2. split.
    + cbn [for_each]. unfold bind. now rewrite E1.
    + destruct I1 as (C1 & L1 & D1). rewrite L1 in I2.
      change (it :: rest) with ([it] ++ rest). rewrite item_decisions_dry_app.
      eapply reports_trans; [|exact I2]. repeat split; assumption.
Qed.

Lemma dry_month cur receivable payable monthKey items w :
  authenticated w -> forallb parses items = true ->
  exists w', main_month reliable true cur receivable payable (monthKey, items) w = (Ok tt, w')
             /\ reports (item_decisions false (import_ids (w_ledger w)) items
                         ++ month_tail cur monthKey) w w'.
Proof.
  intros Hw Hv. unfold main_month.
  destruct (dry_getOrCreateMonthlyStatement journalId monthKey w Hw) as (stId & w1 & E1 & Q1).
  pose proof (idle_authenticated _ _ Hw Q1) as Hw1.
  destruct (dry_items monthKey stId receivable payable items w1 Hw1 Hv) as (w2 & E2 & I2).
  pose proof (reports_authenticated _ _ _ Hw1 I2) as Hw2.
  pose proof (reports_trans _ _ _ _ _ (reports_idle _ _ Q1) I2) as I12.
  destruct Q1 as [_ L1]. rewrite L1 in I12. cbn [app] in I12.
  unfold bind at 1. rewrite E1. unfold bind at 1. rewrite E2.
  unfold month_tail. destruct (string_lt monthKey cur).
  - destruct (dry_closeStatementIfNeeded stId w2 Hw2) as ([] & w3 & E3 & Q3).
    exists w3. split; [assumption|].
    generalize (reports_trans _ _ _ _ _ I12 (reports_idle _ _ Q3)). now rewrite !app_nil_r.
  - eexists. split; [reflexivity|].
    eapply reports_trans; [exact I12|].
    unfold reports. cbn [w_client w_ledger]. rewrite decisions_console_app. repeat split.
Qed.

Lemma dry_import cur receivable payable txs byMonth w :
  authenticated w -> group_by_month txs [] = Ok byMonth ->
  forallb parses (all_items byMonth) = true ->
  exists w', main_import reliable true cur receivable payable txs w = (Ok tt, w')
             /\ reports (month_decisions false cur (import_ids (w_ledger w)) byMonth) w w'.
Proof.
  intros Hw Hg Hv. unfold main_import. rewrite Hg.
  assert (Hmonths : forall groups w0,
             authenticated w0 -> forallb parses (all_items groups) = true ->
             exists w', for_each (main_month reliable true cur receivable payable) groups w0
                        = (Ok tt, w')
                        /\ reports (month_decisions false cur (import_ids (w_ledger w0)) groups)
                             w0 w').
  { induction groups as [|[monthKey items] rest IH]; intros w0 Hw0 Hv0.
    - exists w0. split; [reflexivity|apply reports_idle, idle_refl].
    - unfold all_items in Hv0. cbn [flat_map snd] in Hv0. rewrite forallb_app in Hv0.
      apply andb_prop in Hv0 as [Hit Hrest].
      destruct (dry_month cur receivable payable monthKey items w0 Hw0 Hit) as (w1 & E1 & I1).
      destruct (IH w1 (reports_authenticated _ _ _ Hw0 I1) Hrest) as (w2 & E2 & I2).
      exists w2. split.
      + cbn [for_each]. unfold bind. now rewrite E1.
      + pose proof I1 as (_ & L1 & _). rewrite L1 in I2.
        generalize (reports_trans _ _ _ _ _ I1 I2).
        cbn [month_decisions]. now rewrite <- app_assoc. }
  destruct (Hmonths byMonth w Hw Hv) as (w1 & E1 & I1).
  destruct (dry_closeAllPastMonthlyStatements journalId cur w1
              (reports_authenticated _ _ _ Hw I1)) as ([] & w2 & E2 & Q2).
  exists w2. split.
  - unfold bind. now rewrite E1.
  - generalize (reports_trans _ _ _ _ _ I1 (reports_idle _ _ Q2)). now rewrite !app_nil_r.
Qed.

(** ** Dry and real decisions *)

(** The transaction hashes of a batch, blank ones left out. *)
Definition batch_ids (items : list item) : list string :=
  flat_map (fun it => match unique_import_id (fst it) with
                      | Some u => [u]
                      | None => []
                      end) items.

Lemma known_app seen extra u : known (seen ++ extra) u = known seen u || known extra u.
Proof. apply existsb_app. Qed.

Lemma known_not_in extra u : ~ In u extra -> known extra u = false.
Proof.
  intros H. destruct (known extra u) eqn:K; [|reflexivity].
  apply known_In in K. contradiction.
Qed.

Lemma NoDup_app_parts {A} (a b : list A) :
  NoDup (a ++ b) -> NoDup a /\ NoDup b /\ forall x, In x a -> ~ In x b.
Proof.
  induction a as [|x a IH]; cbn; intros H.
  - split; [constructor|]. split; [assumption|]. intros x [].
  - inversion H as [|? ? Hx Hrest]; subst. destruct (IH Hrest) as (Ha & Hb & Hd).
    split; [|split; [assumption|]].
    + constructor; [|assumption]. intros Hin. apply Hx, in_or_app. now left.
    + intros y [<-|Hy]; [|now apply Hd]. intros Hin. apply Hx, in_or_app. now right.
Qed.

(** When no two events of the batch share a hash, what a real run learns
    from the events it imports changes no later decision. *)
Lemma item_decisions_fresh items : forall seen extra,
  NoDup (batch_ids items) ->
  (forall u, In u extra -> ~ In u (batch_ids items)) ->
  item_decisions true (seen ++ extra) items = item_decisions false seen items /\
  exists extra', seen_after (seen ++ extra) items = seen ++ extra'
                 /\ forall u, In u extra' -> In u extra \/ In u (batch_ids items).
Proof.
  induction items as [|[r d] rest IH]; intros seen extra Hn Hd.
  - split; [reflexivity|]. exists extra. auto.
  - cbn [item_decisions seen_after]. unfold batch_ids in Hn, Hd |- *.
    cbn [flat_map fst] in Hn, Hd |- *. fold (batch_ids rest) in Hn, Hd |- *.
    unfold duplicate, seen_with.
    destruct (unique_import_id r) as [u|] eqn:Eu; cbn [app] in Hn, Hd |- *.
    + inversion Hn as [|? ? Hu Hrest]; subst.
      assert (Hfresh : known extra u = false).
      { apply known_not_in. intros Hin. apply (Hd u Hin). now left. }
      rewrite known_app, Hfresh, orb_false_r.
      destruct (known seen u).
      * destruct (IH seen extra Hrest) as (E & extra' & S & I).
        { intros v Hv Hin. apply (Hd v Hv). now right. }
        rewrite E. split; [reflexivity|]. exists extra'. split; [assumption|].
        intros v Hv. destruct (I v Hv) as [Hv'|Hv']; [now left|right; now right].
      * rewrite <- app_assoc.
        destruct (IH seen (extra ++ [u]) Hrest) as (E & extra' & S & I).
        { intros v Hv Hin. apply in_app_or in Hv as [Hv|[<-|[]]]; [|contradiction].
          apply (Hd v Hv). now right. }
        rewrite E. split; [reflexivity|]. exists extra'. split; [assumption|].
        intros v Hv. destruct (I v Hv) as [Hv'|Hv']; [|right; now right].
        apply in_app_or in Hv' as [Hv'|[<-|[]]]; [now left|right; now left].
    + destruct (IH seen extra Hn Hd) as (E & extra' & S & I).
      rewrite E. split; [reflexivity|]. exists extra'. auto.
Qed.

Lemma month_decisions_fresh cur byMonth : forall seen extra,
  NoDup (batch_ids (all_items byMonth)) ->
  (forall u, In u extra -> ~ In u (batch_ids (all_items byMonth))) ->
  month_decisions true cur (seen ++ extra) byMonth = month_decisions false cur seen byMonth.
Proof.
  induction byMonth as [|[monthKey items] rest IH]; intros seen extra Hn Hd; [reflexivity|].
  cbn [month_decisions]. unfold all_items, batch_ids in Hn, Hd.
  cbn [flat_map snd] in Hn, Hd. rewrite flat_map_app in Hn, Hd.
  fold (batch_ids items) in Hn, Hd. fold (all_items rest) in Hn, Hd.
  fold (batch_ids (all_items rest)) in Hn, Hd.
  destruct (NoDup_app_parts _ _ Hn) as (Hitems & Hrest & Hdisj).
  destruct (item_decisions_fresh items seen extra Hitems) as (E & extra' & S & I).
  { intros u Hu Hin. apply (Hd u Hu), in_or_app. now left. }
  rewrite E, S, (IH seen extra' Hrest); [reflexivity|].
  intros u Hu Hin. destruct (I u Hu) as [Hu'|Hu'].
  - apply (Hd u Hu'), in_or_app. now right.
  - now apply (Hdisj u Hu').
Qed.

(** ** Runs that end early *)

(** The error of [BigInt] on text it cannot read. *)
Definition syntax_error : exn := mk_exn SyntaxError "Cannot convert to a BigInt".

(** How a run over the events [items] ends against a ledger that answers:
    it returns, unless a raw value is text that [BigInt] rejects. *)
Definition outcome (items : list item) : result unit :=
  if forallb parses items then Ok tt else Throw syntax_error.

(** The events a run reaches: those before the first whose raw value
    [BigInt] rejects. *)
Fixpoint reached (items : list item) : list item :=
  match items with
  | [] => []
  | it :: rest => if parses it then it :: reached rest else []
  end.

Fixpoint reached_months (byMonth : list (string * list item)) : list item :=
  match byMonth with
  | [] => []
  | (_, items) :: rest =>
      if forallb parses items then items ++ reached_months rest else reached items
  end.

(** The decisions of a run up to the point where it ends. *)
Fixpoint reached_decisions (real : bool) (currentMonthKey : string) (seen : list string)
    (byMonth : list (string * list item)) : list decision :=
  match byMonth with
  | [] => []
  | (monthKey, items) :: rest =>
      if forallb parses items
      then item_decisions real seen items ++ month_tail currentMonthKey monthKey
           ++ reached_decisions real currentMonthKey
                (if real then seen_after seen items else seen) rest
      else item_decisions real seen (reached items)
  end.

Lemma main_item_rejected faulty dry monthKey stId receivable payable it w :
  parses it = false ->
  main_item faulty dry monthKey stId receivable payable it w = (Throw syntax_error, w).
Proof.
  destruct it as [r date]. unfold parses, main_item. cbn [fst].
  destruct (BigInt_of_string (Etherscan.value r)); [discriminate|reflexivity].
Qed.

Lemma reached_all items : forallb parses items = true -> reached items = items.
Proof.
  induction items as [|it rest IH]; cbn; [reflexivity|].
  intros H. apply andb_prop in H as [-> Hr]. now rewrite IH.
Qed.

Lemma reached_prefix items : exists tail, items = reached items ++ tail.
Proof.
  induction items as [|it rest [tail IH]]; cbn; [now exists []|].
  destruct (parses it); [exists tail; cbn; congruence|now exists (it :: rest)].
Qed.

Lemma real_items_reached monthKey stId receivable payable items w :
  ready w ->
  exists w', for_each (main_item reliable false monthKey stId receivable payable) items w
             = (outcome items, w')
             /\ imports (reached items) w w'.
Proof.
  revert w. induction items as [|it rest IH]; intros w Hw.
  - exists w. split; [reflexivity|apply grows_quiet, quiet_refl].
  - unfold outcome. cbn [forallb reached for_each]. destruct (parses it) eqn:Hit.
    + destruct (real_item monthKey stId receivable payable it w Hw Hit) as (w1 & E1 & I1).
      destruct (IH w1 (grows_ready _ _ _ _ Hw I1)) as (w2 & E2 & I2).
      exists w2. split.
      * unfold bind. rewrite E1. exact E2.
      * unfold imports in *. rewrite (grows_seen _ _ _ _ I1) in I2.
        generalize (grows_trans _ _ _ _ _ _ _ I1 I2).
        change (it :: reached rest) with ([it] ++ reached rest).
        now rewrite <- item_decisions_app.
    + exists w. split.
      * unfold bind. now rewrite main_item_rejected.
      * apply grows_quiet, quiet_refl.
Qed.

Lemma real_month_reached cur receivable payable monthKey items w :
  ready w ->
  exists w', main_month reliable false cur receivable payable (monthKey, items) w
             = (outcome items, w')
             /\ grows (reached items)
                  (item_decisions true (import_ids (w_ledger w)) (reached items)
                   ++ (if forallb parses items then month_tail cur monthKey else [])) w w'.
Proof.
  intros Hw. unfold outcome. destruct (forallb parses items) eqn:Hv.
  - rewrite (reached_all items Hv). now apply real_month.
  - unfold main_month.
    destruct (real_getOrCreateMonthlyStatement reliable reliable_only_line_create
                journalId monthKey w Hw) as (stId & w1 & E1 & Q1).
    pose proof (quiet_ready _ _ Hw Q1) as Hw1.
    destruct (real_items_reached monthKey stId receivable payable items w1 Hw1)
      as (w2 & E2 & I2).
    unfold outcome in E2. rewrite Hv in E2. unfold imports in I2.
    pose proof (grows_trans _ _ _ _ _ _ _ (grows_quiet _ _ Q1) I2) as I12.
    destruct Q1 as (C1 & L1 & D1). rewrite (import_ids_lines _ _ L1) in I12.
    cbn [app] in I12.
    exists w2. split.
    + unfold bind at 1. rewrite E1. unfold bind at 1. now rewrite E2.
    + now rewrite app_nil_r.
Qed.

Lemma forallb_all_items monthKey items rest :
  forallb parses (all_items ((monthKey, items) :: rest))
  = forallb parses items && forallb parses (all_items rest).
Proof. unfold all_items. cbn [flat_map snd]. apply forallb_app. Qed.

Lemma real_months_reached cur receivable payable byMonth w :
  ready w ->
  exists w', for_each (main_month reliable false cur receivable payable) byMonth w
             = (outcome (all_items byMonth), w')
             /\ grows (reached_months byMonth)
                  (reached_decisions true cur (import_ids (w_ledger w)) byMonth) w w'.
Proof.
  revert w. induction byMonth as [|[monthKey items] rest IH]; intros w Hw.
  - exists w. split; [reflexivity|apply grows_quiet, quiet_refl].
  - destruct (real_month_reached cur receivable payable monthKey items w Hw) as (w1 & E1 & I1).
    unfold outcome in *. rewrite forallb_all_items.
    cbn [for_each reached_months reached_decisions].
    destruct (forallb parses items) eqn:Hv; cbn [andb].
    + rewrite (reached_all items Hv) in I1.
      destruct (IH w1 (grows_ready _ _ _ _ Hw I1)) as (w2 & E2 & I2).
      exists w2. split.
      * unfold bind. rewrite E1. exact E2.
      * rewrite (grows_seen _ _ _ _ I1) in I2.
        generalize (grows_trans _ _ _ _ _ _ _ I1 I2). now rewrite <- app_assoc.
    + exists w1. split.
      * unfold bind. now rewrite E1.
      * now rewrite app_nil_r in I1.
Qed.

Lemma real_import_reached cur receivable payable txs byMonth w :
  ready w -> group_by_month txs [] = Ok byMonth ->
  exists w', main_import reliable false cur receivable payable txs w
             = (outcome (all_items byMonth), w')
             /\ grows (reached_months byMonth)
                  (reached_decisions true cur (import_ids (w_ledger w)) byMonth) w w'.
Proof.
  intros Hw Hg. unfold main_import. rewrite Hg.
  destruct (real_months_reached cur receivable payable byMonth w Hw) as (w1 & E1 & I1).
  unfold outcome in *. destruct (forallb parses (all_items byMonth)).
  - destruct (real_closeAllPastMonthlyStatements reliable reliable_only_line_create
                journalId cur w1 (grows_ready _ _ _ _ Hw I1)) as ([] & w2 & E2 & Q2).
    exists w2. split.
    + unfold bind. now rewrite E1.
    + generalize (grows_trans _ _ _ _ _ _ _ I1 (grows_quiet _ _ Q2)). now rewrite !app_nil_r.
  - exists w1. split; [|exact I1]. unfold bind. now rewrite E1.
Qed.

Lemma dry_items_reached monthKey stId receivable payable items w :
  authenticated w ->
  exists w', for_each (main_item reliable true monthKey stId receivable payable) items w
             = (outcome items, w')
             /\ reports (item_decisions false (import_ids (w_ledger w)) (reached items)) w w'.
Proof.
  revert w. induction items as [|it rest IH]; intros w Hw.
  - exists w. split; [reflexivity|apply reports_idle, idle_refl].
  - unfold outcome. cbn [forallb reached for_each]. destruct (parses it) eqn:Hit.
    + destruct (dry_item monthKey stId receivable payable it w Hw Hit) as (w1 & E1 & I1).
      destruct (IH w1 (reports_authenticated _ _ _ Hw I1)) as (w2 & E2 & I2).
      exists w2. split.
      * unfold bind. rewrite E1. exact E2.
      * destruct I1 as (C1 & L1 & D1). rewrite L1 in I2.
        change (it :: reached rest) with ([it] ++ reached rest).
        rewrite item_decisions_dry_app.
        eapply reports_trans; [|exact I2]. repeat split; assumption.
    + exists w. split.
      * unfold bind. now rewrite main_item_rejected.
      * apply reports_idle, idle_refl.
Qed.

Lemma dry_month_reached cur receivable payable monthKey items w :
  authenticated w ->
  exists w', main_month reliable true cur receivable payable (monthKey, items) w
             = (outcome items, w')
             /\ reports (item_decisions false (import_ids (w_ledger w)) (reached items)
                         ++ (if forallb parses items then month_tail cur monthKey else [])) w w'.
Proof.
  intros Hw. unfold outcome. destruct (forallb parses items) eqn:Hv.
  - rewrite (reached_all items Hv). now apply dry_month.
  - unfold main_month.
    destruct (dry_getOrCreateMonthlyStatement journalId monthKey w Hw) as (stId & w1 & E1 & Q1).
    pose proof (idle_authenticated _ _ Hw Q1) as Hw1.
    destruct (dry_items_reached monthKey stId receivable payable items w1 Hw1)
      as (w2 & E2 & I2).
    unfold outcome in E2. rewrite Hv in E2.
    pose proof (reports_trans _ _ _ _ _ (reports_idle _ _ Q1) I2) as I12.
    destruct Q1 as [_ L1]. rewrite L1 in I12. cbn [app] in I12.
    exists w2. split.
    + unfold bind at 1. rewrite E1. unfold bind at 1. now rewrite E2.
    + now rewrite app_nil_r.
Qed.

Lemma dry_import_reached cur receivable payable txs byMonth w :
  authenticated w -> group_by_month txs [] = Ok byMonth ->
  exists w', main_import reliable true cur receivable payable txs w
             = (outcome (all_items byMonth), w')
             /\ reports (reached_decisions false cur (import_ids (w_ledger w)) byMonth) w w'.
Proof.
  intros Hw Hg. unfold main_import. rewrite Hg.
  assert (Hmonths : forall groups w0,
             authenticated w0 ->
             exists w', for_each (main_month reliable true cur receivable payable) groups w0
                        = (outcome (all_items groups), w')
                        /\ reports (reached_decisions false cur (import_ids (w_ledger w0)) groups)
                             w0 w').
  { induction groups as [|[monthKey items] rest IH]; intros w0 Hw0.
    - exists w0. split; [reflexivity|apply reports_idle, idle_refl].
    - destruct (dry_month_reached cur receivable payable monthKey items w0 Hw0)
        as (w1 & E1 & I1).
      unfold outcome in *. rewrite forallb_all_items.
      cbn [for_each reached_decisions].
      destruct (forallb parses items) eqn:Hv; cbn [andb].
      + rewrite (reached_all items Hv) in I1.
        destruct (IH w1 (reports_authenticated _ _ _ Hw0 I1)) as (w2 & E2 & I2).
        exists w2. split.
        * unfold bind. rewrite E1. exact E2.
        * pose proof I1 as (_ & L1 & _). rewrite L1 in I2.
          generalize (reports_trans _ _ _ _ _ I1 I2). now rewrite <- app_assoc.
      + exists w1. split.
        * unfold bind. now rewrite E1.
        * now rewrite app_nil_r in I1. }
  destruct (Hmonths byMonth w Hw) as (w1 & E1 & I1).
  unfold outcome in *. destruct (forallb parses (all_items byMonth)).
  - destruct (dry_closeAllPastMonthlyStatements journalId cur w1
                (reports_authenticated _ _ _ Hw I1)) as ([] & w2 & E2 & Q2).
    exists w2. split.
    + unfold bind. now rewrite E1.
    + generalize (reports_trans _ _ _ _ _ I1 (reports_idle _ _ Q2)). now rewrite !app_nil_r.
  - exists w1. split; [|exact I1]. unfold bind. now rewrite E1.
Qed.

Lemma batch_ids_app a b : batch_ids (a ++ b) = batch_ids a ++ batch_ids b.
Proof. apply flat_map_app. Qed.

Lemma reached_decisions_fresh cur byMonth : forall seen extra,
  NoDup (batch_ids (all_items byMonth)) ->
  (forall u, In u extra -> ~ In u (batch_ids (all_items byMonth))) ->
  reached_decisions true cur (seen ++ extra) byMonth = reached_decisions false cur seen byMonth.
Proof.
  induction byMonth as [|[monthKey items] rest IH]; intros seen extra Hn Hd; [reflexivity|].
  cbn [reached_decisions]. unfold all_items in Hn, Hd.
  cbn [flat_map snd] in Hn, Hd. fold (all_items rest) in Hn, Hd.
  rewrite batch_ids_app in Hn, Hd.
  destruct (NoDup_app_parts _ _ Hn) as (Hitems & Hrest & Hdisj).
  destruct (forallb parses items).
  - destruct (item_decisions_fresh items seen extra Hitems) as (E & extra' & S & I).
    { intros u Hu Hin. apply (Hd u Hu), in_or_app. now left. }
    rewrite E, S, (IH seen extra' Hrest); [reflexivity|].
    intros u Hu Hin. destruct (I u Hu) as [Hu'|Hu'].
    + apply (Hd u Hu'), in_or_app. now right.
    + now apply (Hdisj u Hu').
  - destruct (reached_prefix items) as [tail Ht].
    rewrite Ht, batch_ids_app in Hitems, Hd.
    destruct (NoDup_app_parts _ _ Hitems) as (Hreached & _ & _).
    destruct (item_decisions_fresh (reached items) seen extra Hreached) as (E & _).
    { intros u Hu Hin. apply (Hd u Hu), in_or_app. left. apply in_or_app. now left. }
    exact E.
Qed.

Definition dry_logged_in (l : ledger) : world :=
  mk_world (mk_odoo example_config (UidNumber 2) true) l [] [].

(** The console says that a statement was, or would be, closed. *)
Definition is_close_log (e : log_entry) : bool :=
  match e with
  | LogClosed _ _ | LogWouldClose _ _ => true
  | _ => false
  end.

(** ** C9 *)

(** C9, as the code has it.  Whatever the remote side answers, a dry run of
    the import sends reading requests only and leaves the ledger as it was.
    In dry-run mode the client's [createPartner] returns 999999 and its
    [createBankAccount] 888888, and the script's statement lookup returns
    777777 for a month that has no statement.  Against a ledger that
    answers, on a batch in which no two events share a transaction hash,
    the dry run ends as the real run does (both return, or both raise the
    [SyntaxError] of the first raw value that [BigInt] rejects) and has
    imported, skipped and kept open what the real run has.  A batch with a
    time stamp that cannot be read ends either run with the [RangeError]
    of the grouping loop, before any request. *)
Theorem C9_dry_run_writes_nothing cur receivable payable txs :
  (forall faulty w,
     dryRun (w_client w) = true ->
     reads_only w (snd (main_import faulty true cur receivable payable txs w))) /\
  (forall faulty w,
     authenticated w -> dryRun (w_client w) = true ->
     (forall name address r p,
        fst (createPartner faulty name address r p w) = Ok 999999) /\
     (forall iban partnerId name,
        fst (createBankAccount faulty iban partnerId name w) = Ok 888888)) /\
  (forall faulty journal monthKey w w1,
     Odoo.callRPC faulty (StatementSearchRead journal ("Feed " ++ monthKey)) w = (Ok [], w1) ->
     fst (getOrCreateMonthlyStatement faulty journal monthKey true w) = Ok 777777) /\
  (forall byMonth cfg u l trace console,
     uid_truthy u = true ->
     group_by_month txs [] = Ok byMonth ->
     NoDup (batch_ids (all_items byMonth)) ->
     exists real dry,
       main_import reliable false cur receivable payable txs
         (mk_world (mk_odoo cfg u false) l trace console)
         = (outcome (all_items byMonth), real) /\
       main_import reliable true cur receivable payable txs
         (mk_world (mk_odoo cfg u true) l trace console)
         = (outcome (all_items byMonth), dry) /\
       decisions dry = decisions real /\
       w_ledger dry = l) /\
  (forall e faulty dry w,
     group_by_month txs [] = Throw e ->
     main_import faulty dry cur receivable payable txs w = (Throw e, w)).
Proof.
  split; [intros faulty w Hd; now apply dry_import_reads_only|].
  split.
  { intros faulty w Hu Hd. split; intros.
    - now apply createPartner_dry.
    - now apply createBankAccount_dry. }
  split; [intros faulty journal monthKey w w1 E; eapply getOrCreateMonthlyStatement_dry, E|].
  split; [|intros e faulty dry w Hg; unfold main_import; now rewrite Hg].
  intros byMonth cfg u l trace console Hu Hg Hn.
  destruct (real_import_reached cur receivable payable txs byMonth
              (mk_world (mk_odoo cfg u false) l trace console)) as (real & Er & Gr);
    [split; [exact Hu|reflexivity]|assumption|].
  destruct (dry_import_reached cur receivable payable txs byMonth
              (mk_world (mk_odoo cfg u true) l trace console)) as (dry & Ed & Gd);
    [exact Hu|assumption|].
  exists real, dry. split; [assumption|]. split; [assumption|].
  destruct Gr as (_ & _ & _ & Dr). destruct Gd as (_ & Ld & Dd).
  split; [|exact Ld]. rewrite Dr, Dd. cbn [w_ledger].
  change (decisions (mk_world (mk_odoo cfg u true) l trace console))
    with (decisions (mk_world (mk_odoo cfg u false) l trace console)).
  f_equal. symmetry.
  rewrite <- (app_nil_r (import_ids l)) at 1.
  apply reached_decisions_fresh; [assumption|]. intros v [].
Qed.

(** A batch with an incoming and an outgoing transfer: both runs return. *)
Lemma C9_dry_run_witness :
  exists real dry,
    main_import reliable false "2024-11" 11 12 [incoming; outgoing] (logged_in empty_ledger)
      = (Ok tt, real) /\
    main_import reliable true "2024-11" 11 12 [incoming; outgoing] (dry_logged_in empty_ledger)
      = (Ok tt, dry) /\
    decisions dry = decisions real /\
    w_ledger dry = empty_ledger.
Proof.
  apply (proj1 (proj2 (proj2 (proj2
           (C9_dry_run_writes_nothing "2024-11" 11 12 [incoming; outgoing]))))
           [("2024-09"%string, [(incoming, "2024-09-15"%string);
                                 (outgoing, "2024-09-15"%string)])]).
  - reflexivity.
  - vm_compute. reflexivity.
  - vm_compute. repeat constructor; cbn; intuition discriminate.
Defined.

(** Claim C9 as stated fails.  A transaction moved tokens to the wallet and
    on from it: two events with one hash.  The real run imports the first
    and skips the second as a duplicate; the dry run, which creates no
    line, announces both.  And for a month that has no statement yet the
    real run closes the statement it creates, while the dry run looks up
    the made-up statement 777777, finds nothing and announces no closing. *)
Lemma C9_counterexample_duplicate_within_batch :
  let onward := transfer "0xabc" "3" walletAddress "0x3333333333333333333333333333333333333333"
                  "2500000000000000000" "1726401600" "18" in
  let real := snd (main_import reliable false "2024-11" 11 12 [incoming; onward]
                     (logged_in empty_ledger)) in
  let dry := snd (main_import reliable true "2024-11" 11 12 [incoming; onward]
                    (dry_logged_in empty_ledger)) in
  decisions real = [Imported "0xabc"; Skipped "0xabc"] /\
  decisions dry = [Imported "0xabc"; Imported "0xabc"] /\
  existsb is_close_log (w_console real) = true /\
  existsb is_close_log (w_console dry) = false.
Proof.
  cbv zeta.
  split; [vm_compute; reflexivity|]. split; [vm_compute; reflexivity|].
  split; vm_compute; reflexivity.
Qed.

(* ================================================================== *)
(** * The statements of the journal                                    *)
(* ================================================================== *)

(** What identifies a statement: its id, its journal and its name. *)
Definition ident (s : statement) : Z * Z * string :=
  (statement_id s, statement_journal_id s, statement_name s).

(** A statement of the journal of the import, named [Feed] and a month
    key that sorts before the current one. *)
Definition past (cur : string) (i : Z * Z * string) : bool :=
  (snd (fst i) =? journalId)
  && String.prefix "Feed " (snd i)
  && string_lt (slice_from 5 (snd i)) cur.

(** [id] is the id of such a statement. *)
Definition closable (cur : string) (sts : list statement) (id : Z) : bool :=
  existsb (fun i => past cur i && (fst (fst i) =? id)) (map ident sts).

Definition was_posted (old : list statement) (i : nat) : bool :=
  match nth_error old i with
  | Some s => statement_posted s
  | None => false
  end.

(** From [old] to [new] statements were only added, none changed its id,
    journal or name, and the posted flag of a statement is what it was
    (unposted, for an added one) unless its id is the id of a past
    statement of the journal. *)
Definition settled (cur : string) (old new : list statement) : Prop :=
  (exists added, map ident new = map ident old ++ added) /\
  forall i s', nth_error new i = Some s' ->
    statement_posted s' = was_posted old i \/ closable cur new (statement_id s') = true.

Lemma settled_refl cur sts : settled cur sts sts.
Proof.
  split; [exists []; now rewrite app_nil_r|].
  intros i s' H. left. unfold was_posted. now rewrite H.
Qed.

Lemma closable_grows cur old new added id :
  map ident new = map ident old ++ added ->
  closable cur old id = true -> closable cur new id = true.
Proof. unfold closable. intros -> H. now rewrite existsb_app, H. Qed.

Lemma settled_trans cur a b c : settled cur a b -> settled cur b c -> settled cur a c.
Proof.
  intros [[add1 I1] P1] [[add2 I2] P2]. split.
  { exists (add1 ++ add2). now rewrite I2, I1, app_assoc. }
  intros i sc Hc. destruct (P2 i sc Hc) as [E|E]; [|now right].
  unfold was_posted in E. destruct (nth_error b i) as [sb|] eqn:Hb.
  - destruct (P1 i sb Hb) as [E1|E1]; [left; congruence|]. right.
    assert (Hid : ident sc = ident sb).
    { pose proof (map_nth_error ident _ _ Hc) as Kc.
      pose proof (map_nth_error ident _ _ Hb) as Kb.
      rewrite I2, nth_error_app1 in Kc; [congruence|].
      apply nth_error_Some. now rewrite Kb. }
    apply (closable_grows cur b c add2); [assumption|].
    replace (statement_id sc) with (statement_id sb); [assumption|].
    unfold ident in Hid. congruence.
  - left. rewrite E. unfold was_posted.
    assert (Ha : nth_error a i = None).
    { apply nth_error_None. apply nth_error_None in Hb.
      apply (f_equal (@List.length _)) in I1. rewrite length_app, !length_map in I1. lia. }
    now rewrite Ha.
Qed.

Lemma settled_create cur old s :
  statement_posted s = false -> settled cur old (old ++ [s]).
Proof.
  intros Hs. split; [exists [ident s]; now rewrite map_app|].
  intros i s' H. left. unfold was_posted.
  destruct (nth_error old i) as [so|] eqn:Ho.
  - rewrite nth_error_app1 in H by (apply nth_error_Some; now rewrite Ho). congruence.
  - apply nth_error_None in Ho. rewrite nth_error_app2 in H by assumption.
    destruct (i - List.length old)%nat as [|k]; cbn in H; [congruence|].
    destruct k; discriminate.
Qed.

Lemma settled_map cur old f :
  (forall s, ident (f s) = ident s) ->
  (forall s, In s old ->
             statement_posted (f s) = statement_posted s \/ closable cur old (statement_id s) = true) ->
  settled cur old (map f old).
Proof.
  intros Hid Hp.
  assert (Hmap : map ident (map f old) = map ident old).
  { rewrite map_map. apply map_ext. exact Hid. }
  split; [exists []; now rewrite app_nil_r|].
  intros i s' H. rewrite nth_error_map in H. unfold was_posted.
  destruct (nth_error old i) as [s|] eqn:Ho; [|discriminate].
  injection H as <-. destruct (Hp s (nth_error_In _ _ Ho)) as [E|E]; [now left|right].
  unfold closable in *. rewrite Hmap.
  replace (statement_id (f s)) with (statement_id s); [assumption|].
  specialize (Hid s). unfold ident in Hid. congruence.
Qed.

(** What each call makes of the statements. *)
Lemma serve_statements c l :
  statements (snd (serve c l)) =
  match c with
  | StatementCreate name j date =>
      statements l ++ [mk_statement (next_id l) j name date
                         (fresh_balance_start l) (fresh_balance_end_real l) false]
  | StatementWrite id x => map (write_balance id x) (statements l)
  | StatementButtonPost id => map (post_statement id) (statements l)
  | _ => statements l
  end.
Proof. destruct c; reflexivity. Qed.

(** The relation the import keeps, whatever the remote side answers. *)
Definition settles (cur : string) (w w' : world) : Prop :=
  w_client w' = w_client w /\
  settled cur (statements (w_ledger w)) (statements (w_ledger w')).

Lemma settles_refl cur w : settles cur w w.
Proof. split; [reflexivity|apply settled_refl]. Qed.

Lemma settles_trans cur a b c : settles cur a b -> settles cur b c -> settles cur a c.
Proof. intros [C1 S1] [C2 S2]. split; [congruence|eapply settled_trans; eassumption]. Qed.

Lemma settles_console cur e w :
  settles cur w (mk_world (w_client w) (w_ledger w) (w_trace w) (w_console w ++ [e])).
Proof. split; [reflexivity|apply settled_refl]. Qed.

Lemma settles_served cur c w :
  settled cur (statements (w_ledger w)) (statements (snd (serve c (w_ledger w)))) ->
  forall faulty, settles cur w (snd (Odoo.callRPC faulty c w)).
Proof.
  intros H faulty. unfold Odoo.callRPC.
  destruct (faulty _ _); [split; [reflexivity|apply settled_refl]|].
  destruct (serve c (w_ledger w)) as [a l]. split; [reflexivity|exact H].
Qed.

Lemma settles_call cur faulty c w :
  is_post c = false -> (is_write c = true -> true = true) ->
  settles cur w (snd (Odoo.callRPC faulty c w)).
Proof.
  intros Hc _. apply settles_served. rewrite serve_statements.
  destruct c; try discriminate Hc; try apply settled_refl.
  - now apply settled_create.
  - apply settled_map; [intros s|intros s _; left];
      unfold write_balance; destruct (statement_id s =? id); reflexivity.
Qed.

Lemma settles_post cur faulty id w :
  closable cur (statements (w_ledger w)) id = true ->
  settles cur w (snd (Odoo.callRPC faulty (StatementButtonPost id) w)).
Proof.
  intros HC. apply settles_served. rewrite serve_statements.
  apply settled_map.
  - intros s. unfold post_statement. destruct (statement_id s =? id); reflexivity.
  - intros s _. unfold post_statement. destruct (statement_id s =? id) eqn:E; [right|now left].
    apply Z.eqb_eq in E. now rewrite E.
Qed.

Lemma settles_closable cur id w w' :
  settles cur w w' ->
  closable cur (statements (w_ledger w)) id = true ->
  closable cur (statements (w_ledger w')) id = true.
Proof. intros [_ [[added I] _]]. now apply closable_grows with (added := added). Qed.

Lemma take_In {A} (x : A) n l : In x (take n l) -> In x l.
Proof.
  revert n. induction l as [|y l IH]; intros n; cbn; [auto|].
  destruct (0 <? n); [|contradiction]. intros [H|H]; [now left|right; eapply IH, H].
Qed.

Lemma prefix_cons c s t : String.prefix (String c s) (String c t) = String.prefix s t.
Proof. cbn [String.prefix]. destruct (ascii_dec c c); [reflexivity|congruence]. Qed.

Lemma prefix_feed name : String.prefix "Feed " ("Feed " ++ name) = true.
Proof. cbn [append]. rewrite !prefix_cons. destruct name; reflexivity. Qed.

Lemma feed_month_name name monthKey :
  feed_month name = Some monthKey ->
  String.prefix "Feed " name = true /\ slice_from 5 name = monthKey.
Proof.
  intros H.
  destruct name as [|c1 name]; [discriminate|].
  destruct c1 as [[] [] [] [] [] [] [] []]; try solve [cbn in H; discriminate H].
  destruct name as [|c2 name]; [discriminate|].
  destruct c2 as [[] [] [] [] [] [] [] []]; try solve [cbn in H; discriminate H].
  destruct name as [|c3 name]; [discriminate|].
  destruct c3 as [[] [] [] [] [] [] [] []]; try solve [cbn in H; discriminate H].
  destruct name as [|c4 name]; [discriminate|].
  destruct c4 as [[] [] [] [] [] [] [] []]; try solve [cbn in H; discriminate H].
  destruct name as [|c5 name]; [discriminate|].
  destruct c5 as [[] [] [] [] [] [] [] []]; try solve [cbn in H; discriminate H].
  split; [apply (prefix_feed name)|].
  destruct name as [|y1 [|y2 [|y3 [|y4 [|d name]]]]]; try solve [cbn in H; discriminate H].
  destruct d as [[] [] [] [] [] [] [] []]; try solve [cbn in H; discriminate H].
  destruct name as [|m1 [|m2 [|x rest]]]; try solve [cbn in H; discriminate H].
  cbn [feed_month] in H.
  destruct (is_digit y1 && is_digit y2 && is_digit y3 && is_digit y4
            && is_digit m1 && is_digit m2); [|discriminate].
  now injection H as <-.
Qed.

Lemma closable_intro cur sts st monthKey :
  In st sts ->
  statement_journal_id st = journalId ->
  String.prefix "Feed " (statement_name st) = true ->
  slice_from 5 (statement_name st) = monthKey ->
  string_lt monthKey cur = true ->
  closable cur sts (statement_id st) = true.
Proof.
  intros Hin Hj Hp Hs Hlt. unfold closable. apply existsb_exists.
  exists (ident st). split; [now apply in_map|].
  unfold past, ident. cbn [fst snd]. now rewrite Hj, Hp, Hs, Hlt, !Z.eqb_refl.
Qed.

(** The statement that the import obtains for a month before the current
    one is a past statement of the journal. *)
Lemma obtained_statement_closable cur faulty monthKey w stId w' :
  string_lt monthKey cur = true ->
  getOrCreateMonthlyStatement faulty journalId monthKey false w = (Ok stId, w') ->
  closable cur (statements (w_ledger w')) stId = true.
Proof.
  intros Hlt. unfold getOrCreateMonthlyStatement, ImportTxs.callRPC, bind, Odoo.callRPC.
  cbv zeta. destruct (faulty (w_trace w) _); [discriminate|]. cbn [serve].
  destruct (take 1 (filter _ (statements (w_ledger w)))) as [|st rest] eqn:E.
  - cbn [w_trace w_ledger w_client]. destruct (faulty _ _); [discriminate|]. cbn [serve].
    intros H. injection H as <- <-. cbn [w_ledger].
    set (st := mk_statement _ _ _ _ _ _ _).
    apply (closable_intro cur _ st monthKey); try reflexivity; try assumption.
    + apply in_or_app. right. now left.
    + apply prefix_feed.
  - unfold ret. intros H. injection H as <- <-. cbn [w_ledger].
    assert (Hin : In st (take 1 (filter (fun s => (statement_journal_id s =? journalId)
                                          && String.eqb (statement_name s) ("Feed " ++ monthKey))
                                  (statements (w_ledger w)))))
      by (rewrite E; now left).
    apply take_In, filter_In in Hin as [Hin Hf].
    apply andb_prop in Hf as [Hj Hn]. apply Z.eqb_eq in Hj. apply String.eqb_eq in Hn.
    apply (closable_intro cur _ st monthKey); try assumption.
    + rewrite Hn. apply prefix_feed.
    + now rewrite Hn.
Qed.

(** So are the statements that the sweep picks. *)
Lemma swept_statement_closable cur faulty w (allSts : list statement) w' st monthKey :
  Odoo.callRPC faulty (StatementSearchReadJournal journalId) w = (Ok allSts, w') ->
  In st allSts ->
  feed_month (statement_name st) = Some monthKey ->
  string_lt monthKey cur = true ->
  closable cur (statements (w_ledger w')) (statement_id st) = true.
Proof.
  unfold Odoo.callRPC. destruct (faulty _ _); [discriminate|]. cbn [serve].
  intros H Hin Hm Hlt. injection H as <- <-. cbn [w_ledger].
  apply take_In, filter_In in Hin as [Hin Hj]. apply Z.eqb_eq in Hj.
  destruct (feed_month_name _ _ Hm) as [Hp Hs].
  now apply (closable_intro cur _ st monthKey).
Qed.

(** Whatever the remote side answers, in a real run as in a dry run. *)
Lemma import_settles faulty dry cur receivable payable txs w :
  settles cur w (snd (main_import faulty dry cur receivable payable txs w)).
Proof.
  eapply main_import_framed
    with (Pc := fun _ => True) (writes_allowed := true)
         (C := fun id w => closable cur (statements (w_ledger w)) id = true);
    first [ exact (settles_refl cur) | exact (settles_trans cur) | exact (settles_console cur)
          | exact (settles_call cur faulty) | exact (settles_post cur faulty)
          | exact (fun id w w' => settles_closable cur id w w')
          | exact I
          | now intros ? ? [H _]
          | intros; discriminate
          | intros; reflexivity
          | intros; eapply obtained_statement_closable; eassumption
          | intros; eapply swept_statement_closable; eassumption ].
Qed.

(** ** The sweep of a real run *)

(** From [old] to [new] every statement kept its id, journal and name, and
    is posted if it was, or if its id is among [ids]. *)
Definition advanced (ids : list Z) (old new : list statement) : Prop :=
  Forall2 (fun s s' =>
             ident s' = ident s /\
             (statement_posted s = true \/ In (statement_id s) ids ->
              statement_posted s' = true)) old new.

Lemma advanced_map ids f l :
  (forall s, ident (f s) = ident s) ->
  (forall s, statement_posted s = true \/ In (statement_id s) ids ->
             statement_posted (f s) = true) ->
  advanced ids l (map f l).
Proof.
  intros Hi Hp. induction l as [|s l IH]; cbn; constructor; auto.
Qed.

Lemma advanced_refl l : advanced [] l l.
Proof.
  induction l as [|s l IH]; constructor; [|assumption].
  split; [reflexivity|]. now intros [H|[]].
Qed.

Lemma advanced_trans A B a b c :
  advanced A a b -> advanced B b c -> advanced (A ++ B) a c.
Proof.
  intros Hab. revert c. induction Hab as [|x y a b [I1 P1] _ IH]; intros c Hbc.
  - inversion Hbc. constructor.
  - inversion Hbc as [|y0 z b0 c0 [I2 P2] Hrest]; subst.
    constructor; [|now apply IH]. split; [congruence|].
    intros [Hp|Hin]; apply P2.
    + left. apply P1. now left.
    + apply in_app_or in Hin as [Hin|Hin].
      * left. apply P1. now right.
      * right. replace (statement_id y) with (statement_id x); [assumption|].
        unfold ident in I1. congruence.
Qed.

Lemma Forall2_In_l {A B} (R : A -> B -> Prop) a b x :
  Forall2 R a b -> In x a -> exists y, In y b /\ R x y.
Proof.
  induction 1 as [|x0 y0 a b H0 _ IH]; intros Hin; [contradiction|].
  destruct Hin as [<-|Hin].
  - exists y0. split; [now left|assumption].
  - destruct (IH Hin) as (y & Hy & HR). exists y. split; [now right|assumption].
Qed.

Lemma Forall2_In_r {A B} (R : A -> B -> Prop) a b y :
  Forall2 R a b -> In y b -> exists x, In x a /\ R x y.
Proof.
  induction 1 as [|x0 y0 a b H0 _ IH]; intros Hin; [contradiction|].
  destruct Hin as [<-|Hin].
  - exists x0. split; [now left|assumption].
  - destruct (IH Hin) as (x & Hx & HR). exists x. split; [now right|assumption].
Qed.

Lemma advanced_journal_count ids old new j :
  advanced ids old new ->
  List.length (filter (fun s => statement_journal_id s =? j) new)
  = List.length (filter (fun s => statement_journal_id s =? j) old).
Proof.
  induction 1 as [|s s' old new [Hi _] _ IH]; [reflexivity|]. cbn [filter].
  replace (statement_journal_id s') with (statement_journal_id s)
    by (unfold ident in Hi; congruence).
  destruct (statement_journal_id s =? j); cbn [List.length]; congruence.
Qed.

Lemma take_all {A} (l : list A) : forall n, Z.of_nat (List.length l) <= n -> take n l = l.
Proof.
  induction l as [|x l IH]; intros n Hn; [reflexivity|]. cbn [take].
  cbn [List.length] in Hn. rewrite Nat2Z.inj_succ in Hn.
  replace (0 <? n) with true by (symmetry; apply Z.ltb_lt; lia).
  rewrite IH by lia. reflexivity.
Qed.

(** The close procedure of a real run against a ledger that answers. *)
Lemma close_real_advanced id w :
  (exists s, In s (statements (w_ledger w)) /\ statement_id s = id) ->
  exists w', closeStatementIfNeeded reliable id false w = (Ok tt, w')
             /\ advanced [id] (statements (w_ledger w)) (statements (w_ledger w')).
Proof.
  intros (s & Hin & Hid).
  destruct (found_statement id (w_ledger w)) as [st|] eqn:Hf.
  2:{ unfold found_statement in Hf.
      destruct (filter _ (statements (w_ledger w))) eqn:E; [|discriminate].
      exfalso. apply (filter_in_nonempty _ _ s Hin) in E; [assumption|].
      cbn. now apply Z.eqb_eq. }
  assert (Hpost : forall f,
             (forall s0, ident (f s0) = ident s0) ->
             (forall s0, statement_posted (f s0) = statement_posted s0) ->
             advanced [id] (statements (w_ledger w))
               (map (post_statement id) (map f (statements (w_ledger w))))).
  { intros f Hi Hp. rewrite map_map. apply advanced_map.
    - intros s0. unfold post_statement.
      replace (statement_id (f s0)) with (statement_id s0)
        by (specialize (Hi s0); unfold ident in Hi; congruence).
      destruct (statement_id s0 =? id); [|apply Hi].
      specialize (Hi s0). unfold ident in *. cbn. congruence.
    - intros s0 H. unfold post_statement.
      replace (statement_id (f s0)) with (statement_id s0)
        by (specialize (Hi s0); unfold ident in Hi; congruence).
      destruct (statement_id s0 =? id) eqn:E; [reflexivity|].
      rewrite Hp. destruct H as [H|[H|[]]]; [assumption|].
      apply Z.eqb_neq in E. congruence. }
  destruct (closing_unset st) eqn:Hu.
  - rewrite (close_unset_real w id st Hf Hu). eexists. split; [reflexivity|].
    cbn [w_ledger with_statements statements]. apply Hpost; intros s0;
      unfold write_balance; destruct (statement_id s0 =? id); reflexivity.
  - rewrite (close_set_real w id st Hf Hu). eexists. split; [reflexivity|].
    cbn [w_ledger with_statements statements].
    rewrite <- (map_id (statements (w_ledger w))) at 2. now apply Hpost.
Qed.

(** The ids of the statements that the sweep closes. *)
Definition swept (cur : string) (allSts : list statement) : list Z :=
  map statement_id
    (filter (fun st => match feed_month (statement_name st) with
                       | Some stMonth => string_lt stMonth cur
                       | None => false
                       end) allSts).

Lemma sweep_real cur allSts : forall w,
  (forall st, In st allSts ->
     exists s, In s (statements (w_ledger w)) /\ statement_id s = statement_id st) ->
  exists w',
    for_each (fun st =>
                match feed_month (statement_name st) with
                | None => ret tt
                | Some stMonth =>
                    if string_lt stMonth cur
                    then closeStatementIfNeeded reliable (statement_id st) false
                    else ret tt
                end) allSts w = (Ok tt, w')
    /\ advanced (swept cur allSts) (statements (w_ledger w)) (statements (w_ledger w')).
Proof.
  induction allSts as [|st rest IH]; intros w Hex.
  - exists w. split; [reflexivity|apply advanced_refl].
  - assert (Hstep : exists w1,
               (match feed_month (statement_name st) with
                | None => ret tt
                | Some stMonth =>
                    if string_lt stMonth cur
                    then closeStatementIfNeeded reliable (statement_id st) false
                    else ret tt
                end) w = (Ok tt, w1)
               /\ advanced (swept cur [st]) (statements (w_ledger w)) (statements (w_ledger w1))).
    { unfold swept. cbn [filter].
      destruct (feed_month (statement_name st)) as [stMonth|];
        [|exists w; split; [reflexivity|apply advanced_refl]].
      destruct (string_lt stMonth cur);
        [|exists w; split; [reflexivity|apply advanced_refl]].
      apply close_real_advanced, Hex. now left. }
    destruct Hstep as (w1 & E1 & A1).
    destruct (IH w1) as (w2 & E2 & A2).
    { intros st' Hin. destruct (Hex st' (or_intror Hin)) as (s & Hs & Hid).
      destruct (Forall2_In_l _ _ _ s A1 Hs) as (s' & Hs' & Hi & _).
      exists s'. split; [assumption|]. unfold ident in Hi. congruence. }
    exists w2. split.
    + cbn [for_each]. unfold bind. now rewrite E1.
    + change (st :: rest) with ([st] ++ rest). unfold swept in *.
      rewrite filter_app, map_app. eapply advanced_trans; eassumption.
Qed.

(** After a completed real run against a ledger that answers, the past
    feed statements of the journal are posted. *)
Lemma past_statements_posted cur receivable payable txs w w' :
  main_import reliable false cur receivable payable txs w = (Ok tt, w') ->
  Z.of_nat (List.length (filter (fun s => statement_journal_id s =? journalId)
                           (statements (w_ledger w')))) <= 10000 ->
  forall s monthKey,
    In s (statements (w_ledger w')) ->
    statement_journal_id s = journalId ->
    feed_month (statement_name s) = Some monthKey ->
    string_lt monthKey cur = true ->
    statement_posted s = true.
Proof.
  unfold main_import. destruct (group_by_month txs []) as [byMonth|e]; [|discriminate].
  intros H. apply bind_inv in H as ([] & w1 & _ & Hsweep).
  unfold closeAllPastMonthlyStatements, ImportTxs.callRPC in Hsweep.
  unfold bind at 1 in Hsweep.
  rewrite (callRPC_answers reliable reliable_only_line_create) in Hsweep by reflexivity.
  cbn [serve fst snd] in Hsweep.
  set (journal := filter (fun s => statement_journal_id s =? journalId)
                    (statements (w_ledger w1))) in *.
  set (w1r := mk_world _ _ _ _) in Hsweep.
  destruct (sweep_real cur (take 10000 journal) w1r) as (w2 & E2 & A2).
  { intros st Hin. exists st. split; [|reflexivity].
    apply take_In in Hin. unfold journal in Hin. now apply filter_In in Hin as [Hin _]. }
  rewrite E2 in Hsweep. injection Hsweep as <-. cbn [w_ledger] in A2.
  intros Hlen s monthKey Hs Hj Hm Hlt.
  rewrite (advanced_journal_count _ _ _ journalId A2) in Hlen.
  change (Z.of_nat (List.length journal) <= 10000) in Hlen.
  rewrite (take_all journal 10000 Hlen) in A2.
  destruct (Forall2_In_r _ _ _ s A2 Hs) as (s1 & Hs1 & Hi & Hp).
  apply Hp. right. unfold swept. apply in_map, filter_In.
  unfold ident in Hi.
  replace (statement_name s1) with (statement_name s) by congruence.
  rewrite Hm. split; [|assumption].
  unfold journal. apply filter_In. split; [assumption|]. apply Z.eqb_eq. congruence.
Qed.

(** ** C5 *)

(** C5, as the code has it.  After a completed real run against a ledger
    that answers, every statement of the journal named [Feed YYYY-MM] for a
    month before the current one is posted, provided the journal has no more
    than the 10000 statements that the sweep reads.  And whatever the remote
    side answers, in a real run as in a dry run, the import only adds
    statements, and changes the posted flag of no statement but those whose
    id is the id of a statement of the journal named [Feed] and a month key
    before the current one: the statement of the current month, and those
    of later months, are left as they were. *)
Theorem C5_past_statements_closed cur receivable payable txs :
  (forall w w',
     main_import reliable false cur receivable payable txs w = (Ok tt, w') ->
     Z.of_nat (List.length (filter (fun s => statement_journal_id s =? journalId)
                              (statements (w_ledger w')))) <= 10000 ->
     forall s monthKey,
       In s (statements (w_ledger w')) ->
       statement_journal_id s = journalId ->
       feed_month (statement_name s) = Some monthKey ->
       string_lt monthKey cur = true ->
       statement_posted s = true) /\
  (forall faulty dry w,
     settled cur (statements (w_ledger w))
       (statements (w_ledger (snd (main_import faulty dry cur receivable payable txs w))))).
Proof.
  split.
  - intros w w'. apply past_statements_posted.
  - intros faulty dry w. apply import_settles.
Qed.

(** A ledger whose journal has an open statement for October 2024. *)
Definition october_ledger : ledger :=
  mk_ledger [] [] [] [] [] []
    [mk_statement 7 55 "Feed 2024-10" "2024-10-01" (FNumber (Number_of_Z 10)) FUndefined false]
    [] 10 (UidNumber 2) FUndefined FUndefined.

(** A transfer of September imported in November: the statement it gets and
    the statement of October end posted. *)
Lemma C5_late_close_witness :
  let w' := snd (main_import reliable false "2024-11" 11 12 [incoming]
                   (logged_in october_ledger)) in
  map statement_name (statements (w_ledger w')) = ["Feed 2024-10"; "Feed 2024-09"]%string /\
  Forall (fun s => statement_posted s = true) (statements (w_ledger w')).
Proof.
  cbv zeta. split; [vm_compute; reflexivity|].
  set (run := main_import reliable false "2024-11" 11 12 [incoming] (logged_in october_ledger)).
  assert (E : run = (Ok tt, snd run)) by (vm_compute; reflexivity).
  assert (Hlen : Z.of_nat (List.length (filter (fun s => statement_journal_id s =? journalId)
                                          (statements (w_ledger (snd run))))) <= 10000)
    by (vm_compute; discriminate).
  apply Forall_forall. intros s Hs.
  assert (Hall : forallb (fun s => (statement_journal_id s =? journalId)
                                  && match feed_month (statement_name s) with
                                     | Some monthKey => string_lt monthKey "2024-11"
                                     | None => false
                                     end)
                   (statements (w_ledger (snd run))) = true)
    by (vm_compute; reflexivity).
  assert (Hpast : statement_journal_id s = journalId /\
                  exists monthKey, feed_month (statement_name s) = Some monthKey
                                   /\ string_lt monthKey "2024-11" = true).
  { rewrite forallb_forall in Hall. specialize (Hall s Hs).
    apply andb_prop in Hall as [Hj Hm]. apply Z.eqb_eq in Hj. split; [assumption|].
    destruct (feed_month (statement_name s)) as [monthKey|]; [|discriminate].
    exists monthKey. split; [reflexivity|exact Hm]. }
  destruct Hpast as (Hj & monthKey & Hm & Hlt).
  exact (proj1 (C5_past_statements_closed "2024-11" 11 12 [incoming])
           (logged_in october_ledger) (snd run) E Hlen s monthKey Hs Hj Hm Hlt).
Defined.

(** Claim C5 as stated fails.  The month key of an event is taken from its
    UTC date, the current month key from the local clock.  On the evening of
    30 November, west of Greenwich, a transfer made an hour after midnight
    UTC falls in December: the run creates the statement of December and
    leaves it open beside the one of November. *)
Lemma C5_counterexample_later_month_left_open :
  let november := transfer "0xaaa" "1" "0x1111111111111111111111111111111111111111"
                    walletAddress "1000000000000000000" "1731672000" "18" in
  let december := transfer "0xbbb" "2" "0x1111111111111111111111111111111111111111"
                    walletAddress "1000000000000000000" "1733014800" "18" in
  let run := main_import reliable false "2024-11" 11 12 [november; december]
               (logged_in empty_ledger) in
  fst run = Ok tt /\
  map (fun s => (statement_name s, statement_posted s)) (statements (w_ledger (snd run)))
    = [("Feed 2024-11"%string, false); ("Feed 2024-12"%string, false)].
Proof.
  cbv zeta. split; vm_compute; reflexivity.
Qed.

(* ================================================================== *)
(** * Further properties of the sources                                *)
(* ================================================================== *)

(** ** parseTokenAmount: when it raises, and how it rounds *)

(** Property X1.  [parseTokenAmount] raises a [RangeError] exactly for a
    precision outside 0..100; within it, a [SyntaxError] exactly for an
    amount that is not finite or is at least [10^21] in magnitude; any
    other amount gives the integer [toFixed] rounded to, with the sign of
    the amount. *)
Theorem parseTokenAmount_outcome (x : num) (d : Z) :
  Blockchain.parseTokenAmount x d =
  if (d <? 0) || (100 <? d)
  then Throw (mk_exn RangeError "toFixed() digits argument must be between 0 and 100")
  else match x with
       | S754_zero _ => Ok 0
       | S754_finite s m e =>
           if at_least_1e21 m e
           then Throw (mk_exn SyntaxError "Cannot convert to a BigInt")
           else Ok (signed s (toFixed_integer (Z.to_nat d) m e))
       | _ => Throw (mk_exn SyntaxError "Cannot convert to a BigInt")
       end.
Proof.
  unfold Blockchain.parseTokenAmount, toFixed.
  destruct ((d <? 0) || (100 <? d)); [reflexivity|].
  destruct x as [s|s| |s m e]; try reflexivity.
  - now rewrite render_fixed_parse.
  - destruct (at_least_1e21 m e); [reflexivity|]. now rewrite render_fixed_parse.
Qed.

(** Property X2.  [parseTokenAmount] rounds to the nearest integer.  For a
    finite amount below [10^21] and a precision within 0..100 it returns,
    with the sign of the amount, the integer [n] nearest to the magnitude
    of [amount * 10^decimals], the larger one when two are equally near:
    with the magnitude of the amount written [m * 2^e], [n <= m * 2^e *
    10^d + 1/2 < n + 1]. *)
Theorem parseTokenAmount_rounds_to_nearest (s : bool) (m : positive) (e d : Z) :
  0 <= d <= 100 ->
  at_least_1e21 m e = false ->
  exists n : Z,
    Blockchain.parseTokenAmount (S754_finite s m e) d = Ok (if s then - n else n) /\
    0 <= n /\
    let p := Zpos m * 2 ^ Z.max 0 e * 10 ^ d in
    let k := 2 ^ Z.max 0 (- e) in
    2 * n * k <= 2 * p + k < 2 * (n + 1) * k.
Proof.
  intros Hd Hbig. exists (Z.of_N (toFixed_integer (Z.to_nat d) m e)).
  rewrite parseTokenAmount_outcome, Hbig.
  replace ((d <? 0) || (100 <? d)) with false
    by (symmetry; apply orb_false_intro; apply Z.ltb_ge; lia).
  split; [reflexivity|]. split; [lia|]. cbv zeta.
  unfold toFixed_integer. rewrite Z2Nat.id by lia.
  assert (H10 : 0 < 10 ^ d) by (apply Z.pow_pos_nonneg; lia).
  destruct (Z.leb_spec 0 e) as [He|He].
  - rewrite (Z.max_r 0 e), (Z.max_l 0 (- e)) by lia. rewrite Z.pow_0_r.
    assert (H2 : 0 < 2 ^ e) by (apply Z.pow_pos_nonneg; lia).
    assert (Hp : 0 < Z.pos m * 10 ^ d * 2 ^ e) by (repeat apply Z.mul_pos_pos; lia).
    rewrite Z2N.id by lia. nia.
  - rewrite (Z.max_l 0 e), (Z.max_r 0 (- e)) by lia. rewrite Z.pow_0_r, Z.mul_1_r.
    assert (H2 : 0 < 2 ^ (- e)) by (apply Z.pow_pos_nonneg; lia).
    set (k := 2 ^ (- e)) in *. set (p := Z.pos m * 10 ^ d).
    assert (Hp : 0 < p) by (apply Z.mul_pos_pos; lia).
    assert (Hq : 0 <= (2 * p + k) / (2 * k)) by (apply Z.div_pos; lia).
    rewrite Z2N.id by exact Hq.
    pose proof (Z.div_mod (2 * p + k) (2 * k) ltac:(lia)) as Hdm.
    pose proof (Z.mod_pos_bound (2 * p + k) (2 * k) ltac:(lia)) as Hmod.
    nia.
Qed.

(** 0.125 at two decimals: the tie goes up, to 13. *)
Lemma parseTokenAmount_rounds_witness :
  exists n : Z,
    Blockchain.parseTokenAmount (S754_finite false 1 (-3)) 2 = Ok n /\
    0 <= n /\ 2 * n * 8 <= 2 * 100 + 8 < 2 * (n + 1) * 8.
Proof.
  destruct (parseTokenAmount_rounds_to_nearest false 1 (-3) 2) as (n & E & Hn & Hr).
  - lia.
  - reflexivity.
  - exists n. split; [exact E|]. split; [exact Hn|exact Hr].
Defined.

(** ** OdooClient: what a failed remote call becomes *)

(** The remote side rejects, or answers, the call [c] issued in the state
    [w]. *)
Definition rejects (faulty : list request -> request -> option exn)
    (c : call) (e : exn) (w : world) : Prop :=
  faulty (w_trace w) (issue c w) = Some e.

Definition answers (faulty : list request -> request -> option exn)
    (c : call) (w : world) : Prop :=
  faulty (w_trace w) (issue c w) = None.

(** The state after the call [c] was sent from [w] and failed. *)
Definition after_failure (c : call) (w : world) : world :=
  record_request (issue c w) w.

Lemma callRPC_rejected faulty c e w :
  rejects faulty c e w -> Odoo.callRPC faulty c w = (Throw e, after_failure c w).
Proof. unfold rejects, issue, Odoo.callRPC. cbv zeta. now intros ->. Qed.

Lemma callRPC_answered faulty c w :
  answers faulty c w ->
  Odoo.callRPC faulty c w =
  (Ok (fst (serve c (w_ledger w))),
   mk_world (w_client w) (snd (serve c (w_ledger w))) (w_trace w ++ [issue c w]) (w_console w)).
Proof.
  unfold answers, issue, Odoo.callRPC. cbv zeta. intros ->.
  now destruct (serve c (w_ledger w)).
Qed.

Lemma rejects_or_answers faulty c w :
  (exists e, rejects faulty c e w) \/ answers faulty c w.
Proof.
  unfold rejects, answers. destruct (faulty (w_trace w) (issue c w)) as [e|]; eauto.
Qed.

Lemma require_uid_passes w : authenticated w -> require_uid w = (Ok tt, w).
Proof. intros H. unfold require_uid, bind, this. now rewrite H. Qed.

(** The shape of the four lookups: guard, call, and a handler that logs
    the error and returns a default. *)
Lemma guarded_lookup faulty (c : call) {B : Type} (f : answer c -> B) (d : B)
    (label : string) w :
  authenticated w -> is_write c = false ->
  exists r w',
    bind require_uid
      (fun _ => try_catch (bind (Odoo.callRPC faulty c) (fun result => ret (f result)))
                  (fun error => bind (console (LogError label error)) (fun _ => ret d))) w
    = (Ok r, w') /\
    w_ledger w' = w_ledger w /\
    w_trace w' = w_trace w ++ [issue c w] /\
    (forall e, rejects faulty c e w -> r = d) /\
    (answers faulty c w -> r = f (fst (serve c (w_ledger w)))).
Proof.
  intros Hu Hr. unfold bind at 1. rewrite (require_uid_passes w Hu).
  unfold try_catch, bind.
  destruct (rejects_or_answers faulty c w) as [[e He]|Ha].
  - rewrite (callRPC_rejected _ _ _ _ He). eexists. eexists. split; [reflexivity|].
    cbn. split; [reflexivity|]. split; [reflexivity|]. split; [reflexivity|].
    intros Ha. unfold rejects, answers in *. congruence.
  - rewrite (callRPC_answered _ _ _ Ha). eexists. eexists. split; [reflexivity|].
    cbn [w_ledger w_trace]. rewrite (serve_read c _ Hr).
    split; [reflexivity|]. split; [reflexivity|]. split; [|reflexivity].
    intros e He. unfold rejects, answers in *. congruence.
Qed.

(** Property X3.  Once authenticated, the lookups of the client never
    raise: they send one request, leave the ledger alone, and read a
    failure of the remote call as "not found". *)
Theorem lookups_read_failure_as_absent faulty w :
  authenticated w ->
  (forall ident,
     exists r w',
       findBankAccountByIdentifier faulty ident w = (Ok r, w') /\
       w_ledger w' = w_ledger w /\
       forall e, rejects faulty (BankSearchRead (identifierString ident)) e w -> r = None) /\
  (forall name,
     exists r w',
       getPartnerIdByName faulty name w = (Ok r, w') /\
       w_ledger w' = w_ledger w /\
       forall e, rejects faulty (PartnerSearchReadIlike name) e w -> r = None) /\
  (forall ident,
     exists r w',
       getPartnerIdByBankIdentifier faulty ident w = (Ok r, w') /\
       w_ledger w' = w_ledger w /\
       forall e, rejects faulty (BankSearchReadIlike (identifierString ident)) e w -> r = None) /\
  (forall name,
     exists r w',
       getAccountIdByName faulty name w = (Ok r, w') /\
       w_ledger w' = w_ledger w /\
       forall e, rejects faulty (AccountSearchReadIlike name) e w -> r = None).
Proof.
  intros Hu. repeat split; intros x.
  - destruct (guarded_lookup faulty (BankSearchRead (identifierString x))
                (first_id bank_id) None "Failed to find bank account for IBAN" w Hu eq_refl)
      as (r & w' & E & L & _ & F & _). now exists r, w'.
  - destruct (guarded_lookup faulty (PartnerSearchReadIlike x)
                (first_id partner_id) None "Failed to find partner:" w Hu eq_refl)
      as (r & w' & E & L & _ & F & _). now exists r, w'.
  - destruct (guarded_lookup faulty (BankSearchReadIlike (identifierString x))
                (fun result : list partner_bank =>
                   match result with
                   | r :: _ => Some (bank_partner_id r)
                   | [] => None
                   end) None "Failed to find partner:" w Hu eq_refl)
      as (r & w' & E & L & _ & F & _). now exists r, w'.
  - destruct (guarded_lookup faulty (AccountSearchReadIlike x)
                (first_id account_id) None "Failed to find account:" w Hu eq_refl)
      as (r & w' & E & L & _ & F & _). now exists r, w'.
Qed.

(** A ledger that answers nothing, for the examples. *)
Definition unreachable : list request -> request -> option exn :=
  fun _ _ => Some (mk_exn Error "HTTP error! status: 502").

Lemma lookups_read_failure_witness :
  exists r w',
    getPartnerIdByName unreachable "Unknown" (logged_in empty_ledger) = (Ok r, w') /\
    w_ledger w' = empty_ledger /\
    forall e, rejects unreachable (PartnerSearchReadIlike "Unknown") e (logged_in empty_ledger)
              -> r = None.
Proof.
  apply (proj1 (proj2 (lookups_read_failure_as_absent unreachable (logged_in empty_ledger)
                         eq_refl))).
Defined.

(** Property X4.  [checkJournalEntryExists] never raises either; when the
    check fails it answers that the entry exists, and when the ledger
    answers it says whether some move carries the reference. *)
Theorem checkJournalEntryExists_assumes_existence faulty ref w :
  authenticated w ->
  exists b w',
    checkJournalEntryExists faulty ref w = (Ok b, w') /\
    w_ledger w' = w_ledger w /\
    (forall e, rejects faulty (MoveSearchReadRef ref) e w -> b = true) /\
    (answers faulty (MoveSearchReadRef ref) w ->
     (b = true <-> exists m, In m (moves (w_ledger w)) /\ je_ref (move_entry m) = ref)).
Proof.
  intros Hu.
  destruct (guarded_lookup faulty (MoveSearchReadRef ref)
              (fun result : list move => negb (Nat.eqb (List.length result) 0)) true
              "Failed to check for existing journal entry:" w Hu eq_refl)
    as (b & w' & E & L & _ & F & A).
  exists b, w'. split; [exact E|]. split; [exact L|]. split; [exact F|].
  intros Ha. rewrite (A Ha). cbn [serve fst].
  destruct (filter _ (moves (w_ledger w))) as [|m rest] eqn:Ef; cbn.
  - split; [discriminate|]. intros (m & Hin & Hm). exfalso.
    apply (filter_in_nonempty _ _ m Hin) in Ef; [assumption|]. cbn.
    now apply String.eqb_eq.
  - split; [|reflexivity]. intros _. exists m.
    destruct (filter_first_in _ _ _ _ Ef) as [Hin Hm]. split; [assumption|].
    now apply String.eqb_eq.
Qed.

Lemma checkJournalEntryExists_witness :
  exists b w',
    checkJournalEntryExists unreachable "0xabc" (logged_in empty_ledger) = (Ok b, w') /\
    (forall e, rejects unreachable (MoveSearchReadRef "0xabc") e (logged_in empty_ledger)
               -> b = true).
Proof.
  destruct (checkJournalEntryExists_assumes_existence unreachable "0xabc"
              (logged_in empty_ledger) eq_refl) as (b & w' & E & _ & F & _).
  now exists b, w'.
Defined.

(** Property X5.  [authenticate] never raises, whatever the remote side
    does: a failed login is logged and answered with [false], leaving the
    client as it was; an answered login stores the answer as the uid and
    reports whether it is truthy. *)
Theorem authenticate_never_raises faulty w :
  let r := Login (database (config (w_client w))) (username (config (w_client w)))
             (password (config (w_client w))) in
  exists b w',
    authenticate faulty w = (Ok b, w') /\
    w_ledger w' = w_ledger w /\
    w_trace w' = w_trace w ++ [r] /\
    match faulty (w_trace w) r with
    | Some e =>
        b = false /\ w_client w' = w_client w /\
        w_console w' = w_console w ++ [LogError "Authentication failed:" e]
    | None =>
        b = uid_truthy (login_answer (w_ledger w)) /\
        uid (w_client w') = login_answer (w_ledger w) /\
        (b = true <-> authenticated w') /\
        w_console w' = w_console w
    end.
Proof.
  cbv zeta. unfold authenticate, try_catch, bind, callRPC_login. cbv zeta.
  destruct (faulty (w_trace w) _) as [e|].
  - eexists. eexists. split; [reflexivity|]. cbn.
    split; [reflexivity|]. split; [reflexivity|]. split; [reflexivity|].
    split; [|reflexivity]. now destruct (w_client w).
  - eexists. eexists. split; [reflexivity|]. cbn.
    split; [reflexivity|]. split; [reflexivity|]. split; [reflexivity|].
    split; [reflexivity|]. split; [|reflexivity]. unfold authenticated. cbn. tauto.
Qed.

(** Property X6.  [postJournalEntry] never raises once the client is
    authenticated.  A dry run answers [true] without a request; otherwise
    one request is sent, a failure is answered with [false] and leaves the
    ledger alone, and after a success every move with the given id is
    posted. *)
Theorem postJournalEntry_never_raises faulty moveId w :
  authenticated w ->
  exists b w',
    postJournalEntry faulty moveId w = (Ok b, w') /\
    (dryRun (w_client w) = true ->
     b = true /\ w_trace w' = w_trace w /\ w_ledger w' = w_ledger w) /\
    (dryRun (w_client w) = false ->
     w_trace w' = w_trace w ++ [issue (MoveActionPost moveId) w] /\
     (forall e, rejects faulty (MoveActionPost moveId) e w ->
        b = false /\ w_ledger w' = w_ledger w) /\
     (answers faulty (MoveActionPost moveId) w ->
        b = true /\
        map move_id (moves (w_ledger w')) = map move_id (moves (w_ledger w)) /\
        forall m, In m (moves (w_ledger w')) -> move_id m = moveId -> move_posted m = true)).
Proof.
  intros Hu. unfold postJournalEntry. unfold bind at 1.
  rewrite (require_uid_passes w Hu). unfold bind at 1, this.
  destruct (dryRun (w_client w)) eqn:Hdry.
  - eexists. eexists. split; [reflexivity|]. cbn. split; [|discriminate].
    intros _. split; [reflexivity|]. split; reflexivity.
  - unfold try_catch, bind.
    destruct (rejects_or_answers faulty (MoveActionPost moveId) w) as [[e He]|Ha].
    + rewrite (callRPC_rejected _ _ _ _ He). eexists. eexists. split; [reflexivity|].
      cbn. split; [discriminate|]. intros _. split; [reflexivity|]. split.
      * intros e' _. split; reflexivity.
      * intros Ha. unfold rejects, answers in *. congruence.
    + rewrite (callRPC_answered _ _ _ Ha). eexists. eexists. split; [reflexivity|].
      cbn [w_trace w_ledger serve snd fst]. split; [discriminate|]. intros _.
      split; [reflexivity|]. split.
      * intros e He. unfold rejects, answers in *. congruence.
      * intros _. split; [reflexivity|]. cbn [with_moves moves]. split.
        -- rewrite map_map. apply map_ext. intros m. now destruct (move_id m =? moveId).
        -- intros m (m0 & <- & _)%in_map_iff.
           destruct (move_id m0 =? moveId) eqn:E; cbn.
           ++ reflexivity.
           ++ intros H. apply Z.eqb_neq in E. contradiction.
Qed.

Definition one_move : ledger :=
  with_moves 1 [mk_move 7 (mk_entry "0xabc" "2025-09-01" 55 []) 8 false] empty_ledger.

Lemma postJournalEntry_witness :
  exists w',
    postJournalEntry reliable 7 (logged_in one_move) = (Ok true, w') /\
    forall m, In m (moves (w_ledger w')) -> move_id m = 7 -> move_posted m = true.
Proof.
  destruct (postJournalEntry_never_raises reliable 7 (logged_in one_move) eq_refl)
    as (b & w' & E & _ & H).
  destruct (H eq_refl) as (_ & _ & A). destruct (A eq_refl) as (Hb & _ & Hp).
  exists w'. rewrite Hb in E. split; [exact E|exact Hp].
Defined.

(** The shape of the readers and creators: guard, call, and a handler that
    logs the error and raises it again. *)
Lemma guarded_reraise faulty (c : call) {B : Type} (k : answer c -> M B)
    (label : string) e w :
  authenticated w -> rejects faulty c e w ->
  bind require_uid
    (fun _ => try_catch (bind (Odoo.callRPC faulty c) k)
                (fun error => bind (console (LogError label error)) (fun _ => throw error))) w
  = (Throw e,
     mk_world (w_client w) (w_ledger w) (w_trace w ++ [issue c w])
       (w_console w ++ [LogError label e])).
Proof.
  intros Hu He. unfold bind at 1. rewrite (require_uid_passes w Hu).
  unfold try_catch, bind. now rewrite (callRPC_rejected _ _ _ _ He).
Qed.

Lemma guarded_create_reraise faulty (c : call) {B : Type} (k : answer c -> M B)
    (dry : M B) (label : string) e w :
  ready w -> rejects faulty c e w ->
  bind require_uid
    (fun _ => bind this (fun cl =>
       if dryRun cl then dry
       else try_catch (bind (Odoo.callRPC faulty c) k)
              (fun error => bind (console (LogError label error)) (fun _ => throw error)))) w
  = (Throw e,
     mk_world (w_client w) (w_ledger w) (w_trace w ++ [issue c w])
       (w_console w ++ [LogError label e])).
Proof.
  intros [Hu Hd] He. unfold bind at 1. rewrite (require_uid_passes w Hu).
  unfold bind at 1, this. rewrite Hd.
  unfold try_catch, bind. now rewrite (callRPC_rejected _ _ _ _ He).
Qed.

(** What a run ends with: the exception [e], the ledger of [w], and
    exactly the request of [c] added to the trace. *)
Definition raises_after {A : Type} (c : call) (e : exn) (w : world)
    (out : result A * world) : Prop :=
  fst out = Throw e /\
  w_ledger (snd out) = w_ledger w /\
  w_trace (snd out) = w_trace w ++ [issue c w].

(** Property X7.  The readers and the creators of the client hand a failure
    of their remote call on to the caller: the very exception is raised
    again, after one request, and the ledger is as it was. *)
Theorem readers_and_creators_reraise faulty e w :
  authenticated w ->
  (forall journalId limit,
     rejects faulty (MoveLineSearchRead journalId limit) e w ->
     raises_after (MoveLineSearchRead journalId limit) e w
       (getLatestTransactions faulty journalId limit w)) /\
  (rejects faulty JournalSearchRead e w ->
     raises_after JournalSearchRead e w (getJournals faulty w)) /\
  (rejects faulty AccountSearchRead e w ->
     raises_after AccountSearchRead e w (getAccounts faulty w)) /\
  (dryRun (w_client w) = false ->
   (forall entry,
      rejects faulty (MoveCreate entry) e w ->
      raises_after (MoveCreate entry) e w (createJournalEntry faulty entry w)) /\
   (forall name address receivable payable,
      let data := mk_partner_data name false 1 0 (given_text address)
                    (given_id receivable) (given_id payable) in
      rejects faulty (PartnerCreate data) e w ->
      raises_after (PartnerCreate data) e w
        (createPartner faulty name address receivable payable w)) /\
   (forall iban partnerId name,
      let data := mk_bank_data iban partnerId "iban" (given_text name) in
      rejects faulty (BankCreate data) e w ->
      raises_after (BankCreate data) e w
        (createBankAccount faulty iban partnerId name w))).
Proof.
  intros Hu. split; [|split; [|split]].
  - intros j n He. unfold getLatestTransactions.
    rewrite (guarded_reraise faulty _ _ _ e w Hu He). now split.
  - intros He. unfold getJournals.
    pose proof (guarded_reraise faulty JournalSearchRead (fun x => ret x)
                  "Failed to fetch journals:" e w Hu He) as H.
    unfold getJournals, bind at 1. unfold bind at 1 in H.
    rewrite (require_uid_passes w Hu) in *. unfold try_catch in *.
    rewrite (callRPC_rejected _ _ _ _ He). now split.
  - intros He. unfold getAccounts.
    rewrite (guarded_reraise faulty _ _ _ e w Hu He). now split.
  - intros Hd. assert (Hr : ready w) by now split.
    split; [|split].
    + intros entry He. unfold createJournalEntry, bind at 1.
      rewrite (require_uid_passes w Hu). unfold bind at 1, this. rewrite Hd.
      unfold try_catch. rewrite (callRPC_rejected _ _ _ _ He). now split.
    + intros name address receivable payable data He. unfold createPartner.
      cbv zeta. fold data.
      rewrite (guarded_create_reraise faulty _ _ _ _ e w Hr He). now split.
    + intros iban partnerId name data He. unfold createBankAccount.
      cbv zeta. fold data.
      rewrite (guarded_create_reraise faulty _ _ _ _ e w Hr He). now split.
Qed.

Lemma readers_and_creators_witness :
  raises_after JournalSearchRead (mk_exn Error "HTTP error! status: 502")
    (logged_in empty_ledger) (getJournals unreachable (logged_in empty_ledger)).
Proof.
  apply (proj1 (proj2 (readers_and_creators_reraise unreachable
                         (mk_exn Error "HTTP error! status: 502")
                         (logged_in empty_ledger) eq_refl))).
  reflexivity.
Defined.

(** ** findOrCreateBankAccount against a ledger that answers *)

Definition banks_named (s : string) (l : ledger) : list partner_bank :=
  filter (fun b => String.eqb (acc_number b) s) (banks l).

Definition partners_like (name : string) (l : ledger) : list partner :=
  take 1 (filter (fun p => ilike name (partner_name p)) (partners l)).

Lemma findBankAccountByIdentifier_reliable ident w :
  authenticated w ->
  findBankAccountByIdentifier reliable ident w =
  (Ok (first_id bank_id (banks_named (identifierString ident) (w_ledger w))),
   record_request (issue (BankSearchRead (identifierString ident)) w) w).
Proof.
  intros Hu. unfold findBankAccountByIdentifier, bind at 1.
  rewrite (require_uid_passes w Hu). reflexivity.
Qed.

Lemma getPartnerIdByName_reliable name w :
  authenticated w ->
  getPartnerIdByName reliable name w =
  (Ok (first_id partner_id (partners_like name (w_ledger w))),
   record_request (issue (PartnerSearchReadIlike name) w) w).
Proof.
  intros Hu. unfold getPartnerIdByName, bind at 1.
  rewrite (require_uid_passes w Hu). reflexivity.
Qed.

Lemma createPartner_answered faulty name address receivable payable w :
  ready w ->
  let data := mk_partner_data name false 1 0 (given_text address)
                (given_id receivable) (given_id payable) in
  answers faulty (PartnerCreate data) w ->
  createPartner faulty name address receivable payable w =
  (Ok (next_id (w_ledger w)),
   mk_world (w_client w) (snd (serve (PartnerCreate data) (w_ledger w)))
     (w_trace w ++ [issue (PartnerCreate data) w])
     (w_console w ++ [LogCreated "partner" (next_id (w_ledger w))])).
Proof.
  intros [Hu Hd] data Ha. unfold createPartner, bind at 1.
  rewrite (require_uid_passes w Hu). unfold bind at 1, this. rewrite Hd.
  unfold try_catch, bind. fold data. now rewrite (callRPC_answered _ _ _ Ha).
Qed.

Lemma createBankAccount_answered faulty iban partnerId name w :
  ready w ->
  let data := mk_bank_data iban partnerId "iban" (given_text name) in
  answers faulty (BankCreate data) w ->
  createBankAccount faulty iban partnerId name w =
  (Ok (next_id (w_ledger w)),
   mk_world (w_client w) (snd (serve (BankCreate data) (w_ledger w)))
     (w_trace w ++ [issue (BankCreate data) w])
     (w_console w ++ [LogCreated "bank account" (next_id (w_ledger w))])).
Proof.
  intros [Hu Hd] data Ha. unfold createBankAccount, bind at 1.
  rewrite (require_uid_passes w Hu). unfold bind at 1, this. rewrite Hd.
  unfold try_catch, bind. fold data. now rewrite (callRPC_answered _ _ _ Ha).
Qed.

Lemma banks_named_new s l id pid :
  banks_named s l = [] ->
  banks_named s (with_banks 1 (banks l ++ [mk_bank id s pid]) l) = [mk_bank id s pid].
Proof.
  unfold banks_named. cbn [with_banks banks]. intros E.
  rewrite filter_app, E. cbn. now rewrite String.eqb_refl.
Qed.

Lemma banks_named_zero s l b rest :
  Forall (fun b => bank_id b <> 0) (banks l) ->
  banks_named s l = b :: rest -> (bank_id b =? 0) = false.
Proof.
  intros Hall E. apply Z.eqb_neq.
  destruct (filter_first_in _ _ _ _ E) as [Hin _].
  rewrite Forall_forall in Hall. now apply Hall.
Qed.

(** Property X8.  [findOrCreateBankAccount] is idempotent.  In a real run
    against a ledger that answers, whose ids are not zero, it returns the
    id of a bank account that then exists under the identifier; when an
    account carried the identifier already, nothing is written; and asking
    again gives the same account and writes nothing more. *)
Theorem findOrCreateBankAccount_idempotent ident name address w :
  ready w ->
  0 < next_id (w_ledger w) ->
  Forall (fun b => bank_id b <> 0) (banks (w_ledger w)) ->
  exists id w1 w2,
    findOrCreateBankAccount reliable ident name address w = (Ok id, w1) /\
    (exists b, In b (banks (w_ledger w1)) /\ bank_id b = id /\
               acc_number b = identifierString ident) /\
    (banks_named (identifierString ident) (w_ledger w) <> [] -> w_ledger w1 = w_ledger w) /\
    findOrCreateBankAccount reliable ident name address w1 = (Ok id, w2) /\
    w_ledger w2 = w_ledger w1.
Proof.
  intros Hr Hn Hall. pose proof Hr as [Hu Hd].
  unfold findOrCreateBankAccount at 1. unfold bind at 1.
  rewrite (findBankAccountByIdentifier_reliable ident w Hu).
  set (s := identifierString ident).
  set (w0 := record_request (issue (BankSearchRead s) w) w).
  assert (Hr0 : ready w0) by exact Hr.
  destruct (banks_named s (w_ledger w)) as [|b rest] eqn:Eb; cbn [first_id no_id negb].
  - (* no account under the identifier *)
    unfold bind at 1. rewrite (getPartnerIdByName_reliable name w0 Hu).
    set (wp := record_request (issue (PartnerSearchReadIlike name) w0) w0).
    assert (Hrp : ready wp) by exact Hr.
    assert (second : forall pid (wc : world),
              ready wc -> 0 < next_id (w_ledger wc) ->
              banks_named s (w_ledger wc) = [] ->
              exists id w1 w2,
                createBankAccount reliable s pid (Some name) wc = (Ok id, w1) /\
                (exists b, In b (banks (w_ledger w1)) /\ bank_id b = id /\ acc_number b = s) /\
                (@nil partner_bank <> [] -> w_ledger w1 = w_ledger w) /\
                findOrCreateBankAccount reliable ident name address w1 = (Ok id, w2) /\
                w_ledger w2 = w_ledger w1).
    { intros pid wc Hrc Hnc Ebc.
      rewrite (createBankAccount_answered reliable s pid (Some name) wc Hrc eq_refl).
      eexists. eexists. eexists. split; [reflexivity|].
      cbn [w_ledger serve snd]. split.
      - exists (mk_bank (next_id (w_ledger wc)) s (Some pid)).
        split; [|split; reflexivity]. cbn [with_banks banks bc_acc_number bc_partner_id].
        apply in_or_app. right. now left.
      - split; [congruence|].
        unfold findOrCreateBankAccount, bind at 1.
        rewrite findBankAccountByIdentifier_reliable by exact (proj1 Hrc).
        fold s. cbn [w_ledger bc_acc_number bc_partner_id].
        rewrite (banks_named_new s (w_ledger wc) _ _ Ebc).
        cbn [first_id bank_id no_id].
        destruct (next_id (w_ledger wc) =? 0) eqn:E0; [apply Z.eqb_eq in E0; lia|].
        cbn [negb]. split; reflexivity. }
    destruct (partners_like name (w_ledger w0)) as [|p prest] eqn:Ep; cbn [first_id no_id].
    + unfold bind at 1. rewrite (createPartner_answered reliable name address None None wp Hrp eq_refl).
      cbv zeta. apply second.
      * exact Hr.
      * cbn. lia.
      * exact Eb.
    + destruct (partner_id p =? 0) eqn:Ez.
      * unfold bind at 1. rewrite (createPartner_answered reliable name address None None wp Hrp eq_refl).
        cbv zeta. apply second.
        -- exact Hr.
        -- cbn. lia.
        -- exact Eb.
      * unfold bind at 1, ret. apply second.
        -- exact Hr.
        -- exact Hn.
        -- exact Eb.
  - (* the account exists *)
    rewrite (banks_named_zero s _ b rest Hall Eb). cbn [negb]. unfold ret.
    exists (bank_id b), w0. eexists. split; [reflexivity|]. split.
    + exists b. destruct (filter_first_in _ _ _ _ Eb) as [Hin Hs].
      split; [exact Hin|]. split; [reflexivity|]. now apply String.eqb_eq.
    + split; [reflexivity|].
      unfold findOrCreateBankAccount, bind at 1.
      rewrite (findBankAccountByIdentifier_reliable ident w0 Hu). fold s.
      change (w_ledger w0) with (w_ledger w). rewrite Eb. cbn [first_id no_id].
      rewrite (banks_named_zero s _ b rest Hall Eb). cbn [negb]. split; reflexivity.
Qed.

Definition sepa (iban : string) : BankAccountIdentifier :=
  mk_identifier "iban" (Some iban) None None.

Lemma findOrCreateBankAccount_witness :
  exists id w1 w2,
    findOrCreateBankAccount reliable (sepa "BE68539007547034") "Alice" None
      (logged_in empty_ledger) = (Ok id, w1) /\
    findOrCreateBankAccount reliable (sepa "BE68539007547034") "Alice" None w1 = (Ok id, w2) /\
    w_ledger w2 = w_ledger w1.
Proof.
  destruct (findOrCreateBankAccount_idempotent (sepa "BE68539007547034") "Alice" None
              (logged_in empty_ledger))
    as (id & w1 & w2 & E1 & _ & _ & E2 & L).
  - split; reflexivity.
  - reflexivity.
  - apply Forall_nil.
  - now exists id, w1, w2.
Defined.

(** Property X9.  A failed lookup is read as "no such account": when the
    search for the bank account fails and the calls after it are answered,
    [findOrCreateBankAccount] creates an account under the identifier,
    whether or not the ledger already has one. *)
Theorem findOrCreateBankAccount_creates_after_failed_lookup faulty ident name address e w :
  ready w ->
  rejects faulty (BankSearchRead (identifierString ident)) e w ->
  (forall later r,
     faulty (w_trace w ++ issue (BankSearchRead (identifierString ident)) w :: later) r = None) ->
  exists id pid w1,
    findOrCreateBankAccount faulty ident name address w = (Ok id, w1) /\
    banks (w_ledger w1) =
    banks (w_ledger w) ++ [mk_bank id (identifierString ident) (Some pid)].
Proof.
  intros Hr He Hlater. pose proof Hr as [Hu Hd].
  set (s := identifierString ident) in *.
  assert (Hlookup : findBankAccountByIdentifier faulty ident w =
                    (Ok None,
                     mk_world (w_client w) (w_ledger w) (w_trace w ++ [issue (BankSearchRead s) w])
                       (w_console w ++ [LogError "Failed to find bank account for IBAN" e]))).
  { unfold findBankAccountByIdentifier, bind at 1. rewrite (require_uid_passes w Hu).
    unfold try_catch, bind. fold s. now rewrite (callRPC_rejected _ _ _ _ He). }
  unfold findOrCreateBankAccount, bind at 1. rewrite Hlookup. cbn [no_id negb].
  set (w0 := mk_world _ _ _ _).
  assert (Hans : forall c (w' : world),
            (exists later, w_trace w' = w_trace w ++ issue (BankSearchRead s) w :: later) ->
            answers faulty c w').
  { intros c w' [later E]. unfold answers. rewrite E. apply Hlater. }
  assert (Hp : exists found wp later,
            getPartnerIdByName faulty name w0 = (Ok found, wp) /\
            w_client wp = w_client w /\ w_ledger wp = w_ledger w /\
            w_trace wp = w_trace w ++ issue (BankSearchRead s) w :: later).
  { unfold getPartnerIdByName, bind at 1. rewrite (require_uid_passes w0 Hu).
    unfold try_catch, bind. rewrite callRPC_answered.
    - eexists. eexists. exists [issue (PartnerSearchReadIlike name) w0].
      split; [reflexivity|]. cbn. split; [reflexivity|]. split; [reflexivity|].
      now rewrite <- app_assoc.
    - apply Hans. exists []. reflexivity. }
  destruct Hp as (found & wp & later & Ep & Cp & Lp & Tp).
  unfold bind at 1. rewrite Ep.
  assert (Hcreate : forall pid (wc : world) laterc,
            w_client wc = w_client w ->
            banks (w_ledger wc) = banks (w_ledger w) ->
            w_trace wc = w_trace w ++ issue (BankSearchRead s) w :: laterc ->
            exists id pid0 w1,
              createBankAccount faulty s pid (Some name) wc = (Ok id, w1) /\
              banks (w_ledger w1) = banks (w_ledger w) ++ [mk_bank id s (Some pid0)]).
  { intros pid wc laterc Cc Bc Tc.
    rewrite createBankAccount_answered.
    - eexists. exists pid. eexists. split; [reflexivity|].
      cbn [w_ledger serve snd with_banks banks bc_acc_number bc_partner_id].
      now rewrite Bc.
    - unfold ready. now rewrite Cc.
    - apply Hans. now exists laterc. }
  destruct (no_id found).
  - unfold bind at 1. rewrite createPartner_answered.
    + cbv zeta. eapply (Hcreate _ _ (later ++ [issue _ wp])).
      * exact Cp.
      * cbn. now rewrite Lp.
      * cbn [w_trace]. rewrite Tp. now rewrite <- app_assoc.
    + unfold ready. now rewrite Cp.
    + apply Hans. now exists later.
  - unfold bind at 1, ret at 1. apply (Hcreate _ _ later).
    + exact Cp.
    + now rewrite Lp.
    + exact Tp.
Qed.

(** The bank lookup fails once, then the ledger answers. *)
Definition first_call_fails : list request -> request -> option exn :=
  fun seen _ =>
    match seen with
    | [] => Some (mk_exn Error "HTTP error! status: 502")
    | _ => None
    end.

Definition one_bank : ledger :=
  with_banks 1 [mk_bank 1 "BE68539007547034" (Some 5)] empty_ledger.

Lemma findOrCreateBankAccount_duplicate_witness :
  exists id pid w1,
    findOrCreateBankAccount first_call_fails (sepa "BE68539007547034") "Alice" None
      (logged_in one_bank) = (Ok id, w1) /\
    banks (w_ledger w1) =
    [mk_bank 1 "BE68539007547034" (Some 5); mk_bank id "BE68539007547034" (Some pid)].
Proof.
  apply (findOrCreateBankAccount_creates_after_failed_lookup first_call_fails
           (sepa "BE68539007547034") "Alice" None
           (mk_exn Error "HTTP error! status: 502") (logged_in one_bank)).
  - split; reflexivity.
  - reflexivity.
  - intros later r. reflexivity.
Defined.

(* ================================================================== *)
(** * The client in dry-run mode                                        *)
(* ================================================================== *)

(** The requests a run added to the trace. *)
Definition only_reads (w w' : world) : Prop :=
  exists added, w_trace w' = w_trace w ++ added /\
                Forall (fun r => request_is_write r = false) added.

Lemma only_reads_refl w : only_reads w w.
Proof. exists []. split; [now rewrite app_nil_r|constructor]. Qed.

Lemma only_reads_trans w1 w2 w3 : only_reads w1 w2 -> only_reads w2 w3 -> only_reads w1 w3.
Proof.
  intros (a & Ea & Fa) (b & Eb & Fb). exists (a ++ b). split.
  - now rewrite Eb, Ea, app_assoc.
  - apply Forall_app. now split.
Qed.

(** Property X10.  A dry-run client never writes.  Whatever the remote side
    does, the creators and the post action of an authenticated client in
    dry-run mode send nothing and answer with their placeholders, and the
    composite find-or-create sends look-ups only: it answers with the
    account it found or with the placeholder [888888], and the ledger is as
    it was. *)
Theorem client_dry_run_never_writes faulty w :
  authenticated w ->
  dryRun (w_client w) = true ->
  (forall entry,
     exists w', createJournalEntry faulty entry w = (Ok 999999, w') /\
                w_ledger w' = w_ledger w /\ w_trace w' = w_trace w) /\
  (forall moveId,
     exists w', postJournalEntry faulty moveId w = (Ok true, w') /\
                w_ledger w' = w_ledger w /\ w_trace w' = w_trace w) /\
  (forall name address receivable payable,
     exists w', createPartner faulty name address receivable payable w = (Ok 999999, w') /\
                w_ledger w' = w_ledger w /\ w_trace w' = w_trace w) /\
  (forall iban partnerId name,
     exists w', createBankAccount faulty iban partnerId name w = (Ok 888888, w') /\
                w_ledger w' = w_ledger w /\ w_trace w' = w_trace w) /\
  (forall ident name address,
     exists id w',
       findOrCreateBankAccount faulty ident name address w = (Ok id, w') /\
       w_ledger w' = w_ledger w /\
       only_reads w w' /\
       (id = 888888 \/
        exists b, In b (banks (w_ledger w)) /\ bank_id b = id /\
                  acc_number b = identifierString ident)).
Proof.
  intros Hu Hd.
  assert (dry : forall {A} (a : A) (entry : log_entry) (real : M A) (w0 : world),
            authenticated w0 -> dryRun (w_client w0) = true ->
            bind require_uid
              (fun _ => bind this (fun c =>
                 if dryRun c then bind (console entry) (fun _ => ret a) else real)) w0
            = (Ok a, mk_world (w_client w0) (w_ledger w0) (w_trace w0)
                       (w_console w0 ++ [entry]))).
  { intros A a entry real w0 Hu0 Hd0. unfold bind at 1. rewrite (require_uid_passes w0 Hu0).
    unfold bind at 1, this. now rewrite Hd0. }
  split; [|split; [|split; [|split]]].
  - intros entry. eexists. split; [apply (dry _ _ _ _ w Hu Hd)|]. split; reflexivity.
  - intros moveId. eexists. split; [apply (dry _ _ _ _ w Hu Hd)|]. split; reflexivity.
  - intros name address receivable payable. eexists.
    split; [apply (dry _ _ _ _ w Hu Hd)|]. split; reflexivity.
  - intros iban partnerId name. eexists.
    split; [apply (dry _ _ _ _ w Hu Hd)|]. split; reflexivity.
  - intros ident name address. unfold findOrCreateBankAccount.
    destruct (guarded_lookup faulty (BankSearchRead (identifierString ident))
                (first_id bank_id) None "Failed to find bank account for IBAN" w Hu eq_refl)
      as (found & w1 & E1 & L1 & T1 & F1 & A1).
    assert (C1 : w_client w1 = w_client w).
    { revert E1. unfold bind at 1. rewrite (require_uid_passes w Hu).
      unfold try_catch, bind, Odoo.callRPC. cbv zeta.
      destruct (faulty _ _); [|destruct (serve _ _)]; now intros [= _ <-]. }
    unfold bind at 1. unfold findBankAccountByIdentifier. rewrite E1.
    assert (R1 : only_reads w w1).
    { exists [issue (BankSearchRead (identifierString ident)) w]. split; [exact T1|].
      constructor; [reflexivity|constructor]. }
    destruct (negb (no_id found)) eqn:Hfound.
    + (* the account was found *)
      exists (match found with Some n => n | None => 0 end), w1.
      split; [reflexivity|]. split; [exact L1|]. split; [exact R1|]. right.
      destruct (rejects_or_answers faulty (BankSearchRead (identifierString ident)) w)
        as [[e He]|Ha].
      * rewrite (F1 e He) in Hfound. discriminate Hfound.
      * rewrite (A1 Ha). cbn [serve fst].
        rewrite (A1 Ha) in Hfound. cbn [serve fst] in Hfound.
        destruct (filter _ (banks (w_ledger w))) as [|b rest] eqn:Ef; [discriminate Hfound|].
        exists b. destruct (filter_first_in _ _ _ _ Ef) as [Hin Hs].
        split; [exact Hin|]. split; [reflexivity|]. now apply String.eqb_eq.
    + (* no account: the partner is looked up, and nothing is created *)
      assert (Hu1 : authenticated w1) by (unfold authenticated; now rewrite C1).
      assert (Hd1 : dryRun (w_client w1) = true) by now rewrite C1.
      destruct (guarded_lookup faulty (PartnerSearchReadIlike name)
                  (first_id partner_id) None "Failed to find partner:" w1 Hu1 eq_refl)
        as (p & w2 & E2 & L2 & T2 & _ & _).
      assert (C2 : w_client w2 = w_client w1).
      { revert E2. unfold bind at 1. rewrite (require_uid_passes w1 Hu1).
        unfold try_catch, bind, Odoo.callRPC. cbv zeta.
        destruct (faulty _ _); [|destruct (serve _ _)]; now intros [= _ <-]. }
      assert (Hu2 : authenticated w2) by (unfold authenticated; now rewrite C2).
      assert (Hd2 : dryRun (w_client w2) = true) by now rewrite C2.
      assert (R2 : only_reads w w2).
      { apply (only_reads_trans _ _ _ R1).
        exists [issue (PartnerSearchReadIlike name) w1]. split; [exact T2|].
        constructor; [reflexivity|constructor]. }
      unfold bind at 1. unfold getPartnerIdByName. rewrite E2.
      assert (Hpartner : exists pid w3,
                (if no_id p then createPartner faulty name address None None
                 else ret (match p with Some n => n | None => 0 end)) w2 = (Ok pid, w3) /\
                w_client w3 = w_client w2 /\ w_ledger w3 = w_ledger w2 /\
                w_trace w3 = w_trace w2).
      { destruct (no_id p).
        - eexists. eexists. split; [apply (dry _ _ _ _ w2 Hu2 Hd2)|].
          split; [reflexivity|]. split; reflexivity.
        - eexists. eexists. split; [reflexivity|]. split; [reflexivity|]. split; reflexivity. }
      destruct Hpartner as (pid & w3 & E3 & C3 & L3 & T3).
      unfold bind at 1. rewrite E3.
      assert (Hu3 : authenticated w3) by (unfold authenticated; now rewrite C3).
      assert (Hd3 : dryRun (w_client w3) = true) by now rewrite C3.
      unfold createBankAccount. rewrite (dry _ _ _ _ w3 Hu3 Hd3).
      eexists. eexists. split; [reflexivity|]. cbn [w_ledger w_trace].
      split; [now rewrite L3, L2, L1|]. split; [|now left].
      destruct R2 as (added & Ea & Fa). exists added. cbn [w_trace]. split; [|exact Fa].
      now rewrite T3.
Qed.

Definition dry_logged_in_client (l : ledger) : world :=
  mk_world (mk_odoo example_config (UidNumber 2) true) l [] [].

Lemma client_dry_run_witness :
  exists id w',
    findOrCreateBankAccount unreachable (sepa "BE68539007547034") "Alice" None
      (dry_logged_in_client one_bank) = (Ok id, w') /\
    w_ledger w' = one_bank /\
    only_reads (dry_logged_in_client one_bank) w'.
Proof.
  destruct (proj2 (proj2 (proj2 (proj2
              (client_dry_run_never_writes unreachable (dry_logged_in_client one_bank)
                 eq_refl eq_refl))))
              (sepa "BE68539007547034") "Alice"%string None)
    as (id & w' & E & L & R & _).
  now exists id, w'.
Defined.

(* ================================================================== *)
(** * Journal entries: create, look up, post                            *)
(* ================================================================== *)

(** Property X11.  In a real run against a ledger that answers, an entry
    that was created is found by the existence check for its reference, and
    posting the returned id posts it.  In a dry run the creation answers
    with the placeholder id [999999], nothing is sent, and the ledger is as
    before. *)
Theorem journal_entry_round_trip entry w :
  authenticated w ->
  if dryRun (w_client w)
  then createJournalEntry reliable entry w =
       (Ok 999999,
        mk_world (w_client w) (w_ledger w) (w_trace w)
          (w_console w ++ [LogWouldCreate "journal entry" (je_ref entry)]))
  else
    exists id w1 w2 w3,
      createJournalEntry reliable entry w = (Ok id, w1) /\
      checkJournalEntryExists reliable (je_ref entry) w1 = (Ok true, w2) /\
      postJournalEntry reliable id w2 = (Ok true, w3) /\
      In (mk_move id entry (id + 1) true) (moves (w_ledger w3)).
Proof.
  intros Hu. destruct (dryRun (w_client w)) eqn:Hd.
  - unfold createJournalEntry, bind at 1. rewrite (require_uid_passes w Hu).
    unfold bind at 1, this. now rewrite Hd.
  - unfold createJournalEntry, bind at 1. rewrite (require_uid_passes w Hu).
    unfold bind at 1, this. rewrite Hd. unfold try_catch.
    rewrite (callRPC_answered reliable (MoveCreate entry) w eq_refl).
    cbn [serve fst snd].
    set (id := next_id (w_ledger w)).
    set (w1 := mk_world _ _ _ _).
    assert (Hu1 : authenticated w1) by exact Hu.
    exists id, w1.
    unfold checkJournalEntryExists, bind at 1. rewrite (require_uid_passes w1 Hu1).
    unfold try_catch, bind at 1.
    rewrite (callRPC_answered reliable (MoveSearchReadRef (je_ref entry)) w1 eq_refl).
    cbn [serve fst snd ret].
    set (w2 := mk_world _ _ _ _).
    assert (Hu2 : authenticated w2) by exact Hu.
    assert (Hfound : negb (Nat.eqb (List.length
                       (filter (fun m => String.eqb (je_ref (move_entry m)) (je_ref entry))
                          (moves (w_ledger w1)))) 0) = true).
    { subst w1. cbn [w_ledger with_moves moves]. rewrite filter_app. cbn [filter move_entry].
      rewrite String.eqb_refl, length_app. cbn [List.length].
      destruct (_ + 1)%nat eqn:E; [lia|reflexivity]. }
    rewrite Hfound. exists w2.
    unfold postJournalEntry, bind at 1. rewrite (require_uid_passes w2 Hu2).
    unfold bind at 1, this. change (dryRun (w_client w2)) with (dryRun (w_client w)).
    rewrite Hd. unfold try_catch, bind.
    rewrite (callRPC_answered reliable (MoveActionPost id) w2 eq_refl).
    cbn [serve fst snd ret]. eexists. split; [reflexivity|]. split; [reflexivity|].
    split; [reflexivity|].
    cbn [w_ledger with_moves moves]. subst w2 w1. cbn [w_ledger with_moves moves].
    rewrite map_app. apply in_or_app. right. cbn [map move_id move_entry move_line_first_id].
    rewrite Z.eqb_refl. now left.
Qed.

Lemma journal_entry_round_trip_witness :
  exists id w1 w2 w3,
    createJournalEntry reliable (mk_entry "0xabc" "2025-09-01" 55 []) (logged_in empty_ledger)
    = (Ok id, w1) /\
    checkJournalEntryExists reliable "0xabc" w1 = (Ok true, w2) /\
    postJournalEntry reliable id w2 = (Ok true, w3) /\
    In (mk_move id (mk_entry "0xabc" "2025-09-01" 55 []) (id + 1) true) (moves (w_ledger w3)).
Proof.
  apply (journal_entry_round_trip (mk_entry "0xabc" "2025-09-01" 55 [])
           (logged_in empty_ledger)).
  reflexivity.
Defined.

(* ================================================================== *)
(** * The accounts of a counterparty's partner                          *)
(* ================================================================== *)

(** The partner after the step that gives it its accounts: an account that
    is set is kept, a missing one becomes the default. *)
Definition with_default_accounts (partnerId receivable payable : Z) (p : partner) : partner :=
  if partner_id p =? partnerId
  then mk_partner (partner_id p) (partner_name p)
         (match property_account_receivable_id p with
          | Some a => Some a
          | None => Some receivable
          end)
         (match property_account_payable_id p with
          | Some a => Some a
          | None => Some payable
          end)
  else p.

Lemma partners_unique_first (l : list partner) id p rest :
  NoDup (map partner_id l) ->
  filter (fun q => partner_id q =? id) l = p :: rest ->
  forall q, In q l -> partner_id q = id -> q = p.
Proof.
  induction l as [|x l IH]; intros Hnd Hf q Hq Hid; [contradiction|].
  cbn [map] in Hnd. inversion Hnd as [|? ? Hnot Hrest]; subst.
  cbn [filter] in Hf. destruct (partner_id x =? partner_id q) eqn:E.
  - injection Hf as <- _. destruct Hq as [->|Hq]; [reflexivity|].
    exfalso. apply Hnot. apply Z.eqb_eq in E. rewrite E. now apply in_map.
  - destruct Hq as [->|Hq]; [rewrite Z.eqb_refl in E; discriminate|].
    now apply (IH Hrest Hf).
Qed.

(** Property X12.  The import never overwrites the accounts of a partner.
    In a run against a ledger that answers, in which no two partners share
    an id, the step reads the partner and leaves every partner as
    [with_default_accounts] describes: the receivable and the payable
    account that are set are kept, the missing ones become the defaults of
    the journal.  When both are set, or the partner does not exist, nothing
    is written. *)
Theorem main_partner_accounts_fills_gaps partnerId receivable payable w :
  NoDup (map partner_id (partners (w_ledger w))) ->
  exists w',
    main_partner_accounts reliable partnerId receivable payable w = (Ok tt, w') /\
    partners (w_ledger w') =
    map (with_default_accounts partnerId receivable payable) (partners (w_ledger w)) /\
    ((forall p, In p (partners (w_ledger w)) -> partner_id p = partnerId ->
        property_account_receivable_id p <> None /\ property_account_payable_id p <> None) ->
     w_ledger w' = w_ledger w /\
     w_trace w' = w_trace w ++ [issue (PartnerRead partnerId) w]).
Proof.
  intros Hnd. unfold main_partner_accounts, ImportTxs.callRPC, bind at 1.
  rewrite (callRPC_answered reliable (PartnerRead partnerId) w eq_refl).
  cbn [serve fst snd].
  destruct (filter _ (partners (w_ledger w))) as [|p rest] eqn:Ef.
  - eexists. split; [reflexivity|]. cbn [w_ledger w_trace]. split.
    + symmetry. erewrite map_ext_in; [apply map_id|]. intros q Hq.
      unfold with_default_accounts. destruct (partner_id q =? partnerId) eqn:E; [|reflexivity].
      exfalso.
      exact (filter_in_nonempty (fun p => partner_id p =? partnerId) _ q Hq E Ef).
    + intros _. split; reflexivity.
  - pose proof (partners_unique_first _ _ _ _ Hnd Ef) as Huniq.
    destruct (filter_first_in _ _ _ _ Ef) as [Hp Hpid]. apply Z.eqb_eq in Hpid.
    assert (Hmap : forall f : partner -> partner,
              (forall q, partner_id q <> partnerId -> f q = q) ->
              f p = with_default_accounts partnerId receivable payable p ->
              map f (partners (w_ledger w)) =
              map (with_default_accounts partnerId receivable payable)
                (partners (w_ledger w))).
    { intros f Hother Hsame. apply map_ext_in. intros q Hq.
      destruct (Z.eq_dec (partner_id q) partnerId) as [E|E].
      - now rewrite (Huniq q Hq E).
      - rewrite (Hother q E). unfold with_default_accounts.
        apply Z.eqb_neq in E. now rewrite E. }
    destruct (property_account_receivable_id p) as [a|] eqn:Ea;
      destruct (property_account_payable_id p) as [b|] eqn:Eb.
    + eexists. split; [reflexivity|]. cbn [w_ledger w_trace]. split.
      * symmetry. rewrite <- (Hmap (fun q => q)); [apply map_id|reflexivity|].
        unfold with_default_accounts. rewrite Hpid, Z.eqb_refl, Ea, Eb.
        destruct p; cbn in *. now subst.
      * intros _. split; reflexivity.
    + unfold bind. rewrite (callRPC_answered reliable _ _ eq_refl).
      cbn [serve fst snd ret w_ledger w_trace]. eexists. split; [reflexivity|].
      cbn [w_ledger with_partners partners]. split.
      * apply Hmap.
        -- intros q Hq. apply Z.eqb_neq in Hq. now rewrite Hq.
        -- unfold with_default_accounts. rewrite Hpid, Z.eqb_refl, Ea, Eb. reflexivity.
      * intros Hset. destruct (Hset p Hp Hpid) as [_ H]. congruence.
    + unfold bind. rewrite (callRPC_answered reliable _ _ eq_refl).
      cbn [serve fst snd ret w_ledger w_trace]. eexists. split; [reflexivity|].
      cbn [w_ledger with_partners partners]. split.
      * apply Hmap.
        -- intros q Hq. apply Z.eqb_neq in Hq. now rewrite Hq.
        -- unfold with_default_accounts. rewrite Hpid, Z.eqb_refl, Ea, Eb. reflexivity.
      * intros Hset. destruct (Hset p Hp Hpid) as [H _]. congruence.
    + unfold bind. rewrite (callRPC_answered reliable _ _ eq_refl).
      cbn [serve fst snd ret w_ledger w_trace]. eexists. split; [reflexivity|].
      cbn [w_ledger with_partners partners]. split.
      * apply Hmap.
        -- intros q Hq. apply Z.eqb_neq in Hq. now rewrite Hq.
        -- unfold with_default_accounts. rewrite Hpid, Z.eqb_refl, Ea, Eb. reflexivity.
      * intros Hset. destruct (Hset p Hp Hpid) as [H _]. congruence.
Qed.

Definition two_partners : ledger :=
  with_partners 2 [mk_partner 1 "Alice" (Some 40) None; mk_partner 2 "Bob" None None]
    empty_ledger.

Lemma main_partner_accounts_witness :
  exists w',
    main_partner_accounts reliable 1 7 8 (logged_in two_partners) = (Ok tt, w') /\
    partners (w_ledger w') =
    [mk_partner 1 "Alice" (Some 40) (Some 8); mk_partner 2 "Bob" None None].
Proof.
  destruct (main_partner_accounts_fills_gaps 1 7 8 (logged_in two_partners))
    as (w' & E & P & _).
  - cbn. constructor; [intros [H|[]]; discriminate H|].
    constructor; [intros []|constructor].
  - exists w'. split; [exact E|exact P].
Defined.

(* ================================================================== *)
(** * The server's helper authenticateOdooClient                       *)
(* ================================================================== *)

Module ServerClient.

(** [username || ""]. *)
Definition or_empty (s : option string) : string :=
  match s with
  | Some v => v
  | None => EmptyString
  end.

Section Helper.

Variable faulty : list request -> request -> option exn.

(** [authenticateOdooClient(odooUrl, database, username, password)]: the
    client it builds becomes the current client. *)
Definition authenticateOdooClient (odooUrl database : string)
    (username password : option string) : M OdooClient :=
  set_client (new_client (mk_config odooUrl database (or_empty username) (or_empty password))
                false) ;;
  authenticated <- authenticate faulty ;;
  if negb authenticated then throw (mk_exn Error "Authentication failed")
  else this.

End Helper.

End ServerClient.

(** Property X13.  [authenticateOdooClient] sends one login request, with
    empty strings for a missing user name or password, and changes nothing
    in the ledger.  It returns a client exactly when the login is answered
    with a usable uid, and that client carries the uid and creates for
    real; a login that fails and a login that is refused both end in the
    same error, "Authentication failed". *)
Theorem authenticateOdooClient_outcome faulty odooUrl db user pass w :
  let cfg := mk_config odooUrl db (ServerClient.or_empty user) (ServerClient.or_empty pass) in
  let r := Login db (ServerClient.or_empty user) (ServerClient.or_empty pass) in
  exists w',
    ServerClient.authenticateOdooClient faulty odooUrl db user pass w =
    (match faulty (w_trace w) r with
     | None =>
         if uid_truthy (login_answer (w_ledger w))
         then Ok (mk_odoo cfg (login_answer (w_ledger w)) false)
         else Throw (mk_exn Error "Authentication failed")
     | Some _ => Throw (mk_exn Error "Authentication failed")
     end, w') /\
    w_ledger w' = w_ledger w /\
    w_trace w' = w_trace w ++ [r].
Proof.
  cbv zeta. unfold ServerClient.authenticateOdooClient, authenticate, try_catch, bind,
    callRPC_login, set_client. cbv zeta. cbn [w_trace w_client config database username password].
  destruct (faulty (w_trace w) _) as [e|].
  - eexists. split; [reflexivity|]. split; reflexivity.
  - cbn. destruct (uid_truthy (login_answer (w_ledger w))).
    + eexists. split; [reflexivity|]. split; reflexivity.
    + eexists. split; [reflexivity|]. split; reflexivity.
Qed.

(* ================================================================== *)
(** * The script before the import                                      *)
(* ================================================================== *)

Definition process_exit : exn := mk_exn ProcessExit "Deno.exit(1)".

(** The first journal the ledger returns for the script's journal id. *)
Definition configured_journal (l : ledger) : option journal :=
  match filter (fun j => journal_id j =? ImportTxs.journalId) (journals l) with
  | j :: _ => Some j
  | [] => None
  end.

(** A journal the script refuses at its first check: absent, without a
    default account, or with the default account as suspense account. *)
Definition unusable (j : option journal) : bool :=
  match j with
  | None => true
  | Some j =>
      match default_account_id j with
      | None => true
      | Some d =>
          match suspense_account_id j with
          | Some s => s =? d
          | None => false
          end
      end
  end.

(** Property X14.  When the login fails, or is answered with no usable uid,
    [main] exits after this one request: nothing else is asked of the
    ledger, which is as it was, whatever the block explorer would answer. *)
Theorem main_exits_when_login_fails faulty network apiKey cfg dry year month w :
  let r := Login (database cfg) (username cfg) (password cfg) in
  (faulty (w_trace w) r <> None \/ uid_truthy (login_answer (w_ledger w)) = false) ->
  exists w',
    ImportTxs.main faulty network apiKey cfg dry year month w = (Throw process_exit, w') /\
    w_ledger w' = w_ledger w /\
    w_trace w' = w_trace w ++ [r].
Proof.
  cbv zeta. intros H.
  unfold ImportTxs.main, authenticate, try_catch, bind, callRPC_login, set_client.
  cbv zeta. cbn [w_trace w_client config database username password new_client].
  destruct (faulty (w_trace w) _) as [e|].
  - eexists. split; [reflexivity|]. split; reflexivity.
  - destruct H as [H|H]; [congruence|]. cbn. rewrite H. cbn.
    eexists. split; [reflexivity|]. split; reflexivity.
Qed.

Lemma main_exits_refused_login_witness :
  exists w',
    ImportTxs.main reliable (fun _ => Etherscan.FetchNotOk "Bad Gateway") "KEY" example_config
      false 2025 10 (fresh_world false) = (Throw process_exit, w') /\
    w_ledger w' = empty_ledger /\
    w_trace w' = [Login "ledger" "bot" "secret"].
Proof.
  apply (main_exits_when_login_fails reliable (fun _ => Etherscan.FetchNotOk "Bad Gateway") "KEY"
           example_config false 2025 10 (fresh_world false)).
  right. reflexivity.
Defined.

(** Property X15.  When the journal of the script is absent, has no default
    account, or has its default account as suspense account, [main] exits
    after the login and the read of the journal: the ledger is as it was. *)
Theorem main_exits_on_unusable_journal faulty network apiKey cfg dry year month w :
  let r := Login (database cfg) (username cfg) (password cfg) in
  let q := ExecuteKw (database cfg) (login_answer (w_ledger w)) (password cfg)
             (JournalRead ImportTxs.journalId) in
  faulty (w_trace w) r = None ->
  uid_truthy (login_answer (w_ledger w)) = true ->
  faulty (w_trace w ++ [r]) q = None ->
  unusable (configured_journal (w_ledger w)) = true ->
  exists w',
    ImportTxs.main faulty network apiKey cfg dry year month w = (Throw process_exit, w') /\
    w_ledger w' = w_ledger w /\
    w_trace w' = w_trace w ++ [r; q].
Proof.
  cbv zeta. intros Hlogin Huid Hread Hbad.
  unfold ImportTxs.main, authenticate, try_catch, callRPC_login, set_client.
  unfold bind at 1. unfold bind at 1. unfold bind at 1.
  cbv zeta. cbn [w_trace w_client config database username password new_client].
  rewrite Hlogin. cbn [set_uid bind ret record_request w_client w_ledger w_trace w_console
                       config uid dryRun].
  rewrite Huid. cbn [negb].
  unfold ImportTxs.main_check_journal, ImportTxs.callRPC. unfold bind at 1. unfold bind at 1.
  unfold Odoo.callRPC at 1. cbv zeta.
  cbn [w_trace w_client w_ledger w_console config database username password uid dryRun].
  change (config (new_client cfg dry)) with cfg.
  rewrite Hread. cbn [serve].
  unfold configured_journal in Hbad.
  destruct (filter _ (journals (w_ledger w))) as [|j rest].
  - eexists. split; [reflexivity|]. split; [reflexivity|]. cbn. now rewrite <- app_assoc.
  - cbn [unusable] in Hbad. destruct (default_account_id j) as [d|].
    + destruct (suspense_account_id j) as [s|]; [|discriminate].
      rewrite Hbad. eexists. split; [reflexivity|]. split; [reflexivity|].
      cbn. now rewrite <- app_assoc.
    + eexists. split; [reflexivity|]. split; [reflexivity|]. cbn. now rewrite <- app_assoc.
Qed.

Definition no_journal : ledger :=
  mk_ledger [] [] [] [] [] [] [] [] 1 (UidNumber 2) FUndefined FUndefined.

Lemma main_exits_on_unusable_journal_witness :
  exists w',
    ImportTxs.main reliable (fun _ => Etherscan.FetchNotOk "Bad Gateway") "KEY" example_config
      false 2025 10 (mk_world (new_client example_config false) no_journal [] [])
    = (Throw process_exit, w') /\
    w_ledger w' = no_journal /\
    w_trace w' = [Login "ledger" "bot" "secret";
                  ExecuteKw "ledger" (UidNumber 2) "secret" (JournalRead 55)].
Proof.
  apply (main_exits_on_unusable_journal reliable (fun _ => Etherscan.FetchNotOk "Bad Gateway")
           "KEY" example_config false 2025 10
           (mk_world (new_client example_config false) no_journal [] []));
    reflexivity.
Defined.

(* ================================================================== *)
(** * Grouping the transfers by month                                   *)
(* ================================================================== *)

(** The transfer with the date the grouping loop computes for it; [None]
    when its time stamp is unreadable. *)
Definition dated (r : Etherscan.EtherscanTokenTransfer) : option item :=
  match parseInt (Etherscan.timeStamp r) with
  | Some t =>
      match toISODate (t * 1000) with
      | Some iso => Some (r, iso)
      | None => None
      end
  | None => None
  end.

Fixpoint dated_items (txs : list Etherscan.EtherscanTokenTransfer) : option (list item) :=
  match txs with
  | [] => Some []
  | r :: rest =>
      match dated r, dated_items rest with
      | Some it, Some its => Some (it :: its)
      | _, _ => None
      end
  end.

Definition month_of (it : item) : string := ImportTxs.monthKeyFromISO (snd it).

(** The items of [seen] that fall in the month [k], in their order. *)
Definition of_month (k : string) (seen : list item) : list item :=
  filter (fun it => String.eqb (month_of it) k) seen.

(** [byMonth] groups the items [seen]: no month occurs twice, the group of
    a month holds exactly the items of that month, in their order, and is
    not empty, and every item has a group. *)
Definition grouped (seen : list item) (byMonth : list (string * list item)) : Prop :=
  NoDup (map fst byMonth) /\
  (forall k items, In (k, items) byMonth -> items <> [] /\ items = of_month k seen) /\
  (forall it, In it seen -> In (month_of it) (map fst byMonth)).

Lemma push_month_keys mk it byMonth k :
  In k (map fst (ImportTxs.push_month mk it byMonth)) <-> k = mk \/ In k (map fst byMonth).
Proof.
  induction byMonth as [|[k0 items] rest IH]; cbn.
  - split; [intros [H|[]]; now left | intros [H|[]]; now left].
  - destruct (String.eqb k0 mk) eqn:E; cbn.
    + apply String.eqb_eq in E. subst k0. intuition congruence.
    + rewrite IH. intuition congruence.
Qed.

Lemma push_month_NoDup mk it byMonth :
  NoDup (map fst byMonth) -> NoDup (map fst (ImportTxs.push_month mk it byMonth)).
Proof.
  induction byMonth as [|[k0 items] rest IH]; cbn; intros H.
  - constructor; [intros []|constructor].
  - inversion H as [|? ? Hnot Hrest]; subst.
    destruct (String.eqb k0 mk) eqn:E; cbn.
    + constructor; assumption.
    + constructor; [|now apply IH].
      rewrite push_month_keys. intros [->|Hin]; [|contradiction].
      now rewrite String.eqb_refl in E.
Qed.

Lemma push_month_groups mk it byMonth k items :
  NoDup (map fst byMonth) ->
  In (k, items) (ImportTxs.push_month mk it byMonth) ->
  (k <> mk /\ In (k, items) byMonth) \/
  (k = mk /\ ((exists old, In (k, old) byMonth /\ items = old ++ [it]) \/
              (~ In mk (map fst byMonth) /\ items = [it]))).
Proof.
  induction byMonth as [|[k0 its] rest IH]; cbn; intros Hnd.
  - intros [[= <- <-]|[]]. right. split; [reflexivity|]. right. split; [tauto|reflexivity].
  - inversion Hnd as [|? ? Hnot Hrest]; subst.
    destruct (String.eqb k0 mk) eqn:E; cbn.
    + apply String.eqb_eq in E. subst k0. intros [[= <- <-]|Hin].
      * right. split; [reflexivity|]. left. exists its. split; [now left|reflexivity].
      * left. split; [|now right]. intros ->. apply Hnot.
        apply in_map_iff. now exists (mk, items).
    + intros [[= <- <-]|Hin].
      * left. split; [|now left]. intros ->. now rewrite String.eqb_refl in E.
      * destruct (IH Hrest Hin) as [[Hne H]|[-> [(old & H & ->)|[Hno ->]]]].
        -- left. split; [exact Hne|now right].
        -- right. split; [reflexivity|]. left. exists old. split; [now right|reflexivity].
        -- right. split; [reflexivity|]. right. split; [|reflexivity].
           intros [H|H]; [|contradiction]. subst k0. now rewrite String.eqb_refl in E.
Qed.

Lemma of_month_app k seen it :
  of_month k (seen ++ [it]) =
  of_month k seen ++ (if String.eqb (month_of it) k then [it] else []).
Proof. unfold of_month. now rewrite filter_app. Qed.

Lemma push_month_grouped seen byMonth it :
  grouped seen byMonth ->
  grouped (seen ++ [it]) (ImportTxs.push_month (month_of it) it byMonth).
Proof.
  intros (Hnd & Hgroups & Hall). split; [|split].
  - now apply push_month_NoDup.
  - intros k items Hin. rewrite of_month_app.
    destruct (push_month_groups _ _ _ _ _ Hnd Hin)
      as [[Hne H]|[-> [(old & H & ->)|[Hno ->]]]].
    + destruct (Hgroups k items H) as [Hn ->]. split; [exact Hn|].
      destruct (String.eqb (month_of it) k) eqn:E.
      * apply String.eqb_eq in E. congruence.
      * now rewrite app_nil_r.
    + destruct (Hgroups _ old H) as [Hn ->]. rewrite String.eqb_refl. split; [|reflexivity].
      intros E. now apply app_eq_nil in E as [_ [=]].
    + rewrite String.eqb_refl. split; [discriminate|].
      assert (E : of_month (month_of it) seen = []).
      { unfold of_month. destruct (filter _ seen) as [|x rest] eqn:Ef; [reflexivity|].
        destruct (filter_first_in _ _ _ _ Ef) as [Hx Hk]. apply String.eqb_eq in Hk.
        exfalso. apply Hno. rewrite <- Hk. now apply Hall. }
      now rewrite E.
  - intros x Hx. rewrite push_month_keys. apply in_app_or in Hx as [Hx|[<-|[]]].
    + right. now apply Hall.
    + now left.
Qed.

Lemma group_by_month_grouped txs : forall seen acc,
  grouped seen acc ->
  match dated_items txs with
  | None => ImportTxs.group_by_month txs acc = Throw (mk_exn RangeError "Invalid time value")
  | Some its =>
      exists byMonth,
        ImportTxs.group_by_month txs acc = Ok byMonth /\ grouped (seen ++ its) byMonth
  end.
Proof.
  induction txs as [|r rest IH]; intros seen acc Hg; cbn [dated_items ImportTxs.group_by_month].
  - exists acc. split; [reflexivity|]. now rewrite app_nil_r.
  - unfold dated. destruct (parseInt (Etherscan.timeStamp r)) as [t|]; [|reflexivity].
    destruct (toISODate (t * 1000)) as [iso|]; [|reflexivity].
    specialize (IH (seen ++ [(r, iso)])
                  (ImportTxs.push_month (ImportTxs.monthKeyFromISO iso) (r, iso) acc)
                  (push_month_grouped seen acc (r, iso) Hg)).
    destruct (dated_items rest) as [its|].
    + destruct IH as (byMonth & E & G). exists byMonth. split; [exact E|].
      now rewrite <- app_assoc in G.
    + exact IH.
Qed.

Lemma dated_items_transfers txs its : dated_items txs = Some its -> map fst its = txs.
Proof.
  revert its. induction txs as [|r rest IH]; intros its; cbn [dated_items].
  - now intros [= <-].
  - unfold dated at 1. destruct (parseInt (Etherscan.timeStamp r)) as [t|]; [|discriminate].
    destruct (toISODate (t * 1000)) as [iso|]; [|discriminate].
    destruct (dated_items rest) as [its0|]; [|discriminate].
    intros [= <-]. cbn. now rewrite (IH its0 eq_refl).
Qed.

(** Property X16.  The grouping loop partitions the transfers by the month
    of their date.  It raises a [RangeError] exactly when some time stamp
    is unreadable; otherwise every transfer, with its date, is in the group
    of its month and in no other, the groups keep the order of the
    transfers, none is empty and no month has two groups. *)
Theorem group_by_month_partitions txs :
  match dated_items txs with
  | None =>
      ImportTxs.group_by_month txs [] = Throw (mk_exn RangeError "Invalid time value")
  | Some its =>
      map fst its = txs /\
      exists byMonth,
        ImportTxs.group_by_month txs [] = Ok byMonth /\
        NoDup (map fst byMonth) /\
        (forall k items,
           In (k, items) byMonth -> items <> [] /\ items = of_month k its) /\
        (forall it, In it its -> In (month_of it, of_month (month_of it) its) byMonth)
  end.
Proof.
  assert (G0 : grouped [] []).
  { split; [constructor|]. split; [intros ? ? []|intros ? []]. }
  pose proof (group_by_month_grouped txs [] [] G0) as H.
  destruct (dated_items txs) as [its|] eqn:E; [|exact H].
  split; [now apply dated_items_transfers|].
  destruct H as (byMonth & Eg & Hnd & Hgroups & Hall). cbn [app] in *.
  exists byMonth. split; [exact Eg|]. split; [exact Hnd|]. split; [exact Hgroups|].
  intros it Hit. specialize (Hall it Hit).
  apply in_map_iff in Hall as ([k items] & Hk & Hin). cbn [fst] in Hk. subst k.
  now rewrite <- (proj2 (Hgroups _ _ Hin)).
Qed.

(* ================================================================== *)
(** * The statement of a month                                          *)
(* ================================================================== *)

(** The statements the search of [getOrCreateMonthlyStatement] returns. *)
Definition statements_named (journal : Z) (name : string) (l : ledger) : list statement :=
  take 1 (filter (fun s => (statement_journal_id s =? journal)
                             && String.eqb (statement_name s) name) (statements l)).

Lemma take_1_app {A} (l : list A) x : l = [] -> take 1 (l ++ [x]) = [x].
Proof. now intros ->. Qed.

Lemma take_1_cons {A} (x : A) l : take 1 (x :: l) = [x].
Proof. cbn. now destruct l. Qed.

Lemma take_1_nil {A} (l : list A) : take 1 l = [] -> l = [].
Proof. destruct l; [reflexivity|]. now rewrite take_1_cons. Qed.

(** Property X17.  In a real run against a ledger that answers, the
    statement of a month is found or created, and asking again finds the
    same statement and writes nothing: the month gets one statement, named
    "Feed " followed by the month key, in the given journal and dated on
    the first of the month. *)
Theorem getOrCreateMonthlyStatement_idempotent journal monthKey w :
  exists id w1 w2,
    ImportTxs.getOrCreateMonthlyStatement reliable journal monthKey false w = (Ok id, w1) /\
    (statements_named journal ("Feed " ++ monthKey)%string (w_ledger w) <> [] ->
     w_ledger w1 = w_ledger w) /\
    (statements_named journal ("Feed " ++ monthKey)%string (w_ledger w) = [] ->
     statements (w_ledger w1) =
     statements (w_ledger w) ++
     [mk_statement id journal ("Feed " ++ monthKey)%string (monthKey ++ "-01")%string
        (fresh_balance_start (w_ledger w)) (fresh_balance_end_real (w_ledger w)) false]) /\
    ImportTxs.getOrCreateMonthlyStatement reliable journal monthKey false w1 = (Ok id, w2) /\
    w_ledger w2 = w_ledger w1.
Proof.
  unfold ImportTxs.getOrCreateMonthlyStatement at 1. cbv zeta.
  unfold ImportTxs.callRPC at 1, bind at 1.
  rewrite (callRPC_answered reliable _ w eq_refl). cbn [serve fst snd].
  fold (statements_named journal ("Feed " ++ monthKey)%string (w_ledger w)).
  destruct (statements_named journal ("Feed " ++ monthKey)%string (w_ledger w)) as [|st rest] eqn:E.
  - unfold ImportTxs.callRPC. rewrite (callRPC_answered reliable _ _ eq_refl).
    cbn [serve fst snd w_ledger w_client w_trace w_console].
    eexists. eexists. eexists. split; [reflexivity|]. cbn [w_ledger].
    split; [congruence|]. split; [intros _; reflexivity|].
    unfold ImportTxs.getOrCreateMonthlyStatement, ImportTxs.callRPC, bind.
    rewrite (callRPC_answered reliable _ _ eq_refl). cbn [serve fst snd w_ledger].
    cbn [with_statements statements]. rewrite filter_app.
    apply take_1_nil in E. rewrite E. cbn [app filter statement_journal_id statement_name].
    rewrite Z.eqb_refl, String.eqb_refl. cbn. split; reflexivity.
  - unfold ret. eexists. eexists. eexists. split; [reflexivity|]. cbn [w_ledger].
    split; [intros _; reflexivity|]. split; [discriminate|].
    unfold ImportTxs.getOrCreateMonthlyStatement, ImportTxs.callRPC, bind.
    rewrite (callRPC_answered reliable _ _ eq_refl). cbn [serve fst snd w_ledger].
    fold (statements_named journal ("Feed " ++ monthKey)%string (w_ledger w)). rewrite E.
    split; reflexivity.
Qed.

(* ================================================================== *)
(** * Blank counterparties                                              *)
(* ================================================================== *)

Lemma remove_spaces_blank s : all_chars is_space s = true -> remove_spaces s = EmptyString.
Proof.
  induction s as [|c s IH]; cbn; [reflexivity|].
  destruct (is_space c); [exact IH|discriminate].
Qed.

Lemma trimStart_blank s : all_chars is_space s = true -> trimStart s = EmptyString.
Proof.
  induction s as [|c s IH]; cbn; [reflexivity|].
  destruct (is_space c); [exact IH|discriminate].
Qed.

Lemma is_space_lower_char c : is_space (lower_char c) = is_space c.
Proof. ascii_cases c; reflexivity. Qed.

Lemma all_chars_space_toLowerCase s :
  all_chars is_space (toLowerCase s) = all_chars is_space s.
Proof.
  induction s as [|c s IH]; cbn; [reflexivity|].
  fold (toLowerCase s). now rewrite is_space_lower_char, IH.
Qed.

(** Property X18.  A counterparty without an address, or a partner without
    a name: when the text holds nothing but white space, the resolvers
    answer with the id [0] and ask nothing of the ledger, in a dry run and
    in a real one; for an event whose counterparty address is such a text
    the import resolves no partner and no bank account. *)
Theorem blank_counterparty_resolves_to_zero faulty text dry w :
  all_chars is_space text = true ->
  (forall receivable payable,
     ImportTxs.findOrCreatePartnerByName faulty text dry receivable payable w = (Ok 0, w)) /\
  (forall partnerId receivable payable,
     ImportTxs.findOrCreatePartnerBank faulty partnerId text dry receivable payable w
     = (Ok 0, w)) /\
  (forall r receivable payable,
     ImportTxs.partnerAddress r = text ->
     ImportTxs.main_counterparty faulty dry receivable payable r w = (Ok tt, w)).
Proof.
  intros H.
  assert (Hbank : forall t partnerId receivable payable,
            all_chars is_space t = true ->
            ImportTxs.findOrCreatePartnerBank faulty partnerId t dry receivable payable w
            = (Ok 0, w)).
  { intros t partnerId receivable payable Ht.
    unfold ImportTxs.findOrCreatePartnerBank, ImportTxs.account_key.
    cbv zeta. now rewrite (remove_spaces_blank t Ht). }
  split; [|split].
  - intros receivable payable.
    unfold ImportTxs.findOrCreatePartnerByName, trim. now rewrite (trimStart_blank text H).
  - intros partnerId receivable payable. now apply Hbank.
  - intros r receivable payable Hr. unfold ImportTxs.main_counterparty, bind.
    rewrite Hbank by (now rewrite all_chars_space_toLowerCase, Hr). reflexivity.
Qed.

Lemma blank_counterparty_witness :
  ImportTxs.findOrCreatePartnerBank reliable 0 "  " false (Some 7) (Some 8)
    (logged_in empty_ledger) = (Ok 0, logged_in empty_ledger).
Proof.
  apply (proj1 (proj2 (blank_counterparty_resolves_to_zero reliable "  " false
                         (logged_in empty_ledger) eq_refl))).
Defined.

(* ================================================================== *)
(** * Month keys and statement names                                    *)
(* ================================================================== *)

(** [p] holds of the [fuel] integers from [i] on. *)
Fixpoint all_from (fuel : nat) (i : Z) (p : Z -> bool) : bool :=
  match fuel with
  | O => true
  | S f => p i && all_from f (i + 1) p
  end.

Lemma all_from_spec fuel : forall i p,
  all_from fuel i p = true -> forall j, i <= j < i + Z.of_nat fuel -> p j = true.
Proof.
  induction fuel as [|f IH]; intros i p H j Hj.
  - cbn in Hj. lia.
  - cbn [all_from] in H. apply andb_prop in H as [H0 H1].
    destruct (Z.eq_dec j i) as [->|Hne]; [exact H0|].
    apply (IH (i + 1) p H1). lia.
Qed.

Definition two_digits (s : string) : bool :=
  match s with
  | String a (String b EmptyString) => is_digit a && is_digit b
  | _ => false
  end.

Definition four_digits (s : string) : bool :=
  match s with
  | String a (String b (String c (String d EmptyString))) =>
      is_digit a && is_digit b && is_digit c && is_digit d
  | _ => false
  end.

(** The month of a day of the 400-year cycle, as [civil_from_days] computes
    it. *)
Definition month_of_cycle_day (doe : Z) : Z :=
  let yoe := (doe - doe / 1460 + doe / 36524 - doe / 146096) / 365 in
  let doy := doe - (365 * yoe + yoe / 4 - yoe / 100) in
  let mp := (5 * doy + 2) / 153 in
  if mp <? 10 then mp + 3 else mp - 9.

Lemma civil_month days :
  snd (fst (civil_from_days days)) =
  month_of_cycle_day ((days + 719468) mod 146097).
Proof.
  unfold civil_from_days, month_of_cycle_day. cbv zeta. cbn [fst snd].
  replace ((days + 719468) - (days + 719468) / 146097 * 146097)
    with ((days + 719468) mod 146097); [reflexivity|].
  rewrite Z.mod_eq by lia. lia.
Qed.

Lemma months_in_range doe : 0 <= doe < 146097 -> 1 <= month_of_cycle_day doe <= 12.
Proof.
  intros H. unfold month_of_cycle_day. cbv zeta.
  set (yoe := (doe - doe / 1460 + doe / 36524 - doe / 146096) / 365).
  set (doy := doe - (365 * yoe + yoe / 4 - yoe / 100)).
  assert (Hd : 0 <= doy <= 365) by (subst doy yoe; Z.div_mod_to_equations; lia).
  destruct (Z.ltb_spec ((5 * doy + 2) / 153) 10); Z.div_mod_to_equations; lia.
Qed.

Lemma months_two_digits :
  all_from (Z.to_nat 12) 1 (fun m => two_digits (pad_number 2 m)) = true.
Proof. vm_compute. reflexivity. Qed.

Lemma years_four_digits :
  all_from (Z.to_nat 10000) 0 (fun y => four_digits (pad_number 4 y)) = true.
Proof. vm_compute. reflexivity. Qed.

Lemma length_pad_number k n : (k <= String.length (pad_number k n))%nat.
Proof. apply length_padStart. Qed.

(** Property X19.  The statement of a month is one the final sweep
    recognises: for a date of ten characters (a year of four digits), the
    name "Feed " followed by the month key of the date matches the pattern
    of the sweep, which extracts that month key from it. *)
Theorem month_statement_name_recognised ms iso :
  toISODate ms = Some iso ->
  String.length iso = 10%nat ->
  feed_month ("Feed " ++ ImportTxs.monthKeyFromISO iso) = Some (ImportTxs.monthKeyFromISO iso).
Proof.
  unfold toISODate. destruct (Z.abs ms <=? 8640000000000000); [|discriminate].
  pose proof (civil_month (ms / 86400000)) as Hm.
  destruct (civil_from_days (ms / 86400000)) as [[y m] d]. cbn [fst snd] in Hm.
  intros [= <-] Hlen.
  assert (Hmonth : two_digits (pad_number 2 m) = true).
  { apply (all_from_spec _ _ _ months_two_digits).
    assert (Hr : 1 <= m <= 12).
    { rewrite Hm. apply months_in_range. apply Z.mod_pos_bound. lia. }
    lia. }
  unfold iso_year in *.
  destruct ((0 <=? y) && (y <=? 9999)) eqn:Hy.
  - assert (Hyear : four_digits (pad_number 4 y) = true).
    { apply (all_from_spec _ _ _ years_four_digits). lia. }
    destruct (pad_number 4 y) as [|a [|b [|c [|e [|? ?]]]]]; try discriminate Hyear.
    destruct (pad_number 2 m) as [|f [|g [|? ?]]]; try discriminate Hmonth.
    cbn [four_digits two_digits] in Hyear, Hmonth.
    cbn [append ImportTxs.monthKeyFromISO slice_to feed_month slice_from].
    unfold ImportTxs.monthKeyFromISO. cbn [slice_to append feed_month slice_from].
    apply andb_prop in Hmonth as [Hf Hg].
    apply andb_prop in Hyear as [Hyear He]. apply andb_prop in Hyear as [Hyear Hc].
    apply andb_prop in Hyear as [Ha Hb].
    now rewrite Ha, Hb, Hc, He, Hf, Hg.
  - exfalso. cbn [append String.length] in Hlen. rewrite !length_append in Hlen.
    pose proof (length_pad_number 6 y). pose proof (length_pad_number 2 m).
    cbn [String.length] in Hlen. rewrite length_append in Hlen.
    cbn [String.length] in Hlen. lia.
Qed.

Lemma month_statement_name_witness :
  feed_month "Feed 2025-09" = Some "2025-09"%string.
Proof.
  apply (month_statement_name_recognised 1756684800000 "2025-09-01").
  - vm_compute. reflexivity.
  - reflexivity.
Defined.

(* ================================================================== *)
(** * The test for a past month                                         *)
(* ================================================================== *)

Definition digit_of (c : ascii) : Z := Z.of_N (N_of_ascii c) - 48.

(** [s] is the numeral of [y] in four digits. *)
Definition year_shape (y : Z) (s : string) : bool :=
  match s with
  | String a (String b (String c (String d EmptyString))) =>
      is_digit a && is_digit b && is_digit c && is_digit d
      && (y =? 1000 * digit_of a + 100 * digit_of b + 10 * digit_of c + digit_of d)
  | _ => false
  end.

(** [s] is the numeral of [m] in two digits. *)
Definition month_shape (m : Z) (s : string) : bool :=
  match s with
  | String a (String b EmptyString) =>
      is_digit a && is_digit b && (m =? 10 * digit_of a + digit_of b)
  | _ => false
  end.

Lemma years_shaped :
  all_from (Z.to_nat 10000) 0 (fun y => year_shape y (pad_number 4 y)) = true.
Proof. vm_compute. reflexivity. Qed.

Lemma years_unpadded :
  all_from (Z.to_nat 9000) 1000 (fun y => String.eqb (BigInt_toString y) (pad_number 4 y))
  = true.
Proof. vm_compute. reflexivity. Qed.

Lemma months_shaped :
  all_from (Z.to_nat 12) 1
    (fun m => month_shape m (pad_number 2 m)
              && String.eqb (padStart 2 "0" (BigInt_toString m)) (pad_number 2 m)) = true.
Proof. vm_compute. reflexivity. Qed.

Lemma is_digit_bounds c : is_digit c = true -> 0 <= digit_of c <= 9.
Proof.
  unfold is_digit, digit_of. cbv zeta. intros H. apply andb_prop in H as [H1 H2].
  apply N.leb_le in H1, H2. lia.
Qed.

Lemma ascii_compare_digits a b :
  match Ascii.compare a b with
  | Eq => digit_of a = digit_of b
  | Lt => digit_of a < digit_of b
  | Gt => digit_of a > digit_of b
  end.
Proof.
  unfold Ascii.compare, digit_of.
  destruct (N.compare_spec (N_of_ascii a) (N_of_ascii b)) as [E|E|E]; lia.
Qed.

Lemma shaped_order y1 m1 y2 m2 s1 t1 s2 t2 :
  year_shape y1 s1 = true -> month_shape m1 t1 = true ->
  year_shape y2 s2 = true -> month_shape m2 t2 = true ->
  1 <= m1 <= 12 -> 1 <= m2 <= 12 ->
  (string_lt (s1 ++ "-" ++ t1) (s2 ++ "-" ++ t2) = true <-> 12 * y1 + m1 < 12 * y2 + m2).
Proof.
  intros Hy1 Hm1 Hy2 Hm2 Hr1 Hr2.
  destruct s1 as [|a1 [|b1 [|c1 [|d1 [|? ?]]]]]; try discriminate Hy1.
  destruct s2 as [|a2 [|b2 [|c2 [|d2 [|? ?]]]]]; try discriminate Hy2.
  destruct t1 as [|e1 [|f1 [|? ?]]]; try discriminate Hm1.
  destruct t2 as [|e2 [|f2 [|? ?]]]; try discriminate Hm2.
  cbn [year_shape month_shape] in *.
  repeat match goal with
         | H : _ && _ = true |- _ => apply andb_prop in H as [? ?]
         end.
  repeat match goal with
         | H : is_digit _ = true |- _ => apply is_digit_bounds in H
         | H : (_ =? _) = true |- _ => apply Z.eqb_eq in H
         end.
  subst y1 y2. subst m1 m2.
  unfold string_lt, String.ltb. cbn [append String.compare].
  pose proof (ascii_compare_digits a1 a2) as Ha.
  pose proof (ascii_compare_digits b1 b2) as Hb.
  pose proof (ascii_compare_digits c1 c2) as Hc.
  pose proof (ascii_compare_digits d1 d2) as Hd.
  pose proof (ascii_compare_digits e1 e2) as He.
  pose proof (ascii_compare_digits f1 f2) as Hf.
  change (Ascii.compare "-" "-") with Eq.
  destruct (Ascii.compare a1 a2); [|split; [lia|reflexivity]|split; [discriminate|lia]].
  destruct (Ascii.compare b1 b2); [|split; [lia|reflexivity]|split; [discriminate|lia]].
  destruct (Ascii.compare c1 c2); [|split; [lia|reflexivity]|split; [discriminate|lia]].
  destruct (Ascii.compare d1 d2); [|split; [lia|reflexivity]|split; [discriminate|lia]].
  destruct (Ascii.compare e1 e2); [|split; [lia|reflexivity]|split; [discriminate|lia]].
  destruct (Ascii.compare f1 f2); [|split; [lia|reflexivity]|split; [discriminate|lia]].
  split; [discriminate|lia].
Qed.

Lemma slice_to_7_date s t u :
  String.length s = 4%nat -> String.length t = 2%nat ->
  slice_to 7 (s ++ String "-" (t ++ String "-" u)) = (s ++ String "-" t)%string.
Proof.
  intros Hs Ht.
  destruct s as [|a [|b [|c [|d [|? ?]]]]]; try discriminate Hs.
  destruct t as [|e [|f [|? ?]]]; try discriminate Ht.
  reflexivity.
Qed.

Lemma year_shape_length y s : year_shape y s = true -> String.length s = 4%nat.
Proof. destruct s as [|a [|b [|c [|d [|? ?]]]]]; try discriminate. reflexivity. Qed.

Lemma month_shape_length m s : month_shape m s = true -> String.length s = 2%nat.
Proof. destruct s as [|a [|b [|? ?]]]; try discriminate. reflexivity. Qed.

(** Property X20.  The script tells a past month by comparing month keys as
    strings.  For a transfer dated in the month [m] of the year [y] (a date
    of ten characters) and a wall clock in the month [cm] of a year [cy] of
    four digits, the month key of the transfer is below the current month
    key exactly when the month of the transfer is an earlier month. *)
Theorem past_month_test_is_chronological ms iso cy cm :
  toISODate ms = Some iso ->
  String.length iso = 10%nat ->
  1000 <= cy <= 9999 ->
  1 <= cm <= 12 ->
  let '(y, m, _) := civil_from_days (ms / 86400000) in
  string_lt (ImportTxs.monthKeyFromISO iso) (currentMonthKey_of cy cm) = true
  <-> 12 * y + m < 12 * cy + cm.
Proof.
  unfold toISODate. destruct (Z.abs ms <=? 8640000000000000); [|discriminate].
  pose proof (civil_month (ms / 86400000)) as Hm.
  destruct (civil_from_days (ms / 86400000)) as [[y m] d]. cbn [fst snd] in Hm.
  intros [= <-] Hlen Hcy Hcm.
  assert (Hr : 1 <= m <= 12).
  { rewrite Hm. apply months_in_range. apply Z.mod_pos_bound. lia. }
  pose proof (all_from_spec _ _ _ months_shaped m ltac:(lia)) as Hms.
  apply andb_prop in Hms as [Hms _].
  pose proof (all_from_spec _ _ _ months_shaped cm ltac:(lia)) as Hcms.
  apply andb_prop in Hcms as [Hcms Hcme]. apply String.eqb_eq in Hcme.
  pose proof (all_from_spec _ _ _ years_shaped cy ltac:(lia)) as Hcys.
  pose proof (all_from_spec _ _ _ years_unpadded cy ltac:(lia)) as Hcye.
  apply String.eqb_eq in Hcye.
  unfold iso_year in *.
  destruct ((0 <=? y) && (y <=? 9999)) eqn:Hy.
  - pose proof (all_from_spec _ _ _ years_shaped y ltac:(lia)) as Hys.
    unfold ImportTxs.monthKeyFromISO. cbv beta iota.
    rewrite (slice_to_7_date _ _ _ (year_shape_length _ _ Hys)
               (month_shape_length _ _ Hms)).
    unfold currentMonthKey_of. rewrite Hcye, Hcme.
    apply (shaped_order y m cy cm); assumption.
  - exfalso. cbn [append String.length] in Hlen. rewrite !length_append in Hlen.
    pose proof (length_pad_number 6 y). pose proof (length_pad_number 2 m).
    cbn [String.length] in Hlen. rewrite length_append in Hlen.
    cbn [String.length] in Hlen. lia.
Qed.

Lemma past_month_test_witness :
  string_lt (ImportTxs.monthKeyFromISO "2025-09-01") (currentMonthKey_of 2025 10) = true
  <-> 12 * 2025 + 9 < 12 * 2025 + 10.
Proof.
  apply (past_month_test_is_chronological 1756684800000 "2025-09-01" 2025 10).
  - vm_compute. reflexivity.
  - reflexivity.
  - lia.
  - lia.
Defined.

(* ================================================================== *)
(** * Closing a statement when the post action is refused               *)
(* ================================================================== *)

(** A ledger that refuses the post action of statements, with the error
    [e], and answers every other call. *)
Definition no_button_post (e : exn) : list request -> request -> option exn :=
  fun _ r =>
    match r with
    | ExecuteKw _ _ _ (StatementButtonPost _) => Some e
    | _ => None
    end.

Lemma map_posted_write id x (l : list statement) :
  map statement_posted (map (write_balance id x) l) = map statement_posted l.
Proof.
  rewrite map_map. apply map_ext. intros s. unfold write_balance.
  now destruct (statement_id s =? id).
Qed.

Definition posted_as_before (w w' : world) : Prop :=
  map statement_posted (statements (w_ledger w')) =
  map statement_posted (statements (w_ledger w)).

Lemma close_post_refused e statementId w :
  exists w',
    closeStatementIfNeeded (no_button_post e) statementId false w = (Ok tt, w') /\
    posted_as_before w w' /\
    match found_statement statementId (w_ledger w) with
    | None => w_ledger w' = w_ledger w /\ w_console w' = w_console w
    | Some st =>
        w_console w' = w_console w ++ [LogPostUnavailable statementId] /\
        statements (w_ledger w') =
        if closing_unset st
        then map (write_balance statementId
                    (closing_balance st (statement_lines statementId (w_ledger w))))
               (statements (w_ledger w))
        else statements (w_ledger w)
    end.
Proof.
  unfold closeStatementIfNeeded, sumStatementLineAmounts, found_statement, posted_as_before.
  unfold ImportTxs.callRPC. unfold bind at 1.
  rewrite (callRPC_answered (no_button_post e) (StatementRead statementId) w eq_refl).
  cbn [serve fst snd].
  destruct (filter _ (statements (w_ledger w))) as [|st rest] eqn:E.
  - eexists. split; [reflexivity|]. cbn. split; [reflexivity|]. split; reflexivity.
  - unfold closing_unset.
    destruct (isNaN (number_or_nan (balance_end_real st))) eqn:Hnan.
    + cbn [bind ret throw try_catch console Odoo.callRPC no_button_post record_request
           serve fst snd w_client w_ledger w_trace w_console].
      eexists. split; [reflexivity|]. cbn [w_ledger w_console with_statements statements].
      split; [apply map_posted_write|]. split; reflexivity.
    + cbn [bind ret throw try_catch console Odoo.callRPC no_button_post record_request
           serve fst snd w_client w_ledger w_trace w_console].
      eexists. split; [reflexivity|]. cbn [w_ledger w_console].
      split; [reflexivity|]. split; reflexivity.
Qed.

Lemma sweep_post_refused e journal cur w :
  exists w',
    closeAllPastMonthlyStatements (no_button_post e) journal cur false w = (Ok tt, w') /\
    posted_as_before w w'.
Proof.
  unfold closeAllPastMonthlyStatements, ImportTxs.callRPC, bind.
  rewrite (callRPC_answered (no_button_post e) (StatementSearchReadJournal journal) w eq_refl).
  cbn [serve fst snd].
  set (w0 := mk_world _ _ _ _).
  assert (H0 : posted_as_before w w0) by reflexivity.
  revert H0. generalize w0. clear w0.
  induction (take 10000 _) as [|st sts IH]; intros w0 H0.
  - exists w0. split; [reflexivity|exact H0].
  - cbn [for_each]. unfold bind.
    assert (Hstep : exists w1,
              match feed_month (statement_name st) with
              | Some stMonth =>
                  if string_lt stMonth cur
                  then closeStatementIfNeeded (no_button_post e) (statement_id st) false
                  else ret tt
              | None => ret tt
              end w0 = (Ok tt, w1) /\ posted_as_before w0 w1).
    { destruct (feed_month (statement_name st)) as [m|];
        [destruct (string_lt m cur)|].
      - destruct (close_post_refused e (statement_id st) w0) as (w1 & E & P & _).
        now exists w1.
      - exists w0. split; reflexivity.
      - exists w0. split; reflexivity. }
    destruct Hstep as (w1 & E & P). rewrite E.
    apply IH. unfold posted_as_before in *. congruence.
Qed.

(** Property X21.  The close procedure swallows a refusal of the post
    action, and only that.  On a ledger that refuses the post action it
    returns normally: the closing balance is still written when it was
    unset, no statement becomes posted, and the refusal is reported on the
    console; the final sweep over the past statements then returns normally
    too.  A failure of the first read, in contrast, is raised to the
    caller. *)
Theorem closeStatementIfNeeded_swallows_post_refusal e statementId w :
  (exists w',
     closeStatementIfNeeded (no_button_post e) statementId false w = (Ok tt, w') /\
     posted_as_before w w' /\
     match found_statement statementId (w_ledger w) with
     | None => w_ledger w' = w_ledger w /\ w_console w' = w_console w
     | Some st =>
         w_console w' = w_console w ++ [LogPostUnavailable statementId] /\
         statements (w_ledger w') =
         if closing_unset st
         then map (write_balance statementId
                     (closing_balance st (statement_lines statementId (w_ledger w))))
                (statements (w_ledger w))
         else statements (w_ledger w)
     end) /\
  (forall journal cur,
     exists w',
       closeAllPastMonthlyStatements (no_button_post e) journal cur false w = (Ok tt, w') /\
       posted_as_before w w') /\
  (forall faulty dry,
     rejects faulty (StatementRead statementId) e w ->
     closeStatementIfNeeded faulty statementId dry w =
     (Throw e, after_failure (StatementRead statementId) w)).
Proof.
  split; [apply close_post_refused|]. split.
  - intros journal cur. apply sweep_post_refused.
  - intros faulty dry He. unfold closeStatementIfNeeded, ImportTxs.callRPC, bind at 1.
    now rewrite (callRPC_rejected _ _ _ _ He).
Qed.

Lemma closeStatementIfNeeded_read_failure_witness :
  closeStatementIfNeeded unreachable 3 false (logged_in empty_ledger) =
  (Throw (mk_exn Error "HTTP error! status: 502"),
   after_failure (StatementRead 3) (logged_in empty_ledger)).
Proof.
  apply (proj2 (proj2 (closeStatementIfNeeded_swallows_post_refusal
                         (mk_exn Error "HTTP error! status: 502") 3
                         (logged_in empty_ledger)))).
  reflexivity.
Defined.

(* ================================================================== *)
(** * The partner of a new counterparty                                 *)
(* ================================================================== *)

Lemma identifierString_iban acc :
  acc <> EmptyString -> identifierString (mk_identifier "iban" (Some acc) None None) = acc.
Proof. destruct acc; [congruence|reflexivity]. Qed.

(** The partner the script files a new counterparty under. *)
Definition unknown_partner (l : ledger) : option Z :=
  first_id partner_id (partners_like "Unknown" l).

Lemma banks_named_other s k l id pid :
  k <> s ->
  banks_named s (with_banks 1 (banks l ++ [mk_bank id k pid]) l) = banks_named s l.
Proof.
  intros Hne. unfold banks_named. cbn [with_banks banks]. rewrite filter_app.
  cbn [filter acc_number]. destruct (String.eqb k s) eqn:E.
  - apply String.eqb_eq in E. contradiction.
  - apply app_nil_r.
Qed.

(** With a partner like "Unknown" at hand, a counterparty that has no bank
    account gets one, under that partner. *)
Lemma partner_bank_under_unknown iban receivable payable pid w :
  ready w ->
  account_key iban <> EmptyString ->
  banks_named (account_key iban) (w_ledger w) = [] ->
  unknown_partner (w_ledger w) = Some pid -> pid <> 0 ->
  exists w1,
    findOrCreatePartnerBank reliable 0 iban false receivable payable w
    = (Ok (next_id (w_ledger w)), w1) /\
    ready w1 /\
    w_ledger w1 =
    with_banks 1 (banks (w_ledger w)
                  ++ [mk_bank (next_id (w_ledger w)) (account_key iban) (Some pid)])
      (w_ledger w).
Proof.
  intros Hr Hk Hb Hp Hpid. pose proof Hr as [Hu Hd].
  unfold findOrCreatePartnerBank. cbv zeta.
  destruct (account_key iban) as [|c k] eqn:Ek; [congruence|]. cbn [truthy_string negb].
  rewrite <- Ek in *. unfold bind at 1.
  rewrite (findBankAccountByIdentifier_reliable _ w Hu).
  rewrite (identifierString_iban _ Hk), Hb. cbn [first_id no_id negb].
  set (w0 := record_request _ w). cbn [Z.eqb negb].
  unfold bind at 1. unfold findOrCreatePartnerByName.
  change (negb (truthy_string (trim "Unknown"))) with false. cbv iota.
  unfold bind at 1. rewrite (getPartnerIdByName_reliable "Unknown" w0 Hu).
  change (w_ledger w0) with (w_ledger w). fold (unknown_partner (w_ledger w)). rewrite Hp.
  cbn [no_id]. destruct (pid =? 0) eqn:E0; [apply Z.eqb_eq in E0; contradiction|].
  cbn [negb]. unfold ret at 1.
  set (wp := record_request _ w0).
  rewrite (createBankAccount_answered reliable (account_key iban) pid None wp Hr eq_refl).
  eexists. split; [reflexivity|]. split; [exact Hr|]. reflexivity.
Qed.

Lemma unknown_like : ilike "Unknown" "Unknown" = true.
Proof. vm_compute. reflexivity. Qed.

Lemma take_1_first {A} (id : A -> Z) (l : list A) : first_id id (take 1 l) = first_id id l.
Proof. destruct l; [reflexivity|]. now rewrite take_1_cons. Qed.

(** Property X22.  All the counterparties the import creates are filed
    under one partner.  In a real run against a ledger that answers, whose
    ids are not zero, two counterparties with different addresses and no
    bank account yet get one bank account each, and both accounts belong to
    the same partner: the first partner whose name contains "Unknown"
    (letter case ignored), which the first of them creates when there is
    none. *)
Theorem new_counterparties_share_one_partner iban1 iban2 receivable payable w :
  ready w ->
  0 < next_id (w_ledger w) ->
  Forall (fun p => partner_id p <> 0) (partners (w_ledger w)) ->
  account_key iban1 <> EmptyString ->
  account_key iban2 <> EmptyString ->
  account_key iban1 <> account_key iban2 ->
  banks_named (account_key iban1) (w_ledger w) = [] ->
  banks_named (account_key iban2) (w_ledger w) = [] ->
  exists b1 b2 pid w1 w2,
    findOrCreatePartnerBank reliable 0 iban1 false receivable payable w = (Ok b1, w1) /\
    findOrCreatePartnerBank reliable 0 iban2 false receivable payable w1 = (Ok b2, w2) /\
    banks (w_ledger w2) =
    banks (w_ledger w)
    ++ [mk_bank b1 (account_key iban1) (Some pid); mk_bank b2 (account_key iban2) (Some pid)] /\
    unknown_partner (w_ledger w2) = Some pid /\
    (forall pid', unknown_partner (w_ledger w) = Some pid' -> pid = pid' /\
                  partners (w_ledger w2) = partners (w_ledger w)).
Proof.
  intros Hr Hn Hall Hk1 Hk2 Hne Hb1 Hb2. pose proof Hr as [Hu Hd].
  assert (second : forall pid (w1 : world) b1,
            ready w1 -> pid <> 0 ->
            unknown_partner (w_ledger w1) = Some pid ->
            banks (w_ledger w1) = banks (w_ledger w) ++ [mk_bank b1 (account_key iban1) (Some pid)] ->
            banks_named (account_key iban2) (w_ledger w1) = [] ->
            exists b2 w2,
              findOrCreatePartnerBank reliable 0 iban2 false receivable payable w1 = (Ok b2, w2) /\
              banks (w_ledger w2) =
              banks (w_ledger w)
              ++ [mk_bank b1 (account_key iban1) (Some pid);
                  mk_bank b2 (account_key iban2) (Some pid)] /\
              unknown_partner (w_ledger w2) = Some pid /\
              partners (w_ledger w2) = partners (w_ledger w1)).
  { intros pid w1 b1 Hr1 Hpid Hp1 Hbanks Hnone.
    destruct (partner_bank_under_unknown iban2 receivable payable pid w1 Hr1 Hk2 Hnone Hp1 Hpid)
      as (w2 & E & _ & L).
    eexists. exists w2. split; [exact E|]. rewrite L. cbn [with_banks banks partners].
    rewrite Hbanks, <- app_assoc. split; [reflexivity|]. split; [exact Hp1|reflexivity]. }
  destruct (unknown_partner (w_ledger w)) as [pid|] eqn:Hp.
  - (* a partner like "Unknown" exists *)
    assert (Hpid : pid <> 0).
    { unfold unknown_partner, partners_like in Hp. rewrite take_1_first in Hp.
      destruct (filter _ (partners (w_ledger w))) as [|p rest] eqn:Ef; [discriminate|].
      injection Hp as <-. destruct (filter_first_in _ _ _ _ Ef) as [Hin _].
      rewrite Forall_forall in Hall. now apply Hall. }
    destruct (partner_bank_under_unknown iban1 receivable payable pid w Hr Hk1 Hb1 Hp Hpid)
      as (w1 & E1 & Hr1 & L1).
    destruct (second pid w1 (next_id (w_ledger w)) Hr1 Hpid) as (b2 & w2 & E2 & B2 & P2 & Q2).
    + now rewrite L1.
    + now rewrite L1.
    + rewrite L1. rewrite banks_named_other; [exact Hb2|exact Hne].
    + exists (next_id (w_ledger w)), b2, pid, w1, w2.
      split; [exact E1|]. split; [exact E2|]. split; [exact B2|]. split; [exact P2|].
      intros pid' [= <-]. split; [reflexivity|]. rewrite Q2, L1. reflexivity.
  - (* the first counterparty creates the partner *)
    set (pid := next_id (w_ledger w)).
    assert (Hfirst : exists w1,
              findOrCreatePartnerBank reliable 0 iban1 false receivable payable w
              = (Ok (pid + 1), w1) /\
              ready w1 /\
              banks (w_ledger w1) =
              banks (w_ledger w) ++ [mk_bank (pid + 1) (account_key iban1) (Some pid)] /\
              partners (w_ledger w1) =
              partners (w_ledger w)
              ++ [mk_partner pid "Unknown" (given_id receivable) (given_id payable)]).
    { unfold findOrCreatePartnerBank. cbv zeta.
      destruct (account_key iban1) as [|c k] eqn:Ek; [congruence|].
      cbn [truthy_string negb]. rewrite <- Ek in *. unfold bind at 1.
      rewrite (findBankAccountByIdentifier_reliable _ w Hu).
      rewrite (identifierString_iban _ Hk1), Hb1. cbn [first_id no_id negb].
      set (w0 := record_request _ w). cbn [Z.eqb negb].
      unfold bind at 1. unfold findOrCreatePartnerByName.
      change (negb (truthy_string (trim "Unknown"))) with false. cbv iota.
      unfold bind at 1. rewrite (getPartnerIdByName_reliable "Unknown" w0 Hu).
      change (w_ledger w0) with (w_ledger w). fold (unknown_partner (w_ledger w)).
      rewrite Hp. cbn [no_id negb].
      set (wp := record_request _ w0).
      rewrite (createPartner_answered reliable "Unknown" None receivable payable wp Hr eq_refl).
      cbv beta iota zeta. set (wc := mk_world _ _ _ _).
      change (next_id (w_ledger wp)) with pid.
      rewrite (createBankAccount_answered reliable (account_key iban1) pid None wc Hr eq_refl).
      eexists. split; [reflexivity|]. split; [exact Hr|]. split; reflexivity. }
    destruct Hfirst as (w1 & E1 & Hr1 & B1 & P1).
    assert (Hpid : pid <> 0) by (subst pid; lia).
    assert (Hp1 : unknown_partner (w_ledger w1) = Some pid).
    { unfold unknown_partner, partners_like in *. rewrite take_1_first in *.
      rewrite P1, filter_app. cbn [filter partner_name]. rewrite unknown_like.
      destruct (filter _ (partners (w_ledger w))); [reflexivity|discriminate Hp]. }
    destruct (second pid w1 (pid + 1) Hr1 Hpid Hp1 B1) as (b2 & w2 & E2 & B2 & P2 & Q2).
    + unfold banks_named in *. rewrite B1, filter_app, Hb2. cbn [filter acc_number app].
      destruct (String.eqb (account_key iban1) (account_key iban2)) eqn:E; [|reflexivity].
      apply String.eqb_eq in E. contradiction.
    + exists (pid + 1), b2, pid, w1, w2.
      split; [exact E1|]. split; [exact E2|]. split; [exact B2|]. split; [exact P2|].
      intros pid' [=].
Qed.

Lemma new_counterparties_witness :
  exists b1 b2 pid w1 w2,
    findOrCreatePartnerBank reliable 0 "0xf00" false (Some 7) (Some 8) (logged_in empty_ledger)
    = (Ok b1, w1) /\
    findOrCreatePartnerBank reliable 0 "0xbar" false (Some 7) (Some 8) w1 = (Ok b2, w2) /\
    banks (w_ledger w2) = [mk_bank b1 "0XF00" (Some pid); mk_bank b2 "0XBAR" (Some pid)].
Proof.
  destruct (new_counterparties_share_one_partner "0xf00" "0xbar" (Some 7) (Some 8)
              (logged_in empty_ledger))
    as (b1 & b2 & pid & w1 & w2 & E1 & E2 & B & _).
  - split; reflexivity.
  - reflexivity.
  - apply Forall_nil.
  - discriminate.
  - discriminate.
  - discriminate.
  - reflexivity.
  - reflexivity.
  - exists b1, b2, pid, w1, w2. split; [exact E1|]. split; [exact E2|exact B].
Defined.

(* ================================================================== *)
(** * src/lib/etherscan.ts: all the token transfers of an address       *)
(* ================================================================== *)

Module EtherscanAll.
Import Etherscan.

(** An entry of [tokenConfigs]. *)
Record TokenConfig : Type := mk_token_config {
  tc_address : string;
  tc_startBlock : option Z;
  tc_endBlock : option Z
}.

(** [config.startBlock || startBlock]: an absent block, and block [0], give
    way to the block of the caller. *)
Definition block_or (own fallback : option Z) : option Z :=
  match own with
  | Some z => if z =? 0 then fallback else Some z
  | None => fallback
  end.

Definition offset : Z := 10000.

Section Network.

Variable network : query -> fetch_outcome.
Variable client : EtherscanClient.

(** The [while (true)] loop over the pages, from [page] on, [allTransfers]
    holding the transfers pushed so far.  [fuel] bounds the number of
    turns: [None] is a loop that has not ended within that bound. *)
Fixpoint token_transfer_pages (fuel : nat) (address : string)
    (contractAddress : option string) (startBlock endBlock : option Z) (page : Z)
    (allTransfers : list EtherscanTokenTransfer)
  : option (result (list EtherscanTokenTransfer)) :=
  match fuel with
  | O => None
  | S fuel' =>
      match getTokenTransfers network client address contractAddress startBlock endBlock
              page offset with
      | Throw e => Some (Throw e)
      | Ok transfers =>
          match transfers with
          | [] => Some (Ok allTransfers)
          | _ :: _ =>
              let allTransfers := allTransfers ++ transfers in
              if Z.of_nat (List.length transfers) <? offset then Some (Ok allTransfers)
              else token_transfer_pages fuel' address contractAddress startBlock endBlock
                     (page + 1) allTransfers
          end
      end
  end.

(** The loop over [Object.entries(tokenConfigs)], in the order of the
    entries. *)
Fixpoint token_config_transfers (fuel : nat) (address : string)
    (tokenConfigs : list (string * TokenConfig)) (startBlock endBlock : option Z)
    (allTransfers : list EtherscanTokenTransfer)
  : option (result (list EtherscanTokenTransfer)) :=
  match tokenConfigs with
  | [] => Some (Ok allTransfers)
  | (tokenName, config) :: rest =>
      let tokenStartBlock := block_or (tc_startBlock config) startBlock in
      let tokenEndBlock := block_or (tc_endBlock config) endBlock in
      match token_transfer_pages fuel address (Some (tc_address config))
              tokenStartBlock tokenEndBlock 1 allTransfers with
      | Some (Ok allTransfers) =>
          token_config_transfers fuel address rest startBlock endBlock allTransfers
      | other => other
      end
  end.

(** [EtherscanClient.getAllTokenTransfers(address, tokenConfigs?, startBlock?,
    endBlock?)]. *)
Definition getAllTokenTransfers (fuel : nat) (address : string)
    (tokenConfigs : option (list (string * TokenConfig)))
    (startBlock endBlock : option Z)
  : option (result (list EtherscanTokenTransfer)) :=
  match tokenConfigs with
  | Some configs => token_config_transfers fuel address configs startBlock endBlock []
  | None => token_transfer_pages fuel address None startBlock endBlock 1 []
  end.

End Network.

End EtherscanAll.

Section Pages.

Variable network : Etherscan.query -> Etherscan.fetch_outcome.
Variable client : Etherscan.EtherscanClient.
Variable address : string.
Variable contractAddress : option string.
Variable startBlock endBlock : option Z.

(** What the explorer gives for the page [k]. *)
Definition page_of (k : Z) : result (list Etherscan.EtherscanTokenTransfer) :=
  Etherscan.getTokenTransfers network client address contractAddress startBlock endBlock
    k EtherscanAll.offset.

Definition full_page (items : list Etherscan.EtherscanTokenTransfer) : Prop :=
  EtherscanAll.offset <= Z.of_nat (List.length items).

Lemma full_page_step items :
  full_page items ->
  exists t rest, items = t :: rest /\
    (Z.of_nat (List.length items) <? EtherscanAll.offset) = false.
Proof.
  unfold full_page, EtherscanAll.offset. intros H.
  destruct items as [|t rest]; [cbn in H; lia|].
  exists t, rest. split; [reflexivity|]. apply Z.ltb_ge. exact H.
Qed.

Lemma flat_map_seq_shift {A} (full : nat -> list A) n : forall a,
  flat_map full (seq (S a) n) = flat_map (fun i => full (S i)) (seq a n).
Proof.
  induction n as [|n IH]; intros a; cbn [seq flat_map]; [reflexivity|].
  now rewrite IH.
Qed.

Lemma pages_collected (full : nat -> list Etherscan.EtherscanTokenTransfer) n :
  forall fuel page acc,
  (forall i, (i < n)%nat ->
     page_of (page + Z.of_nat i) = Ok (full i) /\ full_page (full i)) ->
  (n < fuel)%nat ->
  EtherscanAll.token_transfer_pages network client fuel address contractAddress
    startBlock endBlock page acc =
  let fetched := acc ++ flat_map full (seq 0 n) in
  match page_of (page + Z.of_nat n) with
  | Throw e => Some (Throw e)
  | Ok [] => Some (Ok fetched)
  | Ok last =>
      if Z.of_nat (List.length last) <? EtherscanAll.offset
      then Some (Ok (fetched ++ last))
      else EtherscanAll.token_transfer_pages network client (fuel - S n) address
             contractAddress startBlock endBlock (page + Z.of_nat n + 1) (fetched ++ last)
  end.
Proof.
  revert full. induction n as [|n IH]; intros full fuel page acc Hfull Hfuel.
  - destruct fuel as [|fuel]; [lia|]. cbn [EtherscanAll.token_transfer_pages].
    fold (page_of page). replace (page + Z.of_nat 0) with page by lia.
    cbv zeta. cbn [seq flat_map]. rewrite app_nil_r.
    replace (S fuel - 1)%nat with fuel by lia.
    destruct (page_of page) as [[|t rest]|e]; reflexivity.
  - destruct fuel as [|fuel]; [lia|]. cbn [EtherscanAll.token_transfer_pages].
    fold (page_of page).
    destruct (Hfull 0%nat ltac:(lia)) as [E0 F0].
    replace (page + Z.of_nat 0) with page in E0 by lia. rewrite E0.
    destruct (full_page_step _ F0) as (t & rest & Et & Elt). rewrite Elt, Et. rewrite <- Et.
    rewrite (IH (fun i => full (S i)) fuel (page + 1) (acc ++ full 0%nat)).
    + cbv zeta.
      replace (page + 1 + Z.of_nat n) with (page + Z.of_nat (S n)) by lia.
      replace (fuel - S n)%nat with (S fuel - S (S n))%nat by lia.
      replace ((acc ++ full 0%nat) ++ flat_map (fun i => full (S i)) (seq 0 n))
        with (acc ++ flat_map full (seq 0 (S n))); [reflexivity|].
      cbn [seq flat_map]. rewrite flat_map_seq_shift. now rewrite <- app_assoc.
    + intros i Hi. replace (page + 1 + Z.of_nat i) with (page + Z.of_nat (S i)) by lia.
      apply Hfull. lia.
    + lia.
Qed.

End Pages.

(** Property X23.  Full pages are fetched one after the other, and the
    first page that is not full ends the loop.  If the pages [1] to [n] are
    full (they hold at least 10000 transfers) and the page after them is
    not, the result is the transfers of the full pages followed by those of
    that page, in their order; if the page after them fails, the call fails
    with that error and the transfers fetched so far are lost.  This needs
    a bound of more than [n] turns on the loop. *)
Theorem getAllTokenTransfers_collects_pages network client address startBlock endBlock
    (full : nat -> list Etherscan.EtherscanTokenTransfer) (n fuel : nat) :
  (forall i, (i < n)%nat ->
     page_of network client address None startBlock endBlock (1 + Z.of_nat i) = Ok (full i) /\
     full_page (full i)) ->
  match page_of network client address None startBlock endBlock (1 + Z.of_nat n) with
  | Ok last => Z.of_nat (List.length last) < EtherscanAll.offset
  | Throw _ => True
  end ->
  (n < fuel)%nat ->
  EtherscanAll.getAllTokenTransfers network client fuel address None startBlock endBlock =
  match page_of network client address None startBlock endBlock (1 + Z.of_nat n) with
  | Ok last => Some (Ok (flat_map full (seq 0 n) ++ last))
  | Throw e => Some (Throw e)
  end.
Proof.
  intros Hfull Hlast Hfuel. unfold EtherscanAll.getAllTokenTransfers.
  rewrite (pages_collected network client address None startBlock endBlock full n fuel 1 []
             Hfull Hfuel).
  cbv zeta. destruct (page_of _ _ _ _ _ _ _) as [[|t rest]|e]; cbn [app].
  - now rewrite app_nil_r.
  - apply Z.ltb_lt in Hlast. now rewrite Hlast.
  - reflexivity.
Qed.

Definition one_transfer : Etherscan.EtherscanTokenTransfer :=
  transfer "0xabc" "3" "0xf00" "0xbar" "1500000000000000000" "1756684800" "18".

Lemma getAllTokenTransfers_collects_witness :
  EtherscanAll.getAllTokenTransfers
    (answering (Etherscan.mk_data (Etherscan.VString "1") (Etherscan.VString "OK")
                  (Etherscan.VArray [one_transfer])))
    gnosis_client 1 "0x6fDF" None None None
  = Some (Ok [one_transfer]).
Proof.
  apply (getAllTokenTransfers_collects_pages
           (answering (Etherscan.mk_data (Etherscan.VString "1") (Etherscan.VString "OK")
                         (Etherscan.VArray [one_transfer])))
           gnosis_client "0x6fDF" None None (fun _ => []) 0 1).
  - intros i Hi. lia.
  - vm_compute. reflexivity.
  - lia.
Defined.

(** Property X24.  While the explorer keeps answering with full pages the
    loop does not end: whatever the bound on its turns, no result is
    reached. *)
Theorem getAllTokenTransfers_needs_a_short_page network client address startBlock endBlock :
  (forall k, 1 <= k ->
     exists items,
       page_of network client address None startBlock endBlock k = Ok items /\
       full_page items) ->
  forall fuel,
    EtherscanAll.getAllTokenTransfers network client fuel address None startBlock endBlock
    = None.
Proof.
  intros Hfull fuel. unfold EtherscanAll.getAllTokenTransfers.
  generalize (@nil Etherscan.EtherscanTokenTransfer) as acc.
  assert (H1 : 1 <= 1) by lia. revert H1. generalize 1 at 2 3 as page.
  induction fuel as [|fuel IH]; intros page Hpage acc; [reflexivity|].
  cbn [EtherscanAll.token_transfer_pages].
  destruct (Hfull page Hpage) as (items & E & F). unfold page_of in E. rewrite E.
  destruct (full_page_step _ F) as (t & rest & Et & Elt). rewrite Elt, Et.
  apply IH. lia.
Qed.

(** The explorer answers every query with the same full page. *)
Definition always_full : Etherscan.query -> Etherscan.fetch_outcome :=
  answering (Etherscan.mk_data (Etherscan.VString "1") (Etherscan.VString "OK")
               (Etherscan.VArray (List.repeat one_transfer (Z.to_nat EtherscanAll.offset)))).

Lemma getAllTokenTransfers_needs_a_short_page_witness :
  EtherscanAll.getAllTokenTransfers always_full gnosis_client 5 "0x6fDF" None None None = None.
Proof.
  apply (getAllTokenTransfers_needs_a_short_page always_full gnosis_client "0x6fDF" None None).
  intros k Hk. exists (List.repeat one_transfer (Z.to_nat EtherscanAll.offset)).
  split; [reflexivity|].
  unfold full_page. rewrite repeat_length. rewrite Z2Nat.id; unfold EtherscanAll.offset; lia.
Defined.

(** The transfers of one configured token, fetched on their own. *)
Definition transfers_of_token network client (fuel : nat) (address : string)
    (startBlock endBlock : option Z) (entry : string * EtherscanAll.TokenConfig)
  : option (result (list Etherscan.EtherscanTokenTransfer)) :=
  EtherscanAll.token_transfer_pages network client fuel address
    (Some (EtherscanAll.tc_address (snd entry)))
    (EtherscanAll.block_or (EtherscanAll.tc_startBlock (snd entry)) startBlock)
    (EtherscanAll.block_or (EtherscanAll.tc_endBlock (snd entry)) endBlock) 1 [].

Lemma token_transfer_pages_acc network client address contractAddress startBlock endBlock fuel :
  forall page acc,
  EtherscanAll.token_transfer_pages network client fuel address contractAddress
    startBlock endBlock page acc =
  match EtherscanAll.token_transfer_pages network client fuel address contractAddress
          startBlock endBlock page [] with
  | Some (Ok l) => Some (Ok (acc ++ l))
  | other => other
  end.
Proof.
  induction fuel as [|fuel IH]; intros page acc; cbn [EtherscanAll.token_transfer_pages].
  - reflexivity.
  - destruct (Etherscan.getTokenTransfers _ _ _ _ _ _ _ _) as [[|t rest]|e].
    + now rewrite app_nil_r.
    + cbn [app]. destruct (_ <? _).
      * reflexivity.
      * rewrite (IH (page + 1) (acc ++ t :: rest)), (IH (page + 1) (t :: rest)).
        destruct (EtherscanAll.token_transfer_pages _ _ _ _ _ _ _ _ _) as [[l|e]|];
          [|reflexivity|reflexivity].
        now rewrite <- app_assoc.
    + reflexivity.
Qed.

Lemma token_config_transfers_done network client fuel address startBlock endBlock :
  forall configs results acc,
  Forall2 (fun entry items =>
             transfers_of_token network client fuel address startBlock endBlock entry
             = Some (Ok items)) configs results ->
  forall rest,
  EtherscanAll.token_config_transfers network client fuel address (configs ++ rest)
    startBlock endBlock acc =
  EtherscanAll.token_config_transfers network client fuel address rest
    startBlock endBlock (acc ++ List.concat results).
Proof.
  induction configs as [|[name config] configs IH]; intros results acc H rest.
  - inversion H; subst. cbn. now rewrite app_nil_r.
  - inversion H as [|? items ? results' Hhead Htail]; subst.
    cbn [app EtherscanAll.token_config_transfers]. rewrite token_transfer_pages_acc.
    unfold transfers_of_token in Hhead. cbn [snd] in Hhead. rewrite Hhead.
    rewrite (IH results' (acc ++ items) Htail rest). cbn [List.concat].
    now rewrite <- app_assoc.
Qed.

(** Property X25.  With token configurations the tokens are fetched one
    after the other, in the order of the entries, each with its own blocks
    or else those of the call.  When every token's fetch succeeds the
    result is their transfers, token after token; the first token whose
    fetch fails makes the whole call fail with its error, whatever tokens
    come after it. *)
Theorem getAllTokenTransfers_token_by_token network client fuel address startBlock endBlock
    configs results :
  Forall2 (fun entry items =>
             transfers_of_token network client fuel address startBlock endBlock entry
             = Some (Ok items)) configs results ->
  EtherscanAll.getAllTokenTransfers network client fuel address (Some configs)
    startBlock endBlock = Some (Ok (List.concat results)) /\
  (forall entry e rest,
     transfers_of_token network client fuel address startBlock endBlock entry
     = Some (Throw e) ->
     EtherscanAll.getAllTokenTransfers network client fuel address
       (Some (configs ++ entry :: rest)) startBlock endBlock = Some (Throw e)).
Proof.
  intros H. unfold EtherscanAll.getAllTokenTransfers. split.
  - rewrite <- (app_nil_r configs).
    rewrite (token_config_transfers_done _ _ _ _ _ _ configs results [] H []).
    reflexivity.
  - intros [name config] e rest He.
    rewrite (token_config_transfers_done _ _ _ _ _ _ configs results [] H).
    cbn [EtherscanAll.token_config_transfers app]. rewrite token_transfer_pages_acc.
    unfold transfers_of_token in He. cbn [snd] in He. now rewrite He.
Qed.

Definition short_page : Etherscan.query -> Etherscan.fetch_outcome :=
  answering (Etherscan.mk_data (Etherscan.VString "1") (Etherscan.VString "OK")
               (Etherscan.VArray [one_transfer])).

Lemma getAllTokenTransfers_token_by_token_witness :
  EtherscanAll.getAllTokenTransfers short_page gnosis_client 1 "0x6fDF"
    (Some [("EURe"%string, EtherscanAll.mk_token_config "0x420C" (Some 0) None);
           ("GNO"%string, EtherscanAll.mk_token_config "0x9C58" None None)])
    (Some 35656892) None
  = Some (Ok [one_transfer; one_transfer]).
Proof.
  apply (proj1 (getAllTokenTransfers_token_by_token short_page gnosis_client 1 "0x6fDF"
                  (Some 35656892) None
                  [("EURe"%string, EtherscanAll.mk_token_config "0x420C" (Some 0) None);
                   ("GNO"%string, EtherscanAll.mk_token_config "0x9C58" None None)]
                  [[one_transfer]; [one_transfer]]
                  (Forall2_cons _ _ eq_refl (Forall2_cons _ _ eq_refl (Forall2_nil _))))).
Defined.

(* ================================================================== *)
(** * src/lib/odoo.ts: the search domain of getLatestInvoices           *)
(* ================================================================== *)

Module Invoices.

(** [dateStr.substring(a, b)] for [0 <= a <= b]. *)
Definition substring (a b : nat) (s : string) : string :=
  slice_to (b - a) (slice_from a s).

(** The local helper [parseDate]: [YYYYMMDD] becomes [YYYY-MM-DD], any
    other text is returned as it is. *)
Definition parseDate (dateStr : string) : string :=
  if Nat.eqb (String.length dateStr) 8 && all_chars is_digit dateStr
  then (substring 0 4 dateStr ++ "-" ++ substring 4 6 dateStr ++ "-"
        ++ substring 6 8 dateStr)%string
  else dateStr.

(** The [switch (direction)]; a value other than the two named ones takes
    the [default] branch. *)
Definition moveTypes (direction : string) : list string :=
  if String.eqb direction "incoming" then ["in_invoice"; "in_refund"]%string
  else if String.eqb direction "outgoing" then ["out_invoice"; "out_refund"]%string
  else ["out_invoice"; "in_invoice"; "out_refund"; "in_refund"]%string.

(** A term of the search domain. *)
Inductive domain_term : Type :=
| MoveTypeIn (types : list string)
| DateGe (date : string)
| DateLe (date : string).

(** The domain sent with the search: the date bounds are added for the
    bounds that are given and not empty. *)
Definition invoice_domain (direction : string) (since until : option string)
  : list domain_term :=
  [MoveTypeIn (moveTypes direction)]
  ++ match since with
     | Some s => if truthy_string s then [DateGe (parseDate s)] else []
     | None => []
     end
  ++ match until with
     | Some u => if truthy_string u then [DateLe (parseDate u)] else []
     | None => []
     end.

End Invoices.

Lemma parseDate_compact s :
  String.length s = 8%nat -> all_chars is_digit s = true ->
  String.length (Invoices.parseDate s) = 10%nat.
Proof.
  intros Hlen Hd. unfold Invoices.parseDate. rewrite Hlen, Hd. cbn [Nat.eqb andb].
  destruct s as [|a [|b [|c [|d [|e [|f [|g [|h [|? ?]]]]]]]]]; try discriminate Hlen.
  reflexivity.
Qed.

Lemma parseDate_truthy s : truthy_string (Invoices.parseDate s) = truthy_string s.
Proof.
  unfold Invoices.parseDate.
  destruct (Nat.eqb (String.length s) 8 && all_chars is_digit s) eqn:E; [|reflexivity].
  apply andb_prop in E as [E _]. apply Nat.eqb_eq in E.
  destruct s as [|a [|b [|c [|d r]]]]; try discriminate E. reflexivity.
Qed.

Lemma parseDate_again s : Invoices.parseDate (Invoices.parseDate s) = Invoices.parseDate s.
Proof.
  destruct (Nat.eqb (String.length s) 8 && all_chars is_digit s) eqn:E.
  - apply andb_prop in E as [El Ed]. apply Nat.eqb_eq in El.
    pose proof (parseDate_compact s El Ed) as H10.
    unfold Invoices.parseDate at 1. now rewrite H10.
  - unfold Invoices.parseDate at 2. now rewrite E.
Qed.

(** Property X26.  The date bounds of the invoice search may be written
    [YYYYMMDD] or [YYYY-MM-DD]: the helper turns eight digits into the
    dashed form, of ten characters, and leaves every other text alone, so
    that it changes nothing when applied again, and a bound in either
    spelling gives the same search domain. *)
Theorem invoice_dates_in_either_spelling direction since until :
  Invoices.invoice_domain direction (option_map Invoices.parseDate since)
    (option_map Invoices.parseDate until)
  = Invoices.invoice_domain direction since until /\
  (forall s, Invoices.parseDate (Invoices.parseDate s) = Invoices.parseDate s) /\
  (forall s, Nat.eqb (String.length s) 8 && all_chars is_digit s = false ->
     Invoices.parseDate s = s) /\
  (forall s, String.length s = 8%nat -> all_chars is_digit s = true ->
     Invoices.parseDate s =
     (slice_to 4 s ++ "-" ++ slice_to 2 (slice_from 4 s) ++ "-" ++ slice_from 6 s)%string /\
     String.length (Invoices.parseDate s) = 10%nat).
Proof.
  split; [|split; [|split]].
  - unfold Invoices.invoice_domain.
    destruct since as [s|], until as [u|]; cbn [option_map];
      rewrite ?parseDate_truthy, ?parseDate_again; reflexivity.
  - exact parseDate_again.
  - intros s Hs. unfold Invoices.parseDate. now rewrite Hs.
  - intros s Hlen Hd. split; [|exact (parseDate_compact s Hlen Hd)].
    unfold Invoices.parseDate. rewrite Hlen, Hd. cbn [Nat.eqb andb].
    destruct s as [|a [|b [|c [|d [|e [|f [|g [|h [|? ?]]]]]]]]]; try discriminate Hlen.
    reflexivity.
Qed.

Lemma invoice_dates_witness :
  Invoices.parseDate "20250901" = "2025-09-01"%string /\
  String.length (Invoices.parseDate "20250901") = 10%nat.
Proof.
  apply (proj2 (proj2 (proj2 (invoice_dates_in_either_spelling "all" None None)))
           "20250901"%string);
    reflexivity.
Defined.

(* ================================================================== *)
(** * src/lib/etherscan.ts: all the normal transactions of an address   *)
(* ================================================================== *)

Module EtherscanTx.

(** [EtherscanTransaction]: every field is a string of the API's JSON. *)
Record EtherscanTransaction : Type := mk_transaction {
  blockNumber : string;
  timeStamp : string;
  hash : string;
  nonce : string;
  blockHash : string;
  transactionIndex : string;
  from : string;
  to : string;
  value : string;
  gas : string;
  gasPrice : string;
  isError : string;
  txreceipt_status : string;
  input : string;
  contractAddress : string;
  cumulativeGasUsed : string;
  gasUsed : string;
  confirmations : string;
  methodId : string;
  functionName : string
}.

Definition offset : Z := 10000.

(** [limit && allTransactions.length >= limit]: no limit, and the limit
    [0], never stop the loop. *)
Definition limit_reached (limit : option Z) (allTransactions : list EtherscanTransaction)
  : bool :=
  match limit with
  | Some n => negb (n =? 0) && (n <=? Z.of_nat (List.length allTransactions))
  | None => false
  end.

(** [allTransactions.slice(0, limit)]; a negative [limit] counts from the
    end. *)
Definition slice_0 (limit : Z) (allTransactions : list EtherscanTransaction)
  : list EtherscanTransaction :=
  if 0 <=? limit then firstn (Z.to_nat limit) allTransactions
  else firstn (List.length allTransactions - Z.to_nat (- limit)) allTransactions.

Section Pages.

(** [this.getTransactions(address, startBlock, endBlock, page, offset)] for
    the address and the blocks of the call, as a function of the page and
    the offset. *)
Variable getTransactions : Z -> Z -> result (list EtherscanTransaction).

(** The [while (true)] loop, from [page] on; [fuel] bounds the number of
    turns, [None] is a loop that has not ended within that bound. *)
Fixpoint transaction_pages (fuel : nat) (limit : option Z) (page : Z)
    (allTransactions : list EtherscanTransaction)
  : option (result (list EtherscanTransaction)) :=
  match fuel with
  | O => None
  | S fuel' =>
      match getTransactions page offset with
      | Throw e => Some (Throw e)
      | Ok transactions =>
          match transactions with
          | [] => Some (Ok allTransactions)
          | _ :: _ =>
              let allTransactions := allTransactions ++ transactions in
              if limit_reached limit allTransactions
              then Some (Ok (match limit with
                             | Some n => slice_0 n allTransactions
                             | None => allTransactions
                             end))
              else if Z.of_nat (List.length transactions) <? offset
                   then Some (Ok allTransactions)
                   else transaction_pages fuel' limit (page + 1) allTransactions
          end
      end
  end.

(** [EtherscanClient.getAllTransactions(address, startBlock?, endBlock?,
    limit?)]. *)
Definition getAllTransactions (fuel : nat) (limit : option Z)
  : option (result (list EtherscanTransaction)) :=
  transaction_pages fuel limit 1 [].

End Pages.

End EtherscanTx.

Lemma transaction_pages_within_limit getTransactions limit fuel :
  0 < limit ->
  forall page acc l,
  Z.of_nat (List.length acc) < limit ->
  EtherscanTx.transaction_pages getTransactions fuel (Some limit) page acc = Some (Ok l) ->
  Z.of_nat (List.length l) <= limit.
Proof.
  intros Hl. induction fuel as [|fuel IH]; intros page acc l Hacc; [discriminate|].
  cbn [EtherscanTx.transaction_pages].
  destruct (getTransactions page EtherscanTx.offset) as [[|t ts]|e]; [| |discriminate].
  - intros [= <-]. lia.
  - cbv zeta. unfold EtherscanTx.limit_reached.
    destruct (limit =? 0) eqn:E0; [apply Z.eqb_eq in E0; lia|]. cbn [negb andb].
    destruct (limit <=? Z.of_nat (List.length (acc ++ t :: ts))) eqn:Er.
    + intros [= <-]. unfold EtherscanTx.slice_0.
      destruct (0 <=? limit) eqn:Ep; [|apply Z.leb_gt in Ep; lia].
      rewrite length_firstn. lia.
    + apply Z.leb_gt in Er.
      destruct (_ <? _).
      * intros [= <-]. lia.
      * intros H. now apply (IH (page + 1) (acc ++ t :: ts) l Er).
Qed.

(** Property X27.  With a positive limit [getAllTransactions] never returns
    more than [limit] transactions, however many pages it fetched; and when
    the first page already holds that many, it returns the first [limit]
    transactions of that page after this one request.  The limit [0] is no
    limit: the call then behaves as without one. *)
Theorem getAllTransactions_respects_limit getTransactions limit :
  0 < limit ->
  (forall fuel l,
     EtherscanTx.getAllTransactions getTransactions fuel (Some limit) = Some (Ok l) ->
     Z.of_nat (List.length l) <= limit) /\
  (forall fuel first,
     getTransactions 1 EtherscanTx.offset = Ok first ->
     limit <= Z.of_nat (List.length first) ->
     EtherscanTx.getAllTransactions getTransactions (S fuel) (Some limit)
     = Some (Ok (firstn (Z.to_nat limit) first))) /\
  (forall fuel,
     EtherscanTx.getAllTransactions getTransactions fuel (Some 0)
     = EtherscanTx.getAllTransactions getTransactions fuel None).
Proof.
  intros Hl. split; [|split].
  - intros fuel l H. unfold EtherscanTx.getAllTransactions in H.
    apply (transaction_pages_within_limit getTransactions limit fuel Hl 1 [] l); [|exact H].
    cbn. lia.
  - intros fuel first E Hlen. unfold EtherscanTx.getAllTransactions.
    cbn [EtherscanTx.transaction_pages]. rewrite E.
    destruct first as [|t ts]; [cbn in Hlen; lia|].
    cbv zeta. cbn [app]. unfold EtherscanTx.limit_reached.
    destruct (limit =? 0) eqn:E0; [apply Z.eqb_eq in E0; lia|]. cbn [negb andb].
    apply Z.leb_le in Hlen. rewrite Hlen. unfold EtherscanTx.slice_0.
    destruct (0 <=? limit) eqn:Ep; [reflexivity|apply Z.leb_gt in Ep; lia].
  - intros fuel. unfold EtherscanTx.getAllTransactions.
    generalize (@nil EtherscanTx.EtherscanTransaction) as acc. generalize 1 as page.
    induction fuel as [|fuel IH]; intros page acc; [reflexivity|].
    cbn [EtherscanTx.transaction_pages].
    destruct (getTransactions page EtherscanTx.offset) as [[|t ts]|e]; try reflexivity.
    cbv zeta. cbn [EtherscanTx.limit_reached Z.eqb negb andb].
    destruct (_ <? _); [reflexivity|apply IH].
Qed.

Definition one_transaction : EtherscanTx.EtherscanTransaction :=
  EtherscanTx.mk_transaction "36000000" "1756684800" "0xabc" "12" "0xb10c" "3" "0xf00"
    "0xbar" "1500000000000000000" "21000" "1000000000" "0" "1" "0x" EmptyString "21000"
    "21000" "100" "0x" EmptyString.

Lemma getAllTransactions_limit_witness :
  EtherscanTx.getAllTransactions
    (fun _ _ => Ok [one_transaction; one_transaction; one_transaction]) 1 (Some 2)
  = Some (Ok [one_transaction; one_transaction]).
Proof.
  apply (proj1 (proj2 (getAllTransactions_respects_limit
                         (fun _ _ => Ok [one_transaction; one_transaction; one_transaction])
                         2 eq_refl))
           0%nat [one_transaction; one_transaction; one_transaction]).
  - reflexivity.
  - cbn. lia.
Defined.
